(* ===== verification/_CoqProject ===== *)
-Q . S2P
Prelude.v
Float64.v
RustStr.v
IpAddr.v
Effects.v
Script.v
Config.v
Policy.v
Upstream.v
Routing.v
Users.v
Auth.v
Metrics.v
Socks5.v
Interop.v
RateLimit.v
Http.v
Tokens.v
Server.v
Forward.v
Admin.v
Guard.v
Pool.v
Cli.v
System.v
Accounts.v
Segments.v
