(* ===== verification/Prelude.v ===== *)
(** * rust-socksd: a verification library (root file)

    rust-socksd is a SOCKS5 and HTTP proxy server. Two listeners accept clients; each
    client is held against the ingress rules and the rate limiter, waits for one of
    [max_connections] permits, logs in if authentication is enabled, names a target, and
    is connected to it, directly or through an upstream proxy, unless the blocked domains
    or the egress rules forbid it. An admin API shows metrics and the configuration and
    reloads the configuration file, behind bearer tokens. The command line starts the
    server, checks files and edits the user file.

    ** Method

    The definitions follow src/src/ function by function. Pure functions are Rocq
    functions. An [async fn] is a tree of events ([prog], Effects.v): each call to code
    outside the repository (Tokio streams, the resolver, files, environment variables,
    clocks, the hashing, LDAP, PAM and SQL libraries, the terminal) is an event that the
    environment answers, and each access to the state the tasks share is an atomic event
    [Locked], which says whether it takes a guard of the state's lock. Errors are values of [result], with the messages of the code. Bytes and
    strings are lists of bytes; integers are [Z] with the casts and wrap-arounds of their
    width written out; [f64] is the Standard Library's binary64.

    Programs run in three ways: against a handler ([run]), which gives a result, a state
    and the trace of the events; over every environment ([wp], [emits], [guarded],
    [yields]), which is how "never before" and "at most" are proved; and with other tasks
    between any two events ([safe], and the transition system of Pool.v). Script.v has a
    concrete environment (streams with segments, files, a resolver) for the witnesses.

    ** Files

    - Prelude, Float64, RustStr, IpAddr: bytes, machine integers, [result] and its
      notations; [f64]; what the program uses of [str] (UTF-8, trimming, splitting, case,
      integer parsing) and of [IpAddr] and [SocketAddr] (parsing and display).
    - Effects, Script: programs, their runs and logics; the scripted environment.
    - Config (config.rs): the configuration, [validate], the bind addresses, load and save.
    - Policy (upstream.rs, 18-189): CIDR matching, client and egress rules, blocked
      domains, exclusions and NO_PROXY.
    - Upstream, Routing (upstream.rs, 191-611): proxy URLs, the choice of an upstream, both
      client handshakes, [connect_to_target]; Routing holds the theorems on the choice.
    - Users (config/user_config.rs, auth/utils.rs): user tables, hashing and verification.
    - Auth (auth/): the [Authenticator] trait as a record of one operation, its four
      backends, and [create_authenticator]. What a backend's acceptance proves is one
      predicate, which the protocols above it use without looking at the backend.
    - Metrics (metrics.rs): five atomic counters, behind the class [HasMetrics].
    - Socks5 (socks5.rs), Interop: the server side of SOCKS5; the two SOCKS5 sides of the
      program against each other.
    - RateLimit (ratelimit.rs): token buckets per address.
    - Http (http_proxy.rs), Forward: requests, authentication, tunnels and forwarding; the
      texts that are written and read back.
    - Tokens (admin.rs, 23-62), Admin (admin.rs): the token store; the endpoints.
    - Server (server.rs, 20-76, 140-165, 331-451): the server's state, admission, and a
      whole connection of either kind.
    - Guard (admin.rs, 399-404): which events take and give back the write guard of the
      state; a program that has it only writes to its client until it gives it back.
    - Pool (server.rs, 80-328; admin.rs, 95-118): the accept loops, permits, tasks and
      timeouts as a transition system whose steps are single events of single tasks; a
      read of the state waits while a reload holds the write guard.
    - Cli (main.rs, start of server.rs), System, Accounts: the command line; a server from
      its start on; the user commands through the file.
    - Segments: equivalence of worlds up to how TCP cuts the bytes.

    ** Theorems

    - Who may do what: no dial and no name resolution before a login
      (Server.no_dial_before_login, Socks5.handshake_gate), what a login proves for each
      backend (Auth.authenticators_evidence, Auth.ldap_filter_safe), nothing privileged
      and no token without its credentials (Admin.admin_gate, login_gate).
    - Where a client can get: at most one address is dialled, a checked one
      (Upstream.egress_safety, Server.connection_egress); the rules are what they should
      be (Policy); a client can still lie about the name (Interop.long_host_smuggles).
    - The running server: permits and the gauge are exact, and a waiting client can be
      served by the server's own steps unless a reload holds the lock (Pool); starting is
      fail-closed (Cli.startup_spec), every step keeps what is good of the state
      (Admin.reload_safe), and so the configuration in force is at all times the one of
      the start or a validated one, and goes with the listeners and the authenticator
      (System.running_config_good). The configuration of the start need not be valid as a
      whole: the overrides of the command line are not validated.
    - Refinement: the user table, and the user file edited over the command line, are the
      accounts of their history (Users, Accounts); the way of a target is that of a
      relation written apart from the code (Routing.resolve_upstream_spec).
    - Formats: SOCKS5 requests and the whole dialogue, proxy URLs, forwarded requests,
      error responses (round trips); the bytes that are lost (Forward.pipelined_bytes_lost);
      independence of segmentation (Segments.socks5_segmentation).
    - Numbers: burst and refill in floating point, token lifetimes and their overflow,
      request sizes, prefix lengths.

    ** Fuel

    Only the loops that read header lines have fuel: a line that is read takes at least
    one byte of a finite limit, so fuel above the limit is never used up
    (Http.request_bounded, Admin.admin_request_bounded), and the loop over the answer of
    an HTTP upstream, which has no limit in the code, ends on finite input
    (Routing.http_handshake_terminates). The programs give the first two loops the fuel
    that suffices; the theorems about whole connections hold for every fuel of the third.

    ** Assumptions

    Code outside the repository is a parameter: serde_yaml and serde_json, base64, the
    Unicode case tables beyond ASCII, the password hash checks, the iteration order of
    hash maps. A theorem that needs a law of it names the law (hashing gives a hash that
    verifies, YAML reads back what it prints, [read_exact] fills its buffer, the clock is
    monotonic), and its witness instantiates the parameter.

    ** Not modelled

    - clap's parsing of the arguments (Cli starts from its result), the log messages, and
      the inside of the logging layers.
    - [select!] over the tasks at the end of [start]: it only ends the server when an
      accept loop does, and the accept loops do not end.
    - Panics inside a connection task: tokio ends the task; the permit is then given back
      without the decrement of the gauge. Allocation failure and the panic of
      [Semaphore::new] above its maximum are not modelled either.
    - [run_http_server] repeats [run_socks5_server] with the other handler: both are
      [accept_step], at the two values of [listener].
    - The lock of the state is fair in Tokio: a reload that waits for it makes later reads
      wait too. Read guards are dropped at once in the code, so such a wait is short; in
      the model a read waits only for a reload that has the lock.
    - Tests, and lib.rs, which only declares modules. *)

From Stdlib Require Export Ascii String ZArith Lia.
From stdpp Require Export prelude gmap strings list.

(** ** Bytes and literals *)

(** A Rust [Vec<u8>], [&[u8]], [String] or [&str] is its sequence of bytes; a
    [String] is moreover valid UTF-8 (RustStr.utf8_valid). *)
Abbreviation bytes := (list ascii).

Definition bstr (s : string) : bytes := String.list_ascii_of_string s.

Coercion bstr : string >-> list.

(** Literals that contain double quotes are written with a back-quote in their
    place; [q] puts the double quotes back. *)
Definition q (s : bytes) : bytes :=
  (λ c, if bool_decide (c = "096"%char) then "034"%char else c) <$> s.

Definition crlf : bytes := ["013"%char; "010"%char].
Definition lf : ascii := "010"%char.

(** ** Machine integers *)

Local Open Scope Z_scope.

(** The value of a byte, and the truncating cast [z as u8]. *)
Definition u8 (c : ascii) : Z := Z.of_N (N_of_ascii c).
Definition as_u8 (z : Z) : ascii := ascii_of_N (Z.to_N (z mod 256)).

Definition U8_MAX : Z := 255.
Definition U16_MAX : Z := 65535.
Definition U32_MAX : Z := 4294967295.
Definition U64_MAX : Z := 18446744073709551615.
Definition U128_MAX : Z := 340282366920938463463374607431768211455.

(** [uN::from_be_bytes] and [u16::to_be_bytes]. *)
Definition from_be (bs : bytes) : Z := foldl (λ acc c, acc * 256 + u8 c) 0 bs.
Definition u16_be (z : Z) : bytes := [as_u8 (z / 256); as_u8 z].

(** [buf[i]] of a buffer that was just filled. *)
Definition byte_at (i : nat) (buf : bytes) : Z := u8 (nth i buf "000"%char).

(** [vec![z1, z2, ...]] of bytes. *)
Definition u8s (zs : list Z) : bytes := as_u8 <$> zs.

(** [s.len() as u8]: longer texts lose the high bits of their length. *)
Definition len_u8 (s : bytes) : ascii := as_u8 (Z.of_nat (length s)).

Lemma u8_range c : 0 ≤ u8 c < 256.
Proof. destruct c as [[] [] [] [] [] [] [] []]; vm_compute; intuition congruence. Qed.

Lemma as_u8_u8 c : as_u8 (u8 c) = c.
Proof. by destruct c as [[] [] [] [] [] [] [] []]. Qed.

Lemma u8_as_u8 z : u8 (as_u8 z) = z mod 256.
Proof.
  unfold u8, as_u8. pose proof (Z.mod_pos_bound z 256 ltac:(lia)).
  rewrite N_ascii_embedding by lia. lia.
Qed.

Lemma u8_as_u8_small z : 0 ≤ z < 256 → u8 (as_u8 z) = z.
Proof. intros ?. rewrite u8_as_u8. by apply Z.mod_small. Qed.

Lemma u8_inj c d : u8 c = u8 d → c = d.
Proof. intros H. by rewrite <- (as_u8_u8 c), <- (as_u8_u8 d), H. Qed.

Lemma foldl_be_acc acc bs :
  foldl (λ acc c, acc * 256 + u8 c) acc bs = acc * 256 ^ Z.of_nat (length bs) + from_be bs.
Proof.
  unfold from_be. revert acc. induction bs as [|c bs IH]; intros acc; cbn [foldl length].
  - cbn. lia.
  - rewrite IH, (IH (0 * 256 + u8 c)). rewrite Nat2Z.inj_succ, Z.pow_succ_r by lia. lia.
Qed.

Lemma from_be_cons c bs :
  from_be (c :: bs) = u8 c * 256 ^ Z.of_nat (length bs) + from_be bs.
Proof. unfold from_be at 1. cbn [foldl]. rewrite foldl_be_acc. lia. Qed.

Lemma from_be_range bs : 0 ≤ from_be bs < 256 ^ Z.of_nat (length bs).
Proof.
  induction bs as [|c bs IH]; [done|].
  rewrite from_be_cons. cbn [length]. rewrite Nat2Z.inj_succ, Z.pow_succ_r by lia.
  pose proof (u8_range c). nia.
Qed.

Lemma from_be_inj bs bs' : length bs = length bs' → from_be bs = from_be bs' → bs = bs'.
Proof.
  revert bs'. induction bs as [|c bs IH]; intros [|c' bs'] Hl; try done.
  rewrite !from_be_cons. injection Hl as Hl. rewrite <- Hl. intros He.
  pose proof (from_be_range bs). pose proof (from_be_range bs') as Hr. rewrite <- Hl in Hr.
  pose proof (u8_range c). pose proof (u8_range c').
  assert (u8 c = u8 c') as Hc by nia.
  f_equal; [by apply u8_inj|]. apply IH; [done|]. rewrite Hc in He. lia.
Qed.

Lemma from_be_u16_be z : 0 ≤ z ≤ U16_MAX → from_be (u16_be z) = z.
Proof.
  unfold U16_MAX, u16_be. intros Hz. unfold from_be. cbn [foldl].
  rewrite !u8_as_u8. rewrite (Z.mod_small (z / 256)).
  - pose proof (Z.div_mod z 256). lia.
  - split; [apply Z.div_pos; lia | apply Z.div_lt_upper_bound; lia].
Qed.

(** ** Results *)

(** [anyhow::Result]: an error is carried by the message it displays, because the
    callers of this program inspect that text ([e.to_string().contains(...)]). *)
Inductive result (A : Type) : Type :=
  | Ok (a : A)
  | Err (e : bytes).
Arguments Ok {A} a.
Arguments Err {A} e.

#[export] Instance result_eq_dec {A} `{!EqDecision A} : EqDecision (result A).
Proof. solve_decision. Defined.

Definition is_ok {A} (r : result A) : bool := match r with Ok _ => true | Err _ => false end.

Definition res_bind {A B} (r : result A) (f : A → result B) : result B :=
  match r with Ok a => f a | Err e => Err e end.

(** [.map_err(|_| e)] on an option-valued parse, followed by [?]. *)
Definition ok_or {A} (o : option A) (e : bytes) : result A :=
  match o with Some a => Ok a | None => Err e end.

Declare Scope rust_scope.
Delimit Scope rust_scope with rust.

(** [let? x := r in k]: the [?] operator on a pure result. *)
Notation "'let?' x ':=' r 'in' k" := (res_bind r (λ x, k))
  (at level 10, x name, r at level 100, k at level 200) : rust_scope.

(** [ensure c e k]: [if !c { return Err(e) } k]. *)
Definition ensure {B} (c : bool) (e : bytes) (k : result B) : result B :=
  if c then k else Err e.

Lemma res_bind_ok {A B} (r : result A) (f : A → result B) b :
  res_bind r f = Ok b ↔ ∃ a, r = Ok a ∧ f a = Ok b.
Proof.
  destruct r as [x|x]; cbn.
  - split; [eauto | by intros (? & [= <-] & ?)].
  - split; [done | by intros (? & ? & ?)].
Qed.

Lemma ensure_ok {B} c e (k : result B) b : ensure c e k = Ok b ↔ c = true ∧ k = Ok b.
Proof. destruct c; cbn; intuition congruence. Qed.

Lemma ok_or_ok {A} (o : option A) e a : ok_or o e = Ok a ↔ o = Some a.
Proof. destruct o; cbn; split; congruence. Qed.

Lemma is_ok_true {A} (r : result A) : is_ok r = true ↔ ∃ a, r = Ok a.
Proof. destruct r; cbn; split; eauto; try done. by intros [? ?]. Qed.

(** ** Lists *)

Lemma take_app_exact {A} (l k : list A) n : n = length l → take n (l ++ k) = l.
Proof. intros ->. by rewrite take_app_length. Qed.

Lemma drop_app_exact {A} (l k : list A) n : n = length l → drop n (l ++ k) = k.
Proof. intros ->. by rewrite drop_app_length. Qed.

Lemma drop_sep {A} (l k : list A) x n : n = length l → drop (S n) (l ++ x :: k) = k.
Proof. intros ->. rewrite cons_middle, app_assoc. apply drop_app_exact. rewrite length_app. cbn. lia. Qed.

Lemma existsb_bool_decide {A} (P : A → bool) (l : list A) :
  existsb P l = true ↔ Exists (λ x, P x = true) l.
Proof.
  rewrite existsb_exists, Exists_exists.
  by setoid_rewrite <- list_elem_of_In.
Qed.

Lemma existsb_false_Forall {A} (P : A → bool) (l : list A) :
  existsb P l = false ↔ Forall (λ x, P x = false) l.
Proof.
  induction l as [|x l IH]; cbn; [by split|].
  rewrite orb_false_iff, IH, Forall_cons. done.
Qed.

(** ** Hash maps *)

(** A Rust [HashMap<String, A>] is a finite map; iterating over it visits the entries
    in an order the language leaves open. *)
Class HashOrder := {
  hm_iter {A : Type} (m : gmap bytes A) : list (bytes * A);
  hm_iter_perm {A : Type} (m : gmap bytes A) : hm_iter m ≡ₚ map_to_list m;
}.

Lemma hm_iter_elem `{HashOrder} {A} (m : gmap bytes A) k x :
  (k, x) ∈ hm_iter m ↔ m !! k = Some x.
Proof. rewrite hm_iter_perm. apply elem_of_map_to_list. Qed.

(** One such order, for concrete inputs. *)
Definition map_order : HashOrder :=
  {| hm_iter A m := map_to_list m; hm_iter_perm A m := reflexivity _ |}.

(** ** Automation *)

Create HintDb rust.
Create Rewrite HintDb rust.
#[export] Hint Resolve u8_range from_be_range : rust.
#[export] Hint Rewrite @length_app @length_cons @length_take @length_drop : rust.
#[export] Hint Rewrite as_u8_u8 u8_as_u8 : rust.

(** Split every [if]/[match] on a boolean or a result standing in the goal. *)
Ltac case_res :=
  repeat match goal with
  | |- context [match ?r with Ok _ => _ | Err _ => _ end] => destruct r eqn:?
  | H : context [match ?r with Ok _ => _ | Err _ => _ end] |- _ => destruct r eqn:?
  end.

(** Turn boolean tests among the hypotheses into propositions. *)
Ltac bool_props :=
  repeat match goal with
  | H : _ && _ = true |- _ => apply andb_true_iff in H as [? ?]
  | H : _ || _ = false |- _ => apply orb_false_iff in H as [? ?]
  | H : negb _ = true |- _ => apply negb_true_iff in H
  | H : negb _ = false |- _ => apply negb_false_iff in H
  | H : (_ =? _) = true |- _ => apply Z.eqb_eq in H
  | H : (_ =? _) = false |- _ => apply Z.eqb_neq in H
  | H : (_ <=? _) = true |- _ => apply Z.leb_le in H
  | H : (_ <=? _) = false |- _ => apply Z.leb_gt in H
  | H : (_ <? _) = true |- _ => apply Z.ltb_lt in H
  | H : (_ <? _) = false |- _ => apply Z.ltb_ge in H
  | H : bool_decide _ = true |- _ => apply bool_decide_eq_true in H
  | H : bool_decide _ = false |- _ => apply bool_decide_eq_false in H
  end.

(** Closed decidable propositions, by evaluation. *)
Ltac decide_closed := apply (bool_decide_unpack _); vm_compute; exact I.
