(* ===== verification/Float64.v ===== *)
(** * [f64]

    Rust's [f64] is IEEE 754 binary64; its operations are those of the Standard
    Library's executable specification of floating point, which rounds to nearest, ties
    to even. Integers of up to 52 bits are represented exactly, and adding zero to them,
    subtracting one from them and comparing them are exact. *)

From S2P Require Import Prelude.
From Stdlib Require Export SpecFloat.

Local Open Scope Z_scope.

(** ** Operations *)

Abbreviation f64 := spec_float.

Definition f64_add : f64 → f64 → f64 := SFadd 53 1024.
Definition f64_sub : f64 → f64 → f64 := SFsub 53 1024.
Definition f64_mul : f64 → f64 → f64 := SFmul 53 1024.
Definition f64_div : f64 → f64 → f64 := SFdiv 53 1024.

(** [z as f64]: to the nearest, ties to even. *)
Definition f64_of_Z (z : Z) : f64 := binary_normalize 53 1024 z 0 false.

Definition f64_is_nan (x : f64) : bool := match x with S754_nan => true | _ => false end.

(** [f64::min]: the other argument when one is not a number. *)
Definition f64_min (x y : f64) : f64 :=
  match SFcompare x y with
  | Some Gt => y
  | Some _ => x
  | None => if f64_is_nan x then y else x
  end.

(** [x >= y] *)
Definition f64_ge (x y : f64) : bool :=
  match SFcompare x y with Some Gt | Some Eq => true | _ => false end.

Definition f64_one : f64 := f64_of_Z 1.

(** ** The minimum *)

Lemma f64_compare_refl x : f64_is_nan x = false → SFcompare x x = Some Eq.
Proof.
  destruct x as [[]|[]| |[] m e]; try done; intros _; cbn; rewrite Z.compare_refl;
    change (Pos.compare_cont Eq m m) with (Pos.compare m m); by rewrite Pos.compare_refl.
Qed.

(** The minimum with a number is never more than that number, whatever the other
    argument. *)
Lemma f64_min_le x y : f64_is_nan y = false → SFleb (f64_min x y) y = true.
Proof.
  intros Hy. pose proof (f64_compare_refl y Hy) as Hyy.
  unfold f64_min, SFleb. destruct (SFcompare x y) as [[]|] eqn:Hc; rewrite ?Hc, ?Hyy; try done.
  destruct (f64_is_nan x) eqn:Hx; [by rewrite Hyy|].
  by destruct x as [[]|[]| |[] m e], y as [[]|[]| |[] m' e'].
Qed.

(** ** Digits and shifts *)

Lemma digits2_log2 p : Z.pos (digits2_pos p) = Z.log2 (Z.pos p) + 1.
Proof.
  induction p as [p IH|p IH|]; cbn [digits2_pos]; [| |done];
    rewrite Pos2Z.inj_succ, IH.
  - rewrite Pos2Z.inj_xI, Z.log2_succ_double by lia. lia.
  - rewrite Pos2Z.inj_xO, Z.log2_double by lia. lia.
Qed.

Lemma iter_xO p k : Z.pos (Pos.iter xO p k) = Z.pos p * 2 ^ Z.pos k.
Proof.
  revert p. induction k as [|k IH] using Pos.peano_ind; intros p; [cbn; lia|].
  rewrite Pos.iter_succ, Pos2Z.inj_xO, IH, Pos2Z.inj_succ, Z.pow_succ_r by lia. lia.
Qed.

Lemma shr_1_even m : 0 < m →
  shr_1 {| shr_m := m * 2; shr_r := false; shr_s := false |}
  = {| shr_m := m; shr_r := false; shr_s := false |}.
Proof.
  intros Hm. destruct m as [|p|p]; try lia. change (Z.pos p * 2) with (Z.pos (p * 2)).
  by rewrite Pos.mul_comm.
Qed.

(** Shifting out zero bits loses nothing. *)
Lemma iter_shr_exact n m : 0 < m →
  iter_pos shr_1 n {| shr_m := m * 2 ^ Z.pos n; shr_r := false; shr_s := false |}
  = {| shr_m := m; shr_r := false; shr_s := false |}.
Proof.
  revert m. induction n as [n IH|n IH|]; intros m Hm; cbn [iter_pos]; [| |by apply shr_1_even].
  - assert (m * 2 ^ Z.pos n~1 = ((m * 2 ^ Z.pos n) * 2 ^ Z.pos n) * 2) as ->.
    { replace (Z.pos n~1) with (Z.pos n + Z.pos n + 1) by lia. rewrite !Z.pow_add_r by lia. lia. }
    rewrite shr_1_even by nia. rewrite IH by nia. by apply IH.
  - assert (m * 2 ^ Z.pos n~0 = (m * 2 ^ Z.pos n) * 2 ^ Z.pos n) as ->.
    { replace (Z.pos n~0) with (Z.pos n + Z.pos n) by lia. rewrite Z.pow_add_r by lia. lia. }
    rewrite IH by nia. by apply IH.
Qed.

(** ** Exact rounding *)

(** The significand of [n] aligned to 53 bits. *)
Definition aligned (n : Z) : Z := n * 2 ^ (52 - Z.log2 n).

(** The float [n * 2 ^ k], for [n] of at most 53 bits. *)
Definition exact_float (n k : Z) : f64 :=
  S754_finite false (Z.to_pos (aligned n)) (Z.log2 n + k - 52).

Lemma aligned_log2 n : 0 < n → Z.log2 n ≤ 52 → Z.log2 (aligned n) = 52.
Proof.
  intros Hn Hl. unfold aligned. pose proof (Z.log2_nonneg n).
  rewrite Z.log2_mul_pow2 by lia. lia.
Qed.

Lemma aligned_pos n : 0 < n → Z.log2 n ≤ 52 → 0 < aligned n.
Proof. intros Hn Hl. unfold aligned. pose proof (Z.pow_pos_nonneg 2 (52 - Z.log2 n)). nia. Qed.

Lemma round_aux_aligned m e :
  0 < m → Z.log2 m = 52 → -1074 ≤ e ≤ 971 →
  binary_round_aux 53 1024 false m e loc_Exact = S754_finite false (Z.to_pos m) e.
Proof.
  intros Hm Hl He. destruct m as [|p|p]; try lia.
  assert (fexp 53 1024 (Zdigits2 (Z.pos p) + e) - e = 0) as Hf.
  { cbn [Zdigits2]. rewrite digits2_log2, Hl. unfold fexp, emin. lia. }
  unfold binary_round_aux, shr_fexp. cbn [shr_record_of_loc]. rewrite Hf.
  cbn [shr shr_m loc_of_shr_record round_nearest_even shr_record_of_loc].
  rewrite Hf. cbn [shr shr_m].
  assert ((e <=? 1024 - 53) = true) as -> by lia. done.
Qed.

(** Rounding a significand of at most 53 bits followed by zero bits is exact. *)
Lemma binary_round_exact p n j e :
  Z.pos p = n * 2 ^ j → 0 < n → Z.log2 n ≤ 52 → 0 ≤ j → -1000 ≤ e → e + j ≤ 900 →
  binary_round 53 1024 false p e = exact_float n (e + j).
Proof.
  intros Hp Hn Hl Hj He Hej. pose proof (Z.log2_nonneg n) as Hl0.
  assert (Z.log2 (Z.pos p) = Z.log2 n + j) as Hlp by (rewrite Hp, Z.log2_mul_pow2 by lia; lia).
  unfold binary_round, shl_align. rewrite digits2_log2, Hlp.
  assert (fexp 53 1024 (Z.log2 n + j + 1 + e) = Z.log2 n + j + e - 52) as -> by (unfold fexp, emin; lia).
  unfold exact_float.
  destruct (Z.log2 n + j + e - 52 - e) as [|k|k] eqn:Hk.
  - assert (aligned n = Z.pos p) as Ha by (unfold aligned; rewrite Hp; do 2 f_equal; lia).
    rewrite round_aux_aligned by lia. rewrite Ha. f_equal. lia.
  - assert (Z.pos p = aligned n * 2 ^ Z.pos k) as Ha.
    { unfold aligned. rewrite Hp, <- Z.mul_assoc, <- Z.pow_add_r by lia. do 2 f_equal. lia. }
    assert (fexp 53 1024 (Zdigits2 (Z.pos p) + e) - e = Z.pos k) as Hf.
    { cbn [Zdigits2]. rewrite digits2_log2, Hlp. unfold fexp, emin. lia. }
    unfold binary_round_aux, shr_fexp. cbn [shr_record_of_loc]. rewrite Hf. cbn [shr].
    rewrite Ha, iter_shr_exact by (by apply aligned_pos).
    cbn [shr_m loc_of_shr_record round_nearest_even].
    pose proof (aligned_log2 n Hn Hl) as Hal. pose proof (aligned_pos n Hn Hl) as Hap.
    destruct (aligned n) as [|a|a]; try lia.
    assert (fexp 53 1024 (Zdigits2 (Z.pos a) + (e + Z.pos k)) - (e + Z.pos k) = 0) as ->.
    { cbn [Zdigits2]. rewrite digits2_log2, Hal. unfold fexp, emin. lia. }
    cbn [shr shr_m shr_record_of_loc].
    assert ((e + Z.pos k <=? 1024 - 53) = true) as -> by lia. cbn [Z.to_pos]. f_equal. lia.
  - rewrite round_aux_aligned; rewrite ?iter_xO; [|lia| |lia].
    + f_equal; [|lia]. f_equal. rewrite Hp. unfold aligned. rewrite <- Z.mul_assoc, <- Z.pow_add_r by lia.
      do 2 f_equal. lia.
    + rewrite Z.log2_mul_pow2, Hlp by lia. lia.
Qed.

(** ** Integers *)

(** The float of an integer of at most 53 bits. *)
Definition int_float (n : Z) : f64 := if n =? 0 then S754_zero false else exact_float n 0.

Definition small (n : Z) : Prop := 0 ≤ n < 2 ^ 53.

Lemma small_log2 n : 0 < n → small n → Z.log2 n ≤ 52.
Proof. intros Hn [_ Hs]. apply Z.log2_lt_pow2 in Hs; lia. Qed.

Lemma int_float_pos n : 0 < n → int_float n = exact_float n 0.
Proof. intros Hn. unfold int_float. by destruct (Z.eqb_spec n 0); [lia|]. Qed.

Lemma f64_of_Z_small n : small n → f64_of_Z n = int_float n.
Proof.
  intros Hs. destruct (Z.eqb_spec n 0) as [->|Hn]; [done|].
  assert (0 < n) as Hp by (destruct Hs; lia). rewrite int_float_pos by done.
  destruct n as [|p|p]; try lia. unfold f64_of_Z, binary_normalize.
  rewrite (binary_round_exact p (Z.pos p) 0 0); try lia; [done | by apply small_log2].
Qed.

Lemma f64_one_exact : f64_one = S754_finite false (Z.to_pos (2 ^ 52)) (-52).
Proof. reflexivity. Qed.

Lemma f64_add_zero n : f64_add (int_float n) (S754_zero false) = int_float n.
Proof. unfold int_float. by destruct (n =? 0). Qed.

Lemma f64_sub_one n : 0 < n → small n → f64_sub (int_float n) f64_one = int_float (n - 1).
Proof.
  intros Hn Hs. pose proof (small_log2 n Hn Hs) as Hl. pose proof (Z.log2_nonneg n) as Hl0.
  rewrite int_float_pos, f64_one_exact by done. unfold exact_float, f64_sub. cbn [SFsub].
  assert (Z.min (Z.log2 n + 0 - 52) (-52) = -52) as -> by lia.
  assert (Z.pos (shl_align (Z.to_pos (aligned n)) (Z.log2 n + 0 - 52) (-52)).1 = n * 2 ^ 52) as Hx.
  { unfold shl_align. pose proof (aligned_pos n Hn Hl).
    destruct (-52 - (Z.log2 n + 0 - 52)) as [|k|k] eqn:Hk; try lia; cbn [fst].
    - rewrite Z2Pos.id by done. unfold aligned. do 2 f_equal. lia.
    - rewrite iter_xO, Z2Pos.id by done. unfold aligned. rewrite <- Z.mul_assoc, <- Z.pow_add_r by lia.
      do 2 f_equal. lia. }
  cbn [cond_Zopp]. rewrite Hx.
  assert (Z.pos (shl_align (Z.to_pos (2 ^ 52)) (-52) (-52)).1 = 2 ^ 52) as -> by reflexivity.
  destruct (Z.eqb_spec n 1) as [->|Hn1]; [done|].
  assert (n * 2 ^ 52 - 2 ^ 52 = (n - 1) * 2 ^ 52) as -> by lia.
  destruct ((n - 1) * 2 ^ 52) as [|p|p] eqn:Hp; try lia.
  cbn [binary_normalize]. rewrite (binary_round_exact p (n - 1) 52 (-52)); try lia.
  - rewrite int_float_pos by lia. done.
  - apply small_log2; [lia|]. destruct Hs. split; lia.
Qed.

Lemma f64_compare_int a b :
  small a → small b → SFcompare (int_float a) (int_float b) = Some (Z.compare a b).
Proof.
  intros [Ha0 Ha] [Hb0 Hb]. unfold int_float.
  destruct (Z.eqb_spec a 0) as [->|Han], (Z.eqb_spec b 0) as [->|Hbn]; [done| | |].
  - by destruct b as [|b|b]; [lia| |lia].
  - by destruct a as [|a|a]; [lia| |lia].
  - assert (Z.log2 a ≤ 52) as La by (apply small_log2; [lia|done]).
    assert (Z.log2 b ≤ 52) as Lb by (apply small_log2; [lia|done]).
    unfold exact_float. cbn [SFcompare]. f_equal.
    destruct (Z.compare_spec (Z.log2 a + 0 - 52) (Z.log2 b + 0 - 52)) as [He|He|He].
    + assert (0 < aligned a ∧ 0 < aligned b) as [Pa Pb] by (split; apply aligned_pos; lia).
      change (Pos.compare_cont Eq ?x ?y) with (Pos.compare x y).
      rewrite Pos2Z.inj_compare, !Z2Pos.id by done.
      unfold aligned. assert (Z.log2 b = Z.log2 a) as -> by lia.
      rewrite <- Zmult_compare_compat_r; [done|].
      apply Z.lt_gt, Z.pow_pos_nonneg; lia.
    + symmetry. apply Z.compare_lt_iff, Z.log2_lt_cancel. lia.
    + symmetry. apply Z.compare_gt_iff, Z.log2_lt_cancel. lia.
Qed.

Lemma f64_ge_one n : small n → f64_ge (int_float n) f64_one = (1 <=? n).
Proof.
  intros Hs. change f64_one with (int_float 1). unfold f64_ge.
  rewrite f64_compare_int by (done || by split). rewrite Z.leb_compare, (Z.compare_antisym n 1).
  by destruct (n ?= 1).
Qed.

Lemma f64_min_int a b : small a → small b → a ≤ b → f64_min (int_float a) (int_float b) = int_float a.
Proof.
  intros Ha Hb Hab. unfold f64_min. rewrite f64_compare_int by done.
  destruct (Z.compare_spec a b); [done|done|lia].
Qed.

(** ** Quotients of integers are numbers *)

Definition f64_finite (x : f64) : Prop :=
  match x with S754_zero _ | S754_finite _ _ _ => True | _ => False end.

Lemma f64_mul_zero x : f64_finite x → SFmul 53 1024 (S754_zero false) x = S754_zero false ∨
  SFmul 53 1024 (S754_zero false) x = S754_zero true.
Proof. destruct x as [[]|[]| |[] m e]; cbn; auto; done. Qed.

Lemma shr_1_bound r : 0 ≤ shr_m r → 0 ≤ shr_m (shr_1 r) ≤ shr_m r.
Proof. destruct r as [[|[p|p|]|p] ? ?]; cbn; lia. Qed.

Lemma iter_shr_bound n r : 0 ≤ shr_m r → 0 ≤ shr_m (iter_pos shr_1 n r) ≤ shr_m r.
Proof.
  revert r. induction n as [n IH|n IH|]; intros r Hr; cbn [iter_pos]; [| |by apply shr_1_bound].
  - pose proof (shr_1_bound r Hr) as H1.
    pose proof (IH _ (proj1 H1)) as H2. pose proof (IH _ (proj1 H2)) as H3. lia.
  - pose proof (IH _ Hr) as H2. pose proof (IH _ (proj1 H2)) as H3. lia.
Qed.

Lemma Zdigits2_le m n : 0 ≤ m ≤ n → Zdigits2 m ≤ Zdigits2 n.
Proof.
  destruct m as [|p|p], n as [|p'|p']; cbn [Zdigits2]; try lia.
  intros H. rewrite !digits2_log2. pose proof (Z.log2_le_mono (Z.pos p) (Z.pos p')). lia.
Qed.

Lemma Zdigits2_pow m k : 0 ≤ k → 0 ≤ m < 2 ^ k → Zdigits2 m ≤ k.
Proof.
  intros Hk. destruct m as [|p|p]; cbn [Zdigits2]; [lia| |lia]. intros [_ H].
  rewrite digits2_log2. apply Z.log2_lt_pow2 in H; lia.
Qed.

(** A shift leaves a smaller significand and an exponent no larger than the one it had
    and the one its magnitude calls for. *)
Lemma shr_fexp_bound m e l k :
  0 ≤ m < 2 ^ k → 0 ≤ k → let r := shr_fexp 53 1024 m e l in
  0 ≤ shr_m r.1 ≤ m ∧ e ≤ r.2 ≤ Z.max e (fexp 53 1024 (k + e)).
Proof.
  intros Hm Hk. unfold shr_fexp. assert (shr_m (shr_record_of_loc m l) = m) as Hr by (by destruct l as [|[]]).
  pose proof (Zdigits2_pow m k Hk Hm) as Hd.
  destruct (fexp 53 1024 (Zdigits2 m + e) - e) as [|n|n] eqn:Hn; cbn [shr fst snd]; [lia| |lia].
  pose proof (iter_shr_bound n (shr_record_of_loc m l)) as Hi. unfold fexp, emin in *. lia.
Qed.

Lemma round_aux_finite m e l k :
  0 ≤ m < 2 ^ k → 0 ≤ k ≤ 200 → e ≤ 500 → k + e ≤ 500 →
  f64_finite (binary_round_aux 53 1024 false m e l).
Proof.
  intros Hm Hk He Hke. unfold binary_round_aux.
  pose proof (shr_fexp_bound m e l k Hm ltac:(lia)) as Hb.
  destruct (shr_fexp 53 1024 m e l) as [r1 e1] eqn:H1. cbn [fst snd] in Hb.
  set (m1 := round_nearest_even (shr_m r1) (loc_of_shr_record r1)).
  assert (0 ≤ m1 < 2 ^ (k + 1)) as Hm1.
  { unfold m1, round_nearest_even. rewrite Z.pow_add_r by lia.
    destruct (loc_of_shr_record r1) as [|[]]; try case_match; lia. }
  pose proof (shr_fexp_bound m1 e1 loc_Exact (k + 1) Hm1 ltac:(lia)) as Hb2.
  destruct (shr_fexp 53 1024 m1 e1 loc_Exact) as [r2 e2] eqn:H2. cbn [fst snd] in Hb2.
  destruct (shr_m r2) as [|p|p]; [done| |lia].
  assert ((e2 <=? 1024 - 53) = true) as ->; [|done].
  unfold fexp, emin in *. lia.
Qed.

(** Any 32-bit integer divided by sixty. *)
Lemma div_60_finite r : 0 ≤ r ≤ U32_MAX → f64_finite (f64_div (f64_of_Z r) (f64_of_Z 60)).
Proof.
  unfold U32_MAX. intros Hr. destruct (Z.eqb_spec r 0) as [->|Hr0]; [done|].
  assert (Z.log2 r ≤ 31) as Hl by (apply Z.lt_succ_r, Z.log2_lt_pow2; lia).
  pose proof (Z.log2_nonneg r) as Hl0.
  rewrite (f64_of_Z_small r), int_float_pos by (lia || (split; lia)).
  assert (f64_of_Z 60 = S754_finite false 8444249301319680 (-47)) as -> by reflexivity.
  unfold exact_float, f64_div. cbn [SFdiv].
  pose proof (aligned_pos r ltac:(lia) ltac:(lia)) as Hap.
  pose proof (aligned_log2 r ltac:(lia) ltac:(lia)) as Hal.
  unfold SFdiv_core_binary. rewrite Z2Pos.id by done.
  assert (Zdigits2 (aligned r) = 53) as ->.
  { destruct (aligned r) as [|p|p]; try lia. cbn [Zdigits2]. rewrite digits2_log2. lia. }
  change (Zdigits2 8444249301319680) with 53. unfold fexp, emin.
  assert (Z.min (Z.max (53 + (Z.log2 r + 0 - 52) - (53 + -47) - 53) (3 - 1024 - 53))
     (Z.log2 r + 0 - 52 - -47) = Z.log2 r - 58) as -> by lia.
  assert (Z.log2 r + 0 - 52 - -47 - (Z.log2 r - 58) = 53) as -> by lia. cbv iota.
  pose proof (Z_div_mod (Z.shiftl (aligned r) 53) 8444249301319680 ltac:(lia)) as Hd.
  destruct (Z.div_eucl (Z.shiftl (aligned r) 53) 8444249301319680) as [q rm].
  destruct Hd as [Hq Hrm]. rewrite Z.shiftl_mul_pow2 in Hq by lia.
  assert (aligned r < 2 ^ 53) by (apply Z.log2_lt_pow2; lia).
  apply (round_aux_finite q _ _ 106); lia.
Qed.
