(* ===== verification/RustStr.v ===== *)
(** * The parts of Rust's [str] and integer parsing that the program uses

    Strings are UTF-8 byte sequences. Splitting and searching on an ASCII character
    works on the bytes, as it does in Rust; trimming and [split_whitespace] work on
    the characters, so they decode first. The case tables of Unicode beyond ASCII
    belong to the compiler's copy of the Unicode database and are the fields of a
    class. *)

From S2P Require Import Prelude.

Local Open Scope Z_scope.

(** ** UTF-8 *)

Definition in_range (lo hi : Z) (c : ascii) : bool := (lo <=? u8 c) && (u8 c <=? hi).
Definition cont (c : ascii) : bool := in_range 0x80 0xBF c.

Definition utf8_2 (a b : ascii) : bool := in_range 0xC2 0xDF a && cont b.
Definition utf8_3 (a b c : ascii) : bool :=
  cont c &&
  ((in_range 0xE0 0xE0 a && in_range 0xA0 0xBF b) ||
   (in_range 0xE1 0xEC a && cont b) ||
   (in_range 0xED 0xED a && in_range 0x80 0x9F b) ||
   (in_range 0xEE 0xEF a && cont b)).
Definition utf8_4 (a b c d : ascii) : bool :=
  cont c && cont d &&
  ((in_range 0xF0 0xF0 a && in_range 0x90 0xBF b) ||
   (in_range 0xF1 0xF3 a && cont b) ||
   (in_range 0xF4 0xF4 a && in_range 0x80 0x8F b)).

Definition is_ascii (c : ascii) : bool := u8 c <? 128.

(** The characters of a string, each as its own bytes; [None] when the bytes are not
    UTF-8 ([core::str::from_utf8]'s table). *)
Fixpoint utf8_chars (s : bytes) : option (list bytes) :=
  match s with
  | [] => Some []
  | a :: s1 =>
      if is_ascii a then ([a] ::.) <$> utf8_chars s1
      else match s1 with
      | [] => None
      | b :: s2 =>
          if utf8_2 a b then ([a; b] ::.) <$> utf8_chars s2
          else match s2 with
          | [] => None
          | c :: s3 =>
              if utf8_3 a b c then ([a; b; c] ::.) <$> utf8_chars s3
              else match s3 with
              | [] => None
              | d :: s4 =>
                  if utf8_4 a b c d then ([a; b; c; d] ::.) <$> utf8_chars s4 else None
              end
          end
      end
  end.

Definition utf8_valid (s : bytes) : bool :=
  match utf8_chars s with Some _ => true | None => false end.

(** [String::from_utf8]. *)
Definition from_utf8 (s : bytes) : option bytes := if utf8_valid s then Some s else None.

(** [str::chars]; only ever applied to strings. *)
Definition chars (s : bytes) : list bytes := default ((λ c, [c]) <$> s) (utf8_chars s).

Definition code_point (c : bytes) : Z :=
  match c with
  | [a] => u8 a
  | [a; b] => (u8 a mod 32) * 64 + u8 b mod 64
  | [a; b; c] => (u8 a mod 16) * 4096 + (u8 b mod 64) * 64 + u8 c mod 64
  | [a; b; c; d] =>
      (u8 a mod 8) * 262144 + (u8 b mod 64) * 4096 + (u8 c mod 64) * 64 + u8 d mod 64
  | _ => 0
  end.

(** [char::is_whitespace]: the Unicode property White_Space. *)
Definition is_whitespace (c : bytes) : bool :=
  let p := code_point c in
  ((9 <=? p) && (p <=? 13)) || (p =? 32) || (p =? 0x85) || (p =? 0xA0) || (p =? 0x1680)
  || ((0x2000 <=? p) && (p <=? 0x200A)) || (p =? 0x2028) || (p =? 0x2029)
  || (p =? 0x202F) || (p =? 0x205F) || (p =? 0x3000).

Fixpoint drop_while {A} (f : A → bool) (l : list A) : list A :=
  match l with
  | [] => []
  | x :: l' => if f x then drop_while f l' else l
  end.

(** [str::trim]. *)
Definition trim (s : bytes) : bytes :=
  concat (reverse (drop_while is_whitespace (reverse (drop_while is_whitespace (chars s))))).

(** [str::split_whitespace]: the maximal runs of non-blank characters. *)
Fixpoint words_of (cur : bytes) (cs : list bytes) : list bytes :=
  match cs with
  | [] => match cur with [] => [] | _ => [cur] end
  | c :: cs' =>
      if is_whitespace c
      then match cur with [] => words_of [] cs' | _ => cur :: words_of [] cs' end
      else words_of (cur ++ c) cs'
  end.
Definition split_whitespace (s : bytes) : list bytes := words_of [] (chars s).

(** ** Searching and splitting *)

(** [str::find(char)] and [str::rfind(char)] for an ASCII character. *)
Fixpoint find_char (c : ascii) (s : bytes) : option nat :=
  match s with
  | [] => None
  | x :: s' => if bool_decide (x = c) then Some 0%nat else S <$> find_char c s'
  end.

Definition rfind_char (c : ascii) (s : bytes) : option nat :=
  (λ i, (length s - 1 - i)%nat) <$> find_char c (reverse s).

(** [str::split(char)]: never empty. *)
Fixpoint split_char (c : ascii) (s : bytes) : list bytes :=
  match s with
  | [] => [[]]
  | x :: s' =>
      if bool_decide (x = c) then [] :: split_char c s'
      else match split_char c s' with
           | w :: ws => (x :: w) :: ws
           | [] => [[x]]
           end
  end.

(** [str::split(|c| f c)] for a test on ASCII characters. *)
Fixpoint split_by (f : ascii → bool) (s : bytes) : list bytes :=
  match s with
  | [] => [[]]
  | x :: s' =>
      if f x then [] :: split_by f s'
      else match split_by f s' with
           | w :: ws => (x :: w) :: ws
           | [] => [[x]]
           end
  end.

(** [str::splitn(2, char)]: one or two pieces. *)
Definition splitn2 (c : ascii) (s : bytes) : list bytes :=
  match find_char c s with
  | None => [s]
  | Some i => [take i s; drop (S i) s]
  end.

Fixpoint starts_with (p s : bytes) : bool :=
  match p, s with
  | [], _ => true
  | _ :: _, [] => false
  | x :: p', y :: s' => bool_decide (x = y) && starts_with p' s'
  end.

Definition ends_with (p s : bytes) : bool := starts_with (reverse p) (reverse s).

(** [str::find(&str)]. *)
Fixpoint find_str (p s : bytes) : option nat :=
  if starts_with p s then Some 0%nat
  else match s with [] => None | _ :: s' => S <$> find_str p s' end.

(** [str::contains(&str)]. *)
Fixpoint contains (p s : bytes) : bool :=
  starts_with p s || match s with [] => false | _ :: s' => contains p s' end.

Definition contains_char (c : ascii) (s : bytes) : bool := bool_decide (c ∈ s).

(** [str::trim_start_matches(char)]. *)
Definition trim_start_matches (c : ascii) (s : bytes) : bytes :=
  drop_while (λ x, bool_decide (x = c)) s.

(** [str::replace(char, &str)] for an ASCII character. *)
Definition replace_char (c : ascii) (w s : bytes) : bytes :=
  s ≫= λ x, if bool_decide (x = c) then w else [x].

(** [str::replace(&str, &str)] for a non-empty pattern: left to right, without
    overlaps. [skip] counts the bytes of a match still to be passed over. *)
Fixpoint replace_go (p w : bytes) (skip : nat) (s : bytes) : bytes :=
  match s with
  | [] => []
  | x :: s' =>
      match skip with
      | S k => replace_go p w k s'
      | O => if starts_with p s then w ++ replace_go p w (length p - 1) s'
             else x :: replace_go p w 0 s'
      end
  end.
Definition replace_str (p w s : bytes) : bytes := replace_go p w 0 s.

(** ** Case mapping *)

Definition ascii_lower (c : ascii) : ascii :=
  if in_range 65 90 c then as_u8 (u8 c + 32) else c.
Definition ascii_upper (c : ascii) : ascii :=
  if in_range 97 122 c then as_u8 (u8 c - 32) else c.

(** The mapping of strings that are not all ASCII: data of the Unicode version the
    compiler ships. *)
Class UnicodeCase := {
  unicode_lowercase : bytes → bytes;
  unicode_uppercase : bytes → bytes;
}.

Definition all_ascii (s : bytes) : bool := forallb is_ascii s.

Definition to_lowercase `{UnicodeCase} (s : bytes) : bytes :=
  if all_ascii s then ascii_lower <$> s else unicode_lowercase s.
Definition to_uppercase `{UnicodeCase} (s : bytes) : bytes :=
  if all_ascii s then ascii_upper <$> s else unicode_uppercase s.

(** ** Integers as text *)

(** [char::to_digit(radix)]. *)
Definition to_digit (radix : Z) (c : ascii) : option Z :=
  let v := u8 c in
  let d := if (48 <=? v) && (v <=? 57) then v - 48
           else if (97 <=? v) && (v <=? 122) then v - 87
           else if (65 <=? v) && (v <=? 90) then v - 55
           else radix in
  if d <? radix then Some d else None.

(** [from_str_radix(s, 10)]'s loop with its checked multiplication and addition. *)
Fixpoint parse_digits (max acc : Z) (s : bytes) : option Z :=
  match s with
  | [] => Some acc
  | c :: s' =>
      match to_digit 10 c with
      | None => None
      | Some d =>
          if max <? acc * 10 then None
          else if max <? acc * 10 + d then None
          else parse_digits max (acc * 10 + d) s'
      end
  end.

(** [s.parse::<uN>()] where the type's largest value is [max]. *)
Definition parse_uint (max : Z) (s : bytes) : option Z :=
  match s with
  | [] => None
  | c :: s' =>
      if bool_decide (c = "+"%char)
      then match s' with [] => None | _ => parse_digits max 0 s' end
      else parse_digits max 0 s
  end.

Definition parse_u8 : bytes → option Z := parse_uint U8_MAX.
Definition parse_u16 : bytes → option Z := parse_uint U16_MAX.

(** The text of the [ParseIntError] of a failed [parse]. *)
Fixpoint parse_digits_error (max acc : Z) (s : bytes) : bytes :=
  match s with
  | [] => []
  | c :: s' =>
      match to_digit 10 c with
      | None => "invalid digit found in string"
      | Some d =>
          if max <? acc * 10 + d then "number too large to fit in target type"
          else parse_digits_error max (acc * 10 + d) s'
      end
  end.
Definition parse_uint_error (max : Z) (s : bytes) : bytes :=
  match s with
  | [] => "cannot parse integer from empty string"
  | c :: s' =>
      if bool_decide (c = "+"%char)
      then match s' with [] => "invalid digit found in string" | _ => parse_digits_error max 0 s' end
      else parse_digits_error max 0 s
  end.

(** [s.parse::<bool>()]. *)
Definition parse_bool (s : bytes) : option bool :=
  if bool_decide (s = "true") then Some true
  else if bool_decide (s = "false") then Some false
  else None.

Definition digit_char (d : Z) : ascii := as_u8 (if d <? 10 then d + 48 else d + 87).

(** Digits of [z] in a radix, most significant first, before [acc]. *)
Fixpoint show_radix (radix : Z) (fuel : nat) (z : Z) (acc : bytes) : bytes :=
  match fuel with
  | O => acc
  | S fuel' =>
      let acc' := digit_char (z mod radix) :: acc in
      if z / radix =? 0 then acc' else show_radix radix fuel' (z / radix) acc'
  end.

(** [format!("{}", z)] and [format!("{:x}", z)] of an unsigned integer. *)
Definition dec (z : Z) : bytes := show_radix 10 (S (Z.to_nat (Z.log2 z))) z [].
Definition hex (z : Z) : bytes := show_radix 16 (S (Z.to_nat (Z.log2 z))) z [].

(** ** Decoding errors *)

(** The length of the ill-formed sequence at the head of [s] ([Utf8Error::error_len]):
    [None] when the input merely ends too early. *)
Definition utf8_error_len (s : bytes) : option Z :=
  match s with
  | [] => None
  | a :: s1 =>
      let three b := (in_range 0xE0 0xE0 a && in_range 0xA0 0xBF b) ||
                     (in_range 0xE1 0xEC a && cont b) ||
                     (in_range 0xED 0xED a && in_range 0x80 0x9F b) ||
                     (in_range 0xEE 0xEF a && cont b) in
      let four b := (in_range 0xF0 0xF0 a && in_range 0x90 0xBF b) ||
                    (in_range 0xF1 0xF3 a && cont b) ||
                    (in_range 0xF4 0xF4 a && in_range 0x80 0x8F b) in
      if in_range 0xC2 0xDF a then match s1 with [] => None | _ => Some 1 end
      else if in_range 0xE0 0xEF a then
        match s1 with
        | [] => None
        | b :: s2 => if three b then match s2 with [] => None | _ => Some 2 end else Some 1
        end
      else if in_range 0xF0 0xF4 a then
        match s1 with
        | [] => None
        | b :: s2 =>
            if four b then
              match s2 with
              | [] => None
              | c :: s3 => if cont c then match s3 with [] => None | _ => Some 3 end else Some 2
              end
            else Some 1
        end
      else Some 1
  end.

Definition utf8_error_text (index : Z) (rest : bytes) : bytes :=
  match utf8_error_len rest with
  | Some n => "invalid utf-8 sequence of " ++ dec n ++ " bytes from index " ++ dec index
  | None => "incomplete utf-8 byte sequence from index " ++ dec index
  end.

(** The text of the [Utf8Error] of bytes that are not UTF-8. *)
Fixpoint utf8_error (index : Z) (s : bytes) : bytes :=
  match s with
  | [] => []
  | a :: s1 =>
      if is_ascii a then utf8_error (index + 1) s1
      else match s1 with
      | [] => utf8_error_text index s
      | b :: s2 =>
          if utf8_2 a b then utf8_error (index + 2) s2
          else match s2 with
          | [] => utf8_error_text index s
          | c :: s3 =>
              if utf8_3 a b c then utf8_error (index + 3) s3
              else match s3 with
              | [] => utf8_error_text index s
              | d :: s4 =>
                  if utf8_4 a b c d then utf8_error (index + 4) s4
                  else utf8_error_text index s
              end
          end
      end
  end.

(** The length of the character at the head of [s], when it is well formed. *)
Definition char_len (s : bytes) : option nat :=
  match s with
  | [] => None
  | a :: s1 =>
      if is_ascii a then Some 1%nat
      else match s1 with
      | [] => None
      | b :: s2 =>
          if utf8_2 a b then Some 2%nat
          else match s2 with
          | [] => None
          | c :: s3 =>
              if utf8_3 a b c then Some 3%nat
              else match s3 with
              | [] => None
              | d :: _ => if utf8_4 a b c d then Some 4%nat else None
              end
          end
      end
  end.

(** U+FFFD. *)
Definition replacement_character : bytes := as_u8 <$> [0xEF; 0xBF; 0xBD].

(** [String::from_utf8_lossy]: each maximal ill-formed part becomes U+FFFD. *)
Fixpoint lossy (fuel : nat) (s : bytes) : bytes :=
  match fuel, s with
  | O, _ | _, [] => []
  | S fuel', _ =>
      match char_len s with
      | Some n => take n s ++ lossy fuel' (drop n s)
      | None => replacement_character ++
                match utf8_error_len s with
                | Some n => lossy fuel' (drop (Z.to_nat n) s)
                | None => []
                end
      end
  end.
Definition from_utf8_lossy (s : bytes) : bytes := lossy (length s) s.

(** [String::from_utf8(s)?] with the error's text. *)
Definition from_utf8_or_error (s : bytes) : result bytes :=
  if utf8_valid s then Ok s else Err (utf8_error 0 s).

(** ** Lemmas: searching and splitting *)

Lemma starts_with_spec p s : starts_with p s = true ↔ p `prefix_of` s.
Proof.
  revert s. induction p as [|x p IH]; intros [|y s]; cbn.
  - split; [intros _; apply prefix_nil | done].
  - split; [intros _; apply prefix_nil | done].
  - split; [done | intros H; by apply prefix_nil_not in H].
  - rewrite andb_true_iff, bool_decide_eq_true, IH. split.
    + intros [-> ?]. by apply prefix_cons.
    + intros H. split; [by eapply prefix_cons_inv_1 | by eapply prefix_cons_inv_2].
Qed.

Lemma starts_with_app p s : starts_with p (p ++ s) = true.
Proof. apply starts_with_spec. by apply prefix_app_r. Qed.

Lemma ends_with_spec p s : ends_with p s = true ↔ p `suffix_of` s.
Proof.
  unfold ends_with. rewrite starts_with_spec, <- suffix_prefix_reverse. done.
Qed.

Lemma contains_spec p s : contains p s = true ↔ ∃ l r, s = l ++ p ++ r.
Proof.
  induction s as [|x s IH]; cbn; rewrite orb_true_iff, starts_with_spec.
  - split.
    + intros [[r Hr]|?]; [|done]. exists [], r. done.
    + intros (l & r & H). left. symmetry in H. apply app_nil in H as [-> H].
      apply app_nil in H as [-> ->]. done.
  - rewrite IH. split.
    + intros [[r Hr]|(l & r & ->)]; [by exists [], r | by exists (x :: l), r].
    + intros ([|y l] & r & H); [left; by exists r|].
      right. injection H as -> ->. eauto.
Qed.

Lemma contains_middle p l r : contains p (l ++ p ++ r) = true.
Proof. apply contains_spec. eauto. Qed.

Lemma find_char_None c s : find_char c s = None ↔ c ∉ s.
Proof.
  induction s as [|x s IH]; cbn; [split; [intros _; apply not_elem_of_nil|done]|].
  rewrite not_elem_of_cons. case_bool_decide as Hx; cbn.
  - split; [done | intros [? _]; congruence].
  - rewrite fmap_None, IH. naive_solver congruence.
Qed.

Lemma find_char_app c l r : c ∉ l → find_char c (l ++ c :: r) = Some (length l).
Proof.
  induction l as [|x l IH]; cbn; intros Hl.
  - by rewrite bool_decide_eq_true_2.
  - apply not_elem_of_cons in Hl as [Hx Hl].
    rewrite bool_decide_eq_false_2 by congruence. by rewrite IH.
Qed.

Lemma find_char_Some c s i :
  find_char c s = Some i → (c ∉ take i s) ∧ s = take i s ++ (c :: drop (S i) s).
Proof.
  revert i. induction s as [|x s IH]; cbn; intros i; [done|].
  case_bool_decide as Hx.
  - intros [= <-]. subst. split; [apply not_elem_of_nil | done].
  - intros Hi. apply fmap_Some in Hi as (j & Hj & ->).
    destruct (IH j Hj) as [Hn Hs]. cbn. split.
    + apply not_elem_of_cons. split; congruence.
    + by rewrite <- Hs.
Qed.

Lemma rfind_char_app c l r : c ∉ r → rfind_char c (l ++ c :: r) = Some (length l).
Proof.
  intros Hr. unfold rfind_char. rewrite reverse_app, reverse_cons, <- app_assoc. cbn.
  rewrite find_char_app by (by rewrite elem_of_reverse). cbn. f_equal.
  rewrite length_app, length_reverse. cbn. lia.
Qed.

Lemma rfind_char_None c s : rfind_char c s = None ↔ c ∉ s.
Proof. unfold rfind_char. rewrite fmap_None, find_char_None, elem_of_reverse. done. Qed.

Lemma split_char_none c s : c ∉ s → split_char c s = [s].
Proof.
  induction s as [|x s IH]; cbn; [done|]. intros [Hx Hs]%not_elem_of_cons.
  rewrite bool_decide_eq_false_2 by congruence. by rewrite IH.
Qed.

Lemma split_char_app c w s : c ∉ w → split_char c (w ++ c :: s) = w :: split_char c s.
Proof.
  induction w as [|x w IH]; cbn.
  - intros _. by rewrite bool_decide_eq_true_2.
  - intros [Hx Hs]%not_elem_of_cons. rewrite bool_decide_eq_false_2 by congruence.
    by rewrite IH.
Qed.

Lemma split_char_nonempty c s : split_char c s ≠ [].
Proof. destruct s as [|x s]; cbn; [done|]. case_bool_decide; [done|]. by case_match. Qed.

(** Joining the pieces with the separator gives the string back. *)
Fixpoint join (c : ascii) (ws : list bytes) : bytes :=
  match ws with
  | [] => []
  | [w] => w
  | w :: ws' => w ++ c :: join c ws'
  end.

Lemma join_split c s : join c (split_char c s) = s.
Proof.
  induction s as [|x s IH]; cbn; [done|]. pose proof (split_char_nonempty c s).
  case_bool_decide as Hx; cbn.
  - destruct (split_char c s); [done|]. rewrite IH. by subst.
  - destruct (split_char c s) as [|w [|w' ws]]; [done| |]; cbn in *; by rewrite <- IH.
Qed.

Lemma split_char_no_sep c s : Forall (λ w, c ∉ w) (split_char c s).
Proof.
  induction s as [|x s IH]; cbn; [repeat constructor; apply not_elem_of_nil|].
  case_bool_decide as Hx.
  - constructor; [apply not_elem_of_nil | done].
  - destruct (split_char c s); [repeat constructor; set_solver|].
    inversion IH; subst. constructor; [set_solver | done].
Qed.

Lemma splitn2_app c l r : c ∉ l → splitn2 c (l ++ c :: r) = [l; r].
Proof.
  intros Hl. unfold splitn2. rewrite find_char_app by done.
  rewrite take_app_length. f_equal. f_equal.
  rewrite cons_middle, app_assoc. rewrite drop_app_exact; [done|].
  rewrite length_app. cbn. lia.
Qed.

Lemma drop_while_nil {A} (f : A → bool) l : Forall (λ x, f x = false) (take 1 l) → drop_while f l = l.
Proof. destruct l as [|x l]; cbn; [done|]. intros H. apply Forall_cons in H as [-> _]. done. Qed.

Lemma drop_while_app {A} (f : A → bool) l r :
  Forall (λ x, f x = true) l → drop_while f (l ++ r) = drop_while f r.
Proof. induction 1 as [|x l Hx Hl IH]; cbn; [done|]. by rewrite Hx. Qed.

Lemma trim_start_matches_idle c s : head s ≠ Some c → trim_start_matches c s = s.
Proof.
  intros H. apply drop_while_nil. destruct s as [|x s]; cbn; constructor; [|done].
  apply bool_decide_eq_false. cbn in H. congruence.
Qed.

(** ** Lemmas: ASCII strings *)

Lemma utf8_chars_ascii s : all_ascii s = true → utf8_chars s = Some ((λ c, [c]) <$> s).
Proof.
  unfold all_ascii. induction s as [|c s IH]; cbn; [done|].
  intros [Hc Hs]%andb_true_iff. by rewrite Hc, IH.
Qed.

Lemma utf8_valid_ascii s : all_ascii s = true → utf8_valid s = true.
Proof. intros H. unfold utf8_valid. by rewrite utf8_chars_ascii. Qed.

Lemma chars_ascii s : all_ascii s = true → chars s = (λ c, [c]) <$> s.
Proof. intros H. unfold chars. by rewrite utf8_chars_ascii. Qed.

Lemma all_ascii_app s t : all_ascii (s ++ t) = all_ascii s && all_ascii t.
Proof. unfold all_ascii. apply forallb_app. Qed.

Lemma concat_singletons {A} (s : list A) : concat ((λ c, [c]) <$> s) = s.
Proof. induction s; cbn; by f_equal. Qed.

(** ** Lemmas: integers as text *)

Definition digits_value (radix acc : Z) (ds : list Z) : Z := foldl (λ a d, a * radix + d) acc ds.

Lemma digits_value_mono radix acc ds :
  1 ≤ radix → 0 ≤ acc → Forall (λ d, 0 ≤ d) ds → acc ≤ digits_value radix acc ds.
Proof.
  unfold digits_value. revert acc. induction ds as [|d ds IH]; cbn; intros acc Hr Ha Hd; [lia|].
  apply Forall_cons in Hd as [Hd Hds].
  specialize (IH (acc * radix + d) Hr ltac:(nia) Hds). nia.
Qed.

Lemma digits_value_app radix acc ds d :
  digits_value radix acc (ds ++ [d]) = digits_value radix acc ds * radix + d.
Proof. unfold digits_value. by rewrite foldl_app. Qed.

Lemma digits_value_shift radix d ds :
  digits_value radix d ds = d * radix ^ Z.of_nat (length ds) + digits_value radix 0 ds.
Proof.
  unfold digits_value. revert d. induction ds as [|x ds IH]; intros d; cbn [foldl length].
  - rewrite Z.pow_0_r. lia.
  - rewrite IH, (IH (0 * radix + x)), Nat2Z.inj_succ, Z.pow_succ_r by lia. lia.
Qed.

Lemma digits_value_lower radix d ds :
  1 ≤ radix → 0 < d → Forall (λ d, 0 ≤ d) ds →
  radix ^ Z.of_nat (length ds) ≤ digits_value radix d ds.
Proof.
  intros Hr Hd Hds. rewrite digits_value_shift.
  pose proof (digits_value_mono radix 0 ds ltac:(lia) ltac:(lia) Hds).
  pose proof (Z.pow_nonneg radix (Z.of_nat (length ds)) ltac:(lia)). nia.
Qed.

(** What [show_radix] prints: a non-empty digit list without a leading zero. *)
Record digits_of (radix z : Z) (ds : list Z) : Prop := {
  do_range : Forall (λ d, 0 ≤ d < radix) ds;
  do_value : digits_value radix 0 ds = z;
  do_lead : ds = [0] ∨ ∃ d ds', ds = d :: ds' ∧ 0 < d;
}.

Lemma show_radix_digits radix fuel z acc :
  2 ≤ radix → 0 ≤ z < radix ^ Z.of_nat fuel → fuel ≠ 0%nat →
  ∃ ds, show_radix radix fuel z acc = (digit_char <$> ds) ++ acc ∧ digits_of radix z ds.
Proof.
  revert z acc. induction fuel as [|fuel IH]; intros z acc Hr Hz Hf; [done|]. cbn.
  pose proof (Z.mod_pos_bound z radix ltac:(lia)) as Hm.
  pose proof (Z.div_mod z radix ltac:(lia)) as Hdm.
  destruct (Z.eqb_spec (z / radix) 0) as [H0|H0].
  - exists [z mod radix]. split; [done|]. split.
    + by apply Forall_singleton.
    + unfold digits_value. cbn. lia.
    + destruct (decide (z = 0)) as [->|]; [left; by rewrite Z.mod_0_l by lia|].
      right. exists (z mod radix), []. split; [done|]. lia.
  - rewrite Nat2Z.inj_succ, Z.pow_succ_r in Hz by lia.
    assert (0 ≤ z / radix) as Hq by (apply Z.div_pos; lia).
    destruct (IH (z / radix) (digit_char (z mod radix) :: acc)) as (ds & -> & Hds); [lia| |..].
    { split; [done|]. apply Z.div_lt_upper_bound; lia. }
    { intros ->. cbn in Hz. assert (z / radix < 1) by (apply Z.div_lt_upper_bound; lia). lia. }
    exists (ds ++ [z mod radix]). destruct Hds as [H1 H2 H3]. split.
    + rewrite fmap_app, <- app_assoc. done.
    + split.
      * apply Forall_app. split; [done|]. by apply Forall_singleton.
      * rewrite digits_value_app, H2. lia.
      * right. destruct H3 as [->|(d & ds' & -> & Hd)].
        { unfold digits_value in H2. cbn in H2. lia. }
        by exists d, (ds' ++ [z mod radix]).
Qed.

Lemma log2_fuel radix z : 2 ≤ radix → 0 ≤ z → 0 ≤ z < radix ^ Z.of_nat (S (Z.to_nat (Z.log2 z))).
Proof.
  intros Hr Hz. split; [done|]. rewrite Nat2Z.inj_succ, Z2Nat.id by apply Z.log2_nonneg.
  destruct (decide (z = 0)) as [->|]; [apply Z.pow_pos_nonneg; cbn; lia|].
  eapply Z.lt_le_trans; [apply Z.log2_spec; lia|]. apply Z.pow_le_mono_l. lia.
Qed.

Lemma dec_digits z : 0 ≤ z → ∃ ds, dec z = digit_char <$> ds ∧ digits_of 10 z ds.
Proof.
  intros Hz. destruct (show_radix_digits 10 _ z [] ltac:(lia) (log2_fuel 10 z ltac:(lia) Hz))
    as (ds & Hds & ?); [done|].
  exists ds. by rewrite app_nil_r in Hds.
Qed.

Lemma hex_digits z : 0 ≤ z → ∃ ds, hex z = digit_char <$> ds ∧ digits_of 16 z ds.
Proof.
  intros Hz. destruct (show_radix_digits 16 _ z [] ltac:(lia) (log2_fuel 16 z ltac:(lia) Hz))
    as (ds & Hds & ?); [done|].
  exists ds. by rewrite app_nil_r in Hds.
Qed.

Lemma digits_of_length radix z ds n :
  2 ≤ radix → digits_of radix z ds → z < radix ^ Z.of_nat n → n ≠ 0%nat → (length ds ≤ n)%nat.
Proof.
  intros Hr [H1 H2 [->|(d & ds' & -> & Hd)]] Hz Hn; [cbn; lia|].
  apply Forall_cons in H1 as [_ H1]. cbn.
  assert (radix ^ Z.of_nat (length ds') ≤ z) as Hle.
  { rewrite <- H2. cbn [digits_value foldl].
    change (foldl _ _ ds') with (digits_value radix (0 * radix + d) ds').
    apply digits_value_lower; [lia..|]. eapply Forall_impl; [exact H1|]. cbn. lia. }
  assert (Z.of_nat (length ds') < Z.of_nat n) as Hlt; [|lia].
  apply (Z.pow_lt_mono_r_iff radix); lia.
Qed.

Lemma digits_of_nonempty radix z ds : digits_of radix z ds → ds ≠ [].
Proof. by intros [_ _ [->|(d & ds' & -> & _)]]. Qed.

Lemma to_digit_char radix d : radix = 10 ∨ radix = 16 → 0 ≤ d < radix → to_digit radix (digit_char d) = Some d.
Proof.
  intros Hr Hd. assert (d ∈ seqZ 0 16) as Hin by (apply elem_of_seqZ; lia).
  destruct Hr as [-> | ->];
    repeat (apply elem_of_cons in Hin as [-> | Hin]; [try reflexivity; lia|]);
    by apply elem_of_nil in Hin.
Qed.

Lemma digit_char_not_plus d : 0 ≤ d < 16 → digit_char d ≠ "+"%char.
Proof.
  intros Hd. assert (d ∈ seqZ 0 16) as Hin by (apply elem_of_seqZ; lia).
  repeat (apply elem_of_cons in Hin as [-> | Hin]; [done|]). by apply elem_of_nil in Hin.
Qed.

Lemma parse_digits_value max acc ds :
  0 ≤ acc → Forall (λ d, 0 ≤ d < 10) ds → digits_value 10 acc ds ≤ max →
  parse_digits max acc (digit_char <$> ds) = Some (digits_value 10 acc ds).
Proof.
  revert acc. induction ds as [|d ds IH]; intros acc Ha Hds Hm; [done|].
  apply Forall_cons in Hds as [Hd Hds]. cbn [fmap list_fmap parse_digits].
  rewrite to_digit_char by (lia || by left).
  assert (acc * 10 + d ≤ digits_value 10 (acc * 10 + d) ds) as Hmono.
  { apply digits_value_mono; [lia..|]. eapply Forall_impl; [exact Hds|]. cbn. lia. }
  unfold digits_value in *. cbn in Hm |- *.
  destruct (Z.ltb_spec max (acc * 10)); [lia|].
  destruct (Z.ltb_spec max (acc * 10 + d)); [lia|].
  apply IH; [lia | done | done].
Qed.

Lemma parse_uint_plain max s :
  s ≠ [] → head s ≠ Some "+"%char → parse_uint max s = parse_digits max 0 s.
Proof.
  destruct s as [|c s]; [done|]. intros _ Hc. unfold parse_uint.
  rewrite bool_decide_eq_false_2; [done|]. cbn in Hc. congruence.
Qed.

(** Printing an in-range integer and parsing it back. *)
Lemma parse_uint_dec max z : 0 ≤ z ≤ max → parse_uint max (dec z) = Some z.
Proof.
  intros Hz. destruct (dec_digits z) as (ds & -> & Hds); [lia|].
  pose proof (digits_of_nonempty _ _ _ Hds) as Hne. destruct Hds as [H1 H2 _].
  rewrite parse_uint_plain.
  - rewrite parse_digits_value; [by rewrite H2 | lia | done | lia].
  - by destruct ds.
  - destruct ds as [|d ds]; [done|]. apply Forall_cons in H1 as [? _].
    intros [= Hc]. revert Hc. apply digit_char_not_plus. lia.
Qed.

Lemma parse_digits_range max acc s n :
  0 ≤ acc ≤ max → parse_digits max acc s = Some n → 0 ≤ n ≤ max.
Proof.
  revert acc. induction s as [|c s IH]; cbn; intros acc Ha; [intros [= <-]; lia|].
  destruct (to_digit 10 c) as [d|] eqn:Hd; [|done].
  assert (0 ≤ d).
  { unfold to_digit in Hd. pose proof (u8_range c).
    repeat match type of Hd with context [if ?b then _ else _] => destruct b eqn:? end;
      simplify_eq; lia. }
  destruct (Z.ltb_spec max (acc * 10)); [done|].
  destruct (Z.ltb_spec max (acc * 10 + d)); [done|]. apply IH. lia.
Qed.

Lemma parse_uint_range max s n : 0 ≤ max → parse_uint max s = Some n → 0 ≤ n ≤ max.
Proof.
  intros Hm. unfold parse_uint. destruct s as [|c s]; [done|].
  case_bool_decide; [destruct s; [done|]|]; apply parse_digits_range; lia.
Qed.

Lemma parse_u8_range s n : parse_u8 s = Some n → 0 ≤ n ≤ U8_MAX.
Proof. by apply parse_uint_range. Qed.

Lemma parse_u16_range s n : parse_u16 s = Some n → 0 ≤ n ≤ U16_MAX.
Proof. by apply parse_uint_range. Qed.

(** Decimal text is made of digits only. *)
Lemma dec_chars z c : 0 ≤ z → c ∈ dec z → 48 ≤ u8 c ≤ 57.
Proof.
  intros Hz. destruct (dec_digits z Hz) as (ds & -> & [Hr _ _]).
  intros (d & -> & Hd)%list_elem_of_fmap.
  rewrite Forall_forall in Hr. specialize (Hr d Hd).
  unfold digit_char. destruct (Z.ltb_spec d 10); [|lia].
  rewrite u8_as_u8_small; lia.
Qed.

Lemma dec_not_in z c : 0 ≤ z → u8 c < 48 ∨ 57 < u8 c → c ∉ dec z.
Proof. intros Hz Hc Hin. pose proof (dec_chars z c Hz Hin). lia. Qed.

Lemma dec_nonempty z : 0 ≤ z → dec z ≠ [].
Proof.
  intros Hz. destruct (dec_digits z Hz) as (ds & -> & Hds).
  apply digits_of_nonempty in Hds. by destruct ds.
Qed.

(** ** Lemmas: characters, trimming and words *)

Lemma utf8_chars_app_aux n s t cs ct :
  (length s ≤ n)%nat → utf8_chars s = Some cs → utf8_chars t = Some ct →
  utf8_chars (s ++ t) = Some (cs ++ ct) ∧ concat cs = s.
Proof.
  intros Hn Hs Ht. revert s cs Hn Hs. induction n as [|n IH]; intros s cs Hn Hs.
  { destruct s; [|cbn in Hn; lia]. cbn in Hs. by simplify_eq. }
  destruct s as [|a s1]; [cbn in Hs; by simplify_eq|]. cbn in Hs, Hn |- *.
  destruct (is_ascii a).
  { apply fmap_Some in Hs as (cs1 & H1 & ->). destruct (IH s1 cs1) as [-> <-]; [lia|done|done]. }
  destruct s1 as [|b s2]; [done|]. cbn in Hs, Hn |- *. destruct (utf8_2 a b).
  { apply fmap_Some in Hs as (cs1 & H1 & ->). destruct (IH s2 cs1) as [-> <-]; [lia|done|done]. }
  destruct s2 as [|c s3]; [done|]. cbn in Hs, Hn |- *. destruct (utf8_3 a b c).
  { apply fmap_Some in Hs as (cs1 & H1 & ->). destruct (IH s3 cs1) as [-> <-]; [lia|done|done]. }
  destruct s3 as [|d s4]; [done|]. cbn in Hs, Hn |- *. destruct (utf8_4 a b c d); [|done].
  apply fmap_Some in Hs as (cs1 & H1 & ->). destruct (IH s4 cs1) as [-> <-]; [lia|done|done].
Qed.

Lemma utf8_valid_some s : utf8_valid s = true ↔ utf8_chars s = Some (chars s).
Proof. unfold utf8_valid, chars. by destruct (utf8_chars s). Qed.

Lemma utf8_valid_app s t : utf8_valid s = true → utf8_valid t = true → utf8_valid (s ++ t) = true.
Proof.
  rewrite !utf8_valid_some. intros Hs Ht. apply utf8_valid_some. unfold utf8_valid.
  destruct (utf8_chars_app_aux _ _ _ _ _ (le_n _) Hs Ht) as [-> _]. done.
Qed.

Lemma chars_app s t : utf8_valid s = true → utf8_valid t = true → chars (s ++ t) = chars s ++ chars t.
Proof.
  rewrite !utf8_valid_some. intros Hs Ht.
  destruct (utf8_chars_app_aux _ _ _ _ _ (le_n _) Hs Ht) as [Ha _]. unfold chars at 1. by rewrite Ha.
Qed.

Lemma concat_chars s : utf8_valid s = true → concat (chars s) = s.
Proof.
  rewrite utf8_valid_some. intros Hs.
  by destruct (utf8_chars_app_aux _ _ [] _ [] (le_n _) Hs eq_refl) as [_ Hc].
Qed.

Definition blank (s : bytes) : Prop :=
  utf8_valid s = true ∧ Forall (λ c, is_whitespace c = true) (chars s).

(** Text that neither starts nor ends with a blank. *)
Definition trimmed (s : bytes) : Prop :=
  utf8_valid s = true ∧ (∀ c, head (chars s) = Some c → is_whitespace c = false) ∧
  (∀ c, last (chars s) = Some c → is_whitespace c = false).

Lemma drop_while_app_stop {A} (f : A → bool) l r :
  (∀ x, head r = Some x → f x = false) → Forall (λ x, f x = true) l → drop_while f (l ++ r) = r.
Proof.
  intros Hr Hl. rewrite drop_while_app by done. apply drop_while_nil.
  destruct r; cbn; constructor; [by apply Hr|done].
Qed.

Lemma trim_around a s b : blank a → trimmed s → blank b → trim (a ++ s ++ b) = s.
Proof.
  intros [Hva Ha] (Hvs & Hh & Hl) [Hvb Hb]. unfold trim.
  rewrite !chars_app by (done || by apply utf8_valid_app).
  assert (Forall (λ c, is_whitespace c = true) (reverse (chars b))) as Hb'
    by (by apply Forall_reverse).
  destruct (chars s) as [|c cs] eqn:Hc.
  { cbn [app]. rewrite <- (app_nil_r (chars b)), app_assoc.
    rewrite drop_while_app_stop by (done || by apply Forall_app). cbn.
    by rewrite <- (concat_chars s), Hc. }
  rewrite drop_while_app_stop; [|by intros x [= <-]; apply Hh|done].
  rewrite reverse_app, drop_while_app_stop; [|intros x Hx; apply Hl; by rewrite <- head_reverse|done].
  by rewrite reverse_involutive, <- Hc, concat_chars.
Qed.

Lemma blank_nil : blank [].
Proof. split; [done|constructor]. Qed.

Lemma trim_trimmed s : trimmed s → trim s = s.
Proof.
  intros Hs. rewrite <- (app_nil_r s) at 1. apply (trim_around [] s []); [apply blank_nil|done|apply blank_nil].
Qed.

(** A word: not empty, without blanks. *)
Definition word (s : bytes) : Prop :=
  utf8_valid s = true ∧ s ≠ [] ∧ Forall (λ c, is_whitespace c = false) (chars s).

Lemma words_of_word cur cs rest :
  Forall (λ c, is_whitespace c = false) cs → words_of cur (cs ++ rest) = words_of (cur ++ concat cs) rest.
Proof.
  intros Hcs. revert cur. induction Hcs as [|c cs Hc Hcs IH]; intros cur; cbn; [by rewrite app_nil_r|].
  by rewrite Hc, IH, <- app_assoc.
Qed.

Lemma word_chars s : word s → chars s ≠ [].
Proof. intros (Hv & Hne & _) Hn. apply Hne. by rewrite <- (concat_chars s), Hn. Qed.

Lemma word_trimmed_ends a m b : word a → utf8_valid m = true → word b → trimmed (a ++ m ++ b).
Proof.
  intros Ha Hm Hb. pose proof (word_chars a Ha) as Hna. pose proof (word_chars b Hb) as Hnb.
  destruct Ha as (Hva & _ & Ha), Hb as (Hvb & _ & Hb).
  split; [by repeat apply utf8_valid_app|].
  rewrite !chars_app by (done || by apply utf8_valid_app). split; intros c Hc.
  - destruct (chars a) as [|x xs]; [done|]. cbn in Hc. simplify_eq. by apply Forall_cons in Ha as [? _].
  - rewrite app_assoc, last_app in Hc. destruct (last (chars b)) as [x|] eqn:Hl.
    + simplify_eq. rewrite Forall_forall in Hb. apply Hb. by apply last_Some_elem_of.
    + by apply last_None in Hl.
Qed.

Lemma split_three_words a b c :
  word a → word b → word c → split_whitespace (a ++ " " ++ b ++ " " ++ c) = [a; b; c].
Proof.
  intros Ha Hb Hc. pose proof Ha as (Hva & Hna & Hwa). pose proof Hb as (Hvb & Hnb & Hwb).
  pose proof Hc as (Hvc & Hnc & Hwc). unfold split_whitespace.
  rewrite !chars_app by (done || by repeat apply utf8_valid_app).
  rewrite words_of_word by done. cbn [app]. rewrite concat_chars by done.
  change (chars " ") with [bstr " "]. cbn [app words_of is_whitespace].
  change (is_whitespace " ") with true. cbn iota. destruct a as [|x a]; [done|]. f_equal.
  rewrite words_of_word by done. cbn [app]. rewrite concat_chars by done.
  cbn [words_of]. change (is_whitespace " ") with true. cbn iota. destruct b as [|y b]; [done|]. f_equal.
  rewrite <- (app_nil_r (chars c)), words_of_word by done. cbn [app words_of].
  rewrite concat_chars by done. by destruct c.
Qed.

(** An ASCII byte is a character of its own, never a part of another one. *)
Definition ascii_alone (c : bytes) : Prop := ∀ x, x ∈ c → is_ascii x = true → c = [x].

Lemma in_range_not_ascii lo hi c : in_range lo hi c = true → 128 ≤ lo → is_ascii c = false.
Proof. unfold in_range, is_ascii. lia. Qed.

Lemma not_ascii_alone c : Forall (λ x, is_ascii x = false) c → ascii_alone c.
Proof. rewrite Forall_forall. intros Hc x Hx Ha. by rewrite (Hc x Hx) in Ha. Qed.

Lemma utf8_2_not_ascii a b : utf8_2 a b = true → Forall (λ x, is_ascii x = false) [a; b].
Proof.
  unfold utf8_2, cont, in_range, is_ascii. intros Hu. repeat constructor; lia.
Qed.

Lemma utf8_3_not_ascii a b c : utf8_3 a b c = true → Forall (λ x, is_ascii x = false) [a; b; c].
Proof.
  unfold utf8_3, cont, in_range, is_ascii. intros Hu. repeat constructor; lia.
Qed.

Lemma utf8_4_not_ascii a b c d : utf8_4 a b c d = true → Forall (λ x, is_ascii x = false) [a; b; c; d].
Proof.
  unfold utf8_4, cont, in_range, is_ascii. intros Hu. repeat constructor; lia.
Qed.

Lemma utf8_chars_alone n s cs :
  (length s ≤ n)%nat → utf8_chars s = Some cs → Forall ascii_alone cs.
Proof.
  revert s cs. induction n as [|n IH]; intros s cs Hn Hs.
  { destruct s; [|cbn in Hn; lia]. cbn in Hs. simplify_eq. constructor. }
  destruct s as [|a s1]; [cbn in Hs; simplify_eq; constructor|]. cbn in Hs, Hn.
  destruct (is_ascii a).
  { apply fmap_Some in Hs as (cs1 & Hc & ->). constructor; [|apply (IH s1); [lia|done]].
    by intros x Hx%list_elem_of_singleton _; subst. }
  destruct s1 as [|b s2]; [done|]. cbn in Hs, Hn. destruct (utf8_2 a b) eqn:H2.
  { apply fmap_Some in Hs as (cs1 & Hc & ->). constructor; [|apply (IH s2); [lia|done]].
    by apply not_ascii_alone, utf8_2_not_ascii. }
  destruct s2 as [|c s3]; [done|]. cbn in Hs, Hn. destruct (utf8_3 a b c) eqn:H3.
  { apply fmap_Some in Hs as (cs1 & Hc & ->). constructor; [|apply (IH s3); [lia|done]].
    by apply not_ascii_alone, utf8_3_not_ascii. }
  destruct s3 as [|d s4]; [done|]. cbn in Hs, Hn. destruct (utf8_4 a b c d) eqn:H4; [|done].
  apply fmap_Some in Hs as (cs1 & Hc & ->). constructor; [|apply (IH s4); [lia|done]].
  by apply not_ascii_alone, utf8_4_not_ascii.
Qed.

(** An ASCII character of a string is one of its characters. *)
Lemma ascii_in_chars s x : utf8_valid s = true → is_ascii x = true → x ∈ s → [x] ∈ chars s.
Proof.
  intros Hv Ha Hx. rewrite <- (concat_chars s Hv) in Hx.
  apply list_elem_of_In, in_concat in Hx as (c & Hc%list_elem_of_In & Hxc%list_elem_of_In).
  apply utf8_valid_some, (utf8_chars_alone _ _ _ (le_n _)) in Hv.
  rewrite Forall_forall in Hv. by rewrite <- (Hv c Hc x Hxc Ha).
Qed.

Lemma word_no_blank s x : word s → is_ascii x = true → is_whitespace [x] = true → x ∉ s.
Proof.
  intros (Hv & _ & Hw) Ha Hx Hin. rewrite Forall_forall in Hw.
  by rewrite (Hw [x] (ascii_in_chars s x Hv Ha Hin)) in Hx.
Qed.
