(* ===== verification/IpAddr.v ===== *)
(** * [std::net::IpAddr]: representation, parsing and display

    The program reads addresses out of configuration strings and requests
    ([s.parse::<IpAddr>()]) and prints them ([ip.to_string()]) to hand the text to
    another of its functions. The definitions follow the recursive-descent parser
    and the [Display] instances of Rust's standard library. *)

From S2P Require Import Prelude RustStr.

Local Open Scope Z_scope.

(** An address is its [octets()]: 4 or 16 bytes in network order. *)
Inductive IpAddr : Set :=
  | V4 (octets : bytes)
  | V6 (octets : bytes).

Definition octets (ip : IpAddr) : bytes := match ip with V4 o => o | V6 o => o end.

Definition ip_wf (ip : IpAddr) : Prop :=
  match ip with V4 o => length o = 4%nat | V6 o => length o = 16%nat end.

#[export] Instance IpAddr_eq_dec : EqDecision IpAddr.
Proof. solve_decision. Defined.

#[export] Instance IpAddr_countable : Countable IpAddr.
Proof.
  apply (inj_countable'
    (λ ip, match ip with V4 o => (true, o) | V6 o => (false, o) end)
    (λ p : bool * bytes, if p.1 then V4 p.2 else V6 p.2)).
  by intros [].
Defined.

Record SocketAddr : Set := { sa_ip : IpAddr; sa_port : Z }.

#[export] Instance SocketAddr_eq_dec : EqDecision SocketAddr.
Proof. solve_decision. Defined.

(** ** The 16-bit groups of an IPv6 address *)

Fixpoint segments (o : bytes) : list Z :=
  match o with
  | a :: b :: o' => (u8 a * 256 + u8 b) :: segments o'
  | _ => []
  end.

Definition of_segments (gs : list Z) : bytes := gs ≫= u16_be.

(** ** Parsing *)

Section parser.

(** The digits at the head of the input. *)
Fixpoint take_digits (radix : Z) (s : bytes) : list Z * bytes :=
  match s with
  | [] => ([], [])
  | c :: s' =>
      match to_digit radix c with
      | Some d => let '(ds, r) := take_digits radix s' in (d :: ds, r)
      | None => ([], s)
      end
  end.

Definition read_given_char (c : ascii) (s : bytes) : option bytes :=
  match s with
  | x :: s' => if bool_decide (x = c) then Some s' else None
  | [] => None
  end.

Definition read_separator {A} (sep : ascii) (i : nat)
    (inner : bytes → option (A * bytes)) (s : bytes) : option (A * bytes) :=
  match i with
  | O => inner s
  | S _ => match read_given_char sep s with Some s' => inner s' | None => None end
  end.

Definition read_number (radix : Z) (max_digits : option nat) (allow_zero_prefix : bool)
    (max : Z) (s : bytes) : option (Z * bytes) :=
  let '(ds, s') := take_digits radix s in
  let too_long := match max_digits with
                  | Some n => (n <? length ds)%nat
                  | None => false
                  end in
  let leading_zero := negb allow_zero_prefix && (1 <? length ds)%nat
                      && bool_decide (head ds = Some 0) in
  let v := digits_value radix 0 ds in
  if too_long || leading_zero || bool_decide (ds = []) || (max <? v) then None
  else Some (v, s').

(** [n] decimal octets separated by dots, the first of which is the [i]-th. *)
Fixpoint read_octets (n i : nat) (s : bytes) : option (bytes * bytes) :=
  match n with
  | O => Some ([], s)
  | S n' =>
      match read_separator "."%char i (read_number 10 (Some 3%nat) false U8_MAX) s with
      | None => None
      | Some (d, s') =>
          match read_octets n' (S i) s' with
          | None => None
          | Some (ds, s'') => Some (as_u8 d :: ds, s'')
          end
      end
  end.

Definition read_ipv4_addr (s : bytes) : option (bytes * bytes) := read_octets 4 0 s.

(** [read_groups]: at most [n] more groups, the first of which is the [i]-th; stops
    at an embedded IPv4 address (the flag) or at the first group it cannot read. *)
Fixpoint read_groups (n i : nat) (s : bytes) : list Z * bool * bytes :=
  match n with
  | O => ([], false, s)
  | S n' =>
      let v4 := match n' with
                | O => None
                | S _ => read_separator ":"%char i read_ipv4_addr s
                end in
      match v4 with
      | Some (o, s') => (segments o, true, s')
      | None =>
          match read_separator ":"%char i (read_number 16 (Some 4%nat) true U16_MAX) s with
          | None => ([], false, s)
          | Some (g, s') =>
              let '(gs, b, s'') := read_groups n' (S i) s' in (g :: gs, b, s'')
          end
      end
  end.

Definition read_ipv6_addr (s : bytes) : option (bytes * bytes) :=
  let '(hd, hd_ipv4, s1) := read_groups 8 0 s in
  if bool_decide (length hd = 8%nat) then Some (of_segments hd, s1)
  else if hd_ipv4 then None
  else match read_given_char ":"%char s1 with
  | None => None
  | Some s2 =>
      match read_given_char ":"%char s2 with
      | None => None
      | Some s3 =>
          let '(tl, _, s4) := read_groups (8 - (length hd + 1)) 0 s3 in
          let zeros := replicate (8 - length tl - length hd) 0 in
          Some (of_segments (hd ++ zeros ++ tl), s4)
      end
  end.

Definition read_ip_addr (s : bytes) : option (IpAddr * bytes) :=
  match read_ipv4_addr s with
  | Some (o, s') => Some (V4 o, s')
  | None => match read_ipv6_addr s with
            | Some (o, s') => Some (V6 o, s')
            | None => None
            end
  end.

Definition read_port (s : bytes) : option (Z * bytes) :=
  match read_given_char ":"%char s with
  | Some s' => read_number 10 None true U16_MAX s'
  | None => None
  end.

Definition read_socket_addr_v4 (s : bytes) : option (SocketAddr * bytes) :=
  match read_ipv4_addr s with
  | None => None
  | Some (o, s1) =>
      match read_port s1 with
      | None => None
      | Some (p, s2) => Some ({| sa_ip := V4 o; sa_port := p |}, s2)
      end
  end.

(** The optional [%scope] of an IPv6 socket address is read and dropped: this
    program never looks at it. *)
Definition skip_scope_id (s : bytes) : bytes :=
  match read_given_char "%"%char s with
  | None => s
  | Some s' => match read_number 10 None true U32_MAX s' with
               | Some (_, s'') => s''
               | None => s
               end
  end.

Definition read_socket_addr_v6 (s : bytes) : option (SocketAddr * bytes) :=
  match read_given_char "["%char s with
  | None => None
  | Some s1 =>
      match read_ipv6_addr s1 with
      | None => None
      | Some (o, s2) =>
          match read_given_char "]"%char (skip_scope_id s2) with
          | None => None
          | Some s3 =>
              match read_port s3 with
              | None => None
              | Some (p, s4) => Some ({| sa_ip := V6 o; sa_port := p |}, s4)
              end
          end
      end
  end.

(** [parse_with]: the whole input must be read. *)
Definition parse_with {A} (p : bytes → option (A * bytes)) (s : bytes) : option A :=
  match p s with
  | Some (a, []) => Some a
  | _ => None
  end.

Definition parse_ip : bytes → option IpAddr := parse_with read_ip_addr.

Definition parse_socket_addr : bytes → option SocketAddr :=
  parse_with (λ s, match read_socket_addr_v4 s with
                   | Some r => Some r
                   | None => read_socket_addr_v6 s
                   end).

End parser.

(** ** Display *)

Definition show_ipv4 (o : bytes) : bytes := join "."%char ((λ c, dec (u8 c)) <$> o).

(** The first of the longest runs of zero groups, as (start, length): [best] is the
    longest so far, [cur] the run that ends just before group [i]. *)
Fixpoint zero_span (i : nat) (best cur : nat * nat) (gs : list Z) : nat * nat :=
  match gs with
  | [] => best
  | g :: gs' =>
      if g =? 0 then
        let cur' := (if bool_decide (cur.2 = 0%nat) then i else cur.1, S cur.2) in
        zero_span (S i) (if (best.2 <? cur'.2)%nat then cur' else best) cur' gs'
      else zero_span (S i) best (0%nat, 0%nat) gs'
  end.

Definition show_groups (gs : list Z) : bytes := join ":"%char (hex <$> gs).

(** [Ipv6Addr::to_ipv4_mapped]. *)
Definition to_ipv4_mapped (o : bytes) : option bytes :=
  if bool_decide (take 12 o = replicate 10 "000"%char ++ ["255"%char; "255"%char])
  then Some (drop 12 o) else None.

Definition show_ipv6 (o : bytes) : bytes :=
  match to_ipv4_mapped o with
  | Some v4 => "::ffff:" ++ show_ipv4 v4
  | None =>
      let gs := segments o in
      let '(st, ln) := zero_span 0 (0, 0)%nat (0, 0)%nat gs in
      if (1 <? ln)%nat
      then show_groups (take st gs) ++ "::" ++ show_groups (drop (st + ln) gs)
      else show_groups gs
  end.

Definition show_ip (ip : IpAddr) : bytes :=
  match ip with V4 o => show_ipv4 o | V6 o => show_ipv6 o end.

Example show_ip_examples :
  parse_ip "10.0.0.1" = Some (V4 ["010"%char; "000"%char; "000"%char; "001"%char])
  ∧ parse_ip "10.0.0.01" = None
  ∧ parse_ip "10.0.0" = None
  ∧ show_ip <$> parse_ip "2001:DB8::0:1" = Some ("2001:db8::1" : bytes)
  ∧ show_ip <$> parse_ip "::ffff:1.2.3.4" = Some ("::ffff:1.2.3.4" : bytes)
  ∧ show_ip <$> parse_ip "1:2:3:4:5:6:7:8" = Some ("1:2:3:4:5:6:7:8" : bytes)
  ∧ parse_ip "1:2:3:4:5:6:7::" ≠ None
  ∧ parse_ip "1::2::3" = None
  ∧ parse_socket_addr "[::1]:80" ≠ None
  ∧ parse_socket_addr "::1:80" = None.
Proof. repeat split; vm_compute; congruence. Qed.

Lemma read_given_char_eq c s : read_given_char c (c :: s) = Some s.
Proof. cbn. by rewrite bool_decide_eq_true_2. Qed.

(** ** Well-formedness of what is parsed *)

Lemma read_octets_length n i s o r : read_octets n i s = Some (o, r) → length o = n.
Proof.
  revert i s o r. induction n as [|n IH]; intros i s o r; cbn; [by intros [= <- _]|].
  repeat case_match; try done. intros [= <- _]. cbn. f_equal. eauto.
Qed.

Lemma length_of_segments gs : length (of_segments gs) = (2 * length gs)%nat.
Proof.
  unfold of_segments. induction gs as [|g gs IH]; cbn; [done|].
  change (mbind u16_be gs) with (gs ≫= u16_be). rewrite IH. lia.
Qed.

Lemma length_segments o n : length o = (2 * n)%nat → length (segments o) = n.
Proof.
  revert o. induction n as [|n IH]; intros [|a [|b o]]; cbn; try lia.
  intros H. f_equal. apply IH. lia.
Qed.

Lemma read_groups_length n i s gs b r :
  read_groups n i s = (gs, b, r) → (length gs ≤ n)%nat.
Proof.
  revert i s gs b r. induction n as [|n IH]; intros i s gs b r; cbn; [by intros [= <- _ _]|].
  destruct (match n with O => None | S _ => _ end) as [[o s']|] eqn:Hv.
  - intros [= <- _ _]. destruct n as [|n]; [done|].
    unfold read_ipv4_addr, read_separator in Hv.
    assert (length o = 4%nat) as Ho.
    { destruct i; [by eapply read_octets_length|].
      destruct (read_given_char _ s); [by eapply read_octets_length | done]. }
    rewrite (length_segments o 2) by (rewrite Ho; done). lia.
  - destruct (read_separator ":"%char i (read_number _ _ _ _) s) as [[g s']|]; [|intros [= <- _ _]; cbn; lia].
    destruct (read_groups n (S i) s') as [[gs' b'] r'] eqn:Hr. intros [= <- _ _].
    apply IH in Hr. cbn. lia.
Qed.

Lemma parse_ip_wf s ip : parse_ip s = Some ip → ip_wf ip.
Proof.
  unfold parse_ip, parse_with. destruct (read_ip_addr s) as [[ip' [|]]|] eqn:H; try done.
  intros [= <-]. unfold read_ip_addr in H.
  destruct (read_ipv4_addr s) as [[o r]|] eqn:H4.
  { injection H as <- _. by eapply read_octets_length. }
  destruct (read_ipv6_addr s) as [[o r]|] eqn:H6; [|done]. injection H as <- _. cbn.
  unfold read_ipv6_addr in H6.
  destruct (read_groups 8 0 s) as [[hd b] s1] eqn:Hg.
  apply read_groups_length in Hg.
  case_bool_decide as Hl.
  { injection H6 as <- _. rewrite length_of_segments. lia. }
  destruct b; [done|].
  destruct (read_given_char _ s1) as [s2|]; [|done].
  destruct (read_given_char _ s2) as [s3|]; [|done].
  destruct (read_groups _ 0 s3) as [[tl b'] s4] eqn:Hg'.
  apply read_groups_length in Hg'.
  injection H6 as <- _. rewrite length_of_segments, !length_app, length_replicate. lia.
Qed.

(** ** Printing an address and parsing it back *)

Lemma take_digits_app radix ds rest :
  radix = 10 ∨ radix = 16 →
  Forall (λ d, 0 ≤ d < radix) ds →
  (∀ c r, rest = c :: r → to_digit radix c = None) →
  take_digits radix ((digit_char <$> ds) ++ rest) = (ds, rest).
Proof.
  intros Hr Hds Hrest. induction Hds as [|d ds Hd Hds IH]; cbn.
  - destruct rest as [|c r]; cbn; [done|]. by rewrite (Hrest c r).
  - rewrite to_digit_char by done. by rewrite IH.
Qed.

Lemma read_number_digits radix z ds n allow max rest :
  radix = 10 ∨ radix = 16 → digits_of radix z ds →
  z < radix ^ Z.of_nat n → n ≠ 0%nat → z ≤ max →
  (∀ c r, rest = c :: r → to_digit radix c = None) →
  read_number radix (Some n) allow max ((digit_char <$> ds) ++ rest) = Some (z, rest).
Proof.
  intros Hr Hds Hz Hn Hm Hrest. unfold read_number.
  pose proof (digits_of_length radix z ds n ltac:(lia) Hds Hz Hn) as Hl.
  pose proof (digits_of_nonempty _ _ _ Hds) as Hne. destruct Hds as [H1 H2 H3].
  rewrite take_digits_app by done. rewrite H2.
  rewrite (bool_decide_eq_false_2 (ds = [])) by done.
  destruct (Nat.ltb_spec n (length ds)); [lia|].
  destruct (Z.ltb_spec max z); [lia|].
  assert (negb allow && (1 <? length ds)%nat && bool_decide (head ds = Some 0) = false) as ->.
  { destruct H3 as [->|(d & ds' & -> & Hd)]; [by rewrite andb_false_r|].
    rewrite (bool_decide_eq_false_2 (head (d :: ds') = Some 0)); [by rewrite andb_false_r|].
    cbn. intros [= ->]. lia. }
  done.
Qed.

Lemma read_octet_dec c rest :
  (∀ x r, rest = x :: r → to_digit 10 x = None) →
  read_number 10 (Some 3%nat) false U8_MAX (dec (u8 c) ++ rest) = Some (u8 c, rest).
Proof.
  intros Hrest. pose proof (u8_range c). unfold U8_MAX.
  destruct (dec_digits (u8 c)) as (ds & -> & Hds); [lia|].
  apply read_number_digits; try done; try lia; by left.
Qed.

Lemma read_group_hex g rest :
  0 ≤ g ≤ U16_MAX →
  (∀ x r, rest = x :: r → to_digit 16 x = None) →
  read_number 16 (Some 4%nat) true U16_MAX (hex g ++ rest) = Some (g, rest).
Proof.
  intros Hg Hrest. unfold U16_MAX in *.
  destruct (hex_digits g) as (ds & -> & Hds); [lia|].
  apply read_number_digits; try done; try lia; by right.
Qed.

Lemma read_ipv4_show o rest :
  length o = 4%nat →
  (∀ c r, rest = c :: r → to_digit 10 c = None) →
  read_ipv4_addr (show_ipv4 o ++ rest) = Some (o, rest).
Proof.
  intros Ho Hrest. destruct o as [|a [|b [|c [|d [|]]]]]; try done.
  unfold read_ipv4_addr, show_ipv4. cbn [fmap list_fmap join].
  assert (∀ t, ∀ x r, "."%char :: t = x :: r → to_digit 10 x = None) as Hdot
    by (by intros t x r [= <- <-]).
  repeat (rewrite <- app_assoc; cbn [app]).
  cbn [read_octets read_separator].
  repeat (rewrite read_octet_dec by (apply Hdot || done); cbn [read_given_char];
          try rewrite bool_decide_eq_true_2 by done).
  by rewrite !as_u8_u8.
Qed.

(** Text with no dot in it is no IPv4 address. *)
Lemma take_digits_suffix radix s ds r : take_digits radix s = (ds, r) → r `suffix_of` s.
Proof.
  revert ds r. induction s as [|c s IH]; cbn; intros ds r; [intros [= _ <-]; done|].
  destruct (to_digit radix c); [|intros [= _ <-]; done].
  destruct (take_digits radix s) as [ds' r']. intros [= _ <-].
  apply suffix_cons_r. by eapply IH.
Qed.

Lemma read_number_suffix radix n a m s v r :
  read_number radix n a m s = Some (v, r) → r `suffix_of` s.
Proof.
  unfold read_number. destruct (take_digits radix s) as [ds r'] eqn:H.
  case_match; [done|]. intros [= _ <-]. by eapply take_digits_suffix.
Qed.

Lemma read_ipv4_no_dot s : "."%char ∉ s → read_ipv4_addr s = None.
Proof.
  intros Hs. unfold read_ipv4_addr. cbn [read_octets read_separator].
  destruct (read_number 10 _ _ _ s) as [[v r]|] eqn:H; [|done].
  apply read_number_suffix in H as [k ->].
  destruct r as [|c r]; cbn [read_given_char]; [done|].
  case_bool_decide; [|done]. subst. set_solver.
Qed.

Lemma read_sep_ipv4_no_dot i s :
  "."%char ∉ s → read_separator ":"%char i read_ipv4_addr s = None.
Proof.
  intros Hs. destruct i; [by apply read_ipv4_no_dot|].
  unfold read_separator. destruct s as [|c s]; cbn [read_given_char]; [done|].
  case_bool_decide; [|done]. apply read_ipv4_no_dot. set_solver.
Qed.

(** The text of the groups [gs] when the first of them is the [i]-th. *)
Fixpoint group_text (i : nat) (gs : list Z) : bytes :=
  match gs with
  | [] => []
  | g :: gs' => (match i with O => [] | S _ => [":"%char] end) ++ hex g ++ group_text (S i) gs'
  end.

Lemma group_text_S i gs :
  group_text (S i) gs = match gs with [] => [] | _ => ":"%char :: show_groups gs end.
Proof.
  revert i. induction gs as [|g gs IH]; intros i; [done|]. cbn -[hex]. f_equal.
  rewrite IH. destruct gs as [|g' gs]; [by rewrite app_nil_r|]. done.
Qed.

Lemma show_groups_text gs : show_groups gs = group_text 0 gs.
Proof.
  destruct gs as [|g gs]; [done|]. cbn -[hex show_groups]. rewrite group_text_S.
  destruct gs as [|g' gs]; [by rewrite app_nil_r|]. done.
Qed.

Definition group_wf (g : Z) : Prop := 0 ≤ g ≤ U16_MAX.

Lemma hex_chars g c : 0 ≤ g → c ∈ hex g → c ≠ "."%char ∧ c ≠ ":"%char.
Proof.
  intros Hg. destruct (hex_digits g Hg) as (ds & -> & [Hr _ _]).
  intros (d & -> & Hd)%list_elem_of_fmap.
  rewrite Forall_forall in Hr. specialize (Hr d Hd).
  unfold digit_char. split; intros Heq; apply (f_equal u8) in Heq; revert Heq;
    destruct (Z.ltb_spec d 10); rewrite u8_as_u8_small by lia.
  1,2: change (u8 "."%char) with 46; lia.
  1,2: change (u8 ":"%char) with 58; lia.
Qed.

Lemma group_text_no_dot i gs : Forall group_wf gs → "."%char ∉ group_text i gs.
Proof.
  intros Hgs. revert i. induction Hgs as [|g gs Hg Hgs IH]; intros i; cbn -[hex].
  - apply not_elem_of_nil.
  - rewrite !not_elem_of_app. repeat split; [destruct i; set_solver| |apply IH].
    intros Hin. apply hex_chars in Hin as [? _]; [done|]. unfold group_wf in Hg. lia.
Qed.

(** What may follow the groups: nothing, or the [::] of a compressed run. *)
Definition groups_stop (rest : bytes) : Prop := rest = [] ∨ ∃ r, rest = ":"%char :: ":"%char :: r.

Lemma groups_stop_digit rest c r : groups_stop rest → rest = c :: r → to_digit 16 c = None.
Proof. intros [->|[r' ->]]; [done|]. by intros [= <- _]. Qed.

Lemma read_groups_stop n i rest :
  "."%char ∉ rest → groups_stop rest → read_groups n i rest = ([], false, rest).
Proof.
  intros Hdot Hstop. destruct n as [|n]; cbn; [done|].
  pose proof (read_sep_ipv4_no_dot i rest Hdot) as Hv4.
  assert (match n with O => None | S _ => read_separator ":"%char i read_ipv4_addr rest end = None)
    as -> by (by destruct n).
  by destruct i, Hstop as [->|[r ->]].
Qed.

Lemma read_groups_text n i gs rest :
  Forall group_wf gs → "."%char ∉ rest → groups_stop rest → (length gs ≤ n)%nat →
  read_groups n i (group_text i gs ++ rest) = (gs, false, rest).
Proof.
  intros Hgs Hdot Hstop. revert n i.
  induction Hgs as [|g gs Hg Hgs IH]; intros n i Hl; [by apply read_groups_stop|].
  destruct n as [|n]; cbn in Hl; [lia|]. cbn [read_groups].
  assert (read_separator ":"%char i read_ipv4_addr (group_text i (g :: gs) ++ rest) = None) as Hv4.
  { pose proof (group_text_no_dot i (g :: gs) ltac:(by constructor)) as Hnd.
    apply read_sep_ipv4_no_dot. rewrite not_elem_of_app. done. }
  rewrite Hv4.
  assert (match n with O => None | S _ => None end = @None (bytes * bytes)) as -> by (by destruct n).
  assert (read_separator ":"%char i (read_number 16 (Some 4%nat) true U16_MAX)
            (group_text i (g :: gs) ++ rest) = Some (g, group_text (S i) gs ++ rest)) as ->.
  { assert (∀ x r, group_text (S i) gs ++ rest = x :: r → to_digit 16 x = None) as Hnx.
    { intros x r. rewrite group_text_S. destruct gs; cbn [app].
      - by apply groups_stop_digit.
      - by intros [= <- _]. }
    destruct i; cbn -[hex]; rewrite <- app_assoc; by apply read_group_hex. }
  rewrite IH by lia. done.
Qed.

(** A run [(start, length)] of zero groups of [gs]. *)
Definition zero_run (gs : list Z) (p : nat * nat) : Prop :=
  (p.1 + p.2 ≤ length gs)%nat ∧ ∀ k, (p.1 ≤ k < p.1 + p.2)%nat → gs !! k = Some 0.

Lemma zero_span_run gs i best cur :
  (i ≤ length gs)%nat → zero_run gs best → zero_run gs cur →
  (cur.2 = 0%nat ∨ (cur.1 + cur.2)%nat = i) →
  zero_run gs (zero_span i best cur (drop i gs)).
Proof.
  remember (drop i gs) as rest eqn:Hrest. revert i best cur Hrest.
  induction rest as [|g rest IH]; intros i best cur Hrest Hi Hb Hc Hcur; [done|].
  assert (gs !! i = Some g) as Hg.
  { rewrite <- (Nat.add_0_r i), <- lookup_drop, <- Hrest. done. }
  assert (rest = drop (S i) gs) as Hrest'.
  { replace (S i) with (i + 1)%nat by lia. rewrite <- drop_drop, <- Hrest. done. }
  assert (S i ≤ length gs)%nat as Hi' by (apply lookup_lt_Some in Hg; lia).
  cbn -[Nat.ltb]. destruct (Z.eqb_spec g 0) as [->|]; cbn -[Nat.ltb].
  - set (cur' := (if bool_decide (cur.2 = 0%nat) then i else cur.1, S cur.2)).
    assert (zero_run gs cur' ∧ (cur'.1 + cur'.2)%nat = S i) as [Hc' Hend].
    { unfold cur', zero_run in *. cbn. case_bool_decide as H0.
      - rewrite H0. repeat split; try lia. intros k Hk. by replace k with i by lia.
      - destruct Hcur as [|Hcur]; [done|]. repeat split; try lia.
        intros k Hk. destruct (decide (k = i)) as [->|]; [done|]. apply Hc. lia. }
    change (S cur.2) with cur'.2. apply IH; auto. by case_match.
  - apply IH; auto. split; cbn; [lia|]. lia.
Qed.

Lemma zero_run_split gs st ln :
  zero_run gs (st, ln) → gs = take st gs ++ replicate ln 0 ++ drop (st + ln) gs.
Proof.
  intros [Hl Hz]. cbn in *. rewrite <- (take_drop st gs) at 1. f_equal.
  rewrite <- drop_drop. rewrite <- (take_drop ln (drop st gs)) at 1. f_equal.
  apply list_eq. intros k. destruct (decide (k < ln)%nat).
  - rewrite lookup_take_lt, lookup_drop, Hz, lookup_replicate_2 by lia. done.
  - rewrite lookup_take_ge by lia. symmetry. apply lookup_replicate_None. lia.
Qed.

Lemma of_segments_segments o n : length o = (2 * n)%nat → of_segments (segments o) = o.
Proof.
  revert o. induction n as [|n IH]; intros [|a [|b o]] H; cbn in H; try lia; [done|].
  cbn [segments]. unfold of_segments. cbn [mbind list_bind].
  change (mbind u16_be (segments o)) with (of_segments (segments o)).
  rewrite IH by lia. unfold u16_be.
  pose proof (u8_range a). pose proof (u8_range b).
  rewrite (Z.add_comm (u8 a * 256)), Z.div_add, Z.div_small by lia.
  rewrite Z.add_0_l, as_u8_u8. cbn [app]. f_equal. f_equal.
  apply u8_inj. rewrite u8_as_u8, Z.add_mod, Z.mod_mul, Z.add_0_r, Z.mod_mod by lia.
  by apply Z.mod_small.
Qed.

Lemma segments_wf o : Forall group_wf (segments o).
Proof.
  assert (∀ n o, (length o ≤ n)%nat → Forall group_wf (segments o)) as H; [|by eapply H].
  clear o. induction n as [|n IH]; intros [|a [|b o]] Hl; cbn in *; try constructor; try lia.
  - unfold group_wf, U16_MAX. pose proof (u8_range a). pose proof (u8_range b). lia.
  - apply IH. lia.
Qed.

Lemma read_ipv6_groups gs :
  Forall group_wf gs → length gs = 8%nat →
  read_ipv6_addr (show_groups gs) = Some (of_segments gs, []).
Proof.
  intros Hgs Hl. unfold read_ipv6_addr.
  rewrite show_groups_text, <- (app_nil_r (group_text 0 gs)).
  rewrite read_groups_text by (done || lia || apply not_elem_of_nil || by left).
  by rewrite bool_decide_eq_true_2.
Qed.

Lemma read_ipv6_compressed hs ln ts :
  Forall group_wf hs → Forall group_wf ts → (2 ≤ ln)%nat →
  (length hs + ln + length ts = 8)%nat →
  read_ipv6_addr (show_groups hs ++ "::" ++ show_groups ts)
  = Some (of_segments (hs ++ replicate ln 0 ++ ts), []).
Proof.
  intros Hhs Hts Hln Hl. unfold read_ipv6_addr. rewrite !show_groups_text.
  pose proof (group_text_no_dot 0 ts Hts) as Hdot.
  change (bstr "::" ++ group_text 0 ts) with (":"%char :: ":"%char :: group_text 0 ts).
  rewrite read_groups_text; [|done|set_solver|right; eauto|lia].
  rewrite bool_decide_eq_false_2 by lia.
  rewrite read_given_char_eq. cbv iota. rewrite read_given_char_eq. cbv iota.
  rewrite <- (app_nil_r (group_text 0 ts)).
  rewrite read_groups_text by (done || lia || apply not_elem_of_nil || by left).
  by replace (8 - length ts - length hs)%nat with ln by lia.
Qed.

Lemma read_groups_ipv4 n i s o s' :
  read_separator ":"%char i read_ipv4_addr s = Some (o, s') →
  read_groups (S (S n)) i s = (segments o, true, s').
Proof. intros H. cbn [read_groups]. by rewrite H. Qed.

Lemma read_groups_group n i s g s' :
  read_separator ":"%char i read_ipv4_addr s = None →
  read_separator ":"%char i (read_number 16 (Some 4%nat) true U16_MAX) s = Some (g, s') →
  read_groups (S n) i s = let '(gs, b, s'') := read_groups n (S i) s' in (g :: gs, b, s'').
Proof. intros H1 H2. cbn [read_groups]. rewrite H1, H2. by destruct n. Qed.

Lemma read_ipv6_mapped v4 :
  length v4 = 4%nat →
  read_ipv6_addr ("::ffff:" ++ show_ipv4 v4)
  = Some (replicate 10 "000"%char ++ ["255"%char; "255"%char] ++ v4, []).
Proof.
  intros Hl. unfold read_ipv6_addr.
  change (bstr "::ffff:" ++ show_ipv4 v4) with (":"%char :: ":"%char :: (bstr "ffff:" ++ show_ipv4 v4)).
  assert (read_groups 8 0 (":"%char :: ":"%char :: (bstr "ffff:" ++ show_ipv4 v4))
          = ([], false, ":"%char :: ":"%char :: (bstr "ffff:" ++ show_ipv4 v4))) as -> by done.
  rewrite bool_decide_eq_false_2 by done.
  rewrite read_given_char_eq. cbv iota. rewrite read_given_char_eq. cbv iota.
  assert (read_groups (8 - (length (@nil Z) + 1)) 0 (bstr "ffff:" ++ show_ipv4 v4)
          = (65535 :: segments v4, true, [])) as ->.
  { pose proof (read_ipv4_show v4 [] Hl ltac:(done)) as H4. rewrite app_nil_r in H4.
    change (8 - (length (@nil Z) + 1))%nat with 7%nat.
    rewrite (read_groups_group 6 0 _ 65535 (":"%char :: show_ipv4 v4)) by done.
    by rewrite (read_groups_ipv4 4 1 _ v4 []) by exact H4. }
  destruct v4 as [|a [|b [|c [|d [|]]]]]; try done.
  pose proof (of_segments_segments [a; b; c; d] 2 eq_refl) as Hseg.
  cbn [segments length] in *. cbn -[u8 u16_be Z.mul] in *. by rewrite Hseg.
Qed.

Lemma show_groups_no_dot gs : Forall group_wf gs → "."%char ∉ show_groups gs.
Proof. rewrite show_groups_text. apply group_text_no_dot. Qed.

Lemma parse_ip_v6 s o :
  read_ipv4_addr s = None → read_ipv6_addr s = Some (o, []) → parse_ip s = Some (V6 o).
Proof. intros H4 H6. unfold parse_ip, parse_with, read_ip_addr. by rewrite H4, H6. Qed.

Lemma parse_show_ipv6 o : length o = 16%nat → parse_ip (show_ipv6 o) = Some (V6 o).
Proof.
  intros Hl. unfold show_ipv6, to_ipv4_mapped. case_bool_decide as Hm.
  { assert (o = replicate 10 "000"%char ++ ["255"%char; "255"%char] ++ drop 12 o) as Ho.
    { rewrite app_assoc, <- Hm. by rewrite take_drop. }
    rewrite Ho at 2. apply parse_ip_v6; [done|]. apply read_ipv6_mapped.
    rewrite length_drop. lia. }
  pose proof (segments_wf o) as Hwf.
  pose proof (length_segments o 8 ltac:(lia)) as Hl8.
  pose proof (zero_span_run (segments o) 0 (0, 0)%nat (0, 0)%nat ltac:(lia)) as Hrun.
  destruct (zero_span 0 (0, 0)%nat (0, 0)%nat (segments o)) as [st ln] eqn:Hz.
  rewrite drop_0, Hz in Hrun.
  assert (zero_run (segments o) (st, ln)) as Hr.
  { apply Hrun; [split; cbn; [lia|] .. |by left]; lia. }
  replace (V6 o) with (V6 (of_segments (segments o))) by (by rewrite (of_segments_segments o 8)).
  destruct (Nat.ltb_spec 1 ln).
  - pose proof (Forall_take _ st _ Hwf). pose proof (Forall_drop _ (st + ln) _ Hwf).
    replace (of_segments (segments o))
      with (of_segments (take st (segments o) ++ replicate ln 0 ++ drop (st + ln) (segments o)))
      by (by rewrite <- (zero_run_split _ _ _ Hr)).
    destruct Hr as [Hr _]. cbn in Hr. apply parse_ip_v6.
    + apply read_ipv4_no_dot. rewrite !not_elem_of_app. repeat split.
      * by apply show_groups_no_dot.
      * decide_closed.
      * by apply show_groups_no_dot.
    + apply read_ipv6_compressed; try done.
      rewrite length_take, length_drop. lia.
  - apply parse_ip_v6; [by apply read_ipv4_no_dot, show_groups_no_dot|].
    by apply read_ipv6_groups.
Qed.

(** Every address is recovered from its text. *)
Lemma parse_show_ip ip : ip_wf ip → parse_ip (show_ip ip) = Some ip.
Proof.
  destruct ip as [o|o]; cbn; intros Hl.
  - unfold parse_ip, parse_with, read_ip_addr.
    by rewrite <- (app_nil_r (show_ipv4 o)), read_ipv4_show.
  - by apply parse_show_ipv6.
Qed.

(** ** Socket addresses *)

(** A colon ends an IPv4 address. *)
Lemma take_digits_colon s t :
  take_digits 10 (s ++ ":"%char :: t)
  = let '(ds, r) := take_digits 10 s in (ds, r ++ ":"%char :: t).
Proof.
  induction s as [|c s IH]; cbn [take_digits app]; [done|].
  destruct (to_digit 10 c); [|done]. rewrite IH. by destruct (take_digits 10 s).
Qed.

Lemma read_number_colon n a m s t :
  read_number 10 n a m (s ++ ":"%char :: t)
  = (λ p, (p.1, p.2 ++ ":"%char :: t)) <$> read_number 10 n a m s.
Proof.
  unfold read_number. rewrite take_digits_colon.
  destruct (take_digits 10 s) as [ds r]. by case_match.
Qed.

Lemma read_octets_colon n i s t :
  read_octets n i (s ++ ":"%char :: t)
  = (λ p, (p.1, p.2 ++ ":"%char :: t)) <$> read_octets n i s.
Proof.
  revert i s. induction n as [|n IH]; intros i s; [done|]. cbn [read_octets].
  assert (read_separator "."%char i (read_number 10 (Some 3%nat) false U8_MAX) (s ++ ":"%char :: t)
    = (λ p, (p.1, p.2 ++ ":"%char :: t))
        <$> read_separator "."%char i (read_number 10 (Some 3%nat) false U8_MAX) s) as ->.
  { destruct i; [apply read_number_colon|]. unfold read_separator.
    destruct s as [|c s]; cbn [app read_given_char]; [by rewrite bool_decide_eq_false_2|].
    case_bool_decide; [apply read_number_colon | done]. }
  destruct (read_separator _ i _ s) as [[d s']|]; cbn; [|done].
  rewrite IH. by destruct (read_octets n (S i) s') as [[ds s'']|].
Qed.

Lemma read_port_dec p : 0 ≤ p ≤ U16_MAX → read_port (":"%char :: dec p) = Some (p, []).
Proof.
  intros Hp. unfold read_port. rewrite read_given_char_eq.
  destruct (dec_digits p) as (ds & -> & Hds); [lia|].
  pose proof (digits_of_nonempty _ _ _ Hds). destruct Hds as [H1 H2 _].
  unfold read_number. rewrite <- (app_nil_r (digit_char <$> ds)).
  rewrite take_digits_app by (done || by left). rewrite H2.
  rewrite (bool_decide_eq_false_2 (ds = [])) by done. cbn.
  destruct (Z.ltb_spec U16_MAX p); [lia|done].
Qed.

Lemma parse_socket_addr_v4 s o p :
  parse_ip s = Some (V4 o) → 0 ≤ p ≤ U16_MAX →
  parse_socket_addr (s ++ ":" ++ dec p) = Some {| sa_ip := V4 o; sa_port := p |}.
Proof.
  intros Hs Hp. unfold parse_socket_addr, parse_with, read_socket_addr_v4, read_ipv4_addr.
  change (bstr ":" ++ dec p) with (":"%char :: dec p). rewrite read_octets_colon.
  unfold parse_ip, parse_with, read_ip_addr, read_ipv4_addr in Hs.
  destruct (read_octets 4 0 s) as [[o' [|]]|]; try done.
  - injection Hs as ->. cbn [fmap option_fmap option_map fst snd app].
    by rewrite read_port_dec.
  - destruct (read_ipv6_addr s) as [[? [|]]|]; done.
Qed.

(** The text of an IPv6 address followed by a colon and a port is no socket address:
    the standard library wants the address in brackets. *)
Lemma parse_socket_addr_v6 s o p :
  parse_ip s = Some (V6 o) → parse_socket_addr (s ++ ":" ++ dec p) = None.
Proof.
  intros Hs. unfold parse_socket_addr, parse_with.
  unfold parse_ip, parse_with, read_ip_addr in Hs.
  change (bstr ":" ++ dec p) with (":"%char :: dec p).
  destruct (read_ipv4_addr s) as [[o' r]|] eqn:H4; [by destruct r|].
  assert (read_socket_addr_v4 (s ++ ":"%char :: dec p) = None) as ->.
  { unfold read_socket_addr_v4, read_ipv4_addr in *. by rewrite read_octets_colon, H4. }
  assert (read_socket_addr_v6 (s ++ ":"%char :: dec p) = None) as ->; [|done].
  unfold read_socket_addr_v6.
  assert (read_given_char "["%char (s ++ ":"%char :: dec p) = None) as ->; [|done].
  destruct s as [|c s]; cbn [app read_given_char].
  { by rewrite bool_decide_eq_false_2. }
  case_bool_decide as Hc; [|done]. subst c. exfalso. revert Hs.
  change (read_ipv6_addr ("["%char :: s)) with (@None (bytes * bytes)). done.
Qed.

(** ** The characters of an address's text *)

Definition ip_char (c : ascii) : Prop :=
  c = "."%char ∨ c = ":"%char ∨ is_Some (to_digit 16 c).

Lemma digits_ip_char radix ds :
  radix = 10 ∨ radix = 16 → Forall (λ d, 0 ≤ d < radix) ds →
  Forall ip_char (digit_char <$> ds).
Proof.
  intros Hr Hds. apply Forall_fmap. eapply Forall_impl; [exact Hds|].
  intros d Hd. cbn in Hd. right. right. exists d.
  apply to_digit_char; [by right | destruct Hr; lia].
Qed.

Lemma join_Forall (P : ascii → Prop) c ws :
  P c → Forall (Forall P) ws → Forall P (join c ws).
Proof.
  intros Hc. induction 1 as [|w ws Hw Hws IH]; cbn; [constructor|].
  destruct ws as [|w' ws]; [done|]. apply Forall_app. split; [done|]. by constructor.
Qed.

Lemma show_ipv4_chars o : Forall ip_char (show_ipv4 o).
Proof.
  apply join_Forall; [by left|]. apply Forall_fmap, Forall_true. intros c.
  pose proof (u8_range c). destruct (dec_digits (u8 c)) as (ds & Heq & [Hr _ _]); [lia|].
  change (Forall ip_char (dec (u8 c))). rewrite Heq. eapply digits_ip_char; [|done]. by left.
Qed.

Lemma show_groups_chars gs : Forall group_wf gs → Forall ip_char (show_groups gs).
Proof.
  intros Hgs. apply join_Forall; [by right; left|].
  apply Forall_fmap. eapply Forall_impl; [exact Hgs|]. intros g Hg. unfold group_wf in Hg.
  destruct (hex_digits g) as (ds & Heq & [Hr _ _]); [lia|].
  change (Forall ip_char (hex g)). rewrite Heq. eapply digits_ip_char; [|done]. by right.
Qed.

Lemma show_ip_chars ip : Forall ip_char (show_ip ip).
Proof.
  destruct ip as [o|o]; [apply show_ipv4_chars|]. cbn. unfold show_ipv6.
  pose proof (segments_wf o) as Hwf.
  destruct (to_ipv4_mapped o) as [v4|].
  - apply Forall_app. split; [|apply show_ipv4_chars].
    repeat (apply Forall_cons; split; [unfold ip_char; cbn; eauto 4|]). constructor.
  - destruct (zero_span 0 _ _ _) as [st ln]. case_match; [|by apply show_groups_chars].
    rewrite !Forall_app. repeat split.
    + by apply show_groups_chars, Forall_take.
    + by repeat (apply Forall_cons; split; [by right; left|]).
    + by apply show_groups_chars, Forall_drop.
Qed.

Lemma show_ip_not_in ip c : ¬ ip_char c → c ∉ show_ip ip.
Proof. intros Hc Hin. apply Hc. pose proof (show_ip_chars ip) as H. rewrite Forall_forall in H. auto. Qed.
