(* ===== verification/Effects.v ===== *)
(** * Effectful programs

    An [async fn] of the program is a tree of the calls it makes to code that is not
    its own (Tokio streams, the resolver, the file system, the environment, the
    authentication libraries, the clock) and of its accesses to the state it shares
    with the other tasks. Every such call is an event whose response is chosen by the
    environment; an access to shared state is one atomic step. Nothing is assumed of
    the responses except [resp_ok], which holds documented facts of the calls. *)

From S2P Require Import Prelude RustStr IpAddr.

Local Open Scope Z_scope.

(** A stream handle (a TcpStream, or the BufReader built on it). *)
Abbreviation sid := nat.

(** What [setup_logging] hands to the tracing library: where the log goes. *)
Inductive log_layer : Set :=
  | ConsoleLayer
  | FileLayer (directory file : bytes)
  | JournaldLayer.

(** How an access to the shared state takes its lock. [Atomic] is an atomic operation or
    a mutex released in the same step. The server's state is behind a reader-writer lock:
    [ReadGuard] takes a read guard, reads and drops it; [WriteGuard] takes the write
    guard, writes, and keeps the guard, until [DropWrite]. *)
Inductive access : Set := Atomic | ReadGuard | WriteGuard | DropWrite.

Section effects.

Context {Sh : Type}.

(** ** Events

    [result (result A)] is the response of an LDAP operation: the outer level is the
    transport, the inner one the directory's result code ([.success()]). *)
Inductive eff : Type → Type :=
  (* streams *)
  | ReadExact (s : sid) (n : nat) : eff (result bytes)
  | WriteAll (s : sid) (bs : bytes) : eff (result unit)
  | Flush (s : sid) : eff (result unit)
  | ReadLine (s : sid) (limit : option Z) : eff (result bytes)
  | BufReaderNew (s : sid) : eff unit
  | BufReaderIntoInner (s : sid) : eff unit
  | LocalAddr (s : sid) : eff (result SocketAddr)
  | CopyBidirectional (client target : sid) : eff (result (Z * Z))
  (* network *)
  | TcpConnect (a : SocketAddr) : eff (result sid)
  | TcpConnectName (host_port : bytes) : eff (result sid)
  | LookupIp (host : bytes) : eff (result (list IpAddr))
  | LookupHost (host_port : bytes) : eff (result (list SocketAddr))
  (* process environment and files *)
  | EnvVar (name : bytes) : eff (option bytes)
  | PathExists (path : bytes) : eff bool
  | ReadFile (path : bytes) : eff (result bytes)
  | WriteFile (path content : bytes) : eff (result unit)
  (* clocks and randomness *)
  | InstantNow : eff Z
  | Instants : eff (nat → Z)   (* successive readings, as a loop takes them *)
  | UtcNow : eff bytes
  | RandAlphanumeric (n : nat) : eff bytes
  (* authentication libraries *)
  | HashPassword (algorithm password : bytes) : eff (result (bytes * bytes))
  | LdapConnect (url : bytes) : eff (result unit)
  | LdapSimpleBind (dn password : bytes) : eff (result (result unit))
  | LdapSearch (base filter : bytes) : eff (result (result (list bytes)))
  | PamWithPassword (service : bytes) : eff (result unit)
  | PamAuthenticate (service username password : bytes) : eff (result unit)
  | SqlConnect (backend url : bytes) : eff (result unit)
  | SqlFetchOptional (backend query username : bytes) : eff (result (option bytes))
  (* the process: listeners, standard streams, logging *)
  | TcpBind (a : SocketAddr) : eff (result unit)
  | Print (text : bytes) : eff unit
  | Eprint (text : bytes) : eff unit
  | StdoutFlush : eff (result unit)
  | StdinLine : eff (result bytes)
  | EnvFilterFromEnv : eff (option bytes)
  | LogFileOpen (directory file : bytes) : eff (result unit)
  | JournaldConnect : eff (result unit)
  | InitSubscriber (layers : list log_layer) (filter : bytes) : eff unit
  (* the state shared between tasks: one atomic access *)
  | Locked {R : Type} (a : access) (f : Sh → R * Sh) : eff R.

(** Documented facts of the responses: [read_exact] fills the whole buffer or fails;
    [read_line] returns valid UTF-8 and, behind a [take], no more than the limit; the
    monotonic clock does not run backwards. *)
Definition resp_ok {R} (e : eff R) : R → Prop :=
  match e in eff R return R → Prop with
  | ReadExact _ n => λ r, match r with Ok bs => length bs = n | Err _ => True end
  | ReadLine _ lim => λ r,
      match r with
      | Ok bs => utf8_valid bs = true ∧
                 match lim with Some l => Z.of_nat (length bs) ≤ Z.max 0 l | None => True end
      | Err _ => True
      end
  | Instants => λ f, ∀ i j, (i ≤ j)%nat → f i ≤ f j
  | _ => λ _, True
  end.

(** ** Programs *)

Inductive prog (A : Type) : Type :=
  | Ret (a : A)
  | Op {R : Type} (e : eff R) (k : R → prog A).
Arguments Ret {A} a.
Arguments Op {A R} e k.

Fixpoint bind {A B} (p : prog A) (f : A → prog B) : prog B :=
  match p with
  | Ret a => f a
  | Op e k => Op e (λ r, bind (k r) f)
  end.

Definition perform {R} (e : eff R) : prog R := Op e Ret.

(** [f.await?]: an error ends the function. *)
Definition bind_q {A B} (p : prog (result A)) (f : A → prog (result B)) : prog (result B) :=
  bind p (λ r, match r with Ok a => f a | Err e => Ret (Err e) end).

(** ** Runs *)

Inductive event : Type :=
  | Ev {R : Type} (e : eff R) (r : R).

(** An environment with its own state. *)
Definition handler (S : Type) : Type := ∀ R, eff R → S → R * S.

Definition lawful {S} (h : handler S) : Prop := ∀ R (e : eff R) s, resp_ok e (h R e s).1.

(** The result, the environment's last state, and the events with their responses. *)
Fixpoint run {S A} (h : handler S) (p : prog A) (s : S) : A * S * list event :=
  match p with
  | Ret a => (a, s, [])
  | Op e k =>
      let '(r, s1) := h _ e s in
      let '(a, s2, tr) := run h (k r) s1 in (a, s2, Ev e r :: tr)
  end.

Definition result_of {S A} (x : A * S * list event) : A := x.1.1.
Definition state_of {S A} (x : A * S * list event) : S := x.1.2.
Definition trace_of {S A} (x : A * S * list event) : list event := x.2.

Lemma run_bind {S A B} (h : handler S) (p : prog A) (f : A → prog B) s :
  run h (bind p f) s =
  let '(a, s1, t1) := run h p s in
  let '(b, s2, t2) := run h (f a) s1 in (b, s2, t1 ++ t2).
Proof.
  revert s. induction p as [a|R e k IH]; intros s; cbn.
  - by destruct (run h (f a) s) as [[b s2] t2].
  - destruct (h R e s) as [r s1]. rewrite IH.
    destruct (run h (k r) s1) as [[a s2] t1].
    by destruct (run h (f a) s2) as [[b s3] t2].
Qed.

Lemma run_bind_q {S A B} (h : handler S) (p : prog (result A)) (f : A → prog (result B)) s :
  run h (bind_q p f) s =
  let '(r, s1, t1) := run h p s in
  match r with
  | Ok a => let '(b, s2, t2) := run h (f a) s1 in (b, s2, t1 ++ t2)
  | Err e => (Err e, s1, t1)
  end.
Proof.
  unfold bind_q. rewrite run_bind. destruct (run h p s) as [[[a|e] s1] t1]; [done|].
  cbn. by rewrite app_nil_r.
Qed.

(** ** Postconditions over every environment

    [wp L p Q tr]: however the environment answers within [L], [p] started after the
    events [tr] ends with a result and a trace that satisfy [Q]. [L] is [resp_ok], or
    [any_resp] when nothing is assumed of the environment. *)

Definition any_resp {R} (_ : eff R) (_ : R) : Prop := True.

Section wp.

Context (L : ∀ R, eff R → R → Prop).

Fixpoint wp {A} (p : prog A) (Q : A → list event → Prop) (tr : list event) : Prop :=
  match p with
  | Ret a => Q a tr
  | Op e k => ∀ r, L _ e r → wp (k r) Q (tr ++ [Ev e r])
  end.

Lemma wp_mono {A} (p : prog A) (Q Q' : A → list event → Prop) tr :
  (∀ a tr', Q a tr' → Q' a tr') → wp p Q tr → wp p Q' tr.
Proof. intros HQ. revert tr. induction p; cbn; eauto. Qed.

Lemma wp_bind {A B} (p : prog A) (f : A → prog B) Q tr :
  wp (bind p f) Q tr ↔ wp p (λ a tr', wp (f a) Q tr') tr.
Proof.
  revert tr. induction p as [a|R e k IH]; intros tr; cbn; [done|].
  split; intros H r Hr; apply IH; auto.
Qed.

Lemma wp_bind_q {A B} (p : prog (result A)) (f : A → prog (result B)) Q tr :
  wp (bind_q p f) Q tr ↔
  wp p (λ r tr', match r with Ok a => wp (f a) Q tr' | Err e => Q (Err e) tr' end) tr.
Proof.
  unfold bind_q. rewrite wp_bind. split; apply wp_mono; by intros [].
Qed.

(** The rules in the direction proofs use them. *)
Lemma wp_bind_intro {A B} (p : prog A) (f : A → prog B) (P : A → list event → Prop) Q tr :
  wp p P tr → (∀ a tr', P a tr' → wp (f a) Q tr') → wp (bind p f) Q tr.
Proof. intros Hp Hf. apply wp_bind. by eapply wp_mono; [|exact Hp]. Qed.

Lemma wp_bind_q_intro {A B} (p : prog (result A)) (f : A → prog (result B))
    (P : result A → list event → Prop) Q tr :
  wp p P tr →
  (∀ a tr', P (Ok a) tr' → wp (f a) Q tr') →
  (∀ e tr', P (Err e) tr' → Q (Err e) tr') →
  wp (bind_q p f) Q tr.
Proof. intros Hp Ha He. apply wp_bind_q. eapply wp_mono; [|exact Hp]. intros []; auto. Qed.

(** A trace only grows. *)
Lemma wp_prefix {A} (p : prog A) tr : wp p (λ _ tr', tr `prefix_of` tr') tr.
Proof.
  revert tr. induction p as [a|R e k IH]; intros tr; cbn; [done|].
  intros r _. eapply wp_mono; [|apply IH]. intros a tr' Hp. cbn.
  etrans; [|exact Hp]. by apply prefix_app_r.
Qed.

Lemma wp_and {A} (p : prog A) (Q Q' : A → list event → Prop) tr :
  wp p Q tr → wp p Q' tr → wp p (λ a tr', Q a tr' ∧ Q' a tr') tr.
Proof. revert tr. induction p as [a|R e k IH]; intros tr; cbn; auto. Qed.

(** Adequacy: what holds over every environment holds of each run. *)
Lemma wp_run {S A} (h : handler S) (p : prog A) Q s tr :
  (∀ R (e : eff R) s, L R e (h R e s).1) →
  wp p Q tr → Q (result_of (run h p s)) (tr ++ trace_of (run h p s)).
Proof.
  intros Hh. unfold result_of, trace_of. revert s tr.
  induction p as [a|R e k IH]; intros s tr; cbn; [by rewrite app_nil_r|].
  pose proof (Hh R e s) as Hr. destruct (h R e s) as [r s1]. cbn in Hr.
  intros H. specialize (IH r s1 _ (H r Hr)).
  destruct (run h (k r) s1) as [[a s2] tr2]. cbn in *. by rewrite <- app_assoc in IH.
Qed.

End wp.

Corollary wp_run_any {S A} (h : handler S) (p : prog A) Q s :
  wp (@any_resp) p Q [] → Q (result_of (run h p s)) (trace_of (run h p s)).
Proof. intros H. by apply (wp_run (@any_resp) h p Q s []). Qed.

Corollary wp_run_lawful {S A} (h : handler S) (p : prog A) Q s :
  lawful h → wp (@resp_ok) p Q [] → Q (result_of (run h p s)) (trace_of (run h p s)).
Proof. intros Hh H. by apply (wp_run (@resp_ok) h p Q s []). Qed.

(** Every event of every run satisfies [P]; [emits] is [wp] with the history
    forgotten. *)
Fixpoint emits {A} (P : ∀ R, eff R → Prop) (p : prog A) : Prop :=
  match p with
  | Ret _ => True
  | Op e k => P _ e ∧ ∀ r, emits P (k r)
  end.

Definition ev_sat (P : ∀ R, eff R → Prop) (x : event) : Prop :=
  match x with Ev e _ => P _ e end.

Lemma emits_bind {A B} P (p : prog A) (f : A → prog B) :
  emits P p → (∀ a, emits P (f a)) → emits P (bind p f).
Proof. intros Hp Hf. induction p as [a|R e k IH]; cbn in *; [auto|]. naive_solver. Qed.

Lemma emits_bind_q {A B} P (p : prog (result A)) (f : A → prog (result B)) :
  emits P p → (∀ a, emits P (f a)) → emits P (bind_q p f).
Proof. intros Hp Hf. apply emits_bind; [done|]. intros [a|e]; [auto|done]. Qed.

Lemma emits_mono {A} (P P' : ∀ R, eff R → Prop) (p : prog A) :
  (∀ R (e : eff R), P R e → P' R e) → emits P p → emits P' p.
Proof. intros HP. induction p; cbn; naive_solver. Qed.

Lemma emits_wp {A} P (p : prog A) tr :
  Forall (ev_sat P) tr → emits P p → wp (@any_resp) p (λ _ tr', Forall (ev_sat P) tr') tr.
Proof.
  revert tr. induction p as [a|R e k IH]; intros tr Htr; cbn; [done|].
  intros [He Hk] r _. apply IH; [|done]. apply Forall_app. split; [done|].
  by apply Forall_singleton.
Qed.

Lemma emits_run {S A} P (h : handler S) (p : prog A) s :
  emits P p → Forall (ev_sat P) (trace_of (run h p s)).
Proof.
  unfold trace_of. revert s. induction p as [a|R e k IH]; intros s; cbn; [constructor|].
  intros [He Hk]. destruct (h R e s) as [r s1]. specialize (IH r s1 (Hk r)).
  destruct (run h (k r) s1) as [[a s2] tr]. by constructor.
Qed.

(** ** Observations *)

Definition connect_of (x : event) : option SocketAddr :=
  match x with Ev e _ => match e with TcpConnect a => Some a | _ => None end end.

(** The addresses the program dialled, in order. *)
Definition connects (tr : list event) : list SocketAddr := omap connect_of tr.

Definition is_name_connect (x : event) : bool :=
  match x with Ev e _ => match e with TcpConnectName _ => true | _ => false end end.

Definition is_lookup (x : event) : bool :=
  match x with
  | Ev e _ => match e with LookupIp _ | LookupHost _ => true | _ => false end
  end.

(** The number of name resolutions. *)
Definition lookups (tr : list event) : nat := length (filter (λ x, is_lookup x = true) tr).

Definition write_of (s : sid) (x : event) : bytes :=
  match x with
  | Ev e _ => match e with
              | WriteAll s' bs => if bool_decide (s' = s) then bs else []
              | _ => []
              end
  end.

Definition read_of (s : sid) (x : event) : bytes :=
  match x with
  | Ev e r => match e in eff R return R → bytes with
              | ReadExact s' _ | ReadLine s' _ => λ r,
                  match r with Ok bs => if bool_decide (s' = s) then bs else [] | Err _ => [] end
              | _ => λ _, []
              end r
  end.

(** The bytes the program obtained by reads on a stream. *)
Definition received (s : sid) (tr : list event) : bytes := tr ≫= read_of s.

(** The bytes the program handed to [write_all] on a stream. *)
Definition written (s : sid) (tr : list event) : bytes := tr ≫= write_of s.

Lemma connects_app tr tr' : connects (tr ++ tr') = connects tr ++ connects tr'.
Proof. unfold connects. apply omap_app. Qed.

Lemma lookups_app tr tr' : lookups (tr ++ tr') = (lookups tr + lookups tr')%nat.
Proof. unfold lookups. by rewrite filter_app, length_app. Qed.

Lemma lookups_one x : lookups [x] = if is_lookup x then 1%nat else 0%nat.
Proof. unfold lookups. rewrite filter_cons. by destruct (is_lookup x). Qed.

Lemma connects_one x : connects [x] = match connect_of x with Some a => [a] | None => [] end.
Proof. done. Qed.

Lemma written_one s x : written s [x] = write_of s x.
Proof. unfold written. cbn. by rewrite app_nil_r. Qed.

Lemma written_app s tr tr' : written s (tr ++ tr') = written s tr ++ written s tr'.
Proof. unfold written. apply bind_app. Qed.

Lemma received_one s x : received s [x] = read_of s x.
Proof. unfold received. cbn. by rewrite app_nil_r. Qed.

Lemma received_app s tr tr' : received s (tr ++ tr') = received s tr ++ received s tr'.
Proof. unfold received. apply bind_app. Qed.

(** ** Runs as a relation

    [yields p t a]: [t] is the whole list of events of some run of [p], and [a] its
    result. *)
Fixpoint yields {A} (p : prog A) (t : list event) (a : A) : Prop :=
  match p with
  | Ret a' => t = [] ∧ a = a'
  | Op e k => ∃ r t', t = Ev e r :: t' ∧ yields (k r) t' a
  end.

Lemma wp_yields {A} (p : prog A) tr :
  wp (@any_resp) p (λ a tr', ∃ t, tr' = tr ++ t ∧ yields p t a) tr.
Proof.
  revert tr. induction p as [a|R e k IH]; intros tr; cbn.
  - exists []. by rewrite app_nil_r.
  - intros r _. eapply wp_mono; [|apply IH]. intros a tr' (t & -> & Ht).
    exists (Ev e r :: t). rewrite <- app_assoc. split; [done|]. by exists r, t.
Qed.

Lemma wp_always {A} L (p : prog A) (Q : A → list event → Prop) tr :
  (∀ a t, Q a t) → wp L p Q tr.
Proof. intros HQ. revert tr. induction p as [a|R e k IH]; intros tr; cbn; auto. Qed.

Lemma wp_forall {A X} L (p : prog A) (Q : X → A → list event → Prop) tr :
  (∀ x, wp L p (Q x) tr) → wp L p (λ a t, ∀ x, Q x a t) tr.
Proof. revert tr. induction p as [a|R e k IH]; intros tr; cbn; eauto. Qed.

End effects.

Arguments eff : clear implicits.
Arguments prog : clear implicits.
Arguments event : clear implicits.
Arguments handler : clear implicits.
Arguments Ret {Sh A} a.
Arguments Op {Sh A R} e k.
Arguments Ev {Sh R} e r.

Notation "x <- p ;; k" := (bind p (λ x, k))
  (at level 100, p at next level, k at level 200, right associativity) : rust_scope.
Notation "x <-? p ;; k" := (bind_q p (λ x, k))
  (at level 100, p at next level, k at level 200, right associativity) : rust_scope.

(** ** Pure functions of other crates *)

(** base64's STANDARD engine. *)
Class Base64 := {
  b64_encode : bytes → bytes;
  b64_decode : bytes → option bytes;
}.

(** What the program relies on: decoding undoes encoding, and the encoding is ASCII
    text without blanks or colons. *)
Class Base64Laws (B : Base64) : Prop := {
  b64_decode_encode : ∀ s, b64_decode (b64_encode s) = Some s;
  b64_encode_text : ∀ s, Forall (λ c, is_ascii c = true ∧ 32 < u8 c ∧ u8 c ≠ 58) (b64_encode s);
}.

Create Rewrite HintDb trace.
#[export] Hint Rewrite @connects_app @lookups_app @written_app @received_app : trace.
#[export] Hint Rewrite @lookups_one @connects_one @written_one @received_one : trace.


(** ** Programs that neither dial nor resolve *)

(** Neither a connection nor a name resolution. *)
Definition quiet {Sh R} (e : eff Sh R) : Prop :=
  match e with
  | TcpConnect _ | TcpConnectName _ | LookupIp _ | LookupHost _ => False
  | _ => True
  end.

Definition quiet_trace {Sh} (tr : list (event Sh)) : Prop :=
  Forall (ev_sat (λ R e, quiet e)) tr.

Definition no_name_connect {Sh} (tr : list (event Sh)) : Prop :=
  Forall (λ x, is_name_connect x = false) tr.

Section quiet.
Context {Sh : Type}.
Implicit Types tr : list (event Sh).

Lemma quiet_connects tr : quiet_trace tr → connects tr = [].
Proof. induction 1 as [|[R [] r] tr Hx Htr IH]; cbn in *; done. Qed.

Lemma quiet_lookups tr : quiet_trace tr → lookups tr = 0%nat.
Proof.
  induction 1 as [|[R e r] tr Hx Htr IH]; [done|].
  unfold lookups in *. rewrite filter_cons. destruct e; cbn [ev_sat quiet is_lookup] in *; done.
Qed.

Lemma quiet_no_name_connect tr : quiet_trace tr → no_name_connect tr.
Proof.
  intros H. eapply Forall_impl; [exact H|]. intros [R e r]. by destruct e.
Qed.

Lemma wp_quiet {A} (p : prog Sh A) tr :
  emits (λ R e, quiet e) p →
  wp (@any_resp Sh) p (λ _ tr', ∃ t, tr' = tr ++ t ∧ quiet_trace t) tr.
Proof.
  revert tr. induction p as [a|R e k IH]; intros tr; cbn.
  - intros _. exists []. split; [by rewrite app_nil_r | constructor].
  - intros [He Hk] r _. eapply wp_mono; [|apply IH, Hk].
    intros a tr' (t & -> & Ht). exists (Ev e r :: t). rewrite <- app_assoc.
    split; [done|]. apply Forall_cons. split; [exact He | exact Ht].
Qed.

End quiet.

Create HintDb quiet.

(** Show that a program is quiet, calls being settled by the lemmas of the database. *)
Ltac quiet_tac :=
  repeat match goal with
  | |- emits _ (bind_q _ _) => apply emits_bind_q; [|intros ?]
  | |- emits _ (bind _ _) => apply emits_bind; [|intros ?]
  | |- emits _ (perform _) => by cbn
  | |- emits _ (Ret _) => done
  | |- emits _ (if ?b then _ else _) => destruct b
  | |- emits _ (match ?x with _ => _ end) => destruct x
  | |- emits _ _ => solve [eauto with quiet]
  end.

(** Walk through a program for a property [P] of its events. The calls and events that
    the tactic [solver] does not settle are left. *)
Ltac emits_tac solver :=
  repeat match goal with
  | |- emits _ (bind_q _ _) => apply emits_bind_q; [|intros ?]
  | |- emits _ (bind _ _) => apply emits_bind; [|intros ?]
  | |- emits _ (Ret _) => exact I
  | |- emits _ (perform _) => split; [|intros ?; exact I]
  | |- emits _ (if ?b then _ else _) => destruct b
  | |- emits _ _ => solve [solver]
  | |- emits _ (match ?x with _ => _ end) => destruct x
  end.

(** ** Events that need a justification

    [guarded Q G p tr]: whenever [p], started after the events [tr], is about to do
    something that is not free ([Q]), [G] holds of the events so far. *)
Section guarded.
Context {Sh : Type} (Q : ∀ R, eff Sh R → Prop) (G : list (event Sh) → Prop).
Implicit Types tr : list (event Sh).

Fixpoint guarded {A} (p : prog Sh A) tr : Prop :=
  match p with
  | Ret _ => True
  | @Op _ _ R e k => (Q R e ∨ G tr) ∧ ∀ r, guarded (k r) (tr ++ [Ev e r])
  end.

Lemma guarded_free {A} (p : prog Sh A) tr : emits Q p → guarded p tr.
Proof. revert tr. induction p as [a|R e k IH]; intros tr; cbn; [done|]. intros [? ?]. auto. Qed.

Lemma guarded_bind {A B} (p : prog Sh A) (f : A → prog Sh B) tr :
  guarded p tr → wp (@any_resp Sh) p (λ a tr', guarded (f a) tr') tr → guarded (bind p f) tr.
Proof.
  revert tr. induction p as [a|R e k IH]; intros tr; cbn; [done|].
  intros [? ?] Hw. split; [done|]. intros r. apply IH; [done|]. by apply Hw.
Qed.

Lemma guarded_bind_q {A B} (p : prog Sh (result A)) (f : A → prog Sh (result B)) tr :
  guarded p tr →
  wp (@any_resp Sh) p (λ r tr', ∀ a, r = Ok a → guarded (f a) tr') tr →
  guarded (bind_q p f) tr.
Proof.
  intros Hp Hw. apply guarded_bind; [done|]. eapply wp_mono; [|exact Hw].
  intros [a|e] tr' Ha; [by apply Ha | done].
Qed.

Hypothesis G_mono : ∀ tr tr', G tr → G (tr ++ tr').

Lemma guarded_open {A} (p : prog Sh A) tr : G tr → guarded p tr.
Proof.
  revert tr. induction p as [a|R e k IH]; intros tr Hg; cbn; [done|].
  split; [by right|]. intros r. by apply IH, G_mono.
Qed.

Lemma guarded_run {A St} (h : handler Sh St) (p : prog Sh A) s tr l x r :
  guarded p tr → trace_of (run h p s) = l ++ x :: r → ¬ ev_sat Q x → G (tr ++ l).
Proof.
  unfold trace_of. revert s tr l. induction p as [a|R e k IH]; intros s tr l; cbn.
  - intros _ He. by destruct l.
  - intros [Hq Hk]. destruct (h R e s) as [resp s1].
    destruct (run h (k resp) s1) as [[a s2] tr2] eqn:Hrun. cbn.
    destruct l as [|y l]; cbn; intros He; simplify_eq; intros Hx.
    + rewrite app_nil_r. by destruct Hq.
    + specialize (IH resp s1 (tr ++ [Ev e resp]) l (Hk resp)).
      rewrite Hrun, <- app_assoc in IH. cbn in IH. by apply IH.
Qed.

End guarded.

(** An event that dials or resolves. *)
Definition dials {Sh} (x : event Sh) : Prop := ¬ ev_sat (λ R e, quiet e) x.

Lemma connects_split {Sh} (tr : list (event Sh)) :
  connects tr ≠ [] → ∃ l x r, tr = l ++ x :: r ∧ dials x.
Proof.
  induction tr as [|[R e resp] tr IH]; [done|]. intros Hc.
  destruct e; try (destruct IH as (l & x & r & -> & Hx); [exact Hc|];
    match goal with |- context [Ev ?ev ?re :: _] => exists (Ev ev re :: l), x, r end; done).
  exists [], (Ev (TcpConnect a) resp), tr. split; [done|]. by intros [].
Qed.

(** What a program does from the start it does after any history. *)
Lemma wp_frame {Sh A} L (p : prog Sh A) (Q : A → list (event Sh) → Prop) tr0 tr :
  wp L p Q tr0 → wp L p (λ a tr', ∃ t, tr' = tr ++ t ∧ Q a t) (tr ++ tr0).
Proof.
  revert tr0. induction p as [a|R e k IH]; intros tr0; cbn; [by exists tr0|].
  intros Hw r Hr. rewrite <- app_assoc. by apply IH, Hw.
Qed.

(** ** Shared state

    One atomic step of the whole system: an access to the shared state reads and writes
    it; every other event is answered by the environment and leaves it alone. *)
Section shared.
Context {Sh : Type}.

Definition answers {R} (e : eff Sh R) : Sh → R → Sh → Prop :=
  match e in eff _ R return Sh → R → Sh → Prop with
  | Locked _ f => λ sh r sh', f sh = (r, sh')
  | e' => λ sh r sh', resp_ok e' r ∧ sh' = sh
  end.

(** [safe Inv p Q]: run from any states that satisfy [Inv] between its steps, as other
    tasks leave them, [p] keeps [Inv] at each of its own steps and ends in [Q]. *)
Fixpoint safe (Inv : Sh → Prop) {A} (p : prog Sh A) (Q : A → Prop) : Prop :=
  match p with
  | Ret a => Q a
  | Op e k => ∀ sh r sh', Inv sh → answers e sh r sh' → Inv sh' ∧ safe Inv (k r) Q
  end.

Lemma safe_mono (Inv : Sh → Prop) {A} (p : prog Sh A) (Q Q' : A → Prop) :
  (∀ a, Q a → Q' a) → safe Inv p Q → safe Inv p Q'.
Proof. intros HQ. induction p as [a|R e k IH]; cbn; [auto|]. intros Hs sh r sh' Hi Ha. naive_solver. Qed.

Lemma safe_bind (Inv : Sh → Prop) {A B} (p : prog Sh A) (f : A → prog Sh B) (P : A → Prop) Q :
  safe Inv p P → (∀ a, P a → safe Inv (f a) Q) → safe Inv (bind p f) Q.
Proof.
  intros Hp Hf. induction p as [a|R e k IH]; cbn in *; [auto|].
  intros sh r sh' Hi Ha. destruct (Hp sh r sh' Hi Ha). auto.
Qed.

Lemma safe_bind_q (Inv : Sh → Prop) {A B} (p : prog Sh (result A)) (f : A → prog Sh (result B))
    (P : A → Prop) (Q : result B → Prop) :
  safe Inv p (λ r, ∀ a, r = Ok a → P a) → (∀ a, P a → safe Inv (f a) Q) → (∀ e, Q (Err e)) →
  safe Inv (bind_q p f) Q.
Proof.
  intros Hp Hf He. eapply safe_bind; [exact Hp|]. intros [a|e] Ha; [by apply Hf, Ha | apply He].
Qed.

(** An event that leaves [g] of the shared state as it is. *)
Definition keeps {X} (g : Sh → X) {R} (e : eff Sh R) : Prop :=
  match e with Locked _ f => ∀ sh, g (f sh).2 = g sh | _ => True end.

Lemma keeps_answers {X} (g : Sh → X) {R} (e : eff Sh R) sh r sh' :
  keeps g e → answers e sh r sh' → g sh' = g sh.
Proof.
  destruct e; cbn; try (by intros _ [_ ->]). intros Hk He. by rewrite <- (Hk sh), He.
Qed.

(** A program that keeps [g] is safe for every invariant that is a property of [g]. *)
Lemma safe_keeps {X} (g : Sh → X) (Inv : Sh → Prop) {A} (p : prog Sh A) :
  (∀ sh sh', g sh' = g sh → Inv sh → Inv sh') → emits (λ R e, keeps g e) p →
  safe Inv p (λ _, True).
Proof.
  intros HI. induction p as [a|R e k IH]; cbn; [done|]. intros [He Hk] sh r sh' Hi Ha.
  split; [|by apply IH]. eapply HI; [|exact Hi]. by eapply keeps_answers.
Qed.

(** What the environment alone can tell ([wp]) holds under [safe] too, when the program
    keeps the invariant. *)
Lemma safe_wp (Inv : Sh → Prop) {A} (p : prog Sh A) (Q : A → Prop) (P : A → list (event Sh) → Prop) tr :
  safe Inv p (λ _, True) → wp (@any_resp Sh) p P tr → (∀ a t, P a t → Q a) → safe Inv p Q.
Proof.
  intros Hs Hw HQ. revert tr Hs Hw. induction p as [a|R e k IH]; intros tr Hs Hw; cbn in *; [by eapply HQ|].
  intros sh r sh' Hi Ha. destruct (Hs sh r sh' Hi Ha) as [Hi' Hs']. split; [done|].
  eapply IH; [exact Hs'|]. by apply Hw.
Qed.

End shared.
