(* ===== verification/Script.v ===== *)
(** * A scripted environment

    A concrete handler on which programs evaluate: each stream delivers a fixed list
    of segments (a read of the socket returns one, or as much of one as the reader has
    room for, then end of file), names resolve by a function, and so on. It discharges
    the laws of Effects.v and serves the witnesses. *)

From S2P Require Import Prelude RustStr IpAddr Effects.

Local Open Scope Z_scope.

Record stream : Set := {
  st_segs : list bytes;        (* what the peer will send *)
  st_buf : option bytes;       (* the BufReader's unread bytes, when there is one *)
  st_tx : bytes;               (* what was written to the peer *)
}.

Definition incoming (segs : list bytes) : stream :=
  {| st_segs := segs; st_buf := None; st_tx := [] |}.

(** The room in a [BufReader]. *)
Definition buffer_capacity : nat := Z.to_nat 8192.

(** A segment as a [BufReader] reads it: as much as there is room for at a time. *)
Fixpoint chunks_of (fuel : nat) (seg : bytes) : list bytes :=
  match fuel, seg with
  | S fuel', _ :: _ => take buffer_capacity seg :: chunks_of fuel' (drop buffer_capacity seg)
  | _, _ => []
  end.

Definition chunks (seg : bytes) : list bytes := chunks_of (length seg) seg.

(** The bytes not yet read. *)
Definition pending (st : stream) : bytes := default [] (st_buf st) ++ concat (st_segs st).

Record world {Sh : Type} : Type := {
  w_shared : Sh;
  w_streams : gmap nat stream;
  w_next : nat;
  w_servers : SocketAddr → option (list bytes);
  w_dns : bytes → result (list IpAddr);
  w_env : bytes → option bytes;
  w_files : gmap bytes bytes;
  w_now : Z;
  w_utc : bytes;
  w_random : bytes;
  w_hash : bytes → bytes → result (bytes * bytes);
  w_ldap_bind : bytes → bytes → result unit;
  w_ldap_search : bytes → bytes → result (list bytes);
  w_pam : bytes → bytes → bytes → result unit;
  w_sql : bytes → bytes → result (option bytes);
}.
Arguments world : clear implicits.

Lemma buffer_capacity_pos : (0 < buffer_capacity)%nat.
Proof. by apply Nat.ltb_lt. Qed.

#[global] Arguments buffer_capacity : simpl never.
#[global] Arguments chunks : simpl never.

Lemma chunks_of_enough fuel fuel' seg :
  (length seg ≤ fuel)%nat → (length seg ≤ fuel')%nat → chunks_of fuel seg = chunks_of fuel' seg.
Proof.
  pose proof buffer_capacity_pos. revert fuel' seg. induction fuel as [|fuel IH]; intros fuel' [|c seg] Hf Hf';
    cbn in Hf, Hf'; try lia; [by destruct fuel'..|].
  destruct fuel' as [|fuel']; [lia|]. cbn [chunks_of]. f_equal. apply IH; rewrite length_drop; cbn; lia.
Qed.

Lemma chunks_cons seg :
  seg ≠ [] → chunks seg = take buffer_capacity seg :: chunks (drop buffer_capacity seg).
Proof.
  pose proof buffer_capacity_pos. destruct seg as [|c seg]; [done|]. intros _. unfold chunks. cbn [length chunks_of].
  f_equal. apply chunks_of_enough; rewrite length_drop; cbn; lia.
Qed.

Lemma concat_chunks seg : concat (chunks seg) = seg.
Proof.
  pose proof buffer_capacity_pos. unfold chunks.
  assert (∀ fuel s, (length s ≤ fuel)%nat → concat (chunks_of fuel s) = s) as Hc; [|by apply Hc].
  induction fuel as [|fuel IH]; intros [|c s] Hf; cbn in Hf; try done; [lia|]. cbn [chunks_of concat].
  rewrite IH by (rewrite length_drop; cbn; lia). apply take_drop.
Qed.

Lemma concat_bind_chunks segs : concat (segs ≫= chunks) = concat segs.
Proof. induction segs as [|seg segs IH]; [done|]. by rewrite bind_cons, concat_app, concat_chunks, IH. Qed.

Section script.

Context {Sh : Type}.

Definition set_shared (w : world Sh) (sh : Sh) : world Sh := {|
  w_shared := sh; w_streams := w_streams w; w_next := w_next w; w_servers := w_servers w;
  w_dns := w_dns w; w_env := w_env w; w_files := w_files w; w_now := w_now w;
  w_utc := w_utc w; w_random := w_random w; w_hash := w_hash w; w_ldap_bind := w_ldap_bind w;
  w_ldap_search := w_ldap_search w; w_pam := w_pam w; w_sql := w_sql w |}.

Definition set_streams (w : world Sh) (ss : gmap nat stream) : world Sh := {|
  w_shared := w_shared w; w_streams := ss; w_next := w_next w; w_servers := w_servers w;
  w_dns := w_dns w; w_env := w_env w; w_files := w_files w; w_now := w_now w;
  w_utc := w_utc w; w_random := w_random w; w_hash := w_hash w; w_ldap_bind := w_ldap_bind w;
  w_ldap_search := w_ldap_search w; w_pam := w_pam w; w_sql := w_sql w |}.

Definition set_files (w : world Sh) (fs : gmap bytes bytes) : world Sh := {|
  w_shared := w_shared w; w_streams := w_streams w; w_next := w_next w; w_servers := w_servers w;
  w_dns := w_dns w; w_env := w_env w; w_files := fs; w_now := w_now w;
  w_utc := w_utc w; w_random := w_random w; w_hash := w_hash w; w_ldap_bind := w_ldap_bind w;
  w_ldap_search := w_ldap_search w; w_pam := w_pam w; w_sql := w_sql w |}.

Definition fresh_stream (w : world Sh) (segs : list bytes) : nat * world Sh :=
  (w_next w, {|
    w_shared := w_shared w; w_streams := <[w_next w := incoming segs]> (w_streams w);
    w_next := S (w_next w); w_servers := w_servers w;
    w_dns := w_dns w; w_env := w_env w; w_files := w_files w; w_now := w_now w;
    w_utc := w_utc w; w_random := w_random w; w_hash := w_hash w; w_ldap_bind := w_ldap_bind w;
    w_ldap_search := w_ldap_search w; w_pam := w_pam w; w_sql := w_sql w |}).

Fixpoint consume_segs (n : nat) (segs : list bytes) : list bytes :=
  match segs with
  | [] => []
  | seg :: segs' =>
      if (n <? length seg)%nat then drop n seg :: segs' else consume_segs (n - length seg) segs'
  end.

Definition consume (n : nat) (st : stream) : stream :=
  match st_buf st with
  | Some b => {| st_segs := consume_segs (n - length b) (st_segs st);
                 st_buf := Some (drop n b); st_tx := st_tx st |}
  | None => {| st_segs := consume_segs n (st_segs st); st_buf := None; st_tx := st_tx st |}
  end.

(** [read_until(b'\n')] on a BufReader that refills one segment at a time, at most
    [lim] bytes in all. *)
Fixpoint read_until (lim : nat) (acc buf : bytes) (segs : list bytes)
  : bytes * bytes * list bytes :=
  let chunk := take lim buf in
  match find_char lf chunk with
  | Some i => (acc ++ take (S i) chunk, drop (S i) buf, segs)
  | None =>
      if (lim <=? length buf)%nat then (acc ++ chunk, drop lim buf, segs)
      else match segs with
           | [] => (acc ++ chunk, [], [])
           | seg :: segs' => read_until (lim - length chunk) (acc ++ chunk) seg segs'
           end
  end.

Definition read_line (limit : option Z) (st : stream) : bytes * stream :=
  let lim := match limit with
             | Some l => Z.to_nat l
             | None => S (length (pending st))
             end in
  let '(line, buf, segs) := read_until lim [] (default [] (st_buf st)) (st_segs st) in
  (line, {| st_segs := segs; st_buf := Some buf; st_tx := st_tx st |}).

Definition eof_error : bytes := "early eof".
Definition utf8_error : bytes := "stream did not contain valid UTF-8".
Definition no_stream : bytes := "no such stream".

Definition on_stream {R} (w : world Sh) (s : sid) (dflt : R) (f : stream → R * stream)
  : R * world Sh :=
  match w_streams w !! s with
  | Some st => let '(r, st') := f st in (r, set_streams w (<[s := st']> (w_streams w)))
  | None => (dflt, w)
  end.

Definition script : handler Sh (world Sh) := λ R e,
  match e in eff _ R return world Sh → R * world Sh with
  | ReadExact s n => λ w,
      on_stream w s (Err no_stream) (λ st,
        if (n <=? length (pending st))%nat then (Ok (take n (pending st)), consume n st)
        else (Err eof_error, consume (length (pending st)) st))
  | WriteAll s bs => λ w,
      on_stream w s (Err no_stream) (λ st,
        (Ok tt, {| st_segs := st_segs st; st_buf := st_buf st; st_tx := st_tx st ++ bs |}))
  | Flush s => λ w, (Ok tt, w)
  | ReadLine s limit => λ w,
      on_stream w s (Err no_stream) (λ st,
        let '(line, st') := read_line limit st in
        (if utf8_valid line then Ok line else Err utf8_error, st'))
  | BufReaderNew s => λ w,
      on_stream w s tt (λ st,
        (tt, {| st_segs := st_segs st ≫= chunks; st_buf := Some []; st_tx := st_tx st |}))
  | BufReaderIntoInner s => λ w,
      on_stream w s tt (λ st,
        (tt, {| st_segs := st_segs st; st_buf := None; st_tx := st_tx st |}))
  | LocalAddr s => λ w, (Ok {| sa_ip := V4 (replicate 4 "001"%char); sa_port := 4000 |}, w)
  | CopyBidirectional c t => λ w,
      match w_streams w !! c, w_streams w !! t with
      | Some sc, Some st =>
          let up := pending sc in
          let down := pending st in
          (Ok (Z.of_nat (length up), Z.of_nat (length down)),
           set_streams w
             (<[c := {| st_segs := []; st_buf := st_buf sc; st_tx := st_tx sc ++ down |}]>
             (<[t := {| st_segs := []; st_buf := st_buf st; st_tx := st_tx st ++ up |}]>
                (w_streams w))))
      | _, _ => (Err no_stream, w)
      end
  | TcpConnect a => λ w,
      match w_servers w a with
      | Some segs => let '(s, w') := fresh_stream w segs in (Ok s, w')
      | None => (Err "Connection refused (os error 111)", w)
      end
  | TcpConnectName _ => λ w, (Err "failed to lookup address information", w)
  | LookupIp host => λ w, (w_dns w host, w)
  | LookupHost _ => λ w, (Err "failed to lookup address information", w)
  | EnvVar name => λ w, (w_env w name, w)
  | PathExists path => λ w, (bool_decide (is_Some (w_files w !! path)), w)
  | ReadFile path => λ w,
      (match w_files w !! path with
       | Some content => Ok content
       | None => Err "No such file or directory (os error 2)"
       end, w)
  | WriteFile path content => λ w, (Ok tt, set_files w (<[path := content]> (w_files w)))
  | InstantNow => λ w, (w_now w, w)
  | Instants => λ w, (λ _, w_now w, w)
  | UtcNow => λ w, (w_utc w, w)
  | RandAlphanumeric n => λ w, (take n (w_random w), w)
  | HashPassword alg pw => λ w, (w_hash w alg pw, w)
  | LdapConnect _ => λ w, (Ok tt, w)
  | LdapSimpleBind dn pw => λ w, (Ok (w_ldap_bind w dn pw), w)
  | LdapSearch base filter => λ w, (Ok (w_ldap_search w base filter), w)
  | PamWithPassword _ => λ w, (Ok tt, w)
  | PamAuthenticate service u p => λ w, (w_pam w service u p, w)
  | SqlConnect _ _ => λ w, (Ok tt, w)
  | SqlFetchOptional _ query u => λ w, (w_sql w query u, w)
  | TcpBind _ => λ w, (Ok tt, w)
  | Print _ | Eprint _ => λ w, (tt, w)
  | StdoutFlush => λ w, (Ok tt, w)
  | StdinLine => λ w, (Ok (bstr "secret" ++ [lf]), w)
  | EnvFilterFromEnv => λ w, (None, w)
  | LogFileOpen _ _ => λ w, (Ok tt, w)
  | JournaldConnect => λ w, (Err "No such file or directory (os error 2)", w)
  | InitSubscriber _ _ => λ w, (tt, w)
  | Locked _ f => λ w, let '(r, sh) := f (w_shared w) in (r, set_shared w sh)
  end.

(** A world with nothing in it but its shared state. *)
Definition empty_world (sh : Sh) : world Sh := {|
  w_shared := sh; w_streams := ∅; w_next := 10; w_servers := λ _, None;
  w_dns := λ _, Err "no record found"; w_env := λ _, None; w_files := ∅; w_now := 0;
  w_utc := "2026-01-01T00:00:00+00:00"; w_random := replicate 32 "k"%char;
  w_hash := λ alg p, Ok (alg ++ "$" ++ p, "salt" : bytes);
  w_ldap_bind := λ _ _, Err "invalidCredentials"; w_ldap_search := λ _ _, Ok [];
  w_pam := λ _ _ _, Err "denied"; w_sql := λ _ _, Ok None |}.

(** How much of [p] a line read with the limit [lim] takes. *)
Definition line_length (lim : nat) (p : bytes) : nat :=
  match find_char lf (take lim p) with Some i => S i | None => (lim `min` length p)%nat end.

Lemma find_char_app_None c l r : c ∉ l → find_char c (l ++ r) = (λ i, (length l + i)%nat) <$> find_char c r.
Proof.
  induction l as [|x l IH]; cbn; [by destruct (find_char c r)|].
  intros [Hx Hl]%not_elem_of_cons. rewrite bool_decide_eq_false_2 by congruence.
  rewrite IH by done. by destruct (find_char c r).
Qed.

Lemma find_char_prefix c l r i : find_char c l = Some i → find_char c (l ++ r) = Some i.
Proof.
  revert i. induction l as [|x l IH]; intros i; cbn; [done|]. case_bool_decide; [done|].
  intros (j & Hj & ->)%fmap_Some. by rewrite (IH j).
Qed.

Lemma find_char_lt c l i : find_char c l = Some i → (i < length l)%nat.
Proof.
  revert i. induction l as [|x l IH]; intros i; cbn; [done|]. case_bool_decide; [intros [= <-]; lia|].
  intros (j & Hj%IH & ->)%fmap_Some. lia.
Qed.

Lemma line_length_app lim b p :
  lf ∉ b → (length b < lim)%nat → line_length lim (b ++ p) = (length b + line_length (lim - length b) p)%nat.
Proof.
  intros Hb Hl. unfold line_length. rewrite take_app, (take_ge b) by lia.
  rewrite find_char_app_None by done. rewrite length_app.
  destruct (find_char lf (take (lim - length b) p)); cbn; lia.
Qed.

(** Reads do not see how the bytes were cut into segments. *)
Lemma read_until_spec lim acc buf segs :
  let '(line, buf', segs') := read_until lim acc buf segs in
  let p := buf ++ concat segs in
  line = acc ++ take (line_length lim p) p ∧ buf' ++ concat segs' = drop (line_length lim p) p.
Proof.
  revert lim acc buf. induction segs as [|seg segs IH]; intros lim acc buf; cbn [read_until];
    destruct (find_char lf (take lim buf)) as [i|] eqn:Hi.
  1, 3: pose proof (find_char_lt _ _ _ Hi) as Hlen; rewrite length_take in Hlen;
    match goal with |- context [concat ?l] =>
      assert (find_char lf (take lim (buf ++ concat l)) = Some i) as Hf
        by (rewrite take_app; by apply find_char_prefix)
    end;
    cbv zeta; unfold line_length; rewrite Hf, take_take, drop_app_le, take_app_le, Nat.min_l by lia; done.
  - apply find_char_None in Hi. cbn [concat]. rewrite app_nil_r. unfold line_length.
    rewrite (proj2 (find_char_None _ _) Hi).
    destruct (Nat.leb_spec lim (length buf)); rewrite ?Nat.min_l, ?app_nil_r by lia; [done|].
    rewrite Nat.min_r, !take_ge, drop_ge by lia. done.
  - apply find_char_None in Hi. destruct (Nat.leb_spec lim (length buf)) as [Hle|Hlt].
    + assert (find_char lf (take lim (buf ++ concat (seg :: segs))) = None) as Hf
        by (rewrite take_app_le by lia; by apply find_char_None).
      cbv zeta. unfold line_length. rewrite Hf.
      rewrite Nat.min_l by (rewrite length_app; lia).
      by rewrite take_app_le, drop_app_le by lia.
    + rewrite (take_ge buf lim) in Hi |- * by lia. specialize (IH (lim - length buf)%nat (acc ++ buf) seg).
      destruct (read_until (lim - length buf) (acc ++ buf) seg segs) as [[line buf'] segs'].
      cbn [concat]. destruct IH as [-> ->].
      rewrite (line_length_app lim buf) by done.
      split; [by rewrite <- app_assoc, take_app_add | by rewrite drop_app_add].
Qed.

Lemma read_until_length lim acc buf segs :
  (length (read_until lim acc buf segs).1.1 ≤ length acc + lim)%nat.
Proof.
  revert lim acc buf. induction segs as [|seg segs IH]; intros lim acc buf; cbn [read_until];
    (destruct (find_char lf (take lim buf)) as [i|];
     [cbn; rewrite length_app, !length_take; lia|]);
    case_match; cbn; try (rewrite length_app, length_take; lia).
  etrans; [apply IH|]. rewrite length_app, length_take. lia.
Qed.

Lemma script_lawful : lawful script.
Proof.
  intros R e w. destruct e; try exact I; try (intros ? ? _; apply Z.le_refl); cbn -[utf8_valid]; unfold on_stream;
    destruct (w_streams w !! s) as [st|]; try exact I; cbn -[utf8_valid].
  - destruct (Nat.leb_spec n (length (pending st))); cbn; [|done].
    rewrite length_take. lia.
  - unfold read_line.
    pose proof (read_until_length
      (match limit with Some l => Z.to_nat l | None => S (length (pending st)) end)
      [] (default [] (st_buf st)) (st_segs st)) as Hl.
    destruct (read_until _ _ _ _) as [[line buf] segs]. cbn -[utf8_valid] in *.
    destruct (utf8_valid line) eqn:Hu; cbn -[utf8_valid]; [|done].
    split; [done|]. destruct limit; [lia|done].
Qed.

(** A property of streams that reading lines keeps. *)
Definition line_stable (Q : stream → Prop) : Prop := ∀ limit st, Q st → Q (read_line limit st).2.

(** The stream [s] still has the bytes [p] to give; the second form says more of it. *)
Definition stream_with (Q : stream → Prop) (s : sid) (p : bytes) (w : world Sh) : Prop :=
  ∃ st, w_streams w !! s = Some st ∧ pending st = p ∧ Q st.

Definition stream_at : sid → bytes → world Sh → Prop := stream_with (λ _, True).

Lemma any_stable : line_stable (λ _, True).
Proof. done. Qed.

(** Reading a line of valid UTF-8 that ends within the limit. *)
Lemma script_read_line Q s limit line rest w :
  line_stable Q → stream_with Q s (line ++ lf :: rest) w → lf ∉ line → utf8_valid line = true →
  Z.of_nat (length line) < limit →
  ∃ w', script _ (ReadLine s (Some limit)) w = (Ok (line ++ [lf]), w') ∧ stream_with Q s rest w'.
Proof.
  intros HQ (st & Hst & Hp & Hs) Hl Hv Hlim. unfold script, on_stream. rewrite Hst.
  specialize (HQ (Some limit) st Hs). unfold read_line in *.
  pose proof (read_until_spec (Z.to_nat limit) [] (default [] (st_buf st)) (st_segs st)) as Hr.
  unfold pending in Hp.
  assert (line_length (Z.to_nat limit) (line ++ lf :: rest) = S (length line)) as Hn.
  { unfold line_length. rewrite take_app, (take_ge line) by lia.
    destruct (Z.to_nat limit - length line)%nat eqn:He; [lia|]. cbn [take].
    by rewrite find_char_app. }
  destruct (read_until _ _ _ _) as [[line' buf'] segs'] eqn:He. cbv zeta in Hr.
  rewrite Hp, Hn, cons_middle, app_assoc, take_app_exact, drop_app_exact in Hr
    by (rewrite length_app; cbn; lia).
  destruct Hr as [-> Hrest]. cbn [app].
  rewrite utf8_valid_app by done. eexists. split; [done|].
  eexists. split; [cbn; by rewrite lookup_insert_eq|]. split; [exact Hrest|exact HQ].
Qed.

(** ** What a BufReader has read ahead

    A BufReader over a stream whose peer sent everything in one segment has always read
    whole chunks of it, and no chunk before it was needed. *)

(** How many bytes behind the first [n] a BufReader has then read, at most. *)
Definition ahead_of (n : nat) : nat :=
  ((n + buffer_capacity - 1) / buffer_capacity * buffer_capacity - n)%nat.

(** Between two reads: [k] chunks of [len] bytes have been read into the buffer; with
    [full], the last of them may be untouched. *)
Definition chunked (full : bool) (len : nat) (buf : bytes) (segs : list bytes) : Prop := ∃ k,
  let got := (k * buffer_capacity)%nat in
  let n := (len - (length buf + length (concat segs)))%nat in
  (length buf + length (concat segs) ≤ len)%nat ∧ segs = chunks (concat segs) ∧
  length (concat segs) = (len - got)%nat ∧ (n ≤ got)%nat ∧
  ((got < n + buffer_capacity)%nat ∨ full = true ∧ (got = n + buffer_capacity)%nat ∧ buf ≠ []).

Lemma chunked_used full len buf segs i :
  chunked full len buf segs → (0 < i)%nat ∨ full = false ∨ buf = [] → (i ≤ length buf)%nat →
  chunked false len (drop i buf) segs.
Proof.
  pose proof buffer_capacity_pos. intros (k & Hl & Hs & Hc & Hn & Hg) Hi Hb. exists k. cbv zeta in *.
  rewrite length_drop. repeat (split; [done || lia|]).
  destruct Hg as [Hg|(-> & Hg & Hne)]; [|destruct Hi as [Hi|[?|?]]; [|done..]].
  - destruct (decide (length (concat segs) = 0)%nat); left; lia.
  - left. lia.
Qed.

Lemma chunked_refill len buf seg segs :
  chunked false len buf (seg :: segs) → chunked true len seg segs ∧ seg ≠ [].
Proof.
  pose proof buffer_capacity_pos as Hpos. intros (k & Hl & Hs & Hc & Hn & Hg). cbv zeta in *.
  assert (concat (seg :: segs) ≠ []) as Hne by (intros He; by rewrite He in Hs).
  pose proof Hs as Hs'. rewrite (chunks_cons _ Hne) in Hs'. injection Hs' as Hseg Hsegs.
  set (c := concat (seg :: segs)) in *. change (seg ++ concat segs) with c in Hseg, Hsegs.
  assert (length c ≠ 0%nat) by (by destruct c).
  assert (seg ≠ []) as Hseg0.
  { rewrite Hseg. intros He. apply (f_equal length) in He. rewrite length_take in He. cbn [length] in He. lia. }
  split; [|done]. exists (S k). cbv zeta. cbn [Nat.mul].
  assert (concat segs = drop buffer_capacity c) as Hd by (by rewrite Hsegs, concat_chunks).
  assert (length seg + length (concat segs) = length c)%nat as Hsum by (unfold c; cbn; by rewrite length_app).
  rewrite Hsum, Hd, length_drop. repeat (split; [done || lia|]). right. split; [done|]. split; [lia|done].
Qed.

Lemma chunked_end full len buf : chunked full len buf [] → chunked false len [] [].
Proof.
  pose proof buffer_capacity_pos. intros (k & Hl & Hs & Hc & Hn & Hg). exists k. cbn in *.
  repeat (split; [done || lia|]). destruct Hg as [?|(_ & ? & Hne)]; [left; lia|].
  left. destruct buf; [done|]. cbn in *. lia.
Qed.

Lemma read_until_chunked len segs lim acc buf full :
  chunked full len buf segs → (full = true → 0 < lim)%nat →
  let '(_, buf', segs') := read_until lim acc buf segs in chunked false len buf' segs'.
Proof.
  revert lim acc buf full. induction segs as [|seg segs IH]; intros lim acc buf full Hc Hlim; cbn [read_until];
    (destruct (find_char lf (take lim buf)) as [i|] eqn:Hi;
     [apply find_char_lt in Hi; rewrite length_take in Hi; apply (chunked_used full); [done|left; lia|lia]|]);
    (destruct (Nat.leb_spec lim (length buf));
     [apply (chunked_used full); [done|destruct full; auto|done]|]).
  - by eapply chunked_end.
  - apply (chunked_used _ _ _ _ (length buf)) in Hc;
      [|destruct buf; cbn; auto with lia|done].
    rewrite drop_all in Hc. destruct (chunked_refill _ _ _ _ Hc) as [Hc' _].
    apply (IH _ _ _ true Hc'). rewrite length_take. lia.
Qed.

Definition chunked_stream (len : nat) (st : stream) : Prop :=
  chunked false len (default [] (st_buf st)) (st_segs st).

Lemma chunked_stable len : line_stable (chunked_stream len).
Proof.
  intros limit st Hst. unfold read_line, chunked_stream in *.
  pose proof (read_until_chunked len (st_segs st) (match limit with
    Some l => Z.to_nat l | None => S (length (pending st)) end) [] _ false Hst) as Hr.
  destruct (read_until _ _ _ _) as [[line buf] segs]. by apply Hr.
Qed.

Lemma chunked_new seg tx :
  chunked_stream (length seg) {| st_segs := [seg] ≫= chunks; st_buf := Some []; st_tx := tx |}.
Proof.
  pose proof buffer_capacity_pos. exists 0%nat. cbv zeta. cbn [st_segs st_buf default].
  rewrite bind_cons. cbn [mbind list_bind]. rewrite app_nil_r, concat_chunks. cbn. repeat (split; [done || lia|]). left. lia.
Qed.

(** When [head] is read and [rest] is to come, what has not been read ahead is left. *)
Lemma chunked_left head rest st :
  chunked_stream (length (head ++ rest)) st → pending st = rest →
  concat (st_segs st) = drop (ahead_of (length head)) rest.
Proof.
  pose proof buffer_capacity_pos as Hpos. intros (k & Hl & _ & Hc & Hn & Hg) Hp. cbv zeta in *.
  unfold pending in Hp. assert (length (default [] (st_buf st)) + length (concat (st_segs st)) = length rest)%nat as Hr
    by (by rewrite <- Hp, length_app).
  rewrite Hr, length_app in *. destruct Hg as [Hg|[? _]]; [|done].
  assert (ahead_of (length head) = k * buffer_capacity - length head)%nat as ->.
  { unfold ahead_of. do 2 f_equal. symmetry.
    apply (Nat.div_unique _ _ _ (length head + buffer_capacity - 1 - k * buffer_capacity)); lia. }
  destruct (decide (length (concat (st_segs st)) = 0%nat)) as [He|He].
  - rewrite drop_ge by lia. by apply length_zero_iff_nil.
  - rewrite <- Hp at 1. by rewrite drop_app_length' by lia.
Qed.
End script.

(** ** A single connection as two byte strings

    [wire] is the scripted environment with every stream being the same one: what is
    still to be read, and what was written. Reads do not see how the bytes were cut
    into segments. *)

Record wire_state {Sh : Type} : Type := {
  wr_rx : bytes;
  wr_tx : bytes;
  wr_world : world Sh;
}.
Arguments wire_state : clear implicits.

Section wire.
Context {Sh : Type}.

Definition on_wire (rx tx : bytes) (w : world Sh) : wire_state Sh :=
  {| wr_rx := rx; wr_tx := tx; wr_world := w |}.

Definition wire : handler Sh (wire_state Sh) := λ R e,
  match e in eff _ R return wire_state Sh → R * wire_state Sh with
  | ReadExact s n => λ st,
      if (n <=? length (wr_rx st))%nat
      then (Ok (take n (wr_rx st)), on_wire (drop n (wr_rx st)) (wr_tx st) (wr_world st))
      else (Err eof_error, on_wire [] (wr_tx st) (wr_world st))
  | WriteAll s bs => λ st, (Ok tt, on_wire (wr_rx st) (wr_tx st ++ bs) (wr_world st))
  | Flush s => λ st, (Ok tt, st)
  | e' => λ st,
      let '(r, w) := script _ e' (wr_world st) in (r, on_wire (wr_rx st) (wr_tx st) w)
  end.

(** Running the first operation of a program on a wire whose input starts with the
    bytes it asks for. *)
Lemma wire_read {A} s n bs rest tx w (k : result bytes → prog Sh A) :
  length bs = n →
  (run wire (Op (ReadExact s n) k) (on_wire (bs ++ rest) tx w)).1
  = (run wire (k (Ok bs)) (on_wire rest tx w)).1.
Proof.
  intros <-. cbn. rewrite length_app. destruct (Nat.leb_spec (length bs) (length bs + length rest)); [|lia].
  rewrite take_app_exact, drop_app_exact by done.
  by destruct (run wire (k (Ok bs)) _) as [[a st] tr].
Qed.

Lemma wire_write {A} s bs rx tx w (k : result unit → prog Sh A) :
  (run wire (Op (WriteAll s bs) k) (on_wire rx tx w)).1
  = (run wire (k (Ok tt)) (on_wire rx (tx ++ bs) w)).1.
Proof. cbn. by destruct (run wire (k (Ok tt)) _) as [[a st] tr]. Qed.

Lemma wire_flush {A} s st (k : result unit → prog Sh A) :
  (run wire (Op (Flush s) k) st).1 = (run wire (k (Ok tt)) st).1.
Proof. cbn. by destruct (run wire (k (Ok tt)) _) as [[a st'] tr]. Qed.

Lemma wire_bind {A B} (p : prog Sh A) (f : A → prog Sh B) st a st' :
  (run wire p st).1 = (a, st') → (run wire (bind p f) st).1 = (run wire (f a) st').1.
Proof.
  intros Hp. rewrite run_bind. destruct (run wire p st) as [[a' st1] t1]. cbn in Hp.
  simplify_eq. by destruct (run wire (f a) st') as [[b s2] t2].
Qed.

Lemma wire_bind_q {A B} (p : prog Sh (result A)) (f : A → prog Sh (result B)) st a st' :
  (run wire p st).1 = (Ok a, st') → (run wire (bind_q p f) st).1 = (run wire (f a) st').1.
Proof. intros Hp. unfold bind_q. by rewrite (wire_bind _ _ _ _ _ Hp). Qed.

End wire.
