(* ===== verification/Config.v ===== *)
(** * Configuration (src/src/config.rs)

    The configuration records, their defaults, [Config::validate] with its messages,
    and the bind addresses. Serialisation is serde's: parsing and printing YAML are
    the fields of a class. *)

From S2P Require Import Prelude RustStr IpAddr Effects.

Local Open Scope Z_scope.
Local Open Scope rust_scope.

(** ** Data *)

Inductive UpstreamProtocol : Set := Socks5 | Http.

#[export] Instance UpstreamProtocol_eq_dec : EqDecision UpstreamProtocol.
Proof. solve_decision. Defined.

Inductive HashType : Set := Argon2 | Bcrypt | Scrypt.

#[export] Instance HashType_eq_dec : EqDecision HashType.
Proof. solve_decision. Defined.

Record AdminConfig : Set := {
  adm_enabled : bool;
  adm_bind_address : bytes;
  adm_port : Z;
  adm_token : option bytes;
  adm_admin_users : list bytes;
  adm_token_ttl : Z;
}.

Record UpstreamConfig : Set := {
  up_enabled : bool;
  up_protocol : option UpstreamProtocol;
  up_address : option bytes;
  up_port : option Z;
  up_username : option bytes;
  up_password : option bytes;
  up_exclude_networks : list bytes;
  up_exclude_domains : list bytes;
  up_prefer_env : bool;
}.

Record ServerConfig : Set := {
  srv_bind_address : bytes;
  srv_socks5_port : Z;
  srv_http_port : Z;
  srv_max_connections : Z;
  srv_connection_timeout : Z;
  srv_buffer_size : Z;
}.

Inductive AuthBackendConfig : Set :=
  | CfgSimple (user_config_file : bytes)
  | CfgPam (service : bytes)
  | CfgLdap (url base_dn : bytes) (bind_dn bind_password : option bytes) (user_filter : bytes)
  | CfgDatabase (db_type url query : bytes) (hash_type : HashType)
  | CfgNone.

Record AuthConfig : Set := { auth_enabled : bool; auth_backend : AuthBackendConfig }.

Record LoggingConfig : Set := {
  log_level : bytes;
  log_file : option bytes;
  log_console : bool;
  log_journald : bool;
}.

Record RateLimitConfig : Set := { requests_per_minute : Z; burst_size : Z }.

Record SecurityConfig : Set := {
  allowed_networks : list bytes;
  blocked_domains : list bytes;
  allowed_egress_networks : list bytes;
  blocked_egress_networks : list bytes;
  max_request_size : Z;
  rate_limit : option RateLimitConfig;
}.

Record Config : Set := {
  server : ServerConfig;
  auth : AuthConfig;
  logging : LoggingConfig;
  security : SecurityConfig;
  upstream : UpstreamConfig;
  admin : AdminConfig;
}.

(** ** Defaults *)

Definition default_admin_bind_address : bytes := "127.0.0.1".
Definition default_admin_port : Z := 8081.
Definition default_token_ttl : Z := 3600.
Definition default_prefer_env : bool := true.

Definition AdminConfig_default : AdminConfig := {|
  adm_enabled := false;
  adm_bind_address := "127.0.0.1";
  adm_port := 8081;
  adm_token := None;
  adm_admin_users := [];
  adm_token_ttl := 3600;
|}.

Definition UpstreamConfig_default : UpstreamConfig := {|
  up_enabled := false;
  up_protocol := None;
  up_address := None;
  up_port := None;
  up_username := None;
  up_password := None;
  up_exclude_networks := [];
  up_exclude_domains := [];
  up_prefer_env := true;
|}.

Definition AuthBackendConfig_default : AuthBackendConfig := CfgNone.

Definition Config_default : Config := {|
  server := {|
    srv_bind_address := "127.0.0.1";
    srv_socks5_port := 1080;
    srv_http_port := 8080;
    srv_max_connections := 1000;
    srv_connection_timeout := 300;
    srv_buffer_size := 64 * 1024;
  |};
  auth := {| auth_enabled := false; auth_backend := CfgNone |};
  logging := {|
    log_level := "info";
    log_file := None;
    log_console := true;
    log_journald := false;
  |};
  security := {|
    allowed_networks := ["0.0.0.0/0" : bytes];
    blocked_domains := [];
    allowed_egress_networks := [];
    blocked_egress_networks := [];
    max_request_size := 1024 * 1024;
    rate_limit := None;
  |};
  upstream := UpstreamConfig_default;
  admin := AdminConfig_default;
|}.

(** The ranges of the machine integers in a configuration. *)
Definition u16_wf (z : Z) : Prop := 0 ≤ z ≤ U16_MAX.

Definition config_wf (c : Config) : Prop :=
  u16_wf (srv_socks5_port (server c)) ∧ u16_wf (srv_http_port (server c)) ∧
  u16_wf (adm_port (admin c)) ∧
  match up_port (upstream c) with Some p => u16_wf p | None => True end.

(** ** Validation *)

(** [for x in l { f(x)?; }] *)
Fixpoint for_each (f : bytes → result unit) (l : list bytes) : result unit :=
  match l with
  | [] => Ok tt
  | x :: l' => let? _ := f x in for_each f l'
  end.

Definition slash : ascii := "/"%char.

Definition is_some {A} (o : option A) : bool := match o with Some _ => true | None => false end.

Definition validate_backend (b : AuthBackendConfig) : result unit :=
  match b with
  | CfgSimple user_config_file =>
      ensure (negb (bool_decide (user_config_file = [])))
        "Authentication enabled (simple) but no user config file specified" (Ok tt)
  | CfgPam service =>
      ensure (negb (bool_decide (service = []))) "PAM service name cannot be empty" (Ok tt)
  | CfgLdap url base_dn _ _ user_filter =>
      ensure (negb (bool_decide (url = []))) "LDAP URL cannot be empty" $
      ensure (negb (bool_decide (base_dn = []))) "LDAP Base DN cannot be empty" $
      ensure (negb (bool_decide (user_filter = []))) "LDAP User Filter cannot be empty" (Ok tt)
  | CfgDatabase _ url query _ =>
      ensure (negb (bool_decide (url = []))) "Database URL cannot be empty" $
      ensure (negb (bool_decide (query = []))) "Database query cannot be empty" (Ok tt)
  | CfgNone => Err "Authentication enabled but backend is configured as None"
  end.

Definition validate_allowed_network (network : bytes) : result unit :=
  if contains_char slash network then Ok tt
  else ensure (is_some (parse_ip network)) ("Invalid network address: " ++ network) (Ok tt).

(** The test applied to the entries of both egress lists; [field] is the list's name. *)
Definition validate_egress_network (field network : bytes) : result unit :=
  if contains_char slash network then
    let parts := split_char slash network in
    ensure (match parts with
            | [ip; len] => is_some (parse_ip ip) && is_some (parse_u8 len)
            | _ => false
            end)
      ("Invalid CIDR in " ++ field ++ ": " ++ network) (Ok tt)
  else
    ensure (is_some (parse_ip network))
      ("Invalid IP address in " ++ field ++ ": " ++ network) (Ok tt).

Definition validate_upstream (u : UpstreamConfig) : result unit :=
  if up_enabled u then
    match up_protocol u with
    | Some _ =>
        let address := default [] (up_address u) in
        ensure (negb (bool_decide (address = [])))
          "Upstream proxy enabled but address is empty" $
        ensure (negb (bool_decide (up_port u = None)) && negb (bool_decide (up_port u = Some 0)))
          "Upstream proxy enabled but port is missing or 0" (Ok tt)
    | None => Err "Upstream proxy enabled but protocol is not set"
    end
  else Ok tt.

Definition validate_exclude_network (network : bytes) : result unit :=
  if negb (bool_decide (network = "*")) && negb (contains_char slash network)
  then ensure (is_some (parse_ip network))
         ("Invalid IP address in exclude_networks: " ++ network) (Ok tt)
  else Ok tt.

Definition validate_admin (s : ServerConfig) (a : AdminConfig) : result unit :=
  if adm_enabled a then
    ensure (negb (adm_port a =? 0)) ("Invalid admin port: " ++ dec (adm_port a)) $
    ensure (negb ((adm_port a =? srv_socks5_port s) || (adm_port a =? srv_http_port s)))
      "Admin port cannot conflict with SOCKS5 or HTTP ports" $
    ensure (is_some (parse_ip (adm_bind_address a)))
      ("Invalid admin bind address: " ++ adm_bind_address a) (Ok tt)
  else Ok tt.

Definition log_levels : list bytes :=
  ["trace" : bytes; "debug" : bytes; "info" : bytes; "warn" : bytes; "error" : bytes].

Definition validate (c : Config) : result unit :=
  let s := server c in
  ensure (negb (srv_socks5_port s =? 0))
    ("Invalid SOCKS5 port: " ++ dec (srv_socks5_port s)) $
  ensure (negb (srv_http_port s =? 0))
    ("Invalid HTTP port: " ++ dec (srv_http_port s)) $
  ensure (negb (srv_socks5_port s =? srv_http_port s))
    "SOCKS5 and HTTP ports cannot be the same" $
  ensure (is_some (parse_ip (srv_bind_address s)))
    ("Invalid bind address: " ++ srv_bind_address s) $
  ensure (negb (srv_max_connections s =? 0)) "Max connections must be greater than 0" $
  ensure (negb (srv_buffer_size s <? 1024)) "Buffer size must be at least 1024 bytes" $
  let? _ := (if auth_enabled (auth c) then validate_backend (auth_backend (auth c)) else Ok tt) in
  let? _ := for_each validate_allowed_network (allowed_networks (security c)) in
  let? _ := for_each (validate_egress_network "allowed_egress_networks")
              (allowed_egress_networks (security c)) in
  let? _ := for_each (validate_egress_network "blocked_egress_networks")
              (blocked_egress_networks (security c)) in
  ensure (bool_decide (log_level (logging c) ∈ log_levels))
    ("Invalid log level: " ++ log_level (logging c)) $
  let? _ := validate_upstream (upstream c) in
  let? _ := for_each validate_exclude_network (up_exclude_networks (upstream c)) in
  validate_admin s (admin c).

(** ** Bind addresses *)

(** The text of [AddrParseError] for socket addresses. *)
Definition socket_addr_error : bytes := "invalid socket address syntax".

Definition bind_addr (what address : bytes) (port : Z) : result SocketAddr :=
  let addr := address ++ ":" ++ dec port in
  ok_or (parse_socket_addr addr)
    ("Failed to parse " ++ what ++ " bind address: " ++ socket_addr_error).

Definition socks5_bind_addr (c : Config) : result SocketAddr :=
  bind_addr "SOCKS5" (srv_bind_address (server c)) (srv_socks5_port (server c)).
Definition http_bind_addr (c : Config) : result SocketAddr :=
  bind_addr "HTTP" (srv_bind_address (server c)) (srv_http_port (server c)).
Definition admin_bind_addr (c : Config) : result SocketAddr :=
  bind_addr "Admin" (adm_bind_address (admin c)) (adm_port (admin c)).

(** ** Files *)

(** serde_yaml on [Config]. *)
Class ConfigYaml := {
  config_from_yaml : bytes → result Config;
  config_to_yaml : Config → result bytes;
}.

Section files.
Context {Sh : Type} `{ConfigYaml}.

(** The parsing and the check of [load_from_file], on the file's content. *)
Definition config_of_content (content : bytes) : result Config :=
  let? config := config_from_yaml content in
  let? _ := validate config in
  Ok config.

Definition load_from_file (path : bytes) : prog Sh (result Config) :=
  content <-? perform (ReadFile path) ;;
  Ret (config_of_content content).

Definition save_to_file (c : Config) (path : bytes) : prog Sh (result unit) :=
  content <-? Ret (config_to_yaml c) ;;
  _ <-? perform (WriteFile path content) ;;
  Ret (Ok tt).

End files.

(** ** What validation accepts *)

Lemma for_each_ok f l : for_each f l = Ok tt ↔ Forall (λ x, f x = Ok tt) l.
Proof.
  induction l as [|x l IH]; cbn; [split; [constructor|done]|].
  rewrite res_bind_ok, Forall_cons, <- IH. split.
  - by intros ([] & ? & ?).
  - intros [? ?]. by exists tt.
Qed.

Lemma ensure_ok_tt c e : ensure c e (Ok tt) = Ok tt ↔ c = true.
Proof. rewrite ensure_ok. tauto. Qed.

Lemma is_some_true {A} (o : option A) : is_some o = true ↔ is_Some o.
Proof. destruct o; split; [eauto|done|done|by intros [? ?]]. Qed.

Definition backend_complete (b : AuthBackendConfig) : Prop :=
  match b with
  | CfgSimple f => f ≠ []
  | CfgPam s => s ≠ []
  | CfgLdap url base _ _ filter => url ≠ [] ∧ base ≠ [] ∧ filter ≠ []
  | CfgDatabase _ url query _ => url ≠ [] ∧ query ≠ []
  | CfgNone => False
  end.

(** An address, or an address and a [u8] around a single slash. *)
Definition network_syntax (n : bytes) : Prop :=
  ((slash ∉ n) ∧ is_Some (parse_ip n)) ∨
  ∃ ip len, n = ip ++ "/" ++ len ∧ (slash ∉ ip) ∧ (slash ∉ len) ∧
            is_Some (parse_ip ip) ∧ is_Some (parse_u8 len).

Record valid (c : Config) : Prop := {
  v_socks5 : srv_socks5_port (server c) ≠ 0;
  v_http : srv_http_port (server c) ≠ 0;
  v_distinct : srv_socks5_port (server c) ≠ srv_http_port (server c);
  v_bind : is_Some (parse_ip (srv_bind_address (server c)));
  v_max : srv_max_connections (server c) ≠ 0;
  v_buffer : 1024 ≤ srv_buffer_size (server c);
  v_auth : auth_enabled (auth c) = true → backend_complete (auth_backend (auth c));
  v_allowed : Forall (λ n, slash ∈ n ∨ is_Some (parse_ip n)) (allowed_networks (security c));
  v_egress_allowed : Forall network_syntax (allowed_egress_networks (security c));
  v_egress_blocked : Forall network_syntax (blocked_egress_networks (security c));
  v_level : log_level (logging c) ∈ log_levels;
  v_upstream : up_enabled (upstream c) = true →
    is_Some (up_protocol (upstream c)) ∧
    (∃ a, up_address (upstream c) = Some a ∧ a ≠ []) ∧
    (∃ p, up_port (upstream c) = Some p ∧ p ≠ 0);
  v_exclude : Forall (λ n : bytes, n = "*" ∨ slash ∈ n ∨ is_Some (parse_ip n))
    (up_exclude_networks (upstream c));
  v_admin : adm_enabled (admin c) = true →
    adm_port (admin c) ≠ 0 ∧ adm_port (admin c) ≠ srv_socks5_port (server c) ∧
    adm_port (admin c) ≠ srv_http_port (server c) ∧
    is_Some (parse_ip (adm_bind_address (admin c)));
}.

Lemma validate_backend_ok b : validate_backend b = Ok tt ↔ backend_complete b.
Proof.
  destruct b; cbn;
    rewrite ?ensure_ok, ?ensure_ok_tt, ?negb_true_iff, ?bool_decide_eq_false;
    tauto || by split.
Qed.


Lemma split_pair c n a b :
  split_char c n = [a; b] ↔ n = a ++ [c] ++ b ∧ (c ∉ a) ∧ c ∉ b.
Proof.
  split.
  - intros H. pose proof (join_split c n) as Hj. pose proof (split_char_no_sep c n) as Hn.
    rewrite H in Hj, Hn. apply Forall_cons in Hn as [? [? _]%Forall_cons].
    cbn in Hj. by subst n.
  - intros (-> & Ha & Hb). cbn. rewrite split_char_app by done. by rewrite split_char_none.
Qed.

Lemma validate_egress_network_ok field n :
  validate_egress_network field n = Ok tt ↔ network_syntax n.
Proof.
  unfold validate_egress_network, network_syntax, contains_char. case_bool_decide as Hs.
  - rewrite ensure_ok_tt. split.
    + intros H. right. destruct (split_char slash n) as [|ip [|len [|]]] eqn:Hsp; try done.
      apply andb_true_iff in H as [H1 H2]. apply split_pair in Hsp as (-> & ? & ?).
      exists ip, len. repeat split; try done; by apply is_some_true.
    + intros [[? _]|(ip & len & -> & ? & ? & H1 & H2)]; [done|].
      assert (split_char slash (ip ++ "/" ++ len) = [ip; len]) as -> by (by apply split_pair).
      by apply andb_true_iff; split; apply is_some_true.
  - rewrite ensure_ok_tt, is_some_true. split; [by left|].
    intros [[_ ?]|(ip & len & -> & _)]; [done|]. exfalso. apply Hs. set_solver.
Qed.

Lemma validate_allowed_network_ok n :
  validate_allowed_network n = Ok tt ↔ slash ∈ n ∨ is_Some (parse_ip n).
Proof.
  unfold validate_allowed_network, contains_char. case_bool_decide as Hs; [tauto|].
  rewrite ensure_ok_tt, is_some_true. tauto.
Qed.

Lemma validate_exclude_network_ok n :
  validate_exclude_network n = Ok tt ↔ n = "*" ∨ slash ∈ n ∨ is_Some (parse_ip n).
Proof.
  unfold validate_exclude_network, contains_char.
  do 2 case_bool_decide; cbn; rewrite ?ensure_ok_tt, ?is_some_true; tauto.
Qed.

Lemma validate_upstream_ok u :
  validate_upstream u = Ok tt ↔
  (up_enabled u = true →
    is_Some (up_protocol u) ∧ (∃ a, up_address u = Some a ∧ a ≠ []) ∧
    (∃ p, up_port u = Some p ∧ p ≠ 0)).
Proof.
  unfold validate_upstream. destruct (up_enabled u); [|by split].
  destruct (up_protocol u) as [p|]; [|split; [done|]; intros H; by destruct (H eq_refl) as [[? ?] _]].
  rewrite ensure_ok, ensure_ok_tt, andb_true_iff, !negb_true_iff, !bool_decide_eq_false.
  split.
  - intros (Ha & Hp & Hp0) _. repeat split; [eauto| |].
    + destruct (up_address u) as [a|]; [eauto|done].
    + destruct (up_port u) as [n|]; [|done]. exists n. split; [done|congruence].
  - intros H. destruct (H eq_refl) as (_ & (a & -> & Ha) & (n & -> & Hn)).
    repeat split; [done|done|congruence].
Qed.

Lemma validate_admin_ok s a :
  validate_admin s a = Ok tt ↔
  (adm_enabled a = true →
    adm_port a ≠ 0 ∧ adm_port a ≠ srv_socks5_port s ∧ adm_port a ≠ srv_http_port s ∧
    is_Some (parse_ip (adm_bind_address a))).
Proof.
  unfold validate_admin. destruct (adm_enabled a); [|by split].
  rewrite !ensure_ok, is_some_true, !negb_true_iff, orb_false_iff, !Z.eqb_neq.
  intuition auto.
Qed.

Lemma res_bind_unit (r : result unit) (k : result unit) :
  res_bind r (λ _, k) = Ok tt ↔ r = Ok tt ∧ k = Ok tt.
Proof.
  rewrite res_bind_ok. split; [by intros ([] & ? & ?)|]. intros [? ?]. by exists tt.
Qed.

Lemma validate_ok (c : Config) : validate c = Ok tt ↔ valid c.
Proof.
  unfold validate.
  rewrite !ensure_ok, !res_bind_unit, ensure_ok, !res_bind_unit.
  rewrite validate_admin_ok, validate_upstream_ok, !for_each_ok, !negb_true_iff, !Z.eqb_neq.
  rewrite is_some_true, bool_decide_eq_true, Z.ltb_ge.
  setoid_rewrite validate_egress_network_ok. setoid_rewrite validate_allowed_network_ok.
  setoid_rewrite validate_exclude_network_ok.
  assert ((if auth_enabled (auth c) then validate_backend (auth_backend (auth c)) else Ok tt)
            = Ok tt ↔ (auth_enabled (auth c) = true → backend_complete (auth_backend (auth c))))
    as -> by (destruct (auth_enabled _); [rewrite validate_backend_ok; tauto | by split]).
  split.
  - intros (?&?&?&?&?&?&?&?&?&?&?&?&?&?). by constructor.
  - intros []. repeat (split; [assumption|]); assumption.
Qed.

(** C21. [Config::validate] accepts exactly the configurations of [valid]: ports that
    are set and distinct, a bind address and networks that parse, a complete
    authentication backend, a known log level, a complete upstream and an admin
    listener that does not clash. *)
Theorem validate_spec (c : Config) : validate c = Ok tt ↔ valid c.
Proof. apply validate_ok. Qed.

Lemma load_checks `{ConfigYaml} content c :
  config_of_content content = Ok c → config_from_yaml content = Ok c ∧ valid c.
Proof.
  unfold config_of_content. intros (c' & Hc & Hv)%res_bind_ok.
  apply res_bind_ok in Hv as ([] & Hv & [= <-]). split; [done|]. by apply validate_ok.
Qed.

Example default_valid : validate Config_default = Ok tt.
Proof. vm_compute. reflexivity. Qed.

(** C33. The addresses the three listeners get from an accepted configuration. When
    [server.bind_address] is IPv4, the two proxies get exactly that address with their own
    ports, which differ. When it is IPv6, which the validation accepts too, neither
    gets an address. The admin listener has an address of its own, and it is the same with
    it: an IPv4 [admin.bind_address] gives exactly that address and the admin port, an
    IPv6 one gives none, even though the validation accepts it; with the admin interface
    enabled it is always one of the two, and the admin port is none of the proxies'. *)
Theorem bind_addresses (c : Config) :
  validate c = Ok tt → config_wf c →
  (∃ ip, parse_ip (srv_bind_address (server c)) = Some ip ∧
     match ip with
     | V4 _ => socks5_bind_addr c = Ok {| sa_ip := ip; sa_port := srv_socks5_port (server c) |} ∧
               http_bind_addr c = Ok {| sa_ip := ip; sa_port := srv_http_port (server c) |}
     | V6 _ => is_ok (socks5_bind_addr c) = false ∧ is_ok (http_bind_addr c) = false
     end) ∧
  srv_socks5_port (server c) ≠ srv_http_port (server c) ∧
  (∀ ip, parse_ip (adm_bind_address (admin c)) = Some ip →
     match ip with
     | V4 _ => admin_bind_addr c = Ok {| sa_ip := ip; sa_port := adm_port (admin c) |}
     | V6 _ => is_ok (admin_bind_addr c) = false
     end) ∧
  (adm_enabled (admin c) = true →
     is_Some (parse_ip (adm_bind_address (admin c))) ∧
     adm_port (admin c) ≠ srv_socks5_port (server c) ∧ adm_port (admin c) ≠ srv_http_port (server c)).
Proof.
  intros Hv%validate_ok (Hs & Hh & Hm & _). destruct (v_bind c Hv) as [ip Hip].
  unfold socks5_bind_addr, http_bind_addr, admin_bind_addr, bind_addr. split; [|split; [by apply v_distinct|split]].
  - exists ip. split; [done|]. destruct ip as [o|o].
    + by rewrite !(parse_socket_addr_v4 _ o).
    + by rewrite !(parse_socket_addr_v6 _ o).
  - intros [o|o] Ha; [by rewrite (parse_socket_addr_v4 _ o)|by rewrite (parse_socket_addr_v6 _ o)].
  - intros (_ & ? & ? & ?)%(v_admin c Hv). done.
Qed.

(** The default configuration with bind addresses of one's choice, admin enabled. *)
Definition with_bind (a b : bytes) : Config := {|
  server := {| srv_bind_address := a; srv_socks5_port := 1080; srv_http_port := 8080;
               srv_max_connections := 1000; srv_connection_timeout := 300;
               srv_buffer_size := 65536 |};
  auth := auth Config_default; logging := logging Config_default;
  security := security Config_default; upstream := upstream Config_default;
  admin := {| adm_enabled := true; adm_bind_address := b; adm_port := 8082; adm_token := None;
              adm_admin_users := []; adm_token_ttl := 3600 |} |}.

Lemma bind_addresses_witness :
  let c := with_bind "0.0.0.0" "::1" in
  validate c = Ok tt ∧ is_ok (socks5_bind_addr c) = true ∧ is_ok (admin_bind_addr c) = false ∧
  is_ok (http_bind_addr (with_bind "::1" "127.0.0.1")) = false.
Proof.
  assert (∀ a b, config_wf (with_bind a b)) as Hwf by (intros a b; vm_compute; intuition discriminate).
  intros c. assert (validate c = Ok tt) as Hv by (vm_compute; reflexivity).
  destruct (bind_addresses c Hv (Hwf _ _)) as ((ip & Hip & Hb) & _ & Ha & _).
  split; [exact Hv|]. split; [|split].
  - injection Hip as <-. destruct Hb as [Hb _]. rewrite Hb. reflexivity.
  - exact (Ha (V6 (replicate 15 "000"%char ++ ["001"%char])) eq_refl).
  - destruct (bind_addresses (with_bind "::1" "127.0.0.1") ltac:(vm_compute; reflexivity) (Hwf _ _))
      as ((ip2 & Hip2 & Hb2) & _). injection Hip2 as <-. exact (proj2 Hb2).
Defined.
