(* ===== verification/Policy.v ===== *)
(** * Access policy (src/src/upstream.rs, lines 18-189)

    CIDR matching, the ingress and egress network rules, the blocked domains, and the
    exclusions from upstream routing. *)

From S2P Require Import Prelude RustStr IpAddr Effects Config.

Local Open Scope Z_scope.
Local Open Scope rust_scope.

(** ** CIDR matching *)

(** [MAX << (width - prefix)] on an unsigned integer of [width] bits. *)
Definition prefix_mask (width max prefix_len : Z) : Z :=
  if prefix_len =? 0 then 0 else Z.land (Z.shiftl max (width - prefix_len)) max.

Definition match_cidr (ip : IpAddr) (cidr : bytes) : bool :=
  match split_char slash cidr with
  | [] => false
  | base :: rest =>
      match parse_ip base with
      | None => false
      | Some ip_base =>
          match rest with
          | [] => bool_decide (ip = ip_base)
          | len :: _ =>
              match parse_u8 len with
              | None => false
              | Some prefix_len =>
                  match ip, ip_base with
                  | V4 v4_ip, V4 v4_base =>
                      if 32 <? prefix_len then false
                      else
                        let mask := prefix_mask 32 U32_MAX prefix_len in
                        Z.land (from_be v4_ip) mask =? Z.land (from_be v4_base) mask
                  | V6 v6_ip, V6 v6_base =>
                      if 128 <? prefix_len then false
                      else
                        let mask := prefix_mask 128 U128_MAX prefix_len in
                        Z.land (from_be v6_ip) mask =? Z.land (from_be v6_base) mask
                  | _, _ => false
                  end
              end
          end
      end
  end.

(** ** Ingress and egress rules *)

Definition check_client_allowed (c : Config) (ip : IpAddr) : bool :=
  let allowed := allowed_networks (security c) in
  if bool_decide (allowed = []) then true
  else existsb (match_cidr ip) allowed.

Definition check_egress_rules (c : Config) (ip : IpAddr) : bool :=
  if existsb (match_cidr ip) (blocked_egress_networks (security c)) then false
  else if negb (bool_decide (allowed_egress_networks (security c) = [])) then
    existsb (match_cidr ip) (allowed_egress_networks (security c))
  else true.

(** ** Domains *)

Section domains.
Context `{UnicodeCase}.

Definition dot : ascii := "."%char.

(** [domain.trim_start_matches('.').to_lowercase()]. *)
Definition domain_clean (domain : bytes) : bytes := to_lowercase (trim_start_matches dot domain).

(** [host == clean || host.ends_with(&format!(".{}", clean))]. *)
Definition domain_match (host_lower clean : bytes) : bool :=
  bool_decide (host_lower = clean) || ends_with (dot :: clean) host_lower.

Definition is_domain_blocked (c : Config) (host : bytes) : bool :=
  let host_lower := to_lowercase host in
  existsb (λ domain,
    let clean := domain_clean domain in
    negb (bool_decide (clean = [])) && domain_match host_lower clean)
  (blocked_domains (security c)).

(** [if let Some(ip) = o { if match_cidr(ip, n) { return true } }] *)
Definition opt_match_cidr (o : option IpAddr) (n : bytes) : bool :=
  match o with Some ip => match_cidr ip n | None => false end.

Definition is_excluded (host : bytes) (ip : option IpAddr)
    (exclude_networks exclude_domains no_proxy_list : list bytes) : bool :=
  let host_lower := to_lowercase host in
  let host_ip := parse_ip host in
  existsb (opt_match_cidr ip) exclude_networks
  || existsb (opt_match_cidr host_ip) exclude_networks
  || existsb (λ domain, domain_match host_lower (domain_clean domain)) exclude_domains
  || existsb (λ entry : bytes,
       bool_decide (entry = "*")
       || opt_match_cidr ip entry
       || opt_match_cidr host_ip entry
       || domain_match host_lower (domain_clean entry)) no_proxy_list.

End domains.

(** ** NO_PROXY *)

Section no_proxy.
Context {Sh : Type}.

(** [std::env::var(a).or_else(|_| std::env::var(b))]. *)
Definition env_var_or (a b : bytes) : prog Sh (option bytes) :=
  v <- perform (EnvVar a) ;;
  match v with
  | Some x => Ret (Some x)
  | None => perform (EnvVar b)
  end.

Definition no_proxy_entries (no_proxy : bytes) : list bytes :=
  filter (λ e, e ≠ [])
    (trim <$> split_by (λ c, bool_decide (c = ","%char) || bool_decide (c = " "%char)) no_proxy).

Definition get_no_proxy_list : prog Sh (list bytes) :=
  v <- env_var_or "NO_PROXY" "no_proxy" ;;
  Ret (match v with Some no_proxy => no_proxy_entries no_proxy | None => [] end).

End no_proxy.

(** ** Lemmas: masks *)

Lemma shiftl_ones_mask w k x :
  0 ≤ k ≤ w → 0 ≤ x < 2 ^ w →
  Z.land x (Z.land (Z.shiftl (Z.ones w) k) (Z.ones w)) = (x / 2 ^ k) * 2 ^ k.
Proof.
  intros Hk Hx. rewrite <- Z.shiftl_mul_pow2, <- Z.shiftr_div_pow2 by lia.
  apply Z.bits_inj'. intros n Hn.
  rewrite !Z.land_spec, !Z.shiftl_spec by lia.
  destruct (Z.lt_ge_cases n k) as [Hnk|Hnk].
  - rewrite (Z.testbit_neg_r (Z.ones w)), (Z.testbit_neg_r (Z.shiftr x k)) by lia.
    by rewrite andb_false_r.
  - rewrite Z.shiftr_spec by lia. replace (n - k + k) with n by lia.
    destruct (Z.lt_ge_cases n w) as [Hnw|Hnw].
    + rewrite !Z.ones_spec_low by lia. by rewrite !andb_true_r.
    + assert (Z.testbit x n = false) as ->; [|done].
      destruct (decide (x = 0)) as [->|]; [apply Z.bits_0|].
      apply Z.bits_above_log2; [lia|].
      apply Z.lt_le_trans with w; [|done]. apply Z.log2_lt_pow2; lia.
Qed.

(** Masking keeps the leading bits: two addresses agree under the mask exactly when
    they agree once the host bits are divided away. *)
Lemma prefix_mask_eq w x y p :
  0 ≤ p ≤ w → 0 ≤ x < 2 ^ w → 0 ≤ y < 2 ^ w →
  (Z.land x (prefix_mask w (Z.ones w) p) =? Z.land y (prefix_mask w (Z.ones w) p)) = true
  ↔ x / 2 ^ (w - p) = y / 2 ^ (w - p).
Proof.
  intros Hp Hx Hy. unfold prefix_mask. destruct (Z.eqb_spec p 0) as [->|].
  - rewrite !Z.land_0_r, Z.sub_0_r, !Z.div_small by done. done.
  - rewrite !shiftl_ones_mask by lia. rewrite Z.eqb_eq.
    pose proof (Z.pow_pos_nonneg 2 (w - p) ltac:(lia) ltac:(lia)). split; [nia|congruence].
Qed.

Lemma from_be_width bs n : length bs = n → 0 ≤ from_be bs < 2 ^ (8 * Z.of_nat n).
Proof.
  intros <-. pose proof (from_be_range bs) as Hr.
  by rewrite Z.pow_mul_r by lia.
Qed.

Lemma slash_not_in_show ip : slash ∉ show_ip ip.
Proof. apply show_ip_not_in. by intros [|[|[? ?]]]. Qed.

Lemma slash_not_in_dec z : 0 ≤ z → slash ∉ dec z.
Proof. intros Hz. apply dec_not_in; [done|]. vm_compute. by left. Qed.

Lemma split_show base p :
  0 ≤ p → split_char slash (show_ip base ++ "/" ++ dec p) = [show_ip base; dec p].
Proof.
  intros Hp. apply split_pair. repeat split; [apply slash_not_in_show | by apply slash_not_in_dec].
Qed.

(** Membership of an address in the block [base/p]: same family, and equal leading
    [p] bits. *)
Definition in_block (ip base : IpAddr) (p : Z) : Prop :=
  match ip, base with
  | V4 x, V4 b => p ≤ 32 ∧ from_be x / 2 ^ (32 - p) = from_be b / 2 ^ (32 - p)
  | V6 x, V6 b => p ≤ 128 ∧ from_be x / 2 ^ (128 - p) = from_be b / 2 ^ (128 - p)
  | _, _ => False
  end.

Lemma match_cidr_block ip n b len base p :
  ip_wf ip → split_char slash n = [b; len] → parse_ip b = Some base → parse_u8 len = Some p →
  match_cidr ip n = true ↔ in_block ip base p.
Proof.
  intros Hip Hs Hb Hp. unfold match_cidr. rewrite Hs, Hb, Hp.
  pose proof (parse_u8_range _ _ Hp) as Hr.
  pose proof (parse_ip_wf _ _ Hb) as Hbase.
  destruct ip as [x|x], base as [y|y]; cbn [in_block]; try done; cbn in Hip, Hbase.
  - pose proof (from_be_width x 4 Hip). pose proof (from_be_width y 4 Hbase).
    destruct (Z.ltb_spec 32 p); [split; [done|lia]|].
    change U32_MAX with (Z.ones 32). rewrite prefix_mask_eq by (done || lia).
    split; [intros; split; [lia|done] | tauto].
  - pose proof (from_be_width x 16 Hip). pose proof (from_be_width y 16 Hbase).
    destruct (Z.ltb_spec 128 p); [split; [done|lia]|].
    change U128_MAX with (Z.ones 128). rewrite prefix_mask_eq by (done || lia).
    split; [intros; split; [lia|done] | tauto].
Qed.

(** C23. CIDR matching, from the text of the entry: [base/p] matches exactly the
    addresses of the same family whose first [p] bits are those of [base], for every
    prefix length the entry can carry; an entry without a slash matches exactly that
    address. *)
Theorem match_cidr_spec (ip base : IpAddr) (p : Z) :
  ip_wf ip → ip_wf base → 0 ≤ p ≤ U8_MAX →
  (match_cidr ip (show_ip base ++ "/" ++ dec p) = true ↔ in_block ip base p) ∧
  (match_cidr ip (show_ip base) = true ↔ ip = base).
Proof.
  intros Hip Hbase Hp. split.
  - apply match_cidr_block with (show_ip base) (dec p); try done.
    + apply split_show. lia.
    + by apply parse_show_ip.
    + by apply parse_uint_dec.
  - unfold match_cidr. rewrite split_char_none by apply slash_not_in_show.
    rewrite parse_show_ip by done. by rewrite bool_decide_eq_true.
Qed.

Definition ip4 (a b c d : Z) : IpAddr := V4 [as_u8 a; as_u8 b; as_u8 c; as_u8 d].

Lemma match_cidr_spec_witness :
  match_cidr (ip4 10 1 2 3) "10.0.0.0/8" = true ∧
  match_cidr (ip4 10 1 2 3) (show_ip (ip4 10 1 2 3)) = true.
Proof.
  split.
  - change (bstr "10.0.0.0/8") with (show_ip (ip4 10 0 0 0) ++ "/" ++ dec 8).
    apply (match_cidr_spec (ip4 10 1 2 3) (ip4 10 0 0 0) 8); [done|done|done|].
    split; [done|reflexivity].
  - apply (match_cidr_spec (ip4 10 1 2 3) (ip4 10 1 2 3) 8); done.
Defined.

(** ** Lemmas: the rules *)

Lemma check_egress_rules_true c ip :
  check_egress_rules c ip = true ↔
  Forall (λ n, match_cidr ip n = false) (blocked_egress_networks (security c)) ∧
  (allowed_egress_networks (security c) = [] ∨
   Exists (λ n, match_cidr ip n = true) (allowed_egress_networks (security c))).
Proof.
  unfold check_egress_rules. rewrite <- existsb_false_Forall, <- existsb_bool_decide.
  destruct (existsb _ (blocked_egress_networks _)); [split; [done|by intros [? _]]|].
  case_bool_decide as H; cbn; [tauto|]. tauto.
Qed.

Lemma check_client_allowed_true c ip :
  check_client_allowed c ip = true ↔
  allowed_networks (security c) = [] ∨
  Exists (λ n, match_cidr ip n = true) (allowed_networks (security c)).
Proof.
  unfold check_client_allowed. rewrite <- existsb_bool_decide.
  case_bool_decide; tauto.
Qed.

(** What an entry of a list of networks can denote. *)
Inductive network : Type := Single (a : IpAddr) | Block (base : IpAddr) (p : Z).

Definition covers (b : network) (ip : IpAddr) : Prop :=
  match b with Single a => ip = a | Block base p => in_block ip base p end.

(** How an entry is read: an address, or an address, a slash and a [u8]; a second slash
    and what comes after it are ignored. *)
Inductive reads : bytes → network → Prop :=
  | reads_single n a : slash ∉ n → parse_ip n = Some a → reads n (Single a)
  | reads_block b len rest a p :
      (slash ∉ b) → (slash ∉ len) → (rest = [] ∨ ∃ r, rest = slash :: r) →
      parse_ip b = Some a → parse_u8 len = Some p → reads (b ++ "/" ++ len ++ rest) (Block a p).

Lemma reads_split n b :
  reads n b ↔
  match split_char slash n, b with
  | [x], Single a => parse_ip x = Some a
  | x :: len :: _, Block a p => parse_ip x = Some a ∧ parse_u8 len = Some p
  | _, _ => False
  end.
Proof.
  split.
  - intros [n' a Hn Ha|x len rest a p Hx Hl Hr Ha Hp]; [by rewrite split_char_none|].
    change (x ++ "/" ++ len ++ rest) with (x ++ slash :: len ++ rest). rewrite split_char_app by done. destruct Hr as [->|[r ->]].
    + by rewrite app_nil_r, split_char_none.
    + by rewrite split_char_app.
  - pose proof (join_split slash n) as Hj. pose proof (split_char_no_sep slash n) as Hn.
    destruct (split_char slash n) as [|x [|len ws]]; [done|..]; destruct b as [a|a p]; try done.
    + cbn in Hj. subst x. intros Ha. rewrite Forall_singleton in Hn. by constructor.
    + intros [Ha Hp]. apply Forall_cons in Hn as [Hx Hn]. apply Forall_cons in Hn as [Hl _].
      destruct ws as [|w ws].
      * cbn in Hj. rewrite <- Hj. rewrite <- (app_nil_r len). by apply reads_block; [..|left| |].
      * change (join slash (x :: len :: w :: ws)) with (x ++ slash :: len ++ slash :: join slash (w :: ws)) in Hj.
        rewrite <- Hj. apply (reads_block x len (slash :: join slash (w :: ws))); try done. right. by eexists.
Qed.

(** An entry matches exactly the addresses of the network it is read as. *)
Lemma match_cidr_reads ip n :
  ip_wf ip → match_cidr ip n = true ↔ ∃ b, reads n b ∧ covers b ip.
Proof.
  intros Hip. setoid_rewrite reads_split. destruct (split_char slash n) as [|x [|len ws]] eqn:Hs.
  - by destruct (split_char_nonempty slash n).
  - unfold match_cidr. rewrite Hs. destruct (parse_ip x) as [a|].
    + rewrite bool_decide_eq_true. split; [intros ->; by exists (Single a)|]. intros [[a'|] [Ha Hc]]; [|done].
      by injection Ha as ->.
    + split; [done|]. intros [[a'|] [Ha _]]; done.
  - pose proof (split_char_no_sep slash n) as Hn. rewrite Hs in Hn.
    apply Forall_cons in Hn as [Hx Hn]. apply Forall_cons in Hn as [Hl _].
    assert (split_char slash (x ++ "/" ++ len) = [x; len]) as Hxl by (by apply split_pair).
    assert (match_cidr ip n = match_cidr ip (x ++ "/" ++ len)) as -> by (unfold match_cidr; by rewrite Hs, Hxl).
    destruct (parse_ip x) as [a|] eqn:Ha; [destruct (parse_u8 len) as [p|] eqn:Hp|].
    + rewrite (match_cidr_block ip _ x len a p) by done. split; [intros; by exists (Block a p)|].
      intros [[|] [Hr ?]]; [done|]. by destruct Hr as [[= ->] [= ->]].
    + unfold match_cidr. rewrite Hxl, Ha, Hp. split; [done|]. intros [[a'|a' p'] [Hr _]]; [done|by destruct Hr].
    + unfold match_cidr. rewrite Hxl, Ha. split; [done|]. intros [[a'|a' p'] [Hr _]]; [done|by destruct Hr].
Qed.

Lemma network_syntax_reads n : network_syntax n → ∃ b, reads n b.
Proof.
  intros [[Hn [a Ha]]|(x & len & -> & Hx & Hl & [a Ha] & [p Hp])].
  - exists (Single a). by constructor.
  - exists (Block a p). rewrite <- (app_nil_r len). by apply reads_block; [..|left| |].
Qed.

(** C22. The network rules of a validated configuration, in terms of sets of addresses.
    Every entry of the two egress lists denotes an address or a block of addresses. A
    destination passes the egress check exactly when no blocked entry covers it and the
    allowlist is empty or has an entry that covers it: a block always wins. A client
    passes the ingress check, which has no block list, exactly when [allowed_networks]
    is empty or has an entry that covers it. *)
Theorem network_rules_spec (c : Config) (ip : IpAddr) :
  validate c = Ok tt → ip_wf ip →
  (∀ n, n ∈ blocked_egress_networks (security c) ++ allowed_egress_networks (security c) →
     ∃ b, reads n b) ∧
  (check_egress_rules c ip = true ↔
    (∀ n b, n ∈ blocked_egress_networks (security c) → reads n b → ¬ covers b ip) ∧
    (allowed_egress_networks (security c) = [] ∨
     ∃ n b, n ∈ allowed_egress_networks (security c) ∧ reads n b ∧ covers b ip)) ∧
  (check_client_allowed c ip = true ↔
    allowed_networks (security c) = [] ∨
    ∃ n b, n ∈ allowed_networks (security c) ∧ reads n b ∧ covers b ip).
Proof.
  intros Hv%validate_ok Hip. split; [|split].
  - intros n Hn. apply network_syntax_reads. destruct Hv. rewrite !Forall_forall in *. set_solver.
  - rewrite check_egress_rules_true, Forall_forall, Exists_exists. setoid_rewrite <- not_true_iff_false.
    setoid_rewrite (match_cidr_reads ip _ Hip). naive_solver.
  - rewrite check_client_allowed_true, Exists_exists. setoid_rewrite (match_cidr_reads ip _ Hip). naive_solver.
Qed.

Section domain_rules.
Context `{UnicodeCase}.

Lemma domain_match_true h clean :
  domain_match h clean = true ↔ h = clean ∨ ∃ sub, h = sub ++ "." ++ clean.
Proof.
  unfold domain_match. rewrite orb_true_iff, bool_decide_eq_true, ends_with_spec. done.
Qed.

Lemma is_domain_blocked_true c host :
  is_domain_blocked c host = true ↔
  ∃ d, d ∈ blocked_domains (security c) ∧ domain_clean d ≠ [] ∧
       (to_lowercase host = domain_clean d ∨
        ∃ sub, to_lowercase host = sub ++ "." ++ domain_clean d).
Proof.
  unfold is_domain_blocked. rewrite existsb_bool_decide, Exists_exists.
  setoid_rewrite andb_true_iff. setoid_rewrite negb_true_iff.
  setoid_rewrite bool_decide_eq_false. setoid_rewrite domain_match_true. done.
Qed.

End domain_rules.

(** ** Letter case

    Its own definition, to hold the filter against: the same letter of the alphabet in
    either case. *)

Definition same_letter (a b : ascii) : Prop :=
  a = b ∨ ∃ i, 0 ≤ i < 26 ∧ ((u8 a = 65 + i ∧ u8 b = 97 + i) ∨ (u8 a = 97 + i ∧ u8 b = 65 + i)).

(** Equal but for the case of letters. *)
Definition same_text : bytes → bytes → Prop := Forall2 same_letter.

Lemma u8_lower c : u8 (ascii_lower c) = if in_range 65 90 c then u8 c + 32 else u8 c.
Proof.
  unfold ascii_lower. destruct (in_range 65 90 c) eqn:Hr; [|done].
  unfold in_range in Hr. apply andb_true_iff in Hr as [? ?]. rewrite u8_as_u8_small; lia.
Qed.

Lemma same_letter_lower a b : ascii_lower a = ascii_lower b ↔ same_letter a b.
Proof.
  transitivity (u8 (ascii_lower a) = u8 (ascii_lower b)); [split; [by intros ->|apply u8_inj]|].
  rewrite !u8_lower. unfold same_letter, in_range.
  pose proof (u8_range a). pose proof (u8_range b).
  destruct (Z.leb_spec 65 (u8 a)), (Z.leb_spec (u8 a) 90), (Z.leb_spec 65 (u8 b)), (Z.leb_spec (u8 b) 90);
    cbn [andb]; split; try (intros He; first [left; apply u8_inj; lia | right; exists (u8 a - 65); lia
      | right; exists (u8 b - 65); lia]); intros [->|(i & ? & ?)]; lia.
Qed.

Lemma same_text_lower s t : ascii_lower <$> s = ascii_lower <$> t ↔ same_text s t.
Proof.
  unfold same_text. rewrite list_eq_Forall2, Forall2_fmap.
  split; intros Hf; (eapply Forall2_impl; [exact Hf|]); intros x y; by rewrite same_letter_lower.
Qed.

Lemma lower_dot c : ascii_lower c = dot → c = dot.
Proof.
  change dot with (ascii_lower dot) at 1. rewrite same_letter_lower.
  intros [->|(i & ? & [[_ Hd]|[_ Hd]])]; [done|..]; change (u8 dot) with 46 in Hd; lia.
Qed.

Section domain_entries.
Context `{UnicodeCase}.

(** The host is the name this entry has behind its leading dots, or a subdomain of it,
    letter case aside. *)
Definition under_domain (host entry : bytes) : Prop := ∃ dots name,
  entry = dots ++ name ∧ Forall (λ x, x = "."%char) dots ∧ head name ≠ Some "."%char ∧
  (to_lowercase host = to_lowercase name ∨ ∃ sub, to_lowercase host = sub ++ "." ++ to_lowercase name).

(** The target, by its address or as an address written as a host, is in the network. *)
Definition in_network (host : bytes) (ip : option IpAddr) (entry : bytes) : Prop :=
  ∃ a b, (ip = Some a ∨ parse_ip host = Some a) ∧ reads entry b ∧ covers b a.

Lemma domain_clean_entry dots name :
  Forall (λ c, c = dot) dots → head name ≠ Some dot → domain_clean (dots ++ name) = to_lowercase name.
Proof.
  intros Hd Hn. unfold domain_clean, trim_start_matches. rewrite drop_while_app.
  - fold (trim_start_matches dot name). by rewrite trim_start_matches_idle.
  - eapply Forall_impl; [exact Hd|]. intros x ->. by apply bool_decide_eq_true.
Qed.

(** Every entry is a run of dots and a name that does not begin with one. *)
Lemma entry_split (d : bytes) :
  ∃ dots name, d = dots ++ name ∧ Forall (λ c, c = dot) dots ∧ head name ≠ Some dot.
Proof.
  induction d as [|c d (dots & name & -> & Hd & Hn)]; [by exists [], []|].
  destruct (decide (c = dot)) as [->|Hc].
  - exists (dot :: dots), name. split; [done|]. split; [by constructor|done].
  - exists [], (c :: dots ++ name). split; [done|]. split; [done|]. cbn. congruence.
Qed.

(** One entry against a host. *)
Lemma domain_match_entry host dots name :
  Forall (λ c, c = dot) dots → head name ≠ Some dot → all_ascii host = true → all_ascii name = true →
  domain_match (to_lowercase host) (domain_clean (dots ++ name)) = true ↔
  same_text host name ∨ ∃ sub tl, host = sub ++ dot :: tl ∧ same_text tl name.
Proof.
  intros Hd Hn Hh Ha. rewrite domain_match_true, domain_clean_entry by done.
  unfold to_lowercase. rewrite Hh, Ha, same_text_lower. split; (intros [?|Hs]; [by left|right]).
  - destruct Hs as [sub Hs]. change (bstr ".") with [dot] in Hs.
    apply fmap_app_inv in Hs as (sub' & t & -> & Ht & ->).
    destruct t as [|c tl]; [done|]. cbn in Ht. injection Ht as Hc Ht. symmetry in Hc.
    apply lower_dot in Hc as ->. exists sub', tl. split; [done|]. by apply same_text_lower.
  - destruct Hs as (sub & tl & -> & Hs%same_text_lower). exists (ascii_lower <$> sub).
    rewrite fmap_app. cbn. by rewrite Hs.
Qed.

Lemma domain_match_under host entry :
  domain_match (to_lowercase host) (domain_clean entry) = true ↔ under_domain host entry.
Proof.
  rewrite domain_match_true. split.
  - destruct (entry_split entry) as (dots & name & -> & Hd & Hn). rewrite domain_clean_entry by done.
    intros Hm. by exists dots, name.
  - intros (dots & name & -> & Hd & Hn & Hm). by rewrite domain_clean_entry.
Qed.

Lemma opt_match_cidr_in host ip entry :
  (∀ a, ip = Some a → ip_wf a) →
  opt_match_cidr ip entry = true ∨ opt_match_cidr (parse_ip host) entry = true ↔ in_network host ip entry.
Proof.
  intros Hip. unfold in_network.
  assert (∀ o, (∀ a, o = Some a → ip_wf a) →
    opt_match_cidr o entry = true ↔ ∃ a b, o = Some a ∧ reads entry b ∧ covers b a) as Hm.
  { intros [a|] Ho; cbn [opt_match_cidr]; [|split; [done|by intros (? & ? & ? & _)]].
    rewrite match_cidr_reads by auto. naive_solver. }
  rewrite (Hm ip Hip), (Hm (parse_ip host)) by (intros a; apply parse_ip_wf). naive_solver.
Qed.

(** What keeps a target from being sent to an upstream proxy. *)
Lemma is_excluded_true host ip nets doms no_proxy :
  (∀ a, ip = Some a → ip_wf a) →
  is_excluded host ip nets doms no_proxy = true ↔
  (∃ n, n ∈ nets ∧ in_network host ip n) ∨ (∃ d, d ∈ doms ∧ under_domain host d) ∨
  (∃ x : bytes, x ∈ no_proxy ∧ (x = "*" ∨ in_network host ip x ∨ under_domain host x)).
Proof.
  intros Hip. unfold is_excluded. rewrite !orb_true_iff, !existsb_bool_decide, !Exists_exists.
  assert (∀ entry : bytes, (bool_decide (entry = "*") || opt_match_cidr ip entry
      || opt_match_cidr (parse_ip host) entry
      || domain_match (to_lowercase host) (domain_clean entry)) = true ↔
      entry = "*" ∨ in_network host ip entry ∨ under_domain host entry) as Hx.
  { intros entry. rewrite !orb_true_iff, bool_decide_eq_true, domain_match_under.
    rewrite <- (opt_match_cidr_in host ip entry Hip). tauto. }
  setoid_rewrite Hx. setoid_rewrite domain_match_under.
  assert ((∃ n, n ∈ nets ∧ in_network host ip n) ↔
    (∃ n, n ∈ nets ∧ opt_match_cidr ip n = true) ∨
    (∃ n, n ∈ nets ∧ opt_match_cidr (parse_ip host) n = true)) as ->; [|tauto].
  setoid_rewrite <- (opt_match_cidr_in host ip _ Hip). split.
  - intros (n & Hn & [Hm|Hm]); [left|right]; by exists n.
  - intros [(n & Hn & Hm)|(n & Hn & Hm)]; exists n; auto.
Qed.

End domain_entries.

(** C24. What the domain filter blocks. Take a host and a list of blocked domains in
    ASCII. An entry is some dots, which do not matter, and a name. The filter blocks the
    host exactly when some entry has a name that is not empty and the host is that name
    or a subdomain of it, which ends in a dot and that name; the case of letters
    matters nowhere. Entries that are only dots block nothing. *)
Theorem is_domain_blocked_spec `{UnicodeCase} (c : Config) (host : bytes) :
  all_ascii host = true → Forall (λ d, all_ascii d = true) (blocked_domains (security c)) →
  is_domain_blocked c host = true ↔
  ∃ dots name, dots ++ name ∈ blocked_domains (security c) ∧
    Forall (λ x, x = "."%char) dots ∧ name ≠ [] ∧ head name ≠ Some "."%char ∧
    (same_text host name ∨ ∃ sub tl, host = sub ++ "." ++ tl ∧ same_text tl name).
Proof.
  intros Hh Hl. rewrite Forall_forall in Hl. unfold is_domain_blocked. rewrite existsb_bool_decide, Exists_exists.
  assert (∀ dots name, dots ++ name ∈ blocked_domains (security c) → all_ascii name = true) as Hname.
  { intros dots name Hin. apply Hl in Hin. rewrite all_ascii_app, andb_true_iff in Hin. by destruct Hin. }
  split.
  - intros (d & Hin & [Hne%negb_true_iff%bool_decide_eq_false Hm]%andb_true_iff).
    destruct (entry_split d) as (dots & name & -> & Hd & Hn). exists dots, name.
    rewrite domain_clean_entry in Hne by done. pose proof (Hname _ _ Hin) as Ha.
    split; [done|]. split; [done|]. split; [intros ->; by apply Hne|]. split; [done|].
    by apply (domain_match_entry host dots name).
  - intros (dots & name & Hin & Hd & Hne & Hn & Hm). pose proof (Hname _ _ Hin) as Ha.
    exists (dots ++ name). split; [done|]. apply andb_true_iff. split; [|by apply domain_match_entry].
    rewrite domain_clean_entry by done. unfold to_lowercase. rewrite Ha.
    apply negb_true_iff, bool_decide_eq_false. by destruct name.
Qed.

(** A Unicode table that leaves everything beyond ASCII alone, for concrete inputs. *)
Definition ascii_only_case : UnicodeCase :=
  {| unicode_lowercase := λ s, s; unicode_uppercase := λ s, s |}.

Section more_domain_rules.
Context `{UnicodeCase}.

Lemma to_lowercase_snoc_dot s :
  all_ascii s = true → to_lowercase (s ++ [dot]) = to_lowercase s ++ [dot].
Proof.
  intros Hs. unfold to_lowercase. rewrite all_ascii_app, Hs. cbn [andb].
  change (all_ascii [dot]) with true. cbv iota. by rewrite fmap_app.
Qed.

Lemma existsb_ext_in {A} (f g : A → bool) l :
  (∀ x, x ∈ l → f x = g x) → existsb f l = existsb g l.
Proof.
  induction l as [|x l IH]; intros Hfg; cbn; [done|].
  rewrite (Hfg x) by set_solver. f_equal. apply IH. set_solver.
Qed.

End more_domain_rules.

(** The filter compares text, so the fully qualified spelling of a name escapes it:
    with no listed domain ending in a dot, a host written with a final dot is never
    blocked, whatever the list says of the same name without the dot. *)
Theorem trailing_dot_not_blocked `{UnicodeCase} (c : Config) (host : bytes) :
  all_ascii host = true →
  Forall (λ d, last (domain_clean d) ≠ Some dot) (blocked_domains (security c)) →
  is_domain_blocked c (host ++ ".") = false.
Proof.
  intros Hh Hd. apply not_true_iff_false.
  rewrite is_domain_blocked_true. intros (d & Hin & Hne & Hm).
  rewrite Forall_forall in Hd. apply (Hd d Hin).
  change (bstr ".") with [dot] in Hm. rewrite to_lowercase_snoc_dot in Hm by done.
  destruct Hm as [<-|[sub Hs]]; [apply last_snoc|].
  assert (last (sub ++ [dot] ++ domain_clean d) = Some dot) as Hl by (rewrite <- Hs; apply last_snoc).
  rewrite app_assoc, last_app in Hl.
  destruct (last (domain_clean d)) as [x|] eqn:Hx; [by simplify_eq|]. by apply last_None in Hx.
Qed.

(** The default configuration with other security lists. *)
Definition with_security (domains egress_allowed egress_blocked : list bytes) : Config := {|
  server := server Config_default; auth := auth Config_default;
  logging := logging Config_default;
  security := {| allowed_networks := ["0.0.0.0/0" : bytes]; blocked_domains := domains;
                 allowed_egress_networks := egress_allowed;
                 blocked_egress_networks := egress_blocked;
                 max_request_size := 1048576; rate_limit := None |};
  upstream := upstream Config_default; admin := admin Config_default |}.

Lemma network_rules_spec_witness :
  let c := with_security [] ["10.0.0.0/8" : bytes] ["10.9.0.0/16" : bytes] in
  check_egress_rules c (ip4 10 9 1 1) = false ∧ check_egress_rules c (ip4 10 1 1 1) = true.
Proof.
  intros c. pose (lan := Block (ip4 10 0 0 0) 8). pose (part := Block (ip4 10 9 0 0) 16).
  assert (reads "10.0.0.0/8" lan) as Hlan by (by apply reads_split).
  assert (reads "10.9.0.0/16" part) as Hpart by (by apply reads_split).
  split.
  - destruct (network_rules_spec c (ip4 10 9 1 1) ltac:(vm_compute; reflexivity) eq_refl) as (_ & He & _).
    apply not_true_iff_false. intros Hc. destruct (proj1 He Hc) as [Hb _].
    apply (Hb "10.9.0.0/16" part); [by apply list_elem_of_here|exact Hpart|]. split; [lia|vm_compute; reflexivity].
  - destruct (network_rules_spec c (ip4 10 1 1 1) ltac:(vm_compute; reflexivity) eq_refl) as (_ & He & _).
    apply (proj2 He). split.
    + intros n b Hn%list_elem_of_singleton Hr Hc. subst n. apply reads_split in Hr.
      destruct b as [a|a p]; [exact Hr|]. destruct Hr as [Ha Hp]. injection Ha as <-. injection Hp as <-.
      destruct Hc as [_ Hc]. by vm_compute in Hc.
    + right. exists "10.0.0.0/8", lan. split; [by apply list_elem_of_here|]. split; [exact Hlan|].
      split; [lia|vm_compute; reflexivity].
Defined.

Lemma is_domain_blocked_spec_witness :
  let _ := ascii_only_case in
  let c := with_security ["..Evil.com" : bytes] [] [] in
  is_domain_blocked c "www.EVIL.com" = true ∧ is_domain_blocked c "notevil.com" = false.
Proof.
  intros I c. split; [|vm_compute; reflexivity].
  apply (@is_domain_blocked_spec I c "www.EVIL.com"); [reflexivity|by repeat constructor|].
  exists "..", "Evil.com". split; [by apply list_elem_of_here|]. split; [by repeat constructor|].
  split; [done|]. split; [done|]. right. exists "www", "EVIL.com". split; [done|].
  by apply same_text_lower.
Defined.

Lemma trailing_dot_not_blocked_witness :
  let _ := ascii_only_case in
  let c := with_security ["evil.com" : bytes] [] [] in
  is_domain_blocked c "Sub.EVIL.com" = true ∧ is_domain_blocked c "evil.com." = false.
Proof.
  intros H c. split; [vm_compute; reflexivity|].
  apply (@trailing_dot_not_blocked H c "evil.com").
  - vm_compute. reflexivity.
  - apply Forall_singleton. vm_compute. discriminate.
Defined.

(** Prefix lengths beyond the width of the address are accepted by validation
    (any [u8] is) and then match nothing: such an entry of the block list is silently
    without effect. *)
Theorem overlong_prefix_blocks_nothing (base : IpAddr) (p : Z) :
  ip_wf base →
  (match base with V4 _ => 32 | V6 _ => 128 end) < p ≤ U8_MAX →
  (∀ field, validate_egress_network field (show_ip base ++ "/" ++ dec p) = Ok tt) ∧
  (∀ ip, ip_wf ip → match_cidr ip (show_ip base ++ "/" ++ dec p) = false).
Proof.
  intros Hb Hp. assert (0 ≤ p ≤ U8_MAX) as Hp' by (destruct base; lia). split.
  - intros field. apply validate_egress_network_ok. right. exists (show_ip base), (dec p).
    repeat split; [apply slash_not_in_show | apply slash_not_in_dec; lia| |].
    + rewrite parse_show_ip by done. eauto.
    + unfold parse_u8. rewrite parse_uint_dec by done. eauto.
  - intros ip Hip. apply not_true_iff_false.
    rewrite (match_cidr_block ip _ (show_ip base) (dec p) base p) by
      (done || (apply split_show; lia) || (by apply parse_show_ip) || by apply parse_uint_dec).
    destruct ip, base; cbn; intuition lia.
Qed.

Lemma overlong_prefix_blocks_nothing_witness :
  show_ip (ip4 10 0 0 0) ++ "/" ++ dec 40 = "10.0.0.0/40" ∧
  match_cidr (ip4 10 0 0 1) (show_ip (ip4 10 0 0 0) ++ "/" ++ dec 40) = false.
Proof.
  split; [vm_compute; reflexivity|].
  apply (overlong_prefix_blocks_nothing (ip4 10 0 0 0) 40); [reflexivity| |reflexivity].
  split; [reflexivity|]. unfold U8_MAX. lia.
Defined.

(** The wildcard: a [*] entry of NO_PROXY sends every target direct; a [*] among
    the excluded networks changes nothing at all, and among the excluded domains it
    only concerns hosts literally named [*] or ending in [.*]. *)
Theorem wildcard_spec `{UnicodeCase} (host : bytes) (ip : option IpAddr)
    (nets doms no_proxy : list bytes) :
  is_excluded host ip nets doms (("*" : bytes) :: no_proxy) = true ∧
  is_excluded host ip (("*" : bytes) :: nets) doms no_proxy = is_excluded host ip nets doms no_proxy ∧
  (is_excluded host ip nets (("*" : bytes) :: doms) no_proxy = true ↔
   is_excluded host ip nets doms no_proxy = true ∨
   to_lowercase host = "*" ∨ ∃ sub, to_lowercase host = sub ++ ".*").
Proof.
  assert (∀ o, opt_match_cidr o "*" = false) as Hstar by (by intros [[]|]).
  assert (domain_clean "*" = "*") as Hclean by done.
  unfold is_excluded. split; [|split].
  - cbn [existsb]. rewrite bool_decide_eq_true_2 by done. by rewrite !orb_true_r.
  - cbn [existsb]. by rewrite !Hstar.
  - cbn [existsb]. rewrite Hclean.
    change (bstr ".*") with (bstr "." ++ bstr "*").
    rewrite <- (domain_match_true (to_lowercase host) "*").
    rewrite !orb_true_iff. tauto.
Qed.
