(* ===== verification/Upstream.v ===== *)
(** * Upstream routing and outgoing connections (src/src/upstream.rs, lines 9-16 and
    191-612)

    Proxy URLs, the choice of an upstream proxy, the client side of the two proxy
    handshakes, and [connect_to_target], which ties the access policy to the
    connection that is made. *)

From S2P Require Import Prelude RustStr IpAddr Effects Script Config Policy.

Local Open Scope Z_scope.
Local Open Scope rust_scope.

Record UpstreamProxy : Set := {
  px_protocol : UpstreamProtocol;
  px_address : bytes;
  px_port : Z;
  px_username : option bytes;
  px_password : option bytes;
}.

(** ** Proxy URLs *)

(** [rest = &rest[rest.find("://").unwrap() + 3..]] *)
Definition after_scheme (rest : bytes) : bytes :=
  drop (default 0%nat (find_str "://" rest) + 3) rest.

Definition split_scheme (url : bytes) : UpstreamProtocol * bytes :=
  if starts_with "socks5://" url || starts_with "socks5h://" url
  then (Socks5, after_scheme url)
  else if starts_with "http://" url || starts_with "https://" url
  then (Http, after_scheme url)
  else (Http, url).

(** User name, password and what follows the first at-sign. *)
Definition split_credentials (rest : bytes) : option bytes * option bytes * bytes :=
  match find_char "@"%char rest with
  | Some at_idx =>
      let creds := take at_idx rest in
      let host_port := drop (S at_idx) rest in
      match find_char ":"%char creds with
      | Some colon_idx =>
          (Some (take colon_idx creds), Some (drop (S colon_idx) creds), host_port)
      | None => (Some creds, None, host_port)
      end
  | None => (None, None, rest)
  end.

Definition split_host_port (host_port : bytes) : option (bytes * bytes) :=
  if starts_with "[" host_port then
    match find_char "]"%char host_port with
    | Some close_bracket =>
        let host := take (close_bracket - 1) (drop 1 host_port) in
        let rest_port := drop (S close_bracket) host_port in
        if starts_with ":" rest_port then Some (host, drop 1 rest_port) else Some (host, [])
    | None => None
    end
  else
    match rfind_char ":"%char host_port with
    | Some last_colon => Some (take last_colon host_port, drop (S last_colon) host_port)
    | None => Some (host_port, [])
    end.

Definition default_proxy_port (p : UpstreamProtocol) : Z :=
  match p with Socks5 => 1080 | Http => 8080 end.

Definition parse_proxy_url (url : bytes)
  : option (UpstreamProtocol * bytes * Z * option bytes * option bytes) :=
  let '(protocol, rest) := split_scheme url in
  let '(username, password, host_port) := split_credentials rest in
  match split_host_port host_port with
  | None => None
  | Some (host, port_str) =>
      match head (split_char slash host), head (split_char slash port_str) with
      | Some host, Some port_str =>
          if bool_decide (port_str = [])
          then Some (protocol, host, default_proxy_port protocol, username, password)
          else match parse_u16 port_str with
               | Some port => Some (protocol, host, port, username, password)
               | None => None
               end
      | _, _ => None
      end
  end.

Section programs.

Context {Sh : Type} `{UnicodeCase} `{Base64}.

(** ** Choosing an upstream *)

Definition env_var_keys (target_port : Z) (is_socks5_request : bool) : list bytes :=
  if is_socks5_request then
    ["ALL_PROXY" : bytes; "all_proxy" : bytes; "HTTPS_PROXY" : bytes; "https_proxy" : bytes;
     "HTTP_PROXY" : bytes; "http_proxy" : bytes]
  else if target_port =? 443 then
    ["HTTPS_PROXY" : bytes; "https_proxy" : bytes; "ALL_PROXY" : bytes; "all_proxy" : bytes;
     "HTTP_PROXY" : bytes; "http_proxy" : bytes]
  else
    ["HTTP_PROXY" : bytes; "http_proxy" : bytes; "ALL_PROXY" : bytes; "all_proxy" : bytes].

(** What one environment variable contributes. *)
Definition proxy_of_value (val : bytes) : option UpstreamProxy :=
  let val := trim val in
  if bool_decide (val = []) then None
  else match parse_proxy_url val with
       | Some (protocol, host, port, username, password) =>
           Some {| px_protocol := protocol; px_address := host; px_port := port;
                   px_username := username; px_password := password |}
       | None => None
       end.

Fixpoint lookup_keys (keys : list bytes) : prog Sh (option UpstreamProxy) :=
  match keys with
  | [] => Ret None
  | key :: keys' =>
      v <- perform (EnvVar key) ;;
      match v ≫= proxy_of_value with
      | Some proxy => Ret (Some proxy)
      | None => lookup_keys keys'
      end
  end.

Definition lookup_env_proxy (target_port : Z) (is_socks5_request : bool)
  : prog Sh (option UpstreamProxy) :=
  lookup_keys (env_var_keys target_port is_socks5_request).

(** The upstream of the configuration file, when it is enabled and complete. *)
Definition configured_upstream (u : UpstreamConfig) : option UpstreamProxy :=
  if up_enabled u then
    match up_protocol u, up_address u, up_port u with
    | Some protocol, Some address, Some port =>
        Some {| px_protocol := protocol; px_address := address; px_port := port;
                px_username := up_username u; px_password := up_password u |}
    | _, _, _ => None
    end
  else None.

Definition resolve_upstream (c : Config) (target_host : bytes) (target_port : Z)
    (target_ip : option IpAddr) (is_socks5_request : bool) : prog Sh (option UpstreamProxy) :=
  let u := upstream c in
  no_proxy <- get_no_proxy_list ;;
  if is_excluded target_host target_ip (up_exclude_networks u) (up_exclude_domains u) no_proxy
  then Ret None
  else
    env <- (if up_prefer_env u then lookup_env_proxy target_port is_socks5_request
            else Ret None) ;;
    match env with
    | Some proxy => Ret (Some proxy)
    | None =>
        match configured_upstream u with
        | Some proxy => Ret (Some proxy)
        | None =>
            if negb (up_prefer_env u) then lookup_env_proxy target_port is_socks5_request
            else Ret None
        end
    end.

(** ** Connecting *)

Definition connect_stream_ip (ip : IpAddr) (port : Z) : prog Sh (result sid) :=
  perform (TcpConnect {| sa_ip := ip; sa_port := port |}).

Definition connect_stream (host : bytes) (port : Z) (resolver : bool) : prog Sh (result sid) :=
  match parse_ip host with
  | Some ip => perform (TcpConnect {| sa_ip := ip; sa_port := port |})
  | None =>
      if resolver then
        lookup <-? perform (LookupIp host) ;;
        match lookup with
        | ip :: _ => perform (TcpConnect {| sa_ip := ip; sa_port := port |})
        | [] => Ret (Err ("Failed to resolve host: " ++ host))
        end
      else perform (TcpConnectName (host ++ ":" ++ dec port))
  end.

(** ** The client side of the SOCKS5 handshake *)

(** The RFC 1929 message. *)
Definition user_pass_message (u p : bytes) : bytes :=
  [as_u8 1; len_u8 u] ++ u ++ [len_u8 p] ++ p.

(** The CONNECT request for a target. *)
Definition connect_message (target_host : bytes) (target_port : Z) : bytes :=
  u8s [5; 1; 0] ++
  (match parse_ip target_host with
   | Some (V4 o) => [as_u8 1] ++ o
   | Some (V6 o) => [as_u8 4] ++ o
   | None => [as_u8 3; len_u8 target_host] ++ target_host
   end) ++
  u16_be target_port.

Definition credentials (username password : option bytes) : option (bytes * bytes) :=
  match username, password with Some u, Some p => Some (u, p) | _, _ => None end.

Definition send_credentials (s : sid) (u p : bytes) : prog Sh (result unit) :=
  _ <-? perform (WriteAll s (user_pass_message u p)) ;;
  _ <-? perform (Flush s) ;;
  auth_resp <-? perform (ReadExact s 2) ;;
  if negb (byte_at 0 auth_resp =? 1)
  then Ret (Err ("Invalid SOCKS5 auth version response: " ++ dec (byte_at 0 auth_resp)))
  else if negb (byte_at 1 auth_resp =? 0)
  then Ret (Err "SOCKS5 proxy authentication failed")
  else Ret (Ok tt).

(** The bound address that ends the proxy's reply is read and dropped. *)
Definition skip_bound_address (s : sid) (addr_type : Z) : prog Sh (result unit) :=
  if addr_type =? 1 then
    _ <-? perform (ReadExact s 6) ;; Ret (Ok tt)
  else if addr_type =? 4 then
    _ <-? perform (ReadExact s 18) ;; Ret (Ok tt)
  else if addr_type =? 3 then
    len_buf <-? perform (ReadExact s 1) ;;
    _ <-? perform (ReadExact s (Z.to_nat (byte_at 0 len_buf) + 2)) ;;
    Ret (Ok tt)
  else Ret (Err ("Invalid address type in SOCKS5 response: " ++ dec addr_type)).

Definition socks5_connect_handshake (s : sid) (target_host : bytes) (target_port : Z)
    (username password : option bytes) : prog Sh (result sid) :=
  let creds := credentials username password in
  let methods := match creds with Some _ => u8s [0; 2] | None => u8s [0] end in
  _ <-? perform (WriteAll s ([as_u8 5; len_u8 methods] ++ methods)) ;;
  _ <-? perform (Flush s) ;;
  resp <-? perform (ReadExact s 2) ;;
  if negb (byte_at 0 resp =? 5)
  then Ret (Err ("Invalid SOCKS5 proxy version: " ++ dec (byte_at 0 resp)))
  else
    let method := byte_at 1 resp in
    _ <-? (match creds with
           | Some (u, p) =>
               if method =? 2 then send_credentials s u p
               else if negb (method =? 0)
               then Ret (Err ("SOCKS5 proxy rejected authentication methods: " ++ dec method))
               else Ret (Ok tt)
           | None =>
               if negb (method =? 0)
               then Ret (Err ("SOCKS5 proxy rejected authentication methods: " ++ dec method))
               else Ret (Ok tt)
           end) ;;
    _ <-? perform (WriteAll s (connect_message target_host target_port)) ;;
    _ <-? perform (Flush s) ;;
    conn_resp <-? perform (ReadExact s 4) ;;
    if negb (byte_at 0 conn_resp =? 5)
    then Ret (Err ("Invalid SOCKS5 proxy version in response: " ++ dec (byte_at 0 conn_resp)))
    else if negb (byte_at 1 conn_resp =? 0)
    then Ret (Err ("SOCKS5 proxy failed to connect: error code " ++ dec (byte_at 1 conn_resp)))
    else
      _ <-? skip_bound_address s (byte_at 3 conn_resp) ;;
      Ret (Ok s).

(** ** The client side of the HTTP CONNECT handshake *)

Definition http_connect_request (target_host : bytes) (target_port : Z)
    (username password : option bytes) : bytes :=
  "CONNECT " ++ target_host ++ ":" ++ dec target_port ++ " HTTP/1.1" ++ crlf
  ++ "Host: " ++ target_host ++ ":" ++ dec target_port ++ crlf
  ++ (match credentials username password with
      | Some (u, p) =>
          "Proxy-Authorization: Basic " ++ b64_encode (u ++ ":" ++ p) ++ crlf
      | None => []
      end)
  ++ crlf.

(** What running out of fuel answers; no message of the program. *)
Definition out_of_fuel : bytes := "<header loop: out of fuel>".

(** The loop over the header lines of the proxy's answer. Nothing bounds their number:
    [fuel] does here. *)
Fixpoint skip_headers (fuel : nat) (s : sid) : prog Sh (result unit) :=
  match fuel with
  | O => Ret (Err out_of_fuel)
  | S fuel' =>
      header <-? perform (ReadLine s None) ;;
      if bool_decide (trim header = []) then Ret (Ok tt) else skip_headers fuel' s
  end.

Definition check_status_line (response_line : bytes) : result unit :=
  ensure (starts_with "HTTP/" response_line)
    ("Invalid HTTP proxy response: " ++ response_line) $
  match split_whitespace response_line with
  | _ :: code :: _ =>
      match parse_u16 code with
      | None => Err (parse_uint_error U16_MAX code)
      | Some status_code =>
          ensure (status_code =? 200)
            ("HTTP proxy returned status code: " ++ dec status_code) (Ok tt)
      end
  | _ => Err "Invalid HTTP response status line"
  end.

Definition http_connect_handshake (fuel : nat) (s : sid) (target_host : bytes)
    (target_port : Z) (username password : option bytes) : prog Sh (result sid) :=
  _ <-? perform (WriteAll s (http_connect_request target_host target_port username password)) ;;
  _ <-? perform (Flush s) ;;
  _ <- perform (BufReaderNew s) ;;
  response_line <-? perform (ReadLine s None) ;;
  _ <-? Ret (check_status_line response_line) ;;
  _ <-? skip_headers fuel s ;;
  _ <- perform (BufReaderIntoInner s) ;;
  Ret (Ok s).

(** ** [connect_to_target] *)

Definition has_egress_rules (c : Config) : bool :=
  negb (bool_decide (allowed_egress_networks (security c) = []))
  || negb (bool_decide (blocked_egress_networks (security c) = [])).

(** [entry.contains('/') || entry.parse::<IpAddr>().is_ok()] *)
Definition is_network_entry (entry : bytes) : bool :=
  contains_char slash entry || is_some (parse_ip entry).

Definition resolve_target (c : Config) (target_host : bytes) (target_port : Z)
    (resolver : bool) : prog Sh (list IpAddr) :=
  match parse_ip target_host with
  | Some ip => Ret [ip]
  | None =>
      no_proxy <- get_no_proxy_list ;;
      let has_ip_exclusions := existsb is_network_entry (up_exclude_networks (upstream c))
                               || existsb is_network_entry no_proxy in
      if has_ip_exclusions || has_egress_rules c then
        if resolver then
          r <- perform (LookupIp target_host) ;;
          Ret (match r with Ok ips => ips | Err _ => [] end)
        else
          r <- perform (LookupHost (target_host ++ ":" ++ dec target_port)) ;;
          Ret (match r with Ok addrs => sa_ip <$> addrs | Err _ => [] end)
      else Ret []
  end.

Definition egress_blocked (target_host : bytes) (target_port : Z) (ip : IpAddr) : bytes :=
  "Connection to " ++ target_host ++ ":" ++ dec target_port ++ " (IP: " ++ show_ip ip
  ++ ") is blocked by security policy".

(** The loop over the resolved addresses: every one must pass. *)
Fixpoint check_all_egress (c : Config) (target_host : bytes) (target_port : Z)
    (ips : list IpAddr) : result unit :=
  match ips with
  | [] => Ok tt
  | ip :: ips' =>
      if check_egress_rules c ip then check_all_egress c target_host target_port ips'
      else Err (egress_blocked target_host target_port ip)
  end.

Definition egress_check (c : Config) (target_host : bytes) (target_port : Z)
    (resolved_ips : list IpAddr) : result unit :=
  if has_egress_rules c then
    if bool_decide (resolved_ips = [])
    then Err ("Failed to resolve target host " ++ target_host
              ++ " to IP address for security check")
    else check_all_egress c target_host target_port resolved_ips
  else Ok tt.

Definition connect_via (fuel : nat) (proxy : UpstreamProxy) (target_host : bytes)
    (target_port : Z) (resolver : bool) : prog Sh (result sid) :=
  proxy_stream <-? connect_stream (px_address proxy) (px_port proxy) resolver ;;
  match px_protocol proxy with
  | Socks5 => socks5_connect_handshake proxy_stream target_host target_port
                (px_username proxy) (px_password proxy)
  | Http => http_connect_handshake fuel proxy_stream target_host target_port
              (px_username proxy) (px_password proxy)
  end.

Definition connect_direct (c : Config) (target_host : bytes) (target_port : Z)
    (target_ip : option IpAddr) (resolver : bool) : prog Sh (result sid) :=
  if has_egress_rules c then
    match target_ip with
    | Some ip => connect_stream_ip ip target_port
    | None => Ret (Err ("Failed to resolve target host " ++ target_host ++ " for connection"))
    end
  else connect_stream target_host target_port resolver.

Definition domain_blocked (target_host : bytes) : bytes :=
  "Connection to " ++ target_host ++ " is blocked by security policy (blocked_domains)".

Definition connect_to_target (fuel : nat) (c : Config) (target_host : bytes)
    (target_port : Z) (is_socks5_request resolver : bool) : prog Sh (result sid) :=
  if is_domain_blocked c target_host then Ret (Err (domain_blocked target_host))
  else
    resolved_ips <- resolve_target c target_host target_port resolver ;;
    let target_ip := head resolved_ips in
    _ <-? Ret (egress_check c target_host target_port resolved_ips) ;;
    up <- resolve_upstream c target_host target_port target_ip is_socks5_request ;;
    match up with
    | Some proxy => connect_via fuel proxy target_host target_port resolver
    | None => connect_direct c target_host target_port target_ip resolver
    end.

End programs.

(** ** Which functions are quiet *)

Section quiet.
Context {Sh : Type} `{UnicodeCase} `{Base64}.

Lemma get_no_proxy_list_quiet : emits (λ R e, quiet e) (get_no_proxy_list (Sh:=Sh)).
Proof. unfold get_no_proxy_list, env_var_or. quiet_tac. Qed.

Lemma lookup_keys_quiet keys : emits (λ R e, quiet e) (lookup_keys (Sh:=Sh) keys).
Proof. induction keys; cbn [lookup_keys]; quiet_tac. Qed.

Hint Resolve get_no_proxy_list_quiet lookup_keys_quiet : quiet.

Lemma resolve_upstream_quiet c host port ip sk :
  emits (λ R e, quiet e) (resolve_upstream (Sh:=Sh) c host port ip sk).
Proof. unfold resolve_upstream, lookup_env_proxy. quiet_tac. Qed.

Lemma socks5_connect_handshake_quiet s host port u p :
  emits (λ R e, quiet e) (socks5_connect_handshake (Sh:=Sh) s host port u p).
Proof. unfold socks5_connect_handshake, send_credentials, skip_bound_address. quiet_tac. Qed.

Lemma skip_headers_quiet fuel s : emits (λ R e, quiet e) (skip_headers (Sh:=Sh) fuel s).
Proof. induction fuel; cbn [skip_headers]; quiet_tac. Qed.

Hint Resolve skip_headers_quiet : quiet.

Lemma http_connect_handshake_quiet fuel s host port u p :
  emits (λ R e, quiet e) (http_connect_handshake (Sh:=Sh) fuel s host port u p).
Proof. unfold http_connect_handshake. quiet_tac. Qed.

End quiet.

(** ** Where a connection goes *)

Section safety.
Context {Sh : Type} `{UnicodeCase} `{Base64}.
Implicit Types tr : list (event Sh).

(** [ips] is the whole answer the target resolved to, and every one of them passed. *)
Definition approved (c : Config) (host : bytes) tr (ips : list IpAddr) : Prop :=
  ips ≠ [] ∧ Forall (λ ip, check_egress_rules c ip = true) ips ∧
  ((∃ ip, parse_ip host = Some ip ∧ ips = [ip]) ∨ Ev (LookupIp host) (Ok ips) ∈ tr).

(** A proxy the configuration or an environment variable read in this run names. *)
Definition candidate (c : Config) tr (p : UpstreamProxy) : Prop :=
  configured_upstream (upstream c) = Some p ∨
  ∃ key v, Ev (EnvVar key) (Some v) ∈ tr ∧ proxy_of_value v = Some p.

Definition resolves_to (host : bytes) tr (ip : IpAddr) : Prop :=
  parse_ip host = Some ip ∨ ∃ l, Ev (LookupIp host) (Ok (ip :: l)) ∈ tr.

Definition dial_ok (c : Config) (host : bytes) (port : Z) tr (a : SocketAddr) : Prop :=
  ∃ ips, approved c host tr ips ∧
    ((head ips = Some (sa_ip a) ∧ sa_port a = port ∧ (lookups tr ≤ 1)%nat) ∨
     (∃ p, candidate c tr p ∧ sa_port a = px_port p ∧ resolves_to (px_address p) tr (sa_ip a))).

(** At most one connection, and a good one. *)
Definition dials_ok (c : Config) (host : bytes) (port : Z) tr : Prop :=
  no_name_connect tr ∧
  match connects tr with
  | [] => True
  | [a] => dial_ok c host port tr a
  | _ => False
  end.

Lemma resolve_target_wp c host port :
  wp (@any_resp Sh) (resolve_target c host port true)
    (λ ips tr, connects tr = [] ∧ no_name_connect tr ∧ (lookups tr ≤ 1)%nat ∧
       (ips ≠ [] → (∃ ip, parse_ip host = Some ip ∧ ips = [ip]) ∨
                   Ev (LookupIp host) (Ok ips) ∈ tr)) [].
Proof.
  unfold resolve_target. destruct (parse_ip host) as [ip|] eqn:Hip.
  { cbn. repeat split; [constructor | lia | eauto]. }
  eapply wp_bind_intro; [apply wp_quiet, get_no_proxy_list_quiet|].
  intros np tr (t & -> & Ht). cbn [app].
  pose proof (quiet_connects _ Ht) as Hc. pose proof (quiet_lookups _ Ht) as Hl.
  pose proof (quiet_no_name_connect _ Ht) as Hn.
  case_match; cbn [wp bind perform].
  - intros r _. autorewrite with trace. rewrite Hc, Hl. cbn. repeat split; [|lia|].
    + apply Forall_app. split; [done|]. by apply Forall_singleton.
    + intros Hne. right. destruct r as [ips|]; [|done]. set_solver.
  - repeat split; [done|done|lia|done].
Qed.

Lemma check_all_egress_ok c host port ips :
  check_all_egress c host port ips = Ok tt ↔ Forall (λ ip, check_egress_rules c ip = true) ips.
Proof.
  induction ips as [|ip ips IH]; cbn; [split; [constructor|done]|].
  rewrite Forall_cons, <- IH. destruct (check_egress_rules c ip); [tauto|].
  split; [done|by intros [? _]].
Qed.

Lemma egress_check_ok c host port ips :
  has_egress_rules c = true → egress_check c host port ips = Ok tt →
  ips ≠ [] ∧ Forall (λ ip, check_egress_rules c ip = true) ips.
Proof.
  unfold egress_check. intros ->. case_bool_decide; [done|].
  rewrite check_all_egress_ok. done.
Qed.

Lemma lookup_keys_candidate c keys tr :
  wp (@any_resp Sh) (lookup_keys keys)
    (λ r tr', ∀ p, r = Some p → candidate c tr' p) tr.
Proof.
  revert tr. induction keys as [|key keys IH]; intros tr; cbn [lookup_keys].
  { by cbn. }
  cbn [wp bind perform]. intros v _. destruct (v ≫= proxy_of_value) as [p|] eqn:Hp; [|apply IH].
  cbn. intros p' [= <-]. right. apply bind_Some in Hp as (x & -> & Hx).
  exists key, x. split; [set_solver | done].
Qed.

Lemma resolve_upstream_candidate c host port ip sk tr :
  wp (@any_resp Sh) (resolve_upstream c host port ip sk)
    (λ r tr', ∀ p, r = Some p → candidate c tr' p) tr.
Proof.
  unfold resolve_upstream, lookup_env_proxy.
  eapply wp_bind_intro; [apply wp_prefix|]. intros np tr1 _.
  case_match; [by cbn|].
  eapply wp_bind_intro with (P := λ r tr', ∀ p, r = Some p → candidate c tr' p).
  { case_match; [apply lookup_keys_candidate | by cbn]. }
  intros [p|] tr2 Hp; [by cbn|].
  destruct (configured_upstream (upstream c)) as [p|] eqn:Hcfg.
  { cbn. intros ? [= <-]. by left. }
  case_match; [apply lookup_keys_candidate | by cbn].
Qed.

Lemma candidate_mono c tr tr' p : candidate c tr p → candidate c (tr ++ tr') p.
Proof. intros [?|(k & v & ? & ?)]; [by left|]. right. exists k, v. set_solver. Qed.

Lemma approved_mono c host tr tr' ips : approved c host tr ips → approved c host (tr ++ tr') ips.
Proof. intros (? & ? & [?|?]); repeat split; eauto. right. set_solver. Qed.

Lemma resolves_to_mono host tr tr' ip : resolves_to host tr ip → resolves_to host (tr ++ tr') ip.
Proof. intros [?|(l & ?)]; [by left|]. right. exists l. set_solver. Qed.

Lemma dials_ok_quiet c host port tr t :
  (connects tr = [] ∨ ∃ a, connects tr = [a] ∧ dial_ok c host port tr a) →
  no_name_connect tr → quiet_trace t → dials_ok c host port (tr ++ t).
Proof.
  intros Hc Hn Ht. split.
  - apply Forall_app. split; [done|]. by apply quiet_no_name_connect.
  - rewrite connects_app, (quiet_connects t) by done. rewrite app_nil_r.
    destruct Hc as [->|(a & -> & (ips & Happ & Hd))]; [done|].
    exists ips. split; [by apply approved_mono|].
    destruct Hd as [(? & ? & ?)|(p & ? & ? & ?)].
    + left. repeat split; [done|done|]. rewrite lookups_app, (quiet_lookups t) by done. lia.
    + right. exists p. repeat split; [by apply candidate_mono | done | by apply resolves_to_mono].
Qed.

(** A program that dials nothing, run after a good history. *)
Lemma wp_dials_quiet {A} (p : prog Sh A) c host port tr :
  emits (λ R e, quiet e) p →
  (connects tr = [] ∨ ∃ a, connects tr = [a] ∧ dial_ok c host port tr a) →
  no_name_connect tr →
  wp (@any_resp Sh) p (λ _ tr', dials_ok c host port tr') tr.
Proof.
  intros Hp Hc Hn. eapply wp_mono; [|apply wp_quiet, Hp].
  intros a tr' (t & -> & Ht). by apply dials_ok_quiet.
Qed.

Lemma no_name_connect_snoc tr (x : event Sh) :
  no_name_connect tr → is_name_connect x = false → no_name_connect (tr ++ [x]).
Proof. intros. apply Forall_app. split; [done|]. by apply Forall_singleton. Qed.

Lemma connect_via_wp fuel c host port p ips tr :
  approved c host tr ips → candidate c tr p → connects tr = [] → no_name_connect tr →
  wp (@any_resp Sh) (connect_via fuel p host port true) (λ _ tr', dials_ok c host port tr') tr.
Proof.
  intros Happ Hcand Hc Hn. unfold connect_via.
  set (Good := λ tr' : list (event Sh),
    no_name_connect tr' ∧
    (connects tr' = [] ∨ ∃ a, connects tr' = [a] ∧ dial_ok c host port tr' a)).
  assert (∀ ip tr', resolves_to (px_address p) (tr ++ tr') ip → quiet_trace tr' ∨ lookups tr' = 1%nat → connects tr' = [] → no_name_connect tr' →
    ∀ r, Good ((tr ++ tr') ++ [Ev (TcpConnect {| sa_ip := ip; sa_port := px_port p |}) r])) as Hgood.
  { intros ip tr' Hres _ Hc' Hn' r. split.
    - apply no_name_connect_snoc; [|done]. apply Forall_app. done.
    - right. eexists. rewrite !connects_app, Hc, Hc'. split; [reflexivity|].
      exists ips. rewrite <- app_assoc. split; [by apply approved_mono|]. right.
      exists p. split; [by apply candidate_mono|]. split; [done|].
      rewrite app_assoc. by apply resolves_to_mono. }
  eapply wp_bind_q_intro with (P := λ _ tr', Good tr').
  - unfold connect_stream. destruct (parse_ip (px_address p)) as [ip|] eqn:Hip.
    + cbn [wp perform]. intros r _. rewrite <- (app_nil_r tr) at 1.
      apply Hgood; [by left|left; constructor|done|constructor].
    + cbn [wp bind_q bind perform]. intros r _.
      assert (Good (tr ++ [Ev (LookupIp (px_address p)) r])) as Hone.
      { split; [by apply no_name_connect_snoc|]. left. by rewrite connects_app, Hc. }
      destruct r as [[|ip l]|e]; cbn [wp]; [done| |done]. intros r _.
      apply Hgood; [|by right|done|by apply Forall_singleton].
      right. exists l. set_solver.
  - intros s tr' [Hn' Hc']. apply wp_dials_quiet; [|done|done].
    destruct (px_protocol p).
    + apply socks5_connect_handshake_quiet.
    + apply http_connect_handshake_quiet.
  - intros e tr' [Hn' Hc']. rewrite <- (app_nil_r tr').
    apply dials_ok_quiet; [done|done|constructor].
Qed.

Lemma connect_to_target_dials fuel c host port sk :
  has_egress_rules c = true →
  wp (@any_resp Sh) (connect_to_target fuel c host port sk true)
    (λ _ tr, dials_ok c host port tr) [].
Proof.
  intros Heg. unfold connect_to_target.
  destruct (is_domain_blocked c host); [cbn; split; [constructor|done]|].
  eapply wp_bind_intro; [apply resolve_target_wp|].
  intros ips tr (Hc & Hn & Hl & Hips).
  cbn [bind_q bind]. destruct (egress_check c host port ips) as [[]|e] eqn:Hchk; cbn [bind wp].
  2: { rewrite <- (app_nil_r tr). apply dials_ok_quiet; [by left|done|constructor]. }
  apply egress_check_ok in Hchk as [Hne Hall]; [|done].
  assert (approved c host tr ips) as Happ by (repeat split; auto).
  eapply wp_bind_intro;
    [apply wp_and; [apply resolve_upstream_candidate | apply wp_quiet, resolve_upstream_quiet]|].
  intros up tr' [Hcand (t & -> & Ht)].
  assert (connects (tr ++ t) = []) as Hc2 by (rewrite connects_app, Hc, quiet_connects; done).
  assert (no_name_connect (tr ++ t)) as Hn2.
  { apply Forall_app. split; [done|]. by apply quiet_no_name_connect. }
  destruct up as [p|].
  - eapply connect_via_wp; [by apply approved_mono | by apply Hcand | done | done].
  - unfold connect_direct. rewrite Heg. destruct ips as [|ip ips]; [done|]. cbn [head].
    cbn [wp connect_stream_ip perform]. intros r _. split; [by apply no_name_connect_snoc|].
    rewrite connects_app, Hc2. cbn. exists (ip :: ips). split; [by apply approved_mono, approved_mono|].
    left. split; [done|]. split; [done|]. autorewrite with trace.
    rewrite (quiet_lookups t) by done. cbn. lia.
Qed.
End safety.

(** C6. With egress rules configured, whatever the resolver, the environment and the
    peers answer, [connect_to_target] dials at most one address, never by name, and
    only after every address the target resolved to (or the address the target
    literally is) passed the rules. The address dialled is either the first of those
    checked addresses, at the requested port and after at most one resolution, so that
    no second answer of the resolver can be substituted for the one checked; or that
    of a proxy which the configuration or an environment variable names. *)
Theorem egress_safety {Sh S} `{UnicodeCase} `{Base64} (h : handler Sh S) (s : S)
    (fuel : nat) (c : Config) (host : bytes) (port : Z) (sk : bool) :
  has_egress_rules c = true →
  dials_ok c host port (trace_of (run h (connect_to_target fuel c host port sk true) s)).
Proof. intros Heg. by apply (wp_run_any h _ (λ _ tr, dials_ok c host port tr)), connect_to_target_dials. Qed.


(** base64 replaced by the identity, for concrete inputs that do not depend on it. *)
Definition plain_base64 : Base64 := {| b64_encode := λ s, s; b64_decode := Some |}.

(** A network in which every name is [ip], and every address answers with [segs]. *)
Definition one_host {Sh} (sh : Sh) (ip : IpAddr) (segs : list bytes) : world Sh := {|
  w_shared := sh; w_streams := ∅; w_next := 10; w_servers := λ _, Some segs;
  w_dns := λ _, Ok [ip]; w_env := λ _, None; w_files := ∅; w_now := 0;
  w_utc := "2026-01-01T00:00:00+00:00"; w_random := [];
  w_hash := λ alg p, Ok (alg ++ "$" ++ p, "salt" : bytes);
  w_ldap_bind := λ _ _, Err "invalidCredentials"; w_ldap_search := λ _ _, Ok [];
  w_pam := λ _ _ _, Err "denied"; w_sql := λ _ _, Ok None |}.

Definition blocking_private : Config := with_security [] [] ["10.0.0.0/8" : bytes].

Lemma egress_safety_witness :
  let _ := ascii_only_case in
  let _ := plain_base64 in
  let go ip := run script (connect_to_target 0 blocking_private "example.org" 80 true true)
                 (one_host tt ip []) in
  result_of (go (ip4 93 184 216 34)) = Ok 10%nat ∧
  connects (trace_of (go (ip4 93 184 216 34))) = [{| sa_ip := ip4 93 184 216 34; sa_port := 80 |}] ∧
  connects (trace_of (go (ip4 10 0 0 7))) = [] ∧
  dials_ok blocking_private "example.org" 80 (trace_of (go (ip4 93 184 216 34))).
Proof.
  intros H1 H2 go. split; [vm_compute; reflexivity|]. split; [vm_compute; reflexivity|].
  split; [vm_compute; reflexivity|].
  apply (@egress_safety unit (world unit) H1 H2). reflexivity.
Defined.
