(* ===== verification/Routing.v ===== *)
(** * Properties of upstream routing (definitions in Upstream.v)

    Proxy URLs survive printing and parsing; the choice of an upstream proxy is a
    function of the configuration and of the environment, in a fixed order of
    precedence; the header loop of the HTTP handshake ends on finite input. *)

From S2P Require Import Prelude RustStr IpAddr Effects Script Config Policy Upstream.

Local Open Scope Z_scope.

(** ** Proxy URLs *)

Definition url_scheme (scheme : bytes) (p : UpstreamProtocol) : Prop :=
  match p with
  | Socks5 => scheme = "socks5://" ∨ scheme = "socks5h://"
  | Http => scheme = "http://" ∨ scheme = "https://"
  end.

Definition show_credentials (u p : option bytes) : bytes :=
  match u, p with
  | Some u, Some p => u ++ ":" ++ p ++ "@"
  | Some u, None => u ++ "@"
  | None, _ => []
  end.

(** An IPv6 host is written between brackets. *)
Definition show_url_host (bracketed : bool) (host : bytes) : bytes :=
  if bracketed then "[" ++ host ++ "]" else host.

Definition show_url_port (port : option Z) : bytes :=
  match port with Some p => ":" ++ dec p | None => [] end.

Definition show_proxy_url (scheme : bytes) (u p : option bytes) (bracketed : bool)
    (host : bytes) (port : option Z) : bytes :=
  scheme ++ show_credentials u p ++ show_url_host bracketed host ++ show_url_port port.

(** The characters a part of a URL must not contain. *)
Definition avoids (cs s : bytes) : Prop := ∀ c, c ∈ cs → c ∉ s.

Definition credentials_wf (u p : option bytes) : Prop :=
  (∀ x, u = Some x → avoids ":@" x) ∧
  (∀ y, p = Some y → avoids "@" y ∧ is_Some u).

Definition url_host_wf (bracketed : bool) (host : bytes) : Prop :=
  avoids (if bracketed then "@/]" else "@/:[") host.

Lemma avoids_not_in cs s c : avoids cs s → c ∈ cs → c ∉ s.
Proof. intros H. apply H. Qed.

Lemma split_scheme_show scheme p rest :
  url_scheme scheme p → split_scheme (scheme ++ rest) = (p, rest).
Proof. destruct p; intros [-> | ->]; reflexivity. Qed.

Lemma split_credentials_show u p rest :
  credentials_wf u p → "@"%char ∉ rest →
  split_credentials (show_credentials u p ++ rest) = (u, p, rest).
Proof.
  intros [Hu Hp] Hr. unfold split_credentials. destruct u as [u|].
  - specialize (Hu u eq_refl).
    assert ("@"%char ∉ u) as Hat by (apply (avoids_not_in _ _ _ Hu); set_solver).
    assert (":"%char ∉ u) as Hcol by (apply (avoids_not_in _ _ _ Hu); set_solver).
    destruct p as [p|]; cbn [show_credentials].
    + destruct (Hp p eq_refl) as [Hp' _].
      assert ("@"%char ∉ p) by (apply (avoids_not_in _ _ _ Hp'); set_solver).
      replace ((u ++ ":" ++ p ++ "@") ++ rest) with ((u ++ ":" ++ p) ++ "@"%char :: rest)
        by (by rewrite <- !app_assoc).
      rewrite find_char_app by set_solver.
      rewrite take_app_exact by done. rewrite drop_sep by done.
      change (u ++ ":" ++ p) with (u ++ ":"%char :: p).
      rewrite find_char_app by done.
      rewrite take_app_exact by done. by rewrite drop_sep by done.
    + replace ((u ++ "@") ++ rest) with (u ++ "@"%char :: rest) by (by rewrite <- !app_assoc).
      rewrite find_char_app by done. rewrite take_app_exact by done.
      rewrite drop_sep by done.
      assert (find_char ":"%char u = None) as -> by (by apply find_char_None). done.
  - destruct p as [p|]; [destruct (Hp p eq_refl) as [_ [? [=]]]|]. cbn [show_credentials app].
    assert (find_char "@"%char rest = None) as -> by (by apply find_char_None). done.
Qed.

Lemma split_host_port_show b host port :
  url_host_wf b host → (∀ p, port = Some p → 0 ≤ p ≤ U16_MAX) →
  split_host_port (show_url_host b host ++ show_url_port port)
  = Some (host, match port with Some p => dec p | None => [] end).
Proof.
  intros Hh Hp. unfold split_host_port. destruct b; cbn [show_url_host] in *.
  - assert ("]"%char ∉ host) by (apply (avoids_not_in _ _ _ Hh); set_solver).
    replace (("[" ++ host ++ "]") ++ show_url_port port)
      with (("["%char :: host) ++ "]"%char :: show_url_port port) by (cbn; by rewrite <- app_assoc).
    rewrite (find_char_app "]"%char ("["%char :: host)) by set_solver.
    change (starts_with "[" _) with true. cbv iota.
    rewrite drop_sep by done. cbn [length].
    replace (S (length host) - 1)%nat with (length host) by lia.
    cbn [app]. change (drop 1 ("["%char :: ?x)) with x. rewrite take_app_exact by done. by destruct port.
  - assert (∀ c, c ∈ bstr "@/:[" → c ∉ host) as Hn by (intros c; apply (avoids_not_in _ _ c Hh)).
    assert (starts_with "[" (host ++ show_url_port port) = false) as ->.
    { assert ("["%char ∉ host) by (apply Hn; set_solver).
      destruct host as [|c host]; [by destruct port|]. cbn.
      rewrite bool_decide_eq_false_2 by set_solver. done. }
    assert (":"%char ∉ host) by (apply Hn; set_solver).
    destruct port as [p|]; cbn [show_url_port].
    + change (host ++ ":" ++ dec p) with (host ++ ":"%char :: dec p).
      rewrite (rfind_char_app ":"%char host (dec p)).
      * rewrite take_app_exact by done. by rewrite drop_sep by done.
      * specialize (Hp p eq_refl). apply dec_not_in; [lia|]. vm_compute. by right.
    + rewrite app_nil_r. assert (rfind_char ":"%char host = None) as ->; [|done].
      by apply rfind_char_None.
Qed.

(** C26. Parsing undoes printing: a proxy URL made of one of the four schemes, optional
    credentials, a host (bracketed or not) and an optional port parses to exactly
    those parts, the port defaulting by protocol; the scheme, the first colon of the
    credentials, and the brackets are found whatever the other parts contain. *)
Theorem parse_proxy_url_roundtrip (scheme : bytes) (proto : UpstreamProtocol)
    (u p : option bytes) (bracketed : bool) (host : bytes) (port : option Z) :
  url_scheme scheme proto → credentials_wf u p → url_host_wf bracketed host →
  (∀ n, port = Some n → 0 ≤ n ≤ U16_MAX) →
  parse_proxy_url (show_proxy_url scheme u p bracketed host port)
  = Some (proto, host, default (default_proxy_port proto) port, u, p).
Proof.
  intros Hs Hc Hh Hp. unfold parse_proxy_url, show_proxy_url.
  assert ("@"%char ∉ show_url_host bracketed host ++ show_url_port port) as Hat.
  { assert ("@"%char ∉ host) by (apply (avoids_not_in _ _ _ Hh); destruct bracketed; set_solver).
    apply not_elem_of_app. split; [destruct bracketed; cbn [show_url_host]; set_solver|].
    destruct port as [n|]; cbn [show_url_port]; [|set_solver].
    specialize (Hp n eq_refl). apply not_elem_of_app. split; [set_solver|].
    apply dec_not_in; [lia|]. vm_compute. by right. }
  rewrite (split_scheme_show _ proto) by done. rewrite split_credentials_show by done.
  rewrite split_host_port_show by done.
  assert (slash ∉ host) as Hsl by (apply (avoids_not_in _ _ _ Hh); destruct bracketed; set_solver).
  rewrite (split_char_none slash host) by done. cbn [head].
  destruct port as [n|]; cbn [default]; [|done]. specialize (Hp n eq_refl).
  rewrite split_char_none by (apply slash_not_in_dec; lia). cbn [head].
  rewrite bool_decide_eq_false_2 by (apply dec_nonempty; lia).
  unfold parse_u16. by rewrite parse_uint_dec.
Qed.


Lemma parse_proxy_url_roundtrip_witness :
  parse_proxy_url "socks5h://bob:p:w@[2001:db8::1]:9050"
  = Some (Socks5, "2001:db8::1" : bytes, 9050, Some ("bob" : bytes), Some ("p:w" : bytes)).
Proof.
  apply (parse_proxy_url_roundtrip "socks5h://" Socks5 (Some ("bob" : bytes))
           (Some ("p:w" : bytes)) true "2001:db8::1" (Some 9050)).
  - by right.
  - split; [intros x [= <-] | intros y [= <-]; split; [|eauto]]; intros c Hc;
      repeat (apply elem_of_cons in Hc as [-> | Hc]; [decide_closed|]); by apply elem_of_nil in Hc.
  - intros c Hc; repeat (apply elem_of_cons in Hc as [-> | Hc]; [decide_closed|]);
      by apply elem_of_nil in Hc.
  - intros n [= <-]. unfold U16_MAX. lia.
Defined.

(** ** The choice of an upstream proxy *)

(** An environment whose variables are those of [e]. *)
Definition reads_env {Sh S} (h : handler Sh S) (e : bytes → option bytes) : Prop :=
  ∀ k s, h _ (EnvVar k) s = (e k, s).

Section choice.
Context `{UnicodeCase} (e : bytes → option bytes).

(** The text up to the next character of a kind. *)
Fixpoint upto (f : ascii → bool) (s : bytes) : bytes :=
  match s with [] => [] | x :: s' => if f x then [] else x :: upto f s' end.

Definition comma_or_blank (c : ascii) : bool := bool_decide (c = ","%char) || bool_decide (c = " "%char).

(** [x] is listed in [v]: it is not empty, and found, blanks around it aside, from the
    start of [v] or from behind a comma or blank to the next one. *)
Definition listed (v x : bytes) : Prop :=
  x ≠ [] ∧ ∃ t, (t = v ∨ ∃ l c, v = l ++ c :: t ∧ comma_or_blank c = true) ∧ x = trim (upto comma_or_blank t).

(** What NO_PROXY lists, or no_proxy when that is not set. *)
Definition in_no_proxy (x : bytes) : Prop :=
  (∃ v, e "NO_PROXY" = Some v ∧ listed v x) ∨
  (e "NO_PROXY" = None ∧ ∃ v, e "no_proxy" = Some v ∧ listed v x).

(** The target is not to be sent to an upstream proxy. *)
Inductive excluded (u : UpstreamConfig) (host : bytes) (ip : option IpAddr) : Prop :=
  | excluded_network n : n ∈ up_exclude_networks u → in_network host ip n → excluded u host ip
  | excluded_domain d : d ∈ up_exclude_domains u → under_domain host d → excluded u host ip
  | excluded_by_star : in_no_proxy "*" → excluded u host ip
  | excluded_by_network x : in_no_proxy x → in_network host ip x → excluded u host ip
  | excluded_by_name x : in_no_proxy x → under_domain host x → excluded u host ip.

(** The variables that may name a proxy, the first one first. *)
Definition proxy_variables (port : Z) (socks : bool) : list bytes :=
  if socks then ["ALL_PROXY" : bytes; "all_proxy" : bytes; "HTTPS_PROXY" : bytes; "https_proxy" : bytes;
                 "HTTP_PROXY" : bytes; "http_proxy" : bytes]
  else (if bool_decide (port = 443) then ["HTTPS_PROXY" : bytes; "https_proxy" : bytes]
        else ["HTTP_PROXY" : bytes; "http_proxy" : bytes]) ++
       ["ALL_PROXY" : bytes; "all_proxy" : bytes] ++
       (if bool_decide (port = 443) then ["HTTP_PROXY" : bytes; "http_proxy" : bytes] else []).

(** The variable is set to the URL of this proxy, blanks around it aside. *)
Definition names_proxy (k : bytes) (px : UpstreamProxy) : Prop := ∃ v,
  e k = Some v ∧ trim v ≠ [] ∧
  parse_proxy_url (trim v)
  = Some (px_protocol px, px_address px, px_port px, px_username px, px_password px).

(** The first of the variables that names a proxy names this one. *)
Definition from_env (ks : list bytes) (px : UpstreamProxy) : Prop := ∃ before k after,
  ks = before ++ k :: after ∧ names_proxy k px ∧ ∀ k' px', k' ∈ before → ¬ names_proxy k' px'.

(** The upstream section is enabled and gives this proxy. *)
Definition from_file (u : UpstreamConfig) (px : UpstreamProxy) : Prop :=
  up_enabled u = true ∧ up_protocol u = Some (px_protocol px) ∧ up_address u = Some (px_address px) ∧
  up_port u = Some (px_port px) ∧ up_username u = px_username px ∧ up_password u = px_password px.

(** The way a target goes: directly, or through a proxy. *)
Inductive route (u : UpstreamConfig) (host : bytes) (port : Z) (ip : option IpAddr) (socks : bool)
  : option UpstreamProxy → Prop :=
  | route_excluded : excluded u host ip → route u host port ip socks None
  | route_nothing :
      (∀ px, ¬ from_env (proxy_variables port socks) px) → (∀ px, ¬ from_file u px) →
      route u host port ip socks None
  | route_env px :
      ¬ excluded u host ip → from_env (proxy_variables port socks) px →
      (up_prefer_env u = true ∨ ∀ px', ¬ from_file u px') → route u host port ip socks (Some px)
  | route_file px :
      ¬ excluded u host ip → from_file u px →
      (up_prefer_env u = false ∨ ∀ px', ¬ from_env (proxy_variables port socks) px') →
      route u host port ip socks (Some px).

(** ** The model against it *)

Lemma split_by_pieces f v : ∃ ws, split_by f v = upto f v :: ws ∧
  ∀ p, p ∈ ws ↔ ∃ l c t, v = l ++ c :: t ∧ f c = true ∧ p = upto f t.
Proof.
  induction v as [|x v (ws & IH & Hws)]; cbn [split_by upto].
  { exists []. split; [done|]. intros p. split; [set_solver|]. by intros ([] & c & t & ? & _). }
  rewrite IH. destruct (f x) eqn:Hx.
  - exists (upto f v :: ws). split; [done|]. intros p. rewrite elem_of_cons, Hws. split.
    + intros [->|(l & c & t & -> & Hc & Hp)]; [by exists [], x, v|by exists (x :: l), c, t].
    + intros ([|y l] & c & t & [= -> ->] & Hc & Hp); [by left|right; by exists l, c, t].
  - exists ws. split; [done|]. intros p. rewrite Hws. split.
    + intros (l & c & t & -> & Hc & Hp). by exists (x :: l), c, t.
    + intros ([|y l] & c & t & [= -> ->] & Hc & Hp); [congruence|by exists l, c, t].
Qed.

Lemma no_proxy_entries_listed v x : x ∈ no_proxy_entries v ↔ listed v x.
Proof.
  unfold no_proxy_entries, listed. fold comma_or_blank. rewrite list_elem_of_filter, list_elem_of_fmap.
  destruct (split_by_pieces comma_or_blank v) as (ws & -> & Hws). setoid_rewrite elem_of_cons.
  setoid_rewrite Hws. split; intros [Hx Hp]; (split; [exact Hx|]).
  - destruct Hp as (p & -> & [->|(l & c & t & -> & Hc & ->)]); [exists v; auto|].
    exists t. split; [right; by exists l, c|done].
  - destruct Hp as (t & [->|(l & c & -> & Hc)] & ->); eexists; (split; [done|]); [by left|right; by exists l, c, t].
Qed.

(** The first variable whose value is a usable proxy URL, as the code looks for it. *)
Definition env_proxy (keys : list bytes) : option UpstreamProxy :=
  head (omap (λ k, e k ≫= proxy_of_value) keys).

Definition env_no_proxy : list bytes :=
  match (match e "NO_PROXY" with Some v => Some v | None => e "no_proxy" end) with
  | Some v => no_proxy_entries v
  | None => []
  end.

Lemma in_no_proxy_entries x : x ∈ env_no_proxy ↔ in_no_proxy x.
Proof.
  unfold env_no_proxy, in_no_proxy. destruct (e "NO_PROXY") as [v|]; [|destruct (e "no_proxy") as [v|]];
    rewrite ?no_proxy_entries_listed; try naive_solver. split; [set_solver|naive_solver].
Qed.

Lemma names_proxy_value k px : e k ≫= proxy_of_value = Some px ↔ names_proxy k px.
Proof.
  unfold names_proxy. destruct (e k) as [v|]; cbn [mbind option_bind]; [|naive_solver].
  unfold proxy_of_value. split.
  - case_bool_decide as Hv; [done|]. destruct (parse_proxy_url (trim v)) as [[[[[pr ho] po] us] pw]|] eqn:Hp; [|done].
    intros [= <-]. by exists v.
  - intros (v' & [= <-] & Hv & Hp). rewrite bool_decide_eq_false_2 by done. rewrite Hp. by destruct px.
Qed.

Lemma env_proxy_some ks px : env_proxy ks = Some px ↔ from_env ks px.
Proof.
  unfold env_proxy, from_env. induction ks as [|k ks IH]; cbn [omap list_omap].
  { split; [done|]. by intros ([] & ? & ? & ? & _). }
  destruct (e k ≫= proxy_of_value) as [px1|] eqn:Hk; cbn [head].
  - apply names_proxy_value in Hk as Hn. split.
    + intros [= ->]. exists [], k, ks. split; [done|]. split; [done|]. set_solver.
    + intros ([|k0 before] & k' & after & [= -> ->] & Hp & Hno).
      * apply names_proxy_value in Hp. congruence.
      * destruct (Hno k0 px1); [set_solver|done].
  - assert (∀ px', ¬ names_proxy k px') as Hn by (intros px' Hp%names_proxy_value; congruence).
    rewrite IH. split.
    + intros (before & k' & after & -> & Hp & Hno). exists (k :: before), k', after. split; [done|].
      split; [done|]. intros k0 px' [->|Hin]%elem_of_cons; [apply Hn|by apply Hno].
    + intros ([|k0 before] & k' & after & [= -> ->] & Hp & Hno); [by destruct (Hn px)|].
      exists before, k', after. split; [done|]. split; [done|]. intros. apply Hno. set_solver.
Qed.

Lemma configured_upstream_some u px : configured_upstream u = Some px ↔ from_file u px.
Proof.
  clear e. unfold configured_upstream, from_file. destruct (up_enabled u); [|by split; [|intros []]].
  destruct px, (up_protocol u), (up_address u), (up_port u); cbn; split; try done; try naive_solver.
Qed.

Lemma env_var_keys_variables port socks : env_var_keys port socks = proxy_variables port socks.
Proof.
  unfold env_var_keys, proxy_variables. destruct socks; [done|].
  destruct (Z.eqb_spec port 443) as [->|Hp]; [done|]. by rewrite !bool_decide_eq_false_2.
Qed.

Lemma is_excluded_excluded u host ip :
  (∀ a, ip = Some a → ip_wf a) →
  is_excluded host ip (up_exclude_networks u) (up_exclude_domains u) env_no_proxy = true ↔ excluded u host ip.
Proof.
  intros Hip. rewrite is_excluded_true by done. setoid_rewrite in_no_proxy_entries. split.
  - intros [(n & ? & ?)|[(d & ? & ?)|(x & ? & [->|[?|?]])]];
      [by eapply excluded_network|by eapply excluded_domain|by apply excluded_by_star
      |by eapply excluded_by_network|by eapply excluded_by_name].
  - intros [n ? ?|d ? ?| |x ? ?|x ? ?]; [left; by exists n|right; left; by exists d|right; right..].
    + by exists "*"; auto.
    + exists x; auto.
    + exists x; auto.
Qed.

(** There is only one way for a target. *)
Lemma route_unique u host port ip socks r1 r2 :
  route u host port ip socks r1 → route u host port ip socks r2 → r1 = r2.
Proof.
  assert (∀ ks p q, from_env ks p → from_env ks q → p = q) as He.
  { intros ks p q Hp Hq. apply (proj2 (env_proxy_some ks p)) in Hp.
    apply (proj2 (env_proxy_some ks q)) in Hq. congruence. }
  assert (∀ p q, from_file u p → from_file u q → p = q) as Hf.
  { intros p q Hp Hq. apply (proj2 (configured_upstream_some u p)) in Hp.
    apply (proj2 (configured_upstream_some u q)) in Hq. congruence. }
  intros [Hx|Hne Hnf|p Hx Hp Ho|p Hx Hp Ho] [Hx'|Hne' Hnf'|q Hx' Hq Ho'|q Hx' Hq Ho'];
    try done; try (f_equal; by eauto); try (by destruct (Hne _ ltac:(eassumption)));
    try (by destruct (Hnf _ ltac:(eassumption))); try (by destruct (Hne' _ ltac:(eassumption)));
    try (by destruct (Hnf' _ ltac:(eassumption))); destruct Ho as [Ho|Ho], Ho' as [Ho'|Ho'];
    try congruence; first [by destruct (Ho _ Hq)|by destruct (Ho' _ Hp)].
Qed.

Context {Sh S : Type} (h : handler Sh S) (Hh : reads_env h e).

Lemma run_env {A} k (f : option bytes → prog Sh A) s :
  (run h (bind (perform (EnvVar k)) f) s).1 = (run h (f (e k)) s).1.
Proof. cbn. rewrite Hh. by destruct (run h (f (e k)) s) as [[a s'] t]. Qed.

Lemma run_bind_fst {A B} (p : prog Sh A) (f : A → prog Sh B) s a s1 :
  (run h p s).1 = (a, s1) → (run h (bind p f) s).1 = (run h (f a) s1).1.
Proof.
  intros Hp. rewrite run_bind. destruct (run h p s) as [[a' s1'] t1]. cbn in Hp.
  simplify_eq. by destruct (run h (f a) s1) as [[b s2] t2].
Qed.

Lemma run_lookup_keys keys s : (run h (lookup_keys keys) s).1 = (env_proxy keys, s).
Proof.
  induction keys as [|k keys IH]; [done|].
  cbn [lookup_keys]. rewrite run_env. unfold env_proxy in *. cbn [omap list_omap].
  by destruct (e k ≫= proxy_of_value).
Qed.

Lemma run_no_proxy s : (run h get_no_proxy_list s).1 = (env_no_proxy, s).
Proof.
  unfold get_no_proxy_list, env_no_proxy.
  rewrite (run_bind_fst _ _ _ (match e "NO_PROXY" with Some v => Some v | None => e "no_proxy" end) s); [done|].
  unfold env_var_or. rewrite run_env. destruct (e "NO_PROXY"); [done|].
  cbn. by rewrite Hh.
Qed.

Lemma run_resolve_upstream c host port ip sk s :
  let env := env_proxy (env_var_keys port sk) in
  let file := configured_upstream (upstream c) in
  (run h (resolve_upstream c host port ip sk) s).1 =
  (if is_excluded host ip (up_exclude_networks (upstream c)) (up_exclude_domains (upstream c)) env_no_proxy
   then None
   else if up_prefer_env (upstream c) then match env with Some p => Some p | None => file end
   else match file with Some p => Some p | None => env end, s).
Proof.
  unfold resolve_upstream, lookup_env_proxy.
  rewrite (run_bind_fst _ _ _ _ _ (run_no_proxy s)).
  destruct (is_excluded _ _ _ _ _); [done|].
  destruct (up_prefer_env (upstream c)).
  - rewrite (run_bind_fst _ _ _ _ _ (run_lookup_keys _ s)).
    destruct (env_proxy _); [done|]. by destruct (configured_upstream _).
  - cbn [bind]. destruct (configured_upstream _); [done|]. cbn [negb].
    apply run_lookup_keys.
Qed.

End choice.

(** C25. The way of a target is decided by the configuration and the environment
    variables alone. It goes directly when it is excluded: its address, resolved or
    written as the host, lies in an excluded network, or its name is under an excluded
    domain, letter case aside, or NO_PROXY, or else no_proxy, lists [*], such a network or
    such a name. Otherwise it goes through the proxy of the first variable that names one,
    in the order for that kind of request, or through the enabled and complete upstream of
    the configuration; [prefer_env] only says which of the two wins when there are both.
    Variables that are unset, blank or not a proxy URL are passed over. *)
Theorem resolve_upstream_spec {Sh S} `{UnicodeCase} (e : bytes → option bytes)
    (h : handler Sh S) (s : S) (c : Config) (host : bytes) (port : Z) (ip : option IpAddr)
    (socks : bool) :
  reads_env h e → (∀ a, ip = Some a → ip_wf a) → ∀ r,
  result_of (run h (resolve_upstream c host port ip socks) s) = r ↔
  route e (upstream c) host port ip socks r.
Proof.
  intros Hh Hip.
  assert (route e (upstream c) host port ip socks
    (result_of (run h (resolve_upstream c host port ip socks) s))) as Hr.
  2: { intros r. split; [by intros <-|]. intros Hr'. by eapply route_unique. }
  unfold result_of. rewrite (run_resolve_upstream e h Hh), env_var_keys_variables. cbn [fst].
  assert (∀ ks, env_proxy e ks = None → ∀ px, ¬ from_env e ks px) as He
    by (intros ks Hn px Hp; apply (proj2 (env_proxy_some e ks px)) in Hp; congruence).
  assert (∀ u, configured_upstream u = None → ∀ px, ¬ from_file u px) as Hf
    by (intros u Hn px Hp; apply (proj2 (configured_upstream_some u px)) in Hp; congruence).
  destruct (is_excluded _ _ _ _ _) eqn:Hx; [by apply route_excluded, is_excluded_excluded|].
  apply not_true_iff_false in Hx. rewrite is_excluded_excluded in Hx by done.
  destruct (env_proxy e _) as [p|] eqn:Hp, (configured_upstream _) as [q|] eqn:Hq, (up_prefer_env _) eqn:Hb;
    first [apply route_env; [done|by apply env_proxy_some|by auto]
          |apply route_file; [done|by apply configured_upstream_some|by auto]
          |apply route_nothing; by auto].
Qed.

(** The default configuration with another upstream section. *)
Definition with_upstream (u : UpstreamConfig) : Config := {|
  server := server Config_default; auth := auth Config_default;
  logging := logging Config_default; security := security Config_default;
  upstream := u; admin := admin Config_default |}.

Definition file_upstream (prefer_env : bool) : UpstreamConfig := {|
  up_enabled := true; up_protocol := Some Socks5; up_address := Some ("up.example" : bytes);
  up_port := Some 1080; up_username := None; up_password := None;
  up_exclude_networks := []; up_exclude_domains := ["intra.example" : bytes];
  up_prefer_env := prefer_env |}.

(** An environment with an unusable HTTPS_PROXY and a usable ALL_PROXY. *)
Definition sample_env (k : bytes) : option bytes :=
  if bool_decide (k = "HTTPS_PROXY") then Some ("http://[broken" : bytes)
  else if bool_decide (k = "ALL_PROXY") then Some (" socks5://env.example:9050 " : bytes)
  else None.

Definition env_world (e : bytes → option bytes) : world unit := {|
  w_shared := tt; w_streams := ∅; w_next := 10; w_servers := λ _, None;
  w_dns := λ _, Err "no record found"; w_env := e; w_files := ∅; w_now := 0;
  w_utc := []; w_random := []; w_hash := λ alg p, Ok (alg ++ "$" ++ p, "salt" : bytes);
  w_ldap_bind := λ _ _, Err "invalidCredentials"; w_ldap_search := λ _ _, Ok [];
  w_pam := λ _ _ _, Err "denied"; w_sql := λ _ _, Ok None |}.

(** The scripted environment with its variables pinned to those of [e]. *)
Definition env_script (e : bytes → option bytes) : handler unit (world unit) := λ R ev,
  match ev in eff _ R return world unit → R * world unit with
  | EnvVar k => λ w, (e k, w)
  | ev' => script _ ev'
  end.

(** What [route] allows is what the code does, on three targets: the environment first,
    the file first, and an excluded name. *)
Lemma resolve_upstream_spec_witness :
  let _ := ascii_only_case in
  let way prefer host r :=
    route sample_env (file_upstream prefer) host 443 None false r ∧
    r = result_of (run (env_script sample_env)
      (resolve_upstream (with_upstream (file_upstream prefer)) host 443 None false) (env_world sample_env)) in
  (∃ px, way true "a.example" (Some px) ∧ px_address px = "env.example") ∧
  (∃ px, way false "a.example" (Some px) ∧ px_address px = "up.example") ∧
  way true "x.Intra.example" None.
Proof.
  intros I way.
  pose proof (λ prefer host, @resolve_upstream_spec unit (world unit) I sample_env (env_script sample_env)
    (env_world sample_env) (with_upstream (file_upstream prefer)) host 443 None false
    ltac:(done) ltac:(done)) as Q.
  pose proof (λ prefer host, proj1 (Q prefer host _) eq_refl) as P. cbv beta in P.
  split; [|split].
  - eexists. split; [split; [exact (P true (bstr "a.example"))|vm_compute; reflexivity]|vm_compute; reflexivity].
  - eexists. split; [split; [exact (P false (bstr "a.example"))|vm_compute; reflexivity]|vm_compute; reflexivity].
  - split; [exact (P true (bstr "x.Intra.example"))|vm_compute; reflexivity].
Defined.

(** ** The header loop *)

(** The peer of stream [s] still has at most [μ] bytes to send: a line read takes its
    bytes away, and writing or wrapping the stream brings no new ones. *)
Record finite_input {Sh St} (h : handler Sh St) (s : sid) (μ : St → nat) : Prop := {
  fi_line lim st l st' :
    h _ (ReadLine s lim) st = (Ok l, st') → (μ st' + length l ≤ μ st)%nat;
  fi_write bs st : (μ (h _ (WriteAll s bs) st).2 ≤ μ st)%nat;
  fi_flush st : (μ (h _ (Flush s) st).2 ≤ μ st)%nat;
  fi_reader st : (μ (h _ (BufReaderNew s) st).2 ≤ μ st)%nat;
}.

Section loop.
Context {Sh St : Type} (h : handler Sh St) (s : sid) (μ : St → nat) (Hfi : finite_input h s μ).

Lemma skip_headers_fuel fuel fuel' st :
  (μ st < fuel)%nat → (μ st < fuel')%nat →
  run h (skip_headers fuel s) st = run h (skip_headers fuel' s) st.
Proof.
  revert fuel' st. induction fuel as [|fuel IH]; intros fuel' st Hf Hf'; [lia|].
  destruct fuel' as [|fuel']; [lia|]. cbn -[trim].
  destruct (h _ (ReadLine s None) st) as [[l|e] st'] eqn:Hr; [|done].
  pose proof (fi_line h s μ Hfi _ _ _ _ Hr) as Hl.
  case_bool_decide as Hb; [done|].
  assert (length l ≠ 0%nat) by (destruct l; [by contradict Hb|done]).
  rewrite (IH fuel') by lia. done.
Qed.

Lemma skip_headers_reads fuel st : (length (run h (skip_headers fuel s) st).2 ≤ S (μ st))%nat.
Proof.
  revert st. induction fuel as [|fuel IH]; intros st; [cbn; lia|]. cbn -[trim].
  destruct (h _ (ReadLine s None) st) as [[l|e] st'] eqn:Hr; [|cbn; lia].
  pose proof (fi_line h s μ Hfi _ _ _ _ Hr) as Hl.
  case_bool_decide as Hb; [cbn; lia|].
  assert (length l ≠ 0%nat) by (destruct l; [by contradict Hb|done]).
  specialize (IH st'). destruct (run h (skip_headers fuel s) st') as [[a s2] tr]. cbn in *. lia.
Qed.

(** A bind whose first part does not add input, followed by parts that agree. *)
Lemma run_bind_q_agree {A B} (p : prog Sh (result A)) (f g : A → prog Sh (result B)) st n :
  (μ st < n)%nat →
  (∀ a st', (run h p st).1 = (Ok a, st') → (μ st' ≤ μ st)%nat) →
  (∀ a st', (μ st' < n)%nat → run h (f a) st' = run h (g a) st') →
  run h (bind_q p f) st = run h (bind_q p g) st.
Proof.
  intros Hn Hp Hfg. rewrite !run_bind_q. destruct (run h p st) as [[[a|e] st'] t]; [|done].
  specialize (Hp a st' eq_refl). by rewrite Hfg by lia.
Qed.

End loop.

(** C31. The header loop of the HTTP proxy handshake has no bound of its own; it ends
    because the proxy's answer does. Once the fuel exceeds the bytes the proxy can
    still send, it has no influence: the handshake gives the same result, state and
    events for every such fuel, and the loop reads at most one line per byte, plus
    one. *)
Theorem http_handshake_terminates {Sh St} `{Base64} (h : handler Sh St) (s : sid)
    (μ : St → nat) (st : St) (fuel fuel' : nat) (host : bytes) (port : Z)
    (u p : option bytes) :
  finite_input h s μ → (μ st < fuel)%nat → (μ st < fuel')%nat →
  run h (http_connect_handshake fuel s host port u p) st
  = run h (http_connect_handshake fuel' s host port u p) st ∧
  (length (trace_of (run h (skip_headers fuel s) st)) ≤ S (μ st))%nat.
Proof.
  intros Hfi Hf Hf'. split; [|by apply skip_headers_reads].
  set (n := (fuel `min` fuel')%nat). assert (μ st < n)%nat as Hn by lia.
  unfold http_connect_handshake.
  apply (run_bind_q_agree h μ _ _ _ _ n); [done|..].
  { cbn. intros a st'. pose proof (fi_write h s μ Hfi
      (http_connect_request host port u p) st) as Hw.
    destruct (h _ _ st) as [r st1]. cbn in *. intros [= _ <-]. done. }
  intros _ st1 H1. apply (run_bind_q_agree h μ _ _ _ _ n); [done|..].
  { cbn. intros a st'. pose proof (fi_flush h s μ Hfi st1) as Hw.
    destruct (h _ _ st1) as [r st2]. cbn in *. intros [= _ <-]. done. }
  intros _ st2 H2. cbn -[check_status_line].
  pose proof (fi_reader h s μ Hfi st2) as Hw. destruct (h _ (BufReaderNew s) st2) as [[] st3].
  cbn -[check_status_line] in *.
  destruct (h _ (ReadLine s None) st3) as [[l|e] st4] eqn:Hr; [|done].
  pose proof (fi_line h s μ Hfi _ _ _ _ Hr).
  destruct (check_status_line l); [|done]. cbn [bind].
  rewrite !run_bind_q. by rewrite (skip_headers_fuel h s μ Hfi fuel fuel') by lia.
Qed.

Lemma read_until_conserves lim acc buf segs line buf' segs' :
  read_until lim acc buf segs = (line, buf', segs') →
  (length line + length buf' + length (concat segs')
   ≤ length acc + length buf + length (concat segs))%nat.
Proof.
  revert lim acc buf. induction segs as [|seg segs IH]; intros lim acc buf; cbn [read_until];
    (destruct (find_char lf (take lim buf)) as [i|] eqn:Hi;
     [intros [= <- <- <-]; rewrite length_app, length_take, length_take, length_drop; lia|]);
    case_match; try (intros [= <- <- <-]); cbn [concat];
    rewrite ?length_app, ?length_take, ?length_drop; cbn; try lia.
  intros Hr%IH. cbn [concat] in *. rewrite !length_app, length_take in *. lia.
Qed.

(** The bytes a scripted peer has left. *)
Definition left_on (s : sid) (w : world unit) : nat :=
  match w_streams w !! s with Some st => length (pending st) | None => 0 end.

Lemma script_finite_input s : finite_input script s (left_on s).
Proof.
  unfold left_on. split.
  - intros lim w l w'. cbn -[utf8_valid]. unfold on_stream.
    destruct (w_streams w !! s) as [st|] eqn:Hs; [|done]. unfold read_line.
    destruct (read_until _ _ _ _) as [[line buf] segs] eqn:Hr.
    apply read_until_conserves in Hr. cbn -[utf8_valid]. case_match; [|done].
    intros [= -> <-]. cbn. rewrite lookup_insert_eq. unfold pending. cbn.
    rewrite !length_app. cbn in Hr. lia.
  - intros bs w. cbn. unfold on_stream. destruct (w_streams w !! s) eqn:Hs; cbn; rewrite ?Hs; [|done].
    by rewrite lookup_insert_eq.
  - intros w. done.
  - intros w. cbn. unfold on_stream. destruct (w_streams w !! s) eqn:Hs; cbn; rewrite ?Hs; [|done].
    rewrite lookup_insert_eq. unfold pending. cbn [st_buf st_segs default from_option].
    rewrite concat_bind_chunks, !length_app. unfold id. cbn [length]. lia.
Qed.

(** A proxy that answers with a status line, two header lines and an empty one. *)
Definition answering_proxy : world unit :=
  set_streams (empty_world tt) {[ 7%nat := incoming
    ["HTTP/1.1 200 OK" ++ crlf ++ "Via: x" ++ crlf; "A: b" ++ crlf ++ crlf] ]}.

Lemma http_handshake_terminates_witness :
  let _ := plain_base64 in
  let go fuel := run script (http_connect_handshake fuel 7 "h" 80 None None) answering_proxy in
  result_of (go 40%nat) = Ok 7%nat ∧ go 40%nat = go 1000%nat.
Proof.
  intros H go. split; [vm_compute; reflexivity|].
  apply (http_handshake_terminates script 7 (left_on 7) answering_proxy 40 1000 "h" 80 None None
    (script_finite_input 7)); vm_compute; lia.
Defined.
