(* ===== verification/Users.v ===== *)
(** * User files (src/src/config/user_config.rs, src/src/auth/utils.rs)

    The table of users, its operations, and password verification. The hashing
    libraries are a class (verification) and an event (hashing, which draws a salt);
    YAML is a class. [users_refine_accounts] relates the table to the plain accounts
    it stands for. *)

From S2P Require Import Prelude RustStr IpAddr Effects Script Config.

Local Open Scope Z_scope.
Local Open Scope rust_scope.

Record UserEntry : Set := {
  password_hash : bytes;
  salt : option bytes;
  created_at : bytes;
  last_modified : bytes;
  user_enabled : bool;
}.

Record UserConfig : Set := { hash_type : HashType; users : gmap bytes UserEntry }.

Definition UserConfig_default : UserConfig := {| hash_type := Argon2; users := ∅ |}.

(** ** Verification *)

(** The argon2, bcrypt and scrypt crates. *)
Class PasswordVerify := {
  phc : Type;                              (* a parsed PHC string *)
  phc_new : bytes → option phc;            (* PasswordHash::new *)
  argon2_verify : bytes → phc → bool;      (* Argon2::default().verify_password(..).is_ok() *)
  scrypt_verify : bytes → phc → bool;      (* Scrypt.verify_password(..).is_ok() *)
  bcrypt_verify : bytes → bytes → result bool;
}.

(** serde_yaml on [UserConfig]. *)
Class UserYaml := {
  user_from_yaml : bytes → result UserConfig;
  user_to_yaml : UserConfig → result bytes;
}.

Section verify.
Context `{PasswordVerify}.

Definition verify_argon2 (password hash : bytes) : bool :=
  match phc_new hash with
  | Some parsed_hash => argon2_verify password parsed_hash
  | None => false
  end.

Definition verify_bcrypt (password hash : bytes) : bool :=
  match bcrypt_verify password hash with Ok b => b | Err _ => false end.

Definition verify_scrypt (password hash : bytes) : bool :=
  match phc_new hash with
  | Some parsed_hash => scrypt_verify password parsed_hash
  | None => false
  end.

Definition verify_hash (t : HashType) (password hash : bytes) : bool :=
  match t with
  | Argon2 => verify_argon2 password hash
  | Bcrypt => verify_bcrypt password hash
  | Scrypt => verify_scrypt password hash
  end.

Definition verify_password (uc : UserConfig) (username password : bytes) : bool :=
  match users uc !! username with
  | Some user =>
      if negb (user_enabled user) then false
      else verify_hash (hash_type uc) password (password_hash user)
  | None => false
  end.

End verify.

(** ** Operations *)

Section operations.
Context {Sh : Type}.

Definition with_users (uc : UserConfig) (m : gmap bytes UserEntry) : UserConfig :=
  {| hash_type := hash_type uc; users := m |}.

Definition hash_name (t : HashType) : bytes :=
  match t with Argon2 => "argon2" | Bcrypt => "bcrypt" | Scrypt => "scrypt" end.

(** [hash_argon2_password], [hash_bcrypt_password] and [hash_scrypt_password]: only
    the last keeps the salt beside the hash. *)
Definition hash_password (t : HashType) (password : bytes) : prog Sh (result (bytes * option bytes)) :=
  r <- perform (HashPassword (hash_name t) password) ;;
  Ret (match r with
       | Ok (hash, salt) => Ok (hash, match t with Scrypt => Some salt | _ => None end)
       | Err e => Err ("Failed to hash password: " ++ e)
       end).

Definition user_exists (username : bytes) : bytes := "User already exists: " ++ username.
Definition user_not_found (username : bytes) : bytes := "User not found: " ++ username.

(** The methods take [&mut self]: [Ok] carries the table they leave, and a method that
    fails has not changed it. *)
Definition add_user (uc : UserConfig) (username password : bytes) : prog Sh (result UserConfig) :=
  match users uc !! username with
  | Some _ => Ret (Err (user_exists username))
  | None =>
      h <-? hash_password (hash_type uc) password ;;
      now <- perform UtcNow ;;
      Ret (Ok (with_users uc (<[username := {|
        password_hash := h.1; salt := h.2; created_at := now; last_modified := now;
        user_enabled := true |}]> (users uc))))
  end.

Definition remove_user (uc : UserConfig) (username : bytes) : prog Sh (result UserConfig) :=
  match users uc !! username with
  | None => Ret (Err (user_not_found username))
  | Some _ => Ret (Ok (with_users uc (delete username (users uc))))
  end.

Definition update_password (uc : UserConfig) (username new_password : bytes)
  : prog Sh (result UserConfig) :=
  h <-? hash_password (hash_type uc) new_password ;;
  match users uc !! username with
  | None => Ret (Err (user_not_found username))
  | Some user =>
      now <- perform UtcNow ;;
      Ret (Ok (with_users uc (<[username := {|
        password_hash := h.1; salt := h.2; created_at := created_at user;
        last_modified := now; user_enabled := user_enabled user |}]> (users uc))))
  end.

Definition enable_user (uc : UserConfig) (username : bytes) (enabled : bool)
  : prog Sh (result UserConfig) :=
  match users uc !! username with
  | None => Ret (Err (user_not_found username))
  | Some user =>
      now <- perform UtcNow ;;
      Ret (Ok (with_users uc (<[username := {|
        password_hash := password_hash user; salt := salt user; created_at := created_at user;
        last_modified := now; user_enabled := enabled |}]> (users uc))))
  end.

(** ** Files *)

Fixpoint validate_entries (l : list (bytes * UserEntry)) : result unit :=
  match l with
  | [] => Ok tt
  | (username, user) :: l' =>
      if bool_decide (username = []) then Err "Username cannot be empty"
      else if bool_decide (password_hash user = [])
      then Err ("Password hash cannot be empty for user: " ++ username)
      else validate_entries l'
  end.

Definition validate_users `{HashOrder} (uc : UserConfig) : result unit :=
  validate_entries (hm_iter (users uc)).

Definition users_of_content `{HashOrder} `{UserYaml} (content : bytes) : result UserConfig :=
  let? config := user_from_yaml content in
  let? _ := validate_users config in
  Ok config.

Definition load_users `{HashOrder} `{UserYaml} (path : bytes) : prog Sh (result UserConfig) :=
  content <-? perform (ReadFile path) ;;
  Ret (users_of_content content).

Definition save_users `{UserYaml} (uc : UserConfig) (path : bytes) : prog Sh (result unit) :=
  content <-? Ret (user_to_yaml uc) ;;
  _ <-? perform (WriteFile path content) ;;
  Ret (Ok tt).

End operations.

(** ** Validation *)

Definition user_wf (u : bytes) (e : UserEntry) : Prop := u ≠ [] ∧ password_hash e ≠ [].

Lemma validate_entries_ok l :
  validate_entries l = Ok tt ↔ Forall (λ p, user_wf p.1 p.2) l.
Proof.
  induction l as [|[u e] l IH]; cbn [validate_entries]; [split; [constructor|done]|].
  rewrite Forall_cons, <- IH. unfold user_wf. cbn [fst snd].
  repeat case_bool_decide; intuition congruence.
Qed.

Lemma validate_users_ok `{HashOrder} uc :
  validate_users uc = Ok tt ↔ map_Forall user_wf (users uc).
Proof.
  unfold validate_users. rewrite validate_entries_ok, Forall_forall. split.
  - intros Hf u e He. apply (Hf (u, e)). by apply hm_iter_elem.
  - intros Hf [u e] Hin%hm_iter_elem. by apply (Hf u e).
Qed.

(** ** Accounts: what a user file stands for *)

(** Per user, the password last set and whether the account is enabled. *)
Abbreviation accounts := (gmap bytes (bytes * bool)).

Inductive user_cmd : Set :=
  | AddUser (u p : bytes)
  | RemoveUser (u : bytes)
  | UpdatePassword (u p : bytes)
  | EnableUser (u : bytes) (b : bool).

Definition account_step (a : accounts) (c : user_cmd) : option accounts :=
  match c with
  | AddUser u p => match a !! u with Some _ => None | None => Some (<[u := (p, true)]> a) end
  | RemoveUser u => match a !! u with Some _ => Some (delete u a) | None => None end
  | UpdatePassword u p =>
      match a !! u with Some (_, b) => Some (<[u := (p, b)]> a) | None => None end
  | EnableUser u b =>
      match a !! u with Some (p, _) => Some (<[u := (p, b)]> a) | None => None end
  end.

Definition exec_cmd {Sh} (uc : UserConfig) (c : user_cmd) : prog Sh (result UserConfig) :=
  match c with
  | AddUser u p => add_user uc u p
  | RemoveUser u => remove_user uc u
  | UpdatePassword u p => update_password uc u p
  | EnableUser u b => enable_user uc u b
  end.

(** A history of commands; a command that fails leaves the table as it was. *)
Fixpoint exec_cmds {Sh} (uc : UserConfig) (cs : list user_cmd) : prog Sh UserConfig :=
  match cs with
  | [] => Ret uc
  | c :: cs' =>
      r <- exec_cmd uc c ;;
      exec_cmds (match r with Ok uc' => uc' | Err _ => uc end) cs'
  end.

Definition account_steps (a : accounts) (cs : list user_cmd) : accounts :=
  fold_left (λ a c, default a (account_step a c)) cs a.

Section refinement.
Context `{PasswordVerify} {Sh S : Type} (h : handler Sh S).

(** What the hashing crates document: hashing succeeds, and verifying the password
    against the hash it gave succeeds. *)
Definition hashing_works : Prop :=
  ∀ t pw s, ∃ hash salt,
    (h _ (HashPassword (hash_name t) pw) s).1 = Ok (hash, salt) ∧ verify_hash t pw hash = true.

(** The hashing crate gave this hash for this password, at some time. *)
Definition made (t : HashType) (pw hash : bytes) : Prop :=
  ∃ s salt, (h _ (HashPassword (hash_name t) pw) s).1 = Ok (hash, salt).

Lemma made_verifies t pw hash : hashing_works → made t pw hash → verify_hash t pw hash = true.
Proof. intros Hw (s & salt & Hm). by destruct (Hw t pw s) as (hash' & salt' & [= <- <-]%(eq_trans (eq_sym Hm)) & ?). Qed.

Definition entry_of (t : HashType) (e : UserEntry) (a : bytes * bool) : Prop :=
  user_enabled e = a.2 ∧ made t a.1 (password_hash e).

(** The table has exactly the accounts, each with its password and its status. *)
Definition represents (uc : UserConfig) (a : accounts) : Prop :=
  ∀ u, option_relation (entry_of (hash_type uc)) (λ _, False) (λ _, False) (users uc !! u) (a !! u).

Lemma represents_insert uc a u e x :
  represents uc a → entry_of (hash_type uc) e x →
  represents (with_users uc (<[u := e]> (users uc))) (<[u := x]> a).
Proof.
  intros Hr He v. cbn. destruct (decide (u = v)) as [<-|].
  - rewrite !lookup_insert_eq. exact He.
  - rewrite !lookup_insert_ne by done. apply Hr.
Qed.

Lemma represents_delete uc a u :
  represents uc a → represents (with_users uc (delete u (users uc))) (delete u a).
Proof.
  intros Hr v. cbn. destruct (decide (u = v)) as [<-|].
  - rewrite !lookup_delete_eq. done.
  - rewrite !lookup_delete_ne by done. apply Hr.
Qed.

Lemma represents_cases uc a u :
  represents uc a →
  (users uc !! u = None ∧ a !! u = None) ∨
  (∃ e x, users uc !! u = Some e ∧ a !! u = Some x ∧ entry_of (hash_type uc) e x).
Proof.
  intros Hr. specialize (Hr u).
  destruct (users uc !! u), (a !! u); cbn in Hr; try done; eauto 10.
Qed.

Lemma run_hash_password t pw s :
  hashing_works →
  ∃ x s' tr, run h (hash_password t pw) s = (Ok x, s', tr) ∧ made t pw x.1.
Proof.
  intros Hw. destruct (Hw t pw s) as (hash & salt & Hh & Hv).
  assert (made t pw hash) as Hm by (by exists s, salt). cbn.
  destruct (h _ _ s) as [r s']. cbn in Hh. subst r. by eexists _, _, _.
Qed.

(** A command succeeds exactly when it makes sense on the accounts, and then the new
    table stands for the new accounts. *)
Lemma exec_cmd_refines uc a c s :
  hashing_works → represents uc a →
  match result_of (run h (exec_cmd uc c) s), account_step a c with
  | Ok uc', Some a' => represents uc' a'
  | Err _, None => True
  | _, _ => False
  end.
Proof.
  intros Hw Hr. unfold result_of. destruct c as [u p|u|u p|u b]; cbn [exec_cmd account_step];
    destruct (represents_cases uc a u Hr) as [[H1 H2]|(e & [pw en] & H1 & H2 & He)].
  - unfold add_user. rewrite H1, H2. rewrite run_bind_q.
    destruct (run_hash_password (hash_type uc) p s Hw) as (x & s' & tr & -> & Hv).
    cbn. destruct (h _ UtcNow s') as [now s2]. cbn. by apply represents_insert.
  - unfold add_user. by rewrite H1, H2.
  - unfold remove_user. by rewrite H1, H2.
  - unfold remove_user. rewrite H1, H2. by apply represents_delete.
  - unfold update_password. rewrite H2. rewrite run_bind_q.
    destruct (run_hash_password (hash_type uc) p s Hw) as (x & s' & tr & -> & Hv).
    by rewrite H1.
  - unfold update_password. rewrite H2. rewrite run_bind_q.
    destruct (run_hash_password (hash_type uc) p s Hw) as (x & s' & tr & -> & Hv).
    rewrite H1. cbn. destruct (h _ UtcNow s') as [now s2]. cbn.
    apply represents_insert; [done|]. by destruct He.
  - unfold enable_user. by rewrite H1, H2.
  - unfold enable_user. rewrite H1, H2. cbn. destruct (h _ UtcNow s) as [now s2]. cbn.
    apply represents_insert; [done|]. by destruct He.
Qed.

Lemma exec_cmds_refine cs uc a s :
  hashing_works → represents uc a →
  represents (result_of (run h (exec_cmds uc cs) s)) (account_steps a cs).
Proof.
  intros Hw. revert uc a s. induction cs as [|c cs IH]; intros uc a s Hr; [done|].
  cbn [exec_cmds account_steps fold_left]. unfold result_of. rewrite run_bind.
  pose proof (exec_cmd_refines uc a c s Hw Hr) as Hc. unfold result_of in Hc.
  destruct (run h (exec_cmd uc c) s) as [[r s1] t1]. cbn [fst] in Hc.
  specialize (IH (match r with Ok uc' => uc' | Err _ => uc end)
                 (default a (account_step a c)) s1).
  unfold result_of, account_steps in IH.
  destruct (run h (exec_cmds _ cs) s1) as [[uc2 s2] t2]. cbn in *. apply IH.
  destruct r, (account_step a c); cbn; done.
Qed.

(** An enabled user is held to a hash of the password last set, and to nothing else. *)
Lemma represents_verify uc a u :
  represents uc a →
  match a !! u with
  | Some (p, true) => ∃ hash, made (hash_type uc) p hash ∧
      ∀ q, verify_password uc u q = verify_hash (hash_type uc) q hash
  | _ => ∀ q, verify_password uc u q = false
  end.
Proof.
  intros Hr. unfold verify_password.
  destruct (represents_cases uc a u Hr) as [[-> ->]|(e & [p en] & -> & -> & He & Hv)]; [done|].
  cbn in He, Hv. rewrite He. destruct en; [|done]. by exists (password_hash e).
Qed.

End refinement.

(** C17. The user table implements accounts. Whatever sequence of add, remove, update and
    enable commands is run from an empty table of any hash type, with hashing that
    works, at the end a user the account history left enabled logs in with the
    password last set for it, and a user it left absent or disabled logs in with no
    password at all; commands that make no sense (adding twice, touching an absent
    user) fail and change nothing. *)
Theorem users_refine_accounts `{PasswordVerify} {Sh S} (h : handler Sh S) (s : S)
    (t : HashType) (cs : list user_cmd) (u : bytes) :
  hashing_works h →
  let uc := result_of (run h (exec_cmds {| hash_type := t; users := ∅ |} cs) s) in
  match account_steps ∅ cs !! u with
  | Some (p, true) => verify_password uc u p = true
  | _ => ∀ p, verify_password uc u p = false
  end.
Proof.
  intros Hw uc. pose proof (represents_verify h uc (account_steps ∅ cs) u) as Hv.
  destruct (account_steps ∅ cs !! u) as [[p []]|].
  1: destruct Hv as (hash & Hm & ->); [|by eapply made_verifies].
  all: apply exec_cmds_refine || apply Hv, exec_cmds_refine; [done|]; intros v; cbn; by rewrite !lookup_empty.
Qed.

(** Hashing replaced by a tag and the password itself, for concrete inputs. *)
Definition tag_verify : PasswordVerify := {|
  phc := bytes;
  phc_new h := Some h;
  argon2_verify p h := bool_decide (h = "argon2$" ++ p);
  scrypt_verify p h := bool_decide (h = "scrypt$" ++ p);
  bcrypt_verify p h := Ok (bool_decide (h = "bcrypt$" ++ p));
|}.

(** The scripted environment with its hashing pinned to the same tags. *)
Definition tag_script {Sh} : handler Sh (world Sh) := λ R ev,
  match ev in eff _ R return world Sh → R * world Sh with
  | HashPassword alg pw => λ w, (Ok (alg ++ "$" ++ pw, "salt" : bytes), w)
  | ev' => script _ ev'
  end.

Lemma tag_hashing_works {Sh} : @hashing_works tag_verify Sh _ tag_script.
Proof.
  intros t pw w. exists (hash_name t ++ "$" ++ pw), "salt". split; [done|].
  destruct t; cbn -[bool_decide]; by apply bool_decide_eq_true.
Qed.

Definition sample_history : list user_cmd :=
  [AddUser "ann" "one"; AddUser "bob" "two"; UpdatePassword "ann" "three";
   AddUser "ann" "four"; EnableUser "bob" false; RemoveUser "eve"].

Lemma users_refine_accounts_witness :
  let _ := tag_verify in
  let uc := result_of (run tag_script (exec_cmds {| hash_type := Bcrypt; users := ∅ |}
    sample_history) (empty_world tt)) in
  verify_password uc "ann" "three" = true ∧ (∀ p, verify_password uc "bob" p = false) ∧
  (∀ p, verify_password uc "eve" p = false).
Proof.
  intros H uc.
  pose proof (λ u, users_refine_accounts tag_script (empty_world tt) Bcrypt sample_history u
    tag_hashing_works) as P.
  assert (account_steps ∅ sample_history !! bstr "ann" = Some (bstr "three", true)) as E1
    by (vm_compute; reflexivity).
  assert (account_steps ∅ sample_history !! bstr "bob" = Some (bstr "two", false)) as E2
    by (vm_compute; reflexivity).
  assert (account_steps ∅ sample_history !! bstr "eve" = None) as E3 by (vm_compute; reflexivity).
  pose proof (P "ann") as P1. pose proof (P "bob") as P2. pose proof (P "eve") as P3.
  cbv zeta in P1, P2, P3. rewrite E1 in P1. rewrite E2 in P2. rewrite E3 in P3.
  exact (conj P1 (conj P2 P3)).
Defined.
