(* ===== verification/Auth.v ===== *)
(** * Authentication backends (src/src/auth/)

    The [Authenticator] trait and its four implementations: the user file, PAM, LDAP
    and SQL; and the choice made from the configuration (server.rs, lines 38-57). What
    a backend may accept is stated once for all of them in [authenticators_evidence]. *)

From S2P Require Import Prelude RustStr IpAddr Effects Script Config Policy Users.

Local Open Scope Z_scope.
Local Open Scope rust_scope.

(** [trait Authenticator], behind [Arc<dyn Authenticator>]. *)
Record Authenticator {Sh : Type} : Type := {
  authenticate : bytes → bytes → prog Sh (result bool);
}.
Arguments Authenticator : clear implicits.

(** What a component that asks an authenticator may rely on: accepting a username and
    password comes with evidence for them ([P], which only grows with the history),
    and asking neither dials nor resolves a target. *)
Class Justifies {Sh} (a : Authenticator Sh) (P : bytes → bytes → list (event Sh) → Prop) : Prop := {
  justifies_mono u p tr tr' : P u p tr → P u p (tr ++ tr');
  justifies_auth u p tr :
    wp (@any_resp Sh) (authenticate a u p) (λ r tr', r = Ok true → P u p tr') tr;
  justifies_quiet u p : emits (λ R e, quiet e) (authenticate a u p);
}.

(** The promise, for an authenticator that may be absent. *)
Definition all_justified {Sh} (P : bytes → bytes → list (event Sh) → Prop)
    (o : option (Authenticator Sh)) : Prop := ∀ a, o = Some a → Justifies a P.

(** ** LDAP filters *)

Definition backslash : ascii := "\"%char.
Definition nul : ascii := "000"%char.

Definition escape_filter_value (value : bytes) : bytes :=
  replace_char nul "\00"
    (replace_char ")" "\29"
      (replace_char "(" "\28"
        (replace_char "*" "\2a"
          (replace_char backslash "\5c" value)))).

Definition ldap_filter (user_filter username : bytes) : bytes :=
  replace_str "{}" (escape_filter_value username) user_filter.

Section backends.
Context {Sh : Type} `{PasswordVerify} `{UserYaml} `{HashOrder} `{UnicodeCase}.

(** ** The user file *)

Definition SimpleAuthenticator (user_config : UserConfig) : Authenticator Sh := {|
  authenticate username password := Ret (Ok (verify_password user_config username password)) |}.

(** ** PAM *)

Definition PamAuthenticator (service : bytes) : Authenticator Sh := {|
  authenticate username password :=
    auth <- perform (PamWithPassword service) ;;
    match auth with
    | Err e => Ret (Err ("Failed to initialize PAM for service '" ++ service ++ "': " ++ e))
    | Ok _ =>
        r <- perform (PamAuthenticate service username password) ;;
        Ret (match r with Ok _ => Ok true | Err _ => Ok false end)
    end |}.

(** ** LDAP *)

(** The bind that precedes the search. *)
Definition ldap_initial_bind (bind_dn bind_password : option bytes) : prog Sh (result unit) :=
  bind_result <- perform (match bind_dn with
                          | Some dn => LdapSimpleBind dn (default [] bind_password)
                          | None => LdapSimpleBind [] []
                          end) ;;
  Ret (match bind_result with
       | Err e => Err ("LDAP bind failed: " ++ e)
       | Ok (Err e) => Err ("LDAP bind error: " ++ e)
       | Ok (Ok _) => Ok tt
       end).

Definition LdapAuthenticator (url base_dn : bytes) (bind_dn bind_password : option bytes)
    (user_filter : bytes) : Authenticator Sh := {|
  authenticate username password :=
    if bool_decide (password = []) then Ret (Ok false)
    else
      conn <- perform (LdapConnect url) ;;
      match conn with
      | Err e => Ret (Err ("Failed to connect to LDAP server: " ++ e))
      | Ok _ =>
          _ <-? ldap_initial_bind bind_dn bind_password ;;
          search_result <- perform (LdapSearch base_dn (ldap_filter user_filter username)) ;;
          match search_result with
          | Err e => Ret (Err ("LDAP search failed: " ++ e))
          | Ok (Err e) => Ret (Err ("LDAP search error: " ++ e))
          | Ok (Ok [user_dn]) =>
              verify_result <- perform (LdapSimpleBind user_dn password) ;;
              Ret (Ok (match verify_result with Ok res => is_ok res | Err _ => false end))
          | Ok (Ok _) => Ret (Ok false)
          end
      end |}.

(** ** SQL *)

Inductive DatabaseBackend : Set := MySql | Postgres.

Definition database_backend (db_type : bytes) : option DatabaseBackend :=
  let t := to_lowercase db_type in
  if bool_decide (t = "mysql") then Some MySql
  else if bool_decide (t ∈ ["postgres" : bytes; "pgsql" : bytes; "postgresql" : bytes])
  then Some Postgres
  else None.

Definition backend_name (b : DatabaseBackend) : bytes :=
  match b with MySql => "MySQL" | Postgres => "Postgres" end.

Definition sql_authenticator (backend : DatabaseBackend) (query : bytes) (t : HashType)
  : Authenticator Sh := {|
  authenticate username password :=
    result <- perform (SqlFetchOptional (backend_name backend) query username) ;;
    Ret (Ok (match result with
             | Ok (Some hash) => verify_hash t password hash
             | Ok None => false
             | Err _ => false
             end)) |}.

(** ** [dyn Authenticator] *)

(** The value behind an [Arc<dyn Authenticator>]: which backend, with its fields. *)
Inductive AnyAuthenticator : Type :=
  | SimpleAuth (user_config : UserConfig)
  | PamAuth (service : bytes)
  | LdapAuth (url base_dn : bytes) (bind_dn bind_password : option bytes) (user_filter : bytes)
  | SqlAuth (backend : DatabaseBackend) (query : bytes) (t : HashType).

Definition dyn (v : AnyAuthenticator) : Authenticator Sh :=
  match v with
  | SimpleAuth user_config => SimpleAuthenticator user_config
  | PamAuth service => PamAuthenticator service
  | LdapAuth url base_dn bind_dn bind_password user_filter =>
      LdapAuthenticator url base_dn bind_dn bind_password user_filter
  | SqlAuth backend query t => sql_authenticator backend query t
  end.

Definition SimpleAuthenticator_load_from_file (path : bytes) : prog Sh (result AnyAuthenticator) :=
  user_config <-? load_users path ;;
  Ret (Ok (SimpleAuth user_config)).

Definition SqlAuthenticator_new (db_type url query : bytes) (t : HashType)
  : prog Sh (result AnyAuthenticator) :=
  match database_backend db_type with
  | None => Ret (Err ("Unsupported database type: " ++ db_type))
  | Some backend =>
      pool <- perform (SqlConnect (backend_name backend) url) ;;
      Ret (match pool with
           | Ok _ => Ok (SqlAuth backend query t)
           | Err e => Err ("Failed to connect to " ++ backend_name backend ++ " database: " ++ e)
           end)
  end.

(** ** The backend of a configuration *)

Definition some_ok (p : prog Sh (result AnyAuthenticator))
  : prog Sh (result (option AnyAuthenticator)) :=
  a <-? p ;; Ret (Ok (Some a)).

Definition create_authenticator (c : AuthConfig) : prog Sh (result (option AnyAuthenticator)) :=
  if auth_enabled c then
    match auth_backend c with
    | CfgSimple user_config_file => some_ok (SimpleAuthenticator_load_from_file user_config_file)
    | CfgPam service => Ret (Ok (Some (PamAuth service)))
    | CfgLdap url base_dn bind_dn bind_password user_filter =>
        Ret (Ok (Some (LdapAuth url base_dn bind_dn bind_password user_filter)))
    | CfgDatabase db_type url query t => some_ok (SqlAuthenticator_new db_type url query t)
    | CfgNone => Ret (Ok None)
    end
  else Ret (Ok None).

End backends.

(** ** Filters cannot be escaped from *)

(** The characters that mean something in an LDAP filter (RFC 4515). *)
Definition filter_special (c : ascii) : Prop :=
  c = "*"%char ∨ c = "("%char ∨ c = ")"%char ∨ c = nul.

#[export] Instance filter_special_dec c : Decision (filter_special c).
Proof. unfold filter_special. apply _. Defined.

(** A directory's reading of an assertion value: [\XX] is the byte with that code. *)
Fixpoint unescape (s : bytes) : bytes :=
  match s with
  | a :: ((b :: c :: s') as t) =>
      if bool_decide (a = backslash) then
        match to_digit 16 b, to_digit 16 c with
        | Some x, Some y => as_u8 (x * 16 + y) :: unescape s'
        | _, _ => a :: unescape t
        end
      else a :: unescape t
  | a :: t => a :: unescape t
  | [] => []
  end.

Definition escape_char (c : ascii) : bytes :=
  if bool_decide (c = backslash) then "\5c"
  else if bool_decide (c = "*"%char) then "\2a"
  else if bool_decide (c = "("%char) then "\28"
  else if bool_decide (c = ")"%char) then "\29"
  else if bool_decide (c = nul) then "\00"
  else [c].

(** The five successive replacements act on each character by itself. *)
Lemma escape_filter_value_chars v : escape_filter_value v = v ≫= escape_char.
Proof.
  unfold escape_filter_value. induction v as [|c v IH]; [done|].
  unfold replace_char in *. rewrite bind_cons, !bind_app, IH, bind_cons. f_equal.
  unfold escape_char. destruct c as [[] [] [] [] [] [] [] []]; reflexivity.
Qed.

Lemma escape_no_special v : Forall (λ c, ¬ filter_special c) (escape_filter_value v).
Proof.
  rewrite escape_filter_value_chars. induction v as [|c v IH]; [constructor|].
  rewrite bind_cons. apply Forall_app. split; [|done].
  destruct c as [[] [] [] [] [] [] [] []]; apply (bool_decide_unpack _); vm_compute; exact I.
Qed.

Lemma unescape_plain c s : c ≠ backslash → unescape (c :: s) = c :: unescape s.
Proof. intros Hc. destruct s as [|a [|b s]]; cbn; [done|done|]. by rewrite bool_decide_eq_false_2. Qed.

Lemma unescape_escape_char c t : unescape (escape_char c ++ t) = c :: unescape t.
Proof.
  unfold escape_char.
  destruct (bool_decide (c = backslash)) eqn:Hb;
    [apply bool_decide_eq_true in Hb as ->; reflexivity|].
  apply bool_decide_eq_false in Hb.
  repeat (case_bool_decide; [by subst|]). by apply unescape_plain.
Qed.

Lemma unescape_escape v : unescape (escape_filter_value v) = v.
Proof.
  rewrite escape_filter_value_chars. induction v as [|c v IH]; [done|].
  by rewrite bind_cons, unescape_escape_char, IH.
Qed.

Lemma filter_none (l : bytes) : Forall (λ c, ¬ filter_special c) l → filter filter_special l = [].
Proof. induction 1 as [|c l Hc Hl IH]; [done|]. by rewrite filter_cons_False. Qed.

(** Replacing a pattern without special characters by text without them changes no
    special character. *)
Lemma replace_go_special p w skip s :
  p ≠ [] → Forall (λ c, ¬ filter_special c) p → Forall (λ c, ¬ filter_special c) w →
  Forall (λ c, ¬ filter_special c) (take skip s) →
  filter filter_special (replace_go p w skip s) = filter filter_special s.
Proof.
  intros Hne Hp Hw. revert skip. induction s as [|x s IH]; intros skip Hs; [done|].
  destruct skip as [|k]; cbn [replace_go take] in *.
  - destruct (starts_with p (x :: s)) eqn:Hst.
    + apply starts_with_spec in Hst as [r Hr].
      destruct p as [|y p]; [done|]. cbn in Hr. injection Hr as -> ->.
      apply Forall_cons in Hp as [Hy Hp].
      rewrite filter_app, (filter_none w) by done.
      change (length (y :: p) - 1)%nat with (length p - 0)%nat. rewrite Nat.sub_0_r.
      rewrite IH by (by rewrite take_app_exact). by rewrite filter_cons_False.
    + rewrite !filter_cons. by rewrite IH by constructor.
  - apply Forall_cons in Hs as [Hx Hs]. rewrite IH by done. by rewrite filter_cons_False.
Qed.

(** Each [{}] is replaced where it stands. *)
Lemma replace_go_hole w skip pre post :
  (skip ≤ length pre)%nat →
  replace_go "{}" w skip (pre ++ "{}" ++ post)
  = replace_go "{}" w skip pre ++ w ++ replace_go "{}" w 0 post.
Proof.
  revert skip. induction pre as [|x pre IH]; intros skip Hs; cbn [length] in Hs.
  { assert (skip = 0)%nat as -> by lia. done. }
  destruct skip as [|k]; [|cbn [app replace_go]; apply IH; lia].
  assert (starts_with "{}" ((x :: pre) ++ "{}" ++ post) = starts_with "{}" (x :: pre)) as Hst.
  { destruct pre as [|y pre]; [|done]. cbn. by destruct (bool_decide _). }
  cbn [app replace_go] in *. rewrite Hst.
  destruct (starts_with "{}" (x :: pre)) eqn:E; [|cbn [app]; f_equal; apply IH; lia].
  change (length "{}" - 1)%nat with 1%nat. rewrite IH; [by rewrite app_assoc|].
  destruct pre; [|cbn; lia]. cbn in E. by destruct (bool_decide _) in E.
Qed.

(** C32. A username cannot change the shape of the LDAP search filter. The parentheses,
    asterisks and NULs of the filter sent are exactly those of the configured template,
    in order, whatever the username; the text put in the place of each [{}] reads
    back, under the directory's unescaping, as exactly the username; and the rest of
    the template is left alone. *)
Theorem ldap_filter_safe (user_filter username pre post : bytes) :
  filter filter_special (ldap_filter user_filter username) = filter filter_special user_filter ∧
  unescape (escape_filter_value username) = username ∧
  ldap_filter (pre ++ "{}" ++ post) username =
    ldap_filter pre username ++ escape_filter_value username ++ ldap_filter post username.
Proof.
  split; [|split; [apply unescape_escape | apply replace_go_hole; lia]].
  apply replace_go_special; [done| |apply escape_no_special|constructor].
  repeat constructor; by intros [?|[?|[?|?]]].
Qed.

(** ** What authentication backends leave alone *)

(** Events of a backend's own: no shared state, no files, no answers to clients. *)
Definition backend_event {Sh R} (e : eff Sh R) : Prop :=
  match e with
  | LdapConnect _ | LdapSimpleBind _ _ | LdapSearch _ _ | PamWithPassword _
  | PamAuthenticate _ _ _ | SqlFetchOptional _ _ _ => True
  | _ => False
  end.

Lemma dyn_backend_events {Sh} `{PasswordVerify} (a : AnyAuthenticator) u p :
  emits (λ R (e : eff Sh R), backend_event e) (authenticate (dyn a) u p).
Proof.
  destruct a; cbn [dyn authenticate SimpleAuthenticator PamAuthenticator LdapAuthenticator
    sql_authenticator]; unfold ldap_initial_bind; emits_tac idtac; try exact I; by case_match.
Qed.

(** ** What an accepting backend has seen *)

Section evidence.
Context {Sh : Type} `{PasswordVerify} `{UserYaml} `{HashOrder} `{UnicodeCase}.
Implicit Types tr : list (event Sh).

(** The answers of the outside world that justify accepting [u] with [p], per backend;
    [table] is the user file read when the backend was created. *)
Definition login_evidence (c : AuthConfig) (table : option UserConfig) (u p : bytes) tr : Prop :=
  match auth_backend c with
  | CfgSimple _ => ∃ uc, table = Some uc ∧ verify_password uc u p = true
  | CfgPam service => Ev (PamAuthenticate service u p) (Ok tt) ∈ tr
  | CfgLdap _ base_dn _ _ user_filter =>
      p ≠ [] ∧ ∃ dn, Ev (LdapSearch base_dn (ldap_filter user_filter u)) (Ok (Ok [dn])) ∈ tr ∧
                     Ev (LdapSimpleBind dn p) (Ok (Ok tt)) ∈ tr
  | CfgDatabase db_type _ query t =>
      ∃ b hash, database_backend db_type = Some b ∧
        Ev (SqlFetchOptional (backend_name b) query u) (Ok (Some hash)) ∈ tr ∧
        verify_hash t p hash = true
  | CfgNone => False
  end.

(** The authenticator that [create_authenticator] builds from a configuration and the
    user file it read. *)
Definition built_from (c : AuthConfig) (table : option UserConfig) (a : AnyAuthenticator) : Prop :=
  match auth_backend c with
  | CfgSimple _ => ∃ uc, table = Some uc ∧ a = SimpleAuth uc
  | CfgPam service => a = PamAuth service
  | CfgLdap url base_dn bind_dn bind_password user_filter =>
      a = LdapAuth url base_dn bind_dn bind_password user_filter
  | CfgDatabase db_type _ query t =>
      ∃ b, database_backend db_type = Some b ∧ a = SqlAuth b query t
  | CfgNone => False
  end.

(** The user file's table is the valid content read when the backend was created. *)
Definition table_read (c : AuthConfig) (table : option UserConfig) tr : Prop :=
  match auth_backend c with
  | CfgSimple path => ∃ content uc, table = Some uc ∧
      Ev (ReadFile path) (Ok content) ∈ tr ∧ users_of_content content = Ok uc
  | _ => True
  end.

Lemma create_authenticator_built c :
  wp (@any_resp Sh) (create_authenticator c)
    (λ r tr, ∀ a, r = Ok (Some a) → auth_enabled c = true ∧
       ∃ table, built_from c table a ∧ table_read c table tr) [].
Proof.
  unfold create_authenticator, built_from, table_read. destruct (auth_enabled c); [|by cbn].
  destruct (auth_backend c) as [path|service|url base bdn bpw filter|db url query t|].
  - cbn. intros [content|e] _; cbn; [|done].
    destruct (users_of_content content) as [uc|e] eqn:Huc; cbn; [|done].
    intros a [= <-]. split; [done|]. exists (Some uc). split; [by eauto|].
    exists content, uc. split; [done|]. split; [set_solver|done].
  - cbn. intros a [= <-]. split; [done|]. by exists None.
  - cbn. intros a [= <-]. split; [done|]. by exists None.
  - unfold SqlAuthenticator_new. destruct (database_backend db) as [b|] eqn:Hdb; [|by cbn].
    cbn. intros [[]|e] _; cbn; [|done]. intros a [= <-]. split; [done|]. exists None. eauto.
  - by cbn.
Qed.

Lemma built_evidence c table a u p tr :
  built_from c table a →
  wp (@any_resp Sh) (authenticate (dyn a) u p)
    (λ r tr', r = Ok true → login_evidence c table u p tr') tr.
Proof.
  unfold built_from, login_evidence.
  destruct (auth_backend c) as [path|service|url base bdn bpw filter|db url query t|].
  - intros (uc & -> & ->). cbn. intros [= Hv]. by exists uc.
  - intros ->. cbn. intros [[]|e] _; cbn; [|done]. intros [[]|e'] _; cbn; [|done].
    intros _. set_solver.
  - intros ->. cbn [dyn authenticate LdapAuthenticator].
    case_bool_decide as Hp; [by cbn|]. cbn [bind perform wp]. intros [[]|e] _; [|by cbn].
    eapply wp_bind_q_intro with (P := λ _ _, True); [apply wp_mono with (2 := wp_prefix _ _ _); done| |done].
    intros _ tr1 _. cbn. intros [[dns|e]|e] _; cbn; [|done|done].
    destruct dns as [|dn [|? ?]]; cbn; [done| |done].
    intros [[[]|e]|e] _; cbn; [|done|done]. intros _. split; [done|]. exists dn. set_solver.
  - intros (b & Hb & ->). cbn. intros [[hash|]|e] _; cbn; [|done|done].
    intros [= Hv]. exists b, hash. split; [done|]. split; [set_solver|done].
  - done.
Qed.

Lemma login_evidence_mono c table u p tr tr' :
  login_evidence c table u p tr → login_evidence c table u p (tr ++ tr').
Proof.
  unfold login_evidence. destruct (auth_backend c); [done| | | |done].
  - set_solver.
  - intros (? & dn & ? & ?). split; [done|]. exists dn. set_solver.
  - intros (b & hash & ? & ? & ?). exists b, hash. split; [done|]. split; [set_solver|done].
Qed.

Lemma built_quiet c table a u p :
  built_from c table a → emits (λ R (e : eff Sh R), quiet e) (authenticate (dyn a) u p).
Proof.
  unfold built_from. destruct (auth_backend c) as [path|service|url base bdn bpw filter|db url query t|].
  - intros (uc & _ & ->). cbn. done.
  - intros ->. cbn [dyn authenticate PamAuthenticator]. quiet_tac.
  - intros ->. cbn [dyn authenticate LdapAuthenticator]. unfold ldap_initial_bind.
    quiet_tac. destruct bdn; by cbn.
  - intros (b & _ & ->). cbn [dyn authenticate sql_authenticator]. quiet_tac.
  - done.
Qed.

(** Every backend keeps the promise of the interface. *)
Lemma built_justifies c table a : built_from c table a → Justifies (Sh:=Sh) (dyn a) (login_evidence c table).
Proof.
  intros Hb. split.
  - apply login_evidence_mono.
  - intros u p tr. by apply built_evidence.
  - intros u p. by eapply built_quiet.
Qed.

End evidence.

(** C9. No backend accepts without proof. Whatever the directories, databases, PAM
    modules and files answer, if the backend built for a configuration accepts a
    username and password, then authentication was enabled and: the user file holds an
    enabled entry whose hash the password verifies; or PAM accepted these credentials;
    or the password is not empty, the directory search for the (escaped) username gave
    exactly one entry and the bind as that entry with that password succeeded; or the
    query for that username gave a hash the password verifies. *)
Theorem authenticators_evidence {Sh S} `{PasswordVerify} `{UserYaml} `{HashOrder} `{UnicodeCase}
    (h : handler Sh S) (c : AuthConfig) (s s' : S) (a : AnyAuthenticator) (u p : bytes) :
  result_of (run h (create_authenticator c) s) = Ok (Some a) →
  result_of (run h (authenticate (dyn a) u p) s') = Ok true →
  auth_enabled c = true ∧
  ∃ table, table_read c table (trace_of (run h (create_authenticator c) s)) ∧
    login_evidence c table u p (trace_of (run h (authenticate (dyn a) u p) s')).
Proof.
  intros Ha Hr.
  destruct (wp_run_any h _ _ s (create_authenticator_built c) a Ha) as (He & table & Hb & Ht).
  split; [done|]. exists table. split; [done|].
  apply (wp_run_any h _ _ s' (built_evidence c table a u p [] Hb) Hr).
Qed.

(** A directory with one entry, whose password is [secret]. *)
Definition directory : world unit := {|
  w_shared := tt; w_streams := ∅; w_next := 10; w_servers := λ _, None;
  w_dns := λ _, Err "no record found"; w_env := λ _, None; w_files := ∅; w_now := 0;
  w_utc := []; w_random := []; w_hash := λ _ p, Err p;
  w_ldap_bind := λ dn p, if bool_decide (p ∈ [bstr "secret"; []]) then Ok tt else Err "49";
  w_ldap_search := λ _ f, if bool_decide (f = "(uid=ann)") then Ok ["uid=ann,dc=x" : bytes] else Ok [];
  w_pam := λ _ _ _, Err "denied"; w_sql := λ _ _, Ok None |}.

Definition ldap_config : AuthConfig := {|
  auth_enabled := true; auth_backend := CfgLdap "ldap://x" "dc=x" None None "(uid={})" |}.

Definition no_yaml : UserYaml :=
  {| user_from_yaml _ := Err "no YAML"; user_to_yaml _ := Err "no YAML" |}.

Lemma authenticators_evidence_witness :
  let _ := tag_verify in let _ := no_yaml in let _ := map_order in let _ := ascii_only_case in
  let a := LdapAuth "ldap://x" "dc=x" None None "(uid={})" in
  let go u p := run script (authenticate (dyn a) u p) directory in
  result_of (go "ann" "secret") = Ok true ∧ result_of (go "ann" []) = Ok false ∧
  result_of (go "*" "secret") = Ok false ∧
  ∃ table, login_evidence ldap_config table "ann" "secret" (trace_of (go "ann" "secret")).
Proof.
  intros H1 H2 H3 H4 a go. split; [vm_compute; reflexivity|].
  split; [vm_compute; reflexivity|]. split; [vm_compute; reflexivity|].
  destruct (authenticators_evidence script ldap_config directory directory a "ann" "secret")
    as (_ & table & _ & He).
  - reflexivity.
  - vm_compute. reflexivity.
  - exists table. exact He.
Defined.
