(* ===== verification/Metrics.v ===== *)
(** * Server metrics (src/src/metrics.rs)

    Five atomic counters shared by every task. A component that counts is written
    against [HasMetrics], which only says that the shared state has such counters and
    that writing them touches nothing else. *)

From S2P Require Import Prelude RustStr IpAddr Effects.

Local Open Scope Z_scope.

Record ServerMetrics : Set := {
  active_connections : Z;
  total_connections : Z;
  bytes_tx : Z;
  bytes_rx : Z;
  auth_failures : Z;
}.

#[export] Instance ServerMetrics_eq_dec : EqDecision ServerMetrics.
Proof. solve_decision. Defined.

Definition ServerMetrics_new : ServerMetrics :=
  {| active_connections := 0; total_connections := 0; bytes_tx := 0; bytes_rx := 0;
     auth_failures := 0 |}.

(** [AtomicU64::fetch_add] and [AtomicUsize::fetch_sub] wrap around at 64 bits. *)
Definition fetch_add (x n : Z) : Z := (x + n) mod (U64_MAX + 1).
Definition fetch_sub (x n : Z) : Z := (x - n) mod (U64_MAX + 1).

Definition count_total (m : ServerMetrics) : ServerMetrics :=
  {| active_connections := active_connections m;
     total_connections := fetch_add (total_connections m) 1;
     bytes_tx := bytes_tx m; bytes_rx := bytes_rx m; auth_failures := auth_failures m |}.

Definition count_active (m : ServerMetrics) : ServerMetrics :=
  {| active_connections := fetch_add (active_connections m) 1;
     total_connections := total_connections m;
     bytes_tx := bytes_tx m; bytes_rx := bytes_rx m; auth_failures := auth_failures m |}.

Definition connection_closed (m : ServerMetrics) : ServerMetrics :=
  {| active_connections := fetch_sub (active_connections m) 1;
     total_connections := total_connections m;
     bytes_tx := bytes_tx m; bytes_rx := bytes_rx m; auth_failures := auth_failures m |}.

Definition add_bytes_tx (n : Z) (m : ServerMetrics) : ServerMetrics :=
  {| active_connections := active_connections m; total_connections := total_connections m;
     bytes_tx := fetch_add (bytes_tx m) n; bytes_rx := bytes_rx m;
     auth_failures := auth_failures m |}.

Definition add_bytes_rx (n : Z) (m : ServerMetrics) : ServerMetrics :=
  {| active_connections := active_connections m; total_connections := total_connections m;
     bytes_tx := bytes_tx m; bytes_rx := fetch_add (bytes_rx m) n;
     auth_failures := auth_failures m |}.

Definition count_auth_failure (m : ServerMetrics) : ServerMetrics :=
  {| active_connections := active_connections m; total_connections := total_connections m;
     bytes_tx := bytes_tx m; bytes_rx := bytes_rx m;
     auth_failures := fetch_add (auth_failures m) 1 |}.

(** The counters inside a shared state. *)
Class HasMetrics (Sh : Type) := {
  get_metrics : Sh → ServerMetrics;
  put_metrics : ServerMetrics → Sh → Sh;
  get_put_metrics : ∀ m sh, get_metrics (put_metrics m sh) = m;
  put_get_metrics : ∀ sh, put_metrics (get_metrics sh) sh = sh;
  put_put_metrics : ∀ m m' sh, put_metrics m (put_metrics m' sh) = put_metrics m sh;
}.

#[export] Instance metrics_alone : HasMetrics ServerMetrics.
Proof. by refine {| get_metrics m := m; put_metrics m _ := m |}. Defined.

(** One atomic update of a counter. *)
Definition count {Sh} `{HasMetrics Sh} (f : ServerMetrics → ServerMetrics) : prog Sh unit :=
  perform (Locked Atomic (λ sh, (tt, put_metrics (f (get_metrics sh)) sh))).

(** [if let Some(metrics) = &self.metrics { ... }] *)
Definition count_if {Sh} `{HasMetrics Sh} (b : bool) (f : ServerMetrics → ServerMetrics)
  : prog Sh unit :=
  if b then count f else Ret tt.

Lemma count_if_quiet {Sh} `{HasMetrics Sh} b f : emits (λ R e, quiet e) (count_if (Sh:=Sh) b f).
Proof. unfold count_if, count. quiet_tac. Qed.
#[export] Hint Resolve count_if_quiet : quiet.
