(* ===== verification/Socks5.v ===== *)
(** * The SOCKS5 server side (src/src/socks5.rs)

    Method negotiation, RFC 1929 authentication, requests and replies. The handler is
    written against an [Authenticator] (Auth.v) and counters in the shared state
    (Metrics.v). *)

From S2P Require Import Prelude RustStr IpAddr Effects Script Config Policy Users Auth Metrics.

Local Open Scope Z_scope.
Local Open Scope rust_scope.

(** ** Codes *)

Inductive AuthMethod : Set := NoAuth | UserPass | NoAcceptable.

#[export] Instance AuthMethod_eq_dec : EqDecision AuthMethod.
Proof. solve_decision. Defined.

Definition AuthMethod_from (value : Z) : AuthMethod :=
  if value =? 0 then NoAuth else if value =? 2 then UserPass else NoAcceptable.

(** [m as u8] *)
Definition AuthMethod_code (m : AuthMethod) : Z :=
  match m with NoAuth => 0 | UserPass => 2 | NoAcceptable => 255 end.

Inductive Command : Set := Connect | Bind | UdpAssociate.

#[export] Instance Command_eq_dec : EqDecision Command.
Proof. solve_decision. Defined.

Definition Command_from (value : Z) : Command :=
  if value =? 1 then Connect else if value =? 2 then Bind
  else if value =? 3 then UdpAssociate else Connect.

Inductive AddressType : Set := AT_IPv4 | AT_DomainName | AT_IPv6.

Definition AddressType_from (value : Z) : AddressType :=
  if value =? 1 then AT_IPv4 else if value =? 3 then AT_DomainName
  else if value =? 4 then AT_IPv6 else AT_DomainName.

Inductive Address : Set :=
  | IPv4 (octets : bytes)
  | IPv6 (octets : bytes)
  | DomainName (domain : bytes).

#[export] Instance Address_eq_dec : EqDecision Address.
Proof. solve_decision. Defined.

Record Socks5Request : Set := { rq_command : Command; rq_address : Address; rq_port : Z }.
Record Socks5Response : Set := { rs_reply : Z; rs_address : Address; rs_port : Z }.

Definition new_success (bind_addr : SocketAddr) : Socks5Response := {|
  rs_reply := 0;
  rs_address := match sa_ip bind_addr with V4 o => IPv4 o | V6 o => IPv6 o end;
  rs_port := sa_port bind_addr |}.

Definition new_error (reply_code : Z) : Socks5Response := {|
  rs_reply := reply_code;
  rs_address := IPv4 (u8s [0; 0; 0; 0]);
  rs_port := 0 |}.

(** The bytes [send_response] writes. *)
Definition response_bytes (r : Socks5Response) : bytes :=
  u8s [5; rs_reply r; 0] ++
  (match rs_address r with
   | IPv4 o => [as_u8 1] ++ o
   | IPv6 o => [as_u8 4] ++ o
   | DomainName domain => [as_u8 3; len_u8 domain] ++ domain
   end) ++
  u16_be (rs_port r).

Section handler.
Context {Sh : Type} `{HasMetrics Sh}.

Definition Address_resolve (a : Address) (port : Z) : prog Sh (result SocketAddr) :=
  match a with
  | IPv4 ip => Ret (Ok {| sa_ip := V4 ip; sa_port := port |})
  | IPv6 ip => Ret (Ok {| sa_ip := V6 ip; sa_port := port |})
  | DomainName domain =>
      response <-? perform (LookupIp domain) ;;
      match response with
      | ip :: _ => Ret (Ok {| sa_ip := ip; sa_port := port |})
      | [] => Ret (Err ("Failed to resolve domain: " ++ domain))
      end
  end.

Record Socks5Handler : Type := {
  sk_authenticator : option (Authenticator Sh);
  sk_metrics : bool;   (* whether the handler was given metrics *)
}.

Definition validate_credentials (hd : Socks5Handler) (username password : bytes) : prog Sh bool :=
  match sk_authenticator hd with
  | Some auth =>
      r <- authenticate auth username password ;;
      Ret (match r with Ok valid => valid | Err _ => false end)
  | None => Ret false
  end.

Definition handle_user_pass_auth (hd : Socks5Handler) (s : sid) : prog Sh (result bool) :=
  buf <-? perform (ReadExact s 2) ;;
  let version := byte_at 0 buf in
  let ulen := byte_at 1 buf in
  if negb (version =? 1) then Ret (Err "Invalid username/password auth version")
  else
    username <-? perform (ReadExact s (Z.to_nat ulen)) ;;
    if negb (utf8_valid username) then Ret (Err "Invalid UTF-8 in username")
    else
      buf <-? perform (ReadExact s 1) ;;
      let plen := byte_at 0 buf in
      password <-? perform (ReadExact s (Z.to_nat plen)) ;;
      if negb (utf8_valid password) then Ret (Err "Invalid UTF-8 in password")
      else
        auth_success <- validate_credentials hd username password ;;
        _ <-? perform (WriteAll s (u8s [1; if auth_success then 0 else 1])) ;;
        if auth_success then Ret (Ok true)
        else
          _ <- count_if (sk_metrics hd) count_auth_failure ;;
          Ret (Err "Authentication failed").

Definition select_method (auth_required : bool) (methods : list AuthMethod) : AuthMethod :=
  if auth_required then
    if bool_decide (UserPass ∈ methods) then UserPass else NoAcceptable
  else if bool_decide (NoAuth ∈ methods) then NoAuth
  else NoAcceptable.

Definition handle_handshake (hd : Socks5Handler) (s : sid) (auth_required : bool)
  : prog Sh (result bool) :=
  buf <-? perform (ReadExact s 2) ;;
  let version := byte_at 0 buf in
  let nmethods := byte_at 1 buf in
  if negb (version =? 5) then Ret (Err ("Unsupported SOCKS version: " ++ dec version))
  else if nmethods =? 0 then Ret (Err "No authentication methods provided")
  else
    buf <-? perform (ReadExact s (Z.to_nat nmethods)) ;;
    let methods := (λ b, AuthMethod_from (u8 b)) <$> buf in
    let selected_method := select_method auth_required methods in
    _ <-? perform (WriteAll s (u8s [5; AuthMethod_code selected_method])) ;;
    match selected_method with
    | NoAuth => Ret (Ok true)
    | UserPass => handle_user_pass_auth hd s
    | NoAcceptable => Ret (Err "No acceptable authentication method")
    end.

Definition read_address (s : sid) (t : AddressType) : prog Sh (result Address) :=
  match t with
  | AT_IPv4 =>
      ip_buf <-? perform (ReadExact s 4) ;;
      Ret (Ok (IPv4 ip_buf))
  | AT_IPv6 =>
      ip_buf <-? perform (ReadExact s 16) ;;
      Ret (Ok (IPv6 ip_buf))
  | AT_DomainName =>
      len_buf <-? perform (ReadExact s 1) ;;
      domain_buf <-? perform (ReadExact s (Z.to_nat (byte_at 0 len_buf))) ;;
      domain <-? Ret (from_utf8_or_error domain_buf) ;;
      Ret (Ok (DomainName domain))
  end.

Definition handle_request (s : sid) : prog Sh (result Socks5Request) :=
  buf <-? perform (ReadExact s 4) ;;
  let version := byte_at 0 buf in
  let command := Command_from (byte_at 1 buf) in
  let address_type := AddressType_from (byte_at 3 buf) in
  if negb (version =? 5) then Ret (Err "Invalid SOCKS version in request")
  else
    address <-? read_address s address_type ;;
    port_buf <-? perform (ReadExact s 2) ;;
    Ret (Ok {| rq_command := command; rq_address := address; rq_port := from_be port_buf |}).

Definition send_response (s : sid) (response : Socks5Response) : prog Sh (result unit) :=
  _ <-? perform (WriteAll s (response_bytes response)) ;;
  Ret (Ok tt).

End handler.
Arguments Socks5Handler : clear implicits.

(** ** The authentication gate *)

Section gate.
Context {Sh : Type} `{HasMetrics Sh}.
Context (P : bytes → bytes → list (event Sh) → Prop).
Implicit Types (hd : Socks5Handler Sh) (tr : list (event Sh)).

(** The handler's authenticator, if it has one, keeps the promise of the interface. *)
Definition justified hd : Prop := all_justified P (sk_authenticator hd).

(** The text was read from the stream. *)
Definition came_from (s : sid) (x : bytes) tr : Prop := ∃ n, Ev (ReadExact s n) (Ok x) ∈ tr.

(** The client sent a username and a password for which there is evidence. *)
Definition logged_in (s : sid) tr : Prop :=
  ∃ u p, came_from s u tr ∧ came_from s p tr ∧ P u p tr.

Lemma came_from_mono s x tr tr' : came_from s x tr → came_from s x (tr ++ tr').
Proof. intros [n ?]. exists n. set_solver. Qed.

Lemma came_from_new s n x tr : came_from s x (tr ++ [Ev (ReadExact s n) (Ok x)]).
Proof. exists n. set_solver. Qed.

Lemma validate_credentials_evidence hd u p tr :
  justified hd →
  wp (@any_resp Sh) (validate_credentials hd u p)
    (λ b tr', (∃ t, tr' = tr ++ t) ∧ (b = true → ∀ t', P u p (tr' ++ t'))) tr.
Proof.
  intros Hj. unfold validate_credentials. destruct (sk_authenticator hd) as [a|] eqn:Ha.
  - specialize (Hj a Ha). eapply wp_bind_intro.
    + apply wp_and; [apply justifies_auth | apply wp_quiet, (justifies_quiet (P := P))].
    + intros r tr' [Hr (t & -> & _)]. cbn. split; [by exists t|].
      destruct r as [[]|]; [|done|done]. intros _ t'. by apply (justifies_mono (a := a)), Hr.
  - cbn. split; [exists []; by rewrite app_nil_r | done].
Qed.

Lemma validate_credentials_quiet hd u p :
  justified hd → emits (λ R e, quiet e) (validate_credentials hd u p).
Proof.
  intros Hj. unfold validate_credentials. destruct (sk_authenticator hd) as [a|] eqn:Ha; [|done].
  specialize (Hj a Ha). apply emits_bind; [apply (justifies_quiet (P := P)) | by intros].
Qed.

Hint Resolve validate_credentials_quiet : quiet.

Lemma handle_user_pass_auth_quiet hd s :
  justified hd → emits (λ R e, quiet e) (handle_user_pass_auth hd s).
Proof. intros Hj. unfold handle_user_pass_auth. quiet_tac. Qed.

Hint Resolve handle_user_pass_auth_quiet : quiet.

Lemma handle_handshake_quiet hd s b :
  justified hd → emits (λ R e, quiet e) (handle_handshake hd s b).
Proof. intros Hj. unfold handle_handshake. quiet_tac. Qed.

Lemma read_address_quiet s t : emits (λ R e, quiet e) (read_address (Sh:=Sh) s t).
Proof. unfold read_address. quiet_tac. Qed.

Hint Resolve read_address_quiet : quiet.

Lemma socks5_request_quiet s : emits (λ R e, quiet e) (handle_request (Sh:=Sh) s).
Proof. unfold handle_request. quiet_tac. Qed.

Lemma handle_user_pass_auth_gate hd s tr :
  justified hd →
  wp (@any_resp Sh) (handle_user_pass_auth hd s) (λ r tr', r = Ok true → logged_in s tr') tr.
Proof.
  intros Hj. unfold handle_user_pass_auth. cbn [bind_q bind perform wp].
  intros [b1|] _; [|by cbn]. case_match; [by cbn|]. cbn [bind_q bind perform wp].
  intros [u|] _; [|by cbn]. case_match; [by cbn|]. cbn [bind_q bind perform wp].
  intros [b2|] _; [|by cbn]. cbn [bind_q bind perform wp].
  intros [p|] _; [|by cbn]. case_match; [by cbn|].
  eapply wp_bind_intro; [by apply validate_credentials_evidence|].
  intros ok tr' [(t & ->) Hok]. cbn [bind_q bind perform wp]. intros [[]|] _; [|by cbn].
  destruct ok.
  - cbn. intros _. exists u, p. split; [|split].
    + do 2 apply came_from_mono. do 2 apply came_from_mono. apply came_from_new.
    + do 2 apply came_from_mono. apply came_from_new.
    + by apply Hok.
  - eapply wp_bind_intro; [apply wp_prefix|]. by intros.
Qed.

Lemma handle_handshake_gate hd s tr :
  justified hd →
  wp (@any_resp Sh) (handle_handshake hd s true) (λ r tr', r = Ok true → logged_in s tr') tr.
Proof.
  intros Hj. unfold handle_handshake. cbn [bind_q bind perform wp].
  intros [b1|] _; [|by cbn]. case_match; [by cbn|]. case_match; [by cbn|].
  cbn [bind_q bind perform wp]. intros [ms|] _; [|by cbn].
  cbn [bind_q bind perform wp]. intros [[]|] _; [|by cbn].
  unfold select_method. case_bool_decide; [|by cbn]. by apply handle_user_pass_auth_gate.
Qed.

End gate.
#[export] Hint Resolve socks5_request_quiet : quiet.

(** C7. The handshake cannot be passed without credentials. When authentication is
    required, whatever the client and the authentication backend send, the handshake
    succeeds only after the client sent a username and a password that the backend has
    evidence for, and until it ends the server neither dials nor resolves anything;
    when it is not required, it succeeds only by answering "no authentication". *)
Theorem handshake_gate {Sh S} `{HasMetrics Sh} (P : bytes → bytes → list (event Sh) → Prop)
    (h : handler Sh S) (st : S) (hd : Socks5Handler Sh) (s : sid) :
  justified P hd →
  let go b := run h (handle_handshake hd s b) st in
  (result_of (go true) = Ok true → logged_in P s (trace_of (go true))) ∧
  (∀ b, connects (trace_of (go b)) = [] ∧ lookups (trace_of (go b)) = 0%nat) ∧
  (result_of (go false) = Ok true → written s (trace_of (go false)) = u8s [5; 0]).
Proof.
  intros Hj go. split; [|split].
  - apply (wp_run_any h _ _ st (handle_handshake_gate P hd s [] Hj)).
  - intros b. assert (quiet_trace (trace_of (go b))) as Hq.
    { by apply (emits_run (λ R e, quiet e) h _ st), (handle_handshake_quiet P). }
    split; [by apply quiet_connects | by apply quiet_lookups].
  - apply (wp_run_any h (handle_handshake hd s false)
      (λ r tr, r = Ok true → written s tr = u8s [5; 0])).
    unfold handle_handshake. cbn [bind_q bind perform wp].
    intros [b1|] _; [|by cbn]. case_match; [by cbn|]. case_match; [by cbn|].
    cbn [bind_q bind perform wp]. intros [ms|] _; [|by cbn].
    cbn [bind_q bind perform wp]. intros [[]|] _; [|by cbn].
    unfold select_method. case_bool_decide; [|by cbn]. cbn [wp]. intros _.
    autorewrite with trace. cbn. by rewrite bool_decide_eq_true_2.
Qed.

(** A user file with one enabled user, [ann], whose password is [secret]. *)
Definition one_user : UserConfig := {|
  hash_type := Argon2;
  users := {[ bstr "ann" := {| password_hash := "argon2$secret"; salt := None;
    created_at := []; last_modified := []; user_enabled := true |} ]} |}.

Definition simple_config : AuthConfig :=
  {| auth_enabled := true; auth_backend := CfgSimple "users.yml" |}.

Definition one_user_handler {Sh} : Socks5Handler Sh :=
  let _ := tag_verify in
  {| sk_authenticator := Some (SimpleAuthenticator one_user); sk_metrics := true |}.

Lemma one_user_justified {Sh} :
  let _ := tag_verify in let _ := ascii_only_case in
  justified (login_evidence simple_config (Some one_user)) (one_user_handler (Sh:=Sh)).
Proof. intros H1 H2 a [= <-].
  apply (built_justifies simple_config (Some one_user) (SimpleAuth one_user)). by exists one_user. Qed.

Lemma handshake_gate_witness :
  let _ := tag_verify in let _ := ascii_only_case in
  let rx p := u8s [5; 2; 0; 2] ++ [as_u8 1; as_u8 3] ++ "ann" ++ [len_u8 p] ++ p in
  let go p := run wire (handle_handshake one_user_handler 7 true)
    (on_wire (rx p) [] (empty_world ServerMetrics_new)) in
  result_of (go "secret") = Ok true ∧ result_of (go "guess!") = Err "Authentication failed" ∧
  logged_in (login_evidence simple_config (Some one_user)) 7 (trace_of (go "secret")).
Proof.
  intros H1 H2 rx go. split; [vm_compute; reflexivity|]. split; [vm_compute; reflexivity|].
  apply (handshake_gate _ wire (on_wire (rx "secret") [] (empty_world ServerMetrics_new))
    one_user_handler 7 one_user_justified).
  vm_compute. reflexivity.
Defined.

(** ** Requests on the wire *)

Lemma byte_at_cons z zs : 0 ≤ z < 256 → byte_at 0 (u8s (z :: zs)) = z.
Proof. intros Hz. unfold byte_at, u8s. cbn. by apply u8_as_u8_small. Qed.

Lemma byte_at_len (x : bytes) bs : Z.of_nat (length x) ≤ 255 → byte_at 0 (len_u8 x :: bs) = Z.of_nat (length x).
Proof. intros Hx. unfold byte_at, len_u8. cbn. apply u8_as_u8_small. lia. Qed.

Definition address_wf (a : Address) : Prop :=
  match a with
  | IPv4 o => length o = 4%nat
  | IPv6 o => length o = 16%nat
  | DomainName d => utf8_valid d = true ∧ Z.of_nat (length d) ≤ 255
  end.

(** The address as it follows its type byte. *)
Definition address_body (a : Address) : bytes :=
  match a with IPv4 o => o | IPv6 o => o | DomainName d => len_u8 d :: d end.

(** The type bytes the server reads as the type of [a]. *)
Definition type_byte (a : Address) (t : Z) : Prop :=
  match a with
  | IPv4 _ => t = 1
  | IPv6 _ => t = 4
  | DomainName _ => t ≠ 1 ∧ t ≠ 4
  end.

Section wire_lemmas.
Context {Sh : Type}.
Implicit Types (w : world Sh).

Lemma wire_read_q {A} s n bs rest tx w (k : bytes → prog Sh (result A)) :
  length bs = n →
  (run wire (bind_q (perform (ReadExact s n)) k) (on_wire (bs ++ rest) tx w)).1
  = (run wire (k bs) (on_wire rest tx w)).1.
Proof. intros Hl. unfold bind_q, perform. cbn [bind]. by rewrite wire_read. Qed.

Lemma wire_write_q {A} s bs rx tx w (k : unit → prog Sh (result A)) :
  (run wire (bind_q (perform (WriteAll s bs)) k) (on_wire rx tx w)).1
  = (run wire (k tt) (on_wire rx (tx ++ bs) w)).1.
Proof. unfold bind_q, perform. cbn [bind]. by rewrite wire_write. Qed.

Lemma wire_flush_q {A} s st (k : unit → prog Sh (result A)) :
  (run wire (bind_q (perform (Flush s)) k) st).1 = (run wire (k tt) st).1.
Proof. unfold bind_q, perform. cbn [bind]. by rewrite wire_flush. Qed.

Lemma read_address_wire s a t rest tx w :
  address_wf a → type_byte a t →
  (run wire (read_address s (AddressType_from t)) (on_wire (address_body a ++ rest) tx w)).1
  = (Ok a, on_wire rest tx w).
Proof.
  intros Hwf Ht. destruct a as [o|o|d]; cbn in Hwf, Ht.
  - subst t. cbn [AddressType_from Z.eqb Pos.eqb read_address]. by rewrite wire_read_q.
  - subst t. cbn [AddressType_from Z.eqb Pos.eqb read_address]. by rewrite wire_read_q.
  - assert (AddressType_from t = AT_DomainName) as ->.
    { unfold AddressType_from. destruct Ht as [H1 H4].
      destruct (Z.eqb_spec t 1), (Z.eqb_spec t 3), (Z.eqb_spec t 4); done. }
    destruct Hwf as [Hu Hl]. cbn [read_address address_body app].
    change (len_u8 d :: d ++ rest) with ([len_u8 d] ++ (d ++ rest)).
    rewrite wire_read_q by done. rewrite byte_at_len, Nat2Z.id by done.
    rewrite wire_read_q by done. unfold from_utf8_or_error. by rewrite Hu.
Qed.

Lemma handle_request_wire s c r t a port rest tx w :
  0 ≤ c < 256 → 0 ≤ r < 256 → 0 ≤ t < 256 → address_wf a → type_byte a t → 0 ≤ port ≤ U16_MAX →
  (run wire (handle_request s)
    (on_wire (u8s [5; c; r; t] ++ address_body a ++ u16_be port ++ rest) tx w)).1
  = (Ok {| rq_command := Command_from c; rq_address := a; rq_port := port |}, on_wire rest tx w).
Proof.
  intros Hc Hr Ht Hwf Hta Hp. unfold handle_request. rewrite wire_read_q by done.
  assert (byte_at 0 (u8s [5; c; r; t]) = 5) as -> by done.
  assert (byte_at 1 (u8s [5; c; r; t]) = c) as -> by (by apply u8_as_u8_small).
  assert (byte_at 3 (u8s [5; c; r; t]) = t) as -> by (by apply u8_as_u8_small).
  cbn [negb Z.eqb Pos.eqb].
  rewrite (wire_bind_q _ _ _ a (on_wire (u16_be port ++ rest) tx w)) by (by apply read_address_wire).
  rewrite wire_read_q by done. by rewrite from_be_u16_be.
Qed.

End wire_lemmas.

(** C27. Request frames decode to what was meant: for every address (IPv4, IPv6, or a
    domain of at most 255 bytes of UTF-8), port and command byte, reading the frame
    yields that address and port and leaves exactly the bytes after the frame. BIND and
    UDP ASSOCIATE are recognised by their codes; every other command byte, defined or
    not, is taken as CONNECT, and every address type other than 1 and 4 as a domain. *)
Theorem request_decode {Sh} (w : world Sh) (s : sid) (c r t : Z) (a : Address) (port : Z)
    (rest tx : bytes) :
  0 ≤ c < 256 → 0 ≤ r < 256 → 0 ≤ t < 256 → address_wf a → type_byte a t → 0 ≤ port ≤ U16_MAX →
  ∃ cmd,
    (run wire (handle_request s)
      (on_wire (u8s [5; c; r; t] ++ address_body a ++ u16_be port ++ rest) tx w)).1
    = (Ok {| rq_command := cmd; rq_address := a; rq_port := port |}, on_wire rest tx w) ∧
    (cmd = Bind ↔ c = 2) ∧ (cmd = UdpAssociate ↔ c = 3) ∧ (cmd = Connect ↔ c ≠ 2 ∧ c ≠ 3).
Proof.
  intros. exists (Command_from c). split; [by apply handle_request_wire|].
  unfold Command_from. destruct (Z.eqb_spec c 1), (Z.eqb_spec c 2), (Z.eqb_spec c 3);
    intuition (congruence || lia).
Qed.

Lemma request_decode_witness :
  ∃ cmd, (run wire (handle_request 7)
    (on_wire (u8s [5; 9; 0; 77] ++ address_body (DomainName "a.b") ++ u16_be 443 ++ "GET") []
       (empty_world tt))).1
  = (Ok {| rq_command := cmd; rq_address := DomainName "a.b"; rq_port := 443 |},
     on_wire "GET" [] (empty_world tt)) ∧ cmd = Connect.
Proof.
  destruct (request_decode (empty_world tt) 7 9 0 77 (DomainName "a.b") 443 "GET" [])
    as (cmd & H & _ & _ & Hc); [lia|lia|lia|by split|by split|unfold U16_MAX; lia|].
  exists cmd. split; [exact H|]. apply Hc. lia.
Defined.
