(* ===== verification/Interop.v ===== *)
(** * The two SOCKS5 implementations against each other

    The program has a SOCKS5 client (Upstream.v, towards upstream proxies) and a SOCKS5
    server (Socks5.v). Chained instances speak to one another, so the bytes of one side
    must be what the other side expects. *)

From S2P Require Import Prelude RustStr IpAddr Effects Script Config Policy Upstream.
From S2P Require Import Users Auth Metrics Socks5.

Local Open Scope Z_scope.
Local Open Scope rust_scope.

Section dialogue.
Context {Sh : Type} `{HasMetrics Sh}.

(** The server's side of a successful CONNECT, without the connection itself. *)
Definition serve_connect (hd : Socks5Handler Sh) (s : sid) (auth_required : bool)
    (bound : SocketAddr) : prog Sh (result Socks5Request) :=
  _ <-? handle_handshake hd s auth_required ;;
  request <-? handle_request s ;;
  _ <-? send_response s (new_success bound) ;;
  Ret (Ok request).

(** How the server sees the host text the client was given. *)
Definition host_address (host : bytes) : Address :=
  match parse_ip host with
  | Some (V4 o) => IPv4 o
  | Some (V6 o) => IPv6 o
  | None => DomainName host
  end.

Definition offered (creds : option (bytes * bytes)) : bytes :=
  match creds with Some _ => u8s [0; 2] | None => u8s [0] end.

(** All the bytes each side sends in the dialogue; the RFC 1929 exchange takes place
    when the server requires authentication. *)
Definition client_bytes (auth_required : bool) (creds : option (bytes * bytes))
    (host : bytes) (port : Z) : bytes :=
  ([as_u8 5; len_u8 (offered creds)] ++ offered creds) ++
  (match creds with
   | Some (u, p) => if auth_required then user_pass_message u p else []
   | None => []
   end) ++
  connect_message host port.

Definition server_bytes (auth_required : bool) (bound : SocketAddr) : bytes :=
  u8s [5; if auth_required then 2 else 0] ++
  (if auth_required then u8s [1; 0] else []) ++
  response_bytes (new_success bound).

Lemma connect_message_frame host port :
  ∃ t, type_byte (host_address host) t ∧ 0 ≤ t < 256 ∧
    connect_message host port = u8s [5; 1; 0; t] ++ address_body (host_address host) ++ u16_be port.
Proof.
  unfold connect_message, host_address.
  destruct (parse_ip host) as [[o|o]|].
  - exists 1. split; [done|]. split; [lia|]. done.
  - exists 4. split; [done|]. split; [lia|]. done.
  - exists 3. split; [done|]. split; [lia|]. done.
Qed.

Lemma host_address_wf host :
  utf8_valid host = true → Z.of_nat (length host) ≤ 255 → address_wf (host_address host).
Proof.
  intros Hu Hl. unfold host_address. destruct (parse_ip host) as [ip|] eqn:Hip; [|done].
  apply parse_ip_wf in Hip. by destruct ip.
Qed.

(** ** The server's side *)

Lemma serve_login hd s u p rest tx (w : world Sh) a :
  sk_authenticator hd = Some a →
  utf8_valid u = true → utf8_valid p = true →
  Z.of_nat (length u) ≤ 255 → Z.of_nat (length p) ≤ 255 →
  (run wire (authenticate a u p) (on_wire rest tx w)).1 = (Ok true, on_wire rest tx w) →
  (run wire (handle_user_pass_auth hd s) (on_wire (user_pass_message u p ++ rest) tx w)).1
  = (Ok true, on_wire rest (tx ++ u8s [1; 0]) w).
Proof.
  intros Ha Hu Hp Hlu Hlp Hok. unfold handle_user_pass_auth, user_pass_message.
  replace (([as_u8 1; len_u8 u] ++ u ++ [len_u8 p] ++ p) ++ rest)
    with ([as_u8 1; len_u8 u] ++ u ++ [len_u8 p] ++ p ++ rest) by (by rewrite <- !app_assoc).
  rewrite wire_read_q by done.
  assert (byte_at 1 [as_u8 1; len_u8 u] = Z.of_nat (length u)) as -> by (by apply (byte_at_len u [])).
  assert (byte_at 0 [as_u8 1; len_u8 u] = 1) as -> by done. cbn [negb Z.eqb Pos.eqb].
  rewrite Nat2Z.id, wire_read_q by done. rewrite Hu. cbn [negb].
  rewrite wire_read_q by done. rewrite byte_at_len, Nat2Z.id by done.
  rewrite wire_read_q by done. rewrite Hp. cbn [negb].
  unfold validate_credentials. rewrite Ha.
  rewrite (wire_bind _ _ _ true (on_wire rest tx w)) by (by rewrite (wire_bind _ _ _ _ _ Hok)).
  by rewrite wire_write_q.
Qed.

(** What both sides agree on before they start: with authentication required, the
    client has credentials that fit their length bytes and that the server accepts. *)
Definition agreed (hd : Socks5Handler Sh) (auth_required : bool)
    (creds : option (bytes * bytes)) : Prop :=
  auth_required = true →
  ∃ u p a, creds = Some (u, p) ∧ sk_authenticator hd = Some a ∧
    utf8_valid u = true ∧ utf8_valid p = true ∧
    Z.of_nat (length u) ≤ 255 ∧ Z.of_nat (length p) ≤ 255 ∧
    ∀ rx tx (w : world Sh), (run wire (authenticate a u p) (on_wire rx tx w)).1
                            = (Ok true, on_wire rx tx w).

Lemma serve_handshake hd s b creds rest tx (w : world Sh) :
  agreed hd b creds →
  (run wire (handle_handshake hd s b)
    (on_wire (([as_u8 5; len_u8 (offered creds)] ++ offered creds) ++
       (match creds with Some (u, p) => if b then user_pass_message u p else [] | None => [] end)
       ++ rest) tx w)).1
  = (Ok true, on_wire rest (tx ++ u8s [5; if b then 2 else 0] ++ (if b then u8s [1; 0] else [])) w).
Proof.
  intros Hag. unfold handle_handshake. rewrite <- (app_assoc [_; _]). rewrite wire_read_q by done.
  assert (byte_at 0 [as_u8 5; len_u8 (offered creds)] = 5) as -> by done.
  assert (byte_at 1 [as_u8 5; len_u8 (offered creds)] = Z.of_nat (length (offered creds))) as ->
    by (by destruct creds as [[]|]).
  cbn [negb Z.eqb Pos.eqb].
  assert ((Z.of_nat (length (offered creds)) =? 0) = false) as -> by (by destruct creds as [[]|]).
  rewrite Nat2Z.id, wire_read_q by done. rewrite wire_write_q.
  destruct b.
  - destruct (Hag eq_refl) as (u & p & a & -> & Ha & Hu & Hp & Hlu & Hlp & Hok).
    change (select_method true _) with UserPass. cbn iota beta.
    rewrite (serve_login hd s u p rest _ w a) by done. by rewrite <- app_assoc.
  - assert (select_method false ((λ b, AuthMethod_from (u8 b)) <$> offered creds) = NoAuth) as ->
      by (by destruct creds as [[]|]).
    rewrite app_nil_r. by destruct creds as [[]|].
Qed.

Lemma serve_connect_wire hd s b creds host port bound (w : world Sh) :
  agreed hd b creds → utf8_valid host = true → Z.of_nat (length host) ≤ 255 →
  0 ≤ port ≤ U16_MAX →
  (run wire (serve_connect hd s b bound) (on_wire (client_bytes b creds host port) [] w)).1
  = (Ok {| rq_command := Connect; rq_address := host_address host; rq_port := port |},
     on_wire [] (server_bytes b bound) w).
Proof.
  intros Hag Hu Hl Hp. unfold serve_connect, client_bytes.
  rewrite (wire_bind_q _ _ _ _ _ (serve_handshake hd s b creds _ [] w Hag)).
  destruct (connect_message_frame host port) as (t & Ht & Hr & ->).
  rewrite <- (app_nil_r (u16_be port)).
  rewrite (wire_bind_q _ _ _ _ _ (handle_request_wire s 1 0 t (host_address host) port [] _ w
    ltac:(lia) ltac:(lia) Hr (host_address_wf host Hu Hl) Ht Hp)).
  unfold send_response. rewrite (wire_bind_q _ _ _ tt
    (on_wire [] (server_bytes b bound) w)); [done|].
  rewrite wire_write_q, app_nil_l. unfold server_bytes. cbn [run fst]. by rewrite <- app_assoc.
Qed.

(** ** The client's side *)

Lemma skip_bound_wire s bound tx (w : world Sh) :
  ip_wf (sa_ip bound) →
  (run wire (skip_bound_address s (match sa_ip bound with V4 _ => 1 | V6 _ => 4 end))
    (on_wire (octets (sa_ip bound) ++ u16_be (sa_port bound)) tx w)).1
  = (Ok tt, on_wire [] tx w).
Proof.
  intros Hwf. unfold skip_bound_address. destruct (sa_ip bound) as [o|o]; cbn in Hwf;
    cbn [Z.eqb Pos.eqb octets];
    rewrite <- (app_nil_r (o ++ u16_be _)), wire_read_q; try done;
    rewrite length_app, Hwf; done.
Qed.

Lemma client_wire s b creds host port bound (w : world Sh) :
  (b = true → is_Some creds) → ip_wf (sa_ip bound) →
  (run wire (socks5_connect_handshake s host port (fst <$> creds) (snd <$> creds))
    (on_wire (server_bytes b bound) [] w)).1
  = (Ok s, on_wire [] (client_bytes b creds host port) w).
Proof.
  intros Hb Hwf. unfold socks5_connect_handshake, server_bytes, client_bytes.
  assert (credentials (fst <$> creds) (snd <$> creds) = creds) as -> by (by destruct creds as [[]|]).
  fold (offered creds). rewrite wire_write_q, wire_flush_q, wire_read_q by done.
  assert (byte_at 0 (u8s [5; if b then 2 else 0]) = 5) as -> by done.
  assert (byte_at 1 (u8s [5; if b then 2 else 0]) = if b then 2 else 0) as -> by (by destruct b).
  cbn [negb Z.eqb Pos.eqb].
  set (tail := response_bytes (new_success bound)).
  set (up := match creds with Some (u, p) => if b then user_pass_message u p else [] | None => [] end).
  match goal with |- context [bind_q ?m _] => assert (
    (run wire m (on_wire ((if b then u8s [1; 0] else []) ++ tail)
       ([] ++ [as_u8 5; len_u8 (offered creds)] ++ offered creds) w)).1
    = (Ok tt, on_wire tail ([as_u8 5; len_u8 (offered creds)] ++ offered creds ++ up) w)) as Hlogin end.
  { unfold up. destruct creds as [[u p]|], b.
    - change (2 =? 2) with true. cbv iota. unfold send_credentials.
      rewrite wire_write_q, wire_flush_q, wire_read_q by done. cbn [run fst]. by rewrite <- !app_assoc.
    - done.
    - by destruct (Hb eq_refl).
    - done. }
  rewrite (wire_bind_q _ _ _ _ _ Hlogin). rewrite wire_write_q, wire_flush_q.
  assert (tail = u8s [5; 0; 0; match sa_ip bound with V4 _ => 1 | V6 _ => 4 end]
                 ++ octets (sa_ip bound) ++ u16_be (sa_port bound)) as ->.
  { unfold tail, response_bytes, new_success. cbn. by destruct (sa_ip bound). }
  rewrite wire_read_q by done.
  assert (byte_at 3 (u8s [5; 0; 0; match sa_ip bound with V4 _ => 1 | V6 _ => 4 end])
          = match sa_ip bound with V4 _ => 1 | V6 _ => 4 end) as -> by (by destruct (sa_ip bound)).
  change (byte_at 0 (u8s (5 :: _))) with 5. change (byte_at 1 (u8s (5 :: 0 :: _))) with 0.
  cbn [negb Z.eqb Pos.eqb].
  rewrite (wire_bind_q _ _ _ _ _ (skip_bound_wire s bound _ w Hwf)).
  cbn [run fst]. by rewrite <- !app_assoc.
Qed.

End dialogue.

(** C14. Client and server understand each other. For every host of at most 255 bytes,
    port and bound address, with or without authentication (the credentials, when the
    server requires them, being ones it accepts, of at most 255 bytes each): fed the
    server's bytes, the client sends exactly [client_bytes] and reports success; fed
    those, the server sends exactly [server_bytes], ends up with a CONNECT request for
    the same host and port; and neither side leaves a byte unread, so that what follows
    on both streams is the tunnelled data. *)
Theorem socks5_interop {Sh} `{HasMetrics Sh} (w : world Sh) (hd : Socks5Handler Sh)
    (cs ss : sid) (auth_required : bool) (creds : option (bytes * bytes)) (host : bytes)
    (port : Z) (bound : SocketAddr) :
  agreed hd auth_required creds → utf8_valid host = true → Z.of_nat (length host) ≤ 255 →
  0 ≤ port ≤ U16_MAX → ip_wf (sa_ip bound) →
  (run wire (socks5_connect_handshake cs host port (fst <$> creds) (snd <$> creds))
     (on_wire (server_bytes auth_required bound) [] w)).1
  = (Ok cs, on_wire [] (client_bytes auth_required creds host port) w) ∧
  (run wire (serve_connect hd ss auth_required bound)
     (on_wire (client_bytes auth_required creds host port) [] w)).1
  = (Ok {| rq_command := Connect; rq_address := host_address host; rq_port := port |},
     on_wire [] (server_bytes auth_required bound) w).
Proof.
  intros Hag Hu Hl Hp Hb. split; [|by apply serve_connect_wire].
  apply client_wire; [|done]. intros Ht. destruct (Hag Ht) as (u & p & a & -> & _). eauto.
Qed.

Lemma socks5_interop_witness :
  let w := empty_world ServerMetrics_new in
  let bound := {| sa_ip := ip4 192 0 2 1; sa_port := 40000 |} in
  let creds := Some (bstr "ann", bstr "secret") in
  (run wire (socks5_connect_handshake 3 "example.org" 443 (fst <$> creds) (snd <$> creds))
     (on_wire (server_bytes true bound) [] w)).1
  = (Ok 3%nat, on_wire [] (client_bytes true creds "example.org" 443) w) ∧
  (run wire (serve_connect one_user_handler 4 true bound)
     (on_wire (client_bytes true creds "example.org" 443) [] w)).1
  = (Ok {| rq_command := Connect; rq_address := host_address "example.org"; rq_port := 443 |},
     on_wire [] (server_bytes true bound) w).
Proof.
  intros w bound creds. apply socks5_interop.
  - intros _. eexists _, _, _. split; [reflexivity|]. split; [reflexivity|].
    split; [reflexivity|]. split; [reflexivity|]. split; [vm_compute; discriminate|].
    split; [vm_compute; discriminate|]. intros rx tx w'.
    assert (@verify_password tag_verify one_user "ann" "secret" = true) as Hv
      by (vm_compute; reflexivity).
    cbn [one_user_handler authenticate SimpleAuthenticator run fst]. by rewrite Hv.
  - vm_compute. reflexivity.
  - vm_compute. discriminate.
  - unfold U16_MAX. lia.
  - reflexivity.
Defined.

(** ** Names that do not fit *)

Lemma ascii_lower_dot x : ascii_lower x = dot → x = dot.
Proof.
  unfold ascii_lower. case_match; [|done]. intros Hx. exfalso.
  destruct x as [[] [] [] [] [] [] [] []]; vm_compute in Hx; discriminate.
Qed.

(** The blocked domains do not see a name whose last 256 bytes hold no dot. *)
Lemma long_tail_not_blocked `{UnicodeCase} (c : Config) (d tail : bytes) :
  all_ascii (d ++ tail) = true → length tail = 256%nat → dot ∉ tail →
  Forall (λ x, (length (domain_clean x) ≤ 255)%nat) (blocked_domains (security c)) →
  is_domain_blocked c (d ++ tail) = false.
Proof.
  intros Ha Hl Hd Hb. apply not_true_iff_false. rewrite is_domain_blocked_true.
  intros (x & Hx & _ & Hm). rewrite Forall_forall in Hb. specialize (Hb x Hx). revert Hm.
  unfold to_lowercase at 1 2. rewrite Ha. intros [He|(sub & He)].
  - apply (f_equal length) in He. rewrite length_fmap, length_app in He. lia.
  - pose proof (f_equal length He) as Hlen.
    rewrite length_fmap, !length_app in Hlen. cbn in Hlen.
    assert ((ascii_lower <$> (d ++ tail)) !! length sub = Some dot) as Hat
      by (rewrite He; by apply list_lookup_middle).
    rewrite list_lookup_fmap, lookup_app_r in Hat by lia.
    apply fmap_Some in Hat as (y & Hy & Hdot). symmetry in Hdot. apply ascii_lower_dot in Hdot as ->.
    apply Hd. by eapply list_elem_of_lookup_2.
Qed.

(** C15. A long name smuggles a short one past the blocked domains. The length of the name
    in the message to a SOCKS5 upstream is sent modulo 256. For every name [d] that fits,
    every port [p] and every 254 further bytes, all of it ASCII without a dot after [d]:
    no list of blocked domains stops a request for the host made of [d], the two bytes of
    [p] and the further bytes, be [d] itself blocked; and the program's own SOCKS5 server
    reads the message sent for that host as a CONNECT to [d] at port [p], the rest of it
    being left over as the first bytes of the tunnel. *)
Theorem long_host_smuggles {Sh} `{UnicodeCase} (w : world Sh) (c : Config) (d junk tx : bytes)
    (p port : Z) (s : sid) :
  let tail := u16_be p ++ junk in
  let host := d ++ tail in
  all_ascii host = true → dot ∉ tail → Z.of_nat (length d) ≤ 255 → length junk = 254%nat →
  0 ≤ p ≤ U16_MAX → parse_ip host = None →
  Forall (λ x, (length (domain_clean x) ≤ 255)%nat) (blocked_domains (security c)) →
  is_domain_blocked c host = false ∧
  (run wire (handle_request s) (on_wire (connect_message host port) tx w)).1
  = (Ok {| rq_command := Connect; rq_address := DomainName d; rq_port := p |},
     on_wire (junk ++ u16_be port) tx w).
Proof.
  intros tail host Ha Hdot Hd Hj Hp Hip Hb.
  split; [apply long_tail_not_blocked; [done| |done|done]; unfold tail; by rewrite length_app, Hj|].
  assert (utf8_valid d = true) as Hu.
  { unfold host in Ha. rewrite all_ascii_app in Ha. apply andb_true_iff in Ha as [Ha _].
    by apply utf8_valid_ascii. }
  assert (connect_message host port
          = u8s [5; 1; 0; 3] ++ address_body (DomainName d) ++ u16_be p ++ junk ++ u16_be port) as ->.
  { unfold connect_message. rewrite Hip. cbn [address_body].
    assert (len_u8 host = len_u8 d) as ->.
    { unfold len_u8, host, tail. rewrite !length_app, Hj. unfold as_u8. do 2 f_equal. cbn [length u16_be].
      rewrite !Nat2Z.inj_add. change (Z.of_nat 2 + Z.of_nat 254) with (1 * 256).
      by rewrite Z.mod_add by lia. }
    unfold host, tail. cbn [app]. by rewrite <- !app_assoc. }
  apply (handle_request_wire s 1 0 3 (DomainName d) p); [lia|lia|lia|by split|by split|done].
Qed.

(** [evil.com] is blocked, and reached at port 12345 all the same. *)
Lemma long_host_smuggles_witness :
  let _ := ascii_only_case in
  let c := with_security ["evil.com" : bytes] [] [] in
  let junk := replicate 254 "x"%char in
  let host := bstr "evil.com" ++ u16_be 12345 ++ junk in
  is_domain_blocked c "evil.com" = true ∧ is_domain_blocked c host = false ∧
  (run wire (handle_request 7) (on_wire (connect_message host 443) [] (empty_world tt))).1
  = (Ok {| rq_command := Connect; rq_address := DomainName "evil.com"; rq_port := 12345 |},
     on_wire (junk ++ u16_be 443) [] (empty_world tt)).
Proof.
  intros U c junk host. split; [vm_compute; reflexivity|].
  apply (long_host_smuggles (empty_world tt) c "evil.com" junk [] 12345 443 7).
  - vm_compute. reflexivity.
  - apply (bool_decide_eq_false (dot ∈ u16_be 12345 ++ junk)). vm_compute. reflexivity.
  - vm_compute. discriminate.
  - reflexivity.
  - unfold U16_MAX. lia.
  - vm_compute. reflexivity.
  - apply Forall_singleton. vm_compute. lia.
Defined.
