(* ===== verification/RateLimit.v ===== *)
(** * Rate limiting (src/src/ratelimit.rs)

    A token bucket per client address. The arithmetic is that of [f64]: the binary64
    operations of the Standard Library's executable specification, with their rounding.
    Instants are nanoseconds of the monotonic clock. *)

From S2P Require Import Prelude Float64 RustStr IpAddr Effects Config.

Local Open Scope Z_scope.
Local Open Scope rust_scope.

(** ** Time *)

Definition NANOS_PER_SEC : Z := 1000000000.

(** [Instant::duration_since]: zero when the other instant is later. *)
Definition duration_since (now earlier : Z) : Z := Z.max 0 (now - earlier).

(** [Duration::as_secs_f64]. *)
Definition as_secs_f64 (d : Z) : f64 :=
  f64_add (f64_of_Z (d / NANOS_PER_SEC))
    (f64_div (f64_of_Z (d mod NANOS_PER_SEC)) (f64_of_Z NANOS_PER_SEC)).

(** ** The limiter *)

Record Bucket : Set := { tokens : f64; last_refill : Z }.

Record RateLimiter : Set := { refill_per_sec : f64; burst : f64 }.

Definition RateLimiter_new (config : RateLimitConfig) : RateLimiter := {|
  refill_per_sec := f64_div (f64_of_Z (requests_per_minute config)) (f64_of_Z 60);
  burst := f64_of_Z (Z.max (burst_size config) 1);
|}.

Abbreviation buckets := (gmap IpAddr Bucket).

Definition STALE_AFTER : Z := 600 * NANOS_PER_SEC.

(** The opportunistic eviction of stale buckets. *)
Definition evict (now : Z) (m : buckets) : buckets :=
  if (10000 <? size m)%nat
  then filter (λ p, duration_since now (last_refill p.2) < STALE_AFTER) m
  else m.

(** The balance on which the decision is taken. *)
Definition refill (rl : RateLimiter) (now : Z) (b : Bucket) : f64 :=
  let elapsed := as_secs_f64 (duration_since now (last_refill b)) in
  f64_min (f64_add (tokens b) (f64_mul elapsed (refill_per_sec rl))) (burst rl).

(** What [check] does to the table under its lock, the clock having been read. *)
Definition check_at (rl : RateLimiter) (ip : IpAddr) (now : Z) (m : buckets) : bool * buckets :=
  let m := evict now m in
  let bucket := default {| tokens := burst rl; last_refill := now |} (m !! ip) in
  let t := refill rl now bucket in
  if f64_ge t f64_one
  then (true, <[ip := {| tokens := f64_sub t f64_one; last_refill := now |}]> m)
  else (false, <[ip := {| tokens := t; last_refill := now |}]> m).

(** The table inside a shared state. *)
Class HasBuckets (Sh : Type) := {
  get_buckets : Sh → buckets;
  put_buckets : buckets → Sh → Sh;
  get_put_buckets : ∀ m sh, get_buckets (put_buckets m sh) = m;
}.

(** The clock is read before the table is locked. *)
Definition check {Sh} `{HasBuckets Sh} (rl : RateLimiter) (ip : IpAddr) : prog Sh bool :=
  now <- perform InstantNow ;;
  perform (Locked Atomic (λ sh, let '(b, m) := check_at rl ip now (get_buckets sh) in
                         (b, put_buckets m sh))).

(** ** Decisions *)


(** ** Lemmas *)

Lemma evict_lookup now m ip :
  evict now m !! ip = m !! ip ∨
  (evict now m !! ip = None ∧ (10000 < size m)%nat ∧
   ∃ b, m !! ip = Some b ∧ STALE_AFTER ≤ duration_since now (last_refill b)).
Proof.
  unfold evict. destruct (Nat.ltb_spec 10000 (size m)) as [Hs|]; [|by left].
  destruct (m !! ip) as [b|] eqn:Hb.
  - destruct (decide (duration_since now (last_refill b) < STALE_AFTER)) as [Hd|Hd].
    + left. apply map_lookup_filter_Some. done.
    + right. split; [|split; [done|]].
      * apply map_lookup_filter_None. right. intros b' Hb'. by simplify_eq.
      * exists b. split; [done|]. lia.
  - left. apply map_lookup_filter_None. by left.
Qed.

Lemma check_at_other rl ip ip' now m :
  ip ≠ ip' → (check_at rl ip now m).2 !! ip' = evict now m !! ip'.
Proof. intros Hne. unfold check_at. case_match; cbn; by rewrite lookup_insert_ne. Qed.

(** C30. The decision of one check. It depends on nothing but the client's own bucket,
    which starts full; the balance it is taken on never exceeds the burst, whatever the
    clock does; a refused client pays nothing, an admitted one exactly one token; and
    no other client's bucket is changed, though when the table holds more than 10000
    buckets those idle for ten minutes are dropped. *)
Theorem check_decision (config : RateLimitConfig) (ip : IpAddr) (now : Z) (m : buckets) :
  let rl := RateLimiter_new config in
  let full := {| tokens := burst rl; last_refill := now |} in
  let t := refill rl now (default full (evict now m !! ip)) in
  let r := check_at rl ip now m in
  0 ≤ burst_size config ≤ U32_MAX →
  SFleb t (burst rl) = true ∧
  r.1 = f64_ge t f64_one ∧
  r.2 !! ip = Some {| tokens := if r.1 then f64_sub t f64_one else t; last_refill := now |} ∧
  (∀ ip', ip' ≠ ip → r.2 !! ip' = m !! ip' ∨
     (r.2 !! ip' = None ∧ (10000 < size m)%nat ∧
      ∃ b, m !! ip' = Some b ∧ STALE_AFTER ≤ duration_since now (last_refill b))).
Proof.
  intros rl full t r Hb. split; [|split; [|split]].
  - apply f64_min_le. unfold rl, RateLimiter_new. cbn [burst].
    rewrite f64_of_Z_small by (unfold U32_MAX in *; split; lia).
    rewrite int_float_pos by lia. done.
  - unfold r, check_at. fold full. fold t. by destruct (f64_ge t f64_one).
  - unfold r, check_at. fold full. fold t.
    destruct (f64_ge t f64_one); cbn; by rewrite lookup_insert_eq.
  - intros ip' Hne. unfold r. rewrite check_at_other by done. apply evict_lookup.
Qed.

Definition sixty_per_minute (b : Z) : RateLimitConfig :=
  {| requests_per_minute := 60; burst_size := b |}.

Lemma check_decision_witness :
  let rl := RateLimiter_new (sixty_per_minute 3) in
  let r := check_at rl (V4 (u8s [10; 0; 0; 1])) 5 ∅ in
  r.1 = true ∧ r.2 !! V4 (u8s [10; 0; 0; 1]) = Some {| tokens := f64_of_Z 2; last_refill := 5 |}.
Proof.
  destruct (check_decision (sixty_per_minute 3) (V4 (u8s [10; 0; 0; 1])) 5 ∅) as (_ & H1 & H2 & _).
  - cbn. unfold U32_MAX. lia.
  - cbv zeta in *. split; [rewrite H1; vm_compute; reflexivity|].
    rewrite H2, H1. vm_compute. reflexivity.
Defined.

(** ** A burst *)

(** [n] checks of the same client at the same instant. *)
Fixpoint check_burst (rl : RateLimiter) (ip : IpAddr) (now : Z) (n : nat) (m : buckets)
  : list bool * buckets :=
  match n with
  | O => ([], m)
  | S n' =>
      let '(b, m1) := check_at rl ip now m in
      let '(bs, m2) := check_burst rl ip now n' m1 in (b :: bs, m2)
  end.

Section burst.
Context (config : RateLimitConfig) (ip : IpAddr) (now : Z).
Context (Hrate : 0 ≤ requests_per_minute config ≤ U32_MAX).
Context (Hburst : 0 ≤ burst_size config ≤ U32_MAX).

Local Abbreviation rl := (RateLimiter_new config).
Local Abbreviation capacity := (Z.max (burst_size config) 1).

Lemma capacity_small n : 0 ≤ n ≤ capacity → small n.
Proof. unfold U32_MAX in *. intros. split; lia. Qed.

Lemma refill_same_instant k :
  0 ≤ k ≤ capacity →
  refill rl now {| tokens := int_float k; last_refill := now |} = int_float k.
Proof.
  intros Hk. unfold refill. cbn [tokens last_refill RateLimiter_new burst refill_per_sec].
  assert (as_secs_f64 (duration_since now now) = S754_zero false) as ->.
  { unfold duration_since. rewrite Z.sub_diag. reflexivity. }
  pose proof (f64_mul_zero _ (div_60_finite _ Hrate)) as Hz. unfold f64_mul.
  assert (f64_add (int_float k) (SFmul 53 1024 (S754_zero false)
    (f64_div (f64_of_Z (requests_per_minute config)) (f64_of_Z 60))) = int_float k) as ->.
  { destruct Hz as [-> | ->]; unfold int_float; by destruct (k =? 0). }
  rewrite (f64_of_Z_small capacity) by (apply capacity_small; lia).
  apply f64_min_int; [by apply capacity_small | apply capacity_small; lia | lia].
Qed.

(** The client's balance: the stored one, or a full bucket. *)
Definition balance (m : buckets) (k : Z) : Prop :=
  default {| tokens := burst rl; last_refill := now |} (m !! ip)
  = {| tokens := int_float k; last_refill := now |}.

Lemma evict_balance m k : balance m k → balance (evict now m) k.
Proof.
  unfold balance. intros Hb. destruct (evict_lookup now m ip) as [-> | (_ & _ & b & Hm & Hs)]; [done|].
  rewrite Hm in Hb. cbn in Hb. subst b. cbn in Hs. unfold duration_since, STALE_AFTER, NANOS_PER_SEC in Hs. lia.
Qed.

Lemma check_balance m k :
  0 ≤ k ≤ capacity → balance m k →
  (check_at rl ip now m).1 = (1 <=? k) ∧
  balance (check_at rl ip now m).2 (if 1 <=? k then k - 1 else k).
Proof.
  intros Hk Hb%evict_balance. unfold balance in Hb. unfold check_at.
  rewrite !Hb, !refill_same_instant by done. rewrite f64_ge_one by (by apply capacity_small).
  destruct (Z.leb_spec 1 k); cbn [fst snd]; (split; [done|]); unfold balance;
    rewrite lookup_insert_eq; cbn [default]; [|done].
  rewrite f64_sub_one; [done|lia|by apply capacity_small].
Qed.

Lemma check_burst_from n m k :
  0 ≤ k ≤ capacity → balance m k →
  (check_burst rl ip now n m).1
  = replicate (n `min` Z.to_nat k) true ++ replicate (n - Z.to_nat k) false.
Proof.
  revert m k. induction n as [|n IH]; intros m k Hk Hb; [done|]. cbn [check_burst].
  destruct (check_balance m k Hk Hb) as [H1 H2].
  destruct (check_at rl ip now m) as [b m1]. cbn [fst snd] in H1, H2. subst b.
  assert (0 ≤ (if 1 <=? k then k - 1 else k) ≤ capacity) as Hk' by (destruct (Z.leb_spec 1 k); lia).
  specialize (IH m1 _ Hk' H2).
  destruct (check_burst rl ip now n m1) as [bs m2]. cbn [fst] in *. rewrite IH.
  destruct (Z.leb_spec 1 k) as [H|H].
  - assert (Z.to_nat k = S (Z.to_nat (k - 1))) as -> by lia. cbn. done.
  - assert (k = 0) as -> by lia. cbn. rewrite Nat.min_0_r, Nat.sub_0_r. done.
Qed.

End burst.

(** C16. Burst, then throttle, for every configuration: a client whose bucket is new has
    exactly [burst_size] requests (one when it is set to zero) admitted at one instant,
    and every further one at that instant refused; the floating-point balance counts
    them exactly, whatever the rate, and whatever the other clients' buckets. *)
Theorem burst_then_throttle (config : RateLimitConfig) (ip : IpAddr) (now : Z) (m : buckets)
    (n : nat) :
  0 ≤ requests_per_minute config ≤ U32_MAX → 0 ≤ burst_size config ≤ U32_MAX →
  m !! ip = None →
  let allowed := Z.to_nat (Z.max (burst_size config) 1) in
  (check_burst (RateLimiter_new config) ip now n m).1
  = replicate (n `min` allowed) true ++ replicate (n - allowed) false.
Proof.
  intros Hr Hb Hm allowed. apply (check_burst_from config ip now Hr Hb n m); [lia|].
  unfold balance. rewrite Hm. cbn [default RateLimiter_new burst].
  rewrite f64_of_Z_small; [done|]. unfold U32_MAX in *. split; lia.
Qed.

Lemma burst_then_throttle_witness :
  (check_burst (RateLimiter_new (sixty_per_minute 3)) (V4 (u8s [203; 0; 113; 7])) 42 5 ∅).1
  = [true; true; true; false; false].
Proof.
  rewrite (burst_then_throttle (sixty_per_minute 3)); [reflexivity| | |reflexivity];
    cbn; unfold U32_MAX; lia.
Defined.
