(* ===== verification/Http.v ===== *)
(** * The HTTP proxy (src/src/http_proxy.rs)

    Requests and their target, proxy authentication, CONNECT tunnels, forwarded
    requests, and error responses. The methods of [HttpProxyHandler] that the server
    calls are definitions over a handler record. *)

From S2P Require Import Prelude RustStr IpAddr Effects Script Config Policy Upstream.
From S2P Require Import Users Auth Metrics.

Local Open Scope Z_scope.
Local Open Scope rust_scope.

Record HttpRequest : Type := {
  method : bytes;
  uri : bytes;
  version : bytes;
  headers : gmap bytes bytes;
}.

(** ** The target of a request *)

Section requests.
Context `{UnicodeCase}.

Definition is_connect (r : HttpRequest) : bool := bool_decide (to_uppercase (method r) = "CONNECT").

Definition colon : ascii := ":"%char.

Definition parse_connect_uri (r : HttpRequest) : result (bytes * Z) :=
  match split_char colon (uri r) with
  | [host; p] =>
      let? port := ok_or (parse_u16 p) ("Invalid port in CONNECT URI: " ++ p) in
      Ok (host, port)
  | _ => Err ("Invalid CONNECT URI format: " ++ uri r)
  end.

Definition strip_scheme (u : bytes) : bytes :=
  if starts_with "http://" u then drop 7 u
  else if starts_with "https://" u then drop 8 u
  else u.

Definition parse_proxy_uri (r : HttpRequest) : result (bytes * Z) :=
  match split_char colon (default [] (head (split_char slash (strip_scheme (uri r))))) with
  | [] => Err ("Invalid proxy URI format: " ++ uri r)
  | host :: rest =>
      if bool_decide (host = []) then Err ("Invalid proxy URI format: " ++ uri r)
      else match rest with
           | p :: _ =>
               let? port := ok_or (parse_u16 p) ("Invalid port in proxy URI: " ++ p) in
               Ok (host, port)
           | [] => Ok (host, if starts_with "https://" (uri r) then 443 else 80)
           end
  end.

Definition get_host_port (r : HttpRequest) : result (bytes * Z) :=
  if is_connect r then parse_connect_uri r else parse_proxy_uri r.

End requests.

(** ** Responses *)

Definition error_response (status_code : Z) (message : bytes) : bytes :=
  "HTTP/1.1 " ++ dec status_code ++ " " ++ message ++ crlf
  ++ "Content-Length: " ++ dec (Z.of_nat (length message)) ++ crlf
  ++ "Connection: close" ++ crlf ++ crlf ++ message.

(** The marker by which the callers of [connect_to_target] recognise a policy error. *)
Definition blocked_text : bytes := "blocked by security policy".

Section handler.
Context {Sh : Type} `{HasMetrics Sh} `{UnicodeCase} `{Base64} `{HashOrder}.

Record HttpProxyHandler : Type := {
  hp_config : Config;
  hp_authenticator : option (Authenticator Sh);
  hp_metrics : bool;   (* whether the handler was given metrics *)
}.

(** ** Reading a request *)

Definition size_error : bytes := "Request size exceeds limit".

(** [if let Some(colon_pos) = header_line.find(':') { headers.insert(...) }] *)
Definition insert_header (header_line : bytes) (hs : gmap bytes bytes) : gmap bytes bytes :=
  match find_char colon header_line with
  | Some colon_pos =>
      <[to_lowercase (trim (take colon_pos header_line)) := trim (drop (S colon_pos) header_line)]> hs
  | None => hs
  end.

(** The loop over the header lines, under what is left of the size limit. Every turn
    but the last consumes at least one byte, so that [fuel] beyond [limit] is enough. *)
Fixpoint read_headers (fuel : nat) (s : sid) (limit : Z) (hs : gmap bytes bytes)
  : prog Sh (result (gmap bytes bytes)) :=
  match fuel with
  | O => Ret (Err out_of_fuel)
  | S fuel' =>
      line <-? perform (ReadLine s (Some limit)) ;;
      let limit := limit - Z.of_nat (length line) in
      if limit =? 0 then Ret (Err size_error)
      else if bool_decide (line = []) then Ret (Ok hs)
      else
        let header_line := trim line in
        if bool_decide (header_line = []) then Ret (Ok hs)
        else read_headers fuel' s limit (insert_header header_line hs)
  end.

Definition handle_request (hd : HttpProxyHandler) (s : sid) : prog Sh (result HttpRequest) :=
  let max_size := max_request_size (security (hp_config hd)) in
  line <-? perform (ReadLine s (Some max_size)) ;;
  if bool_decide (line = []) then Ret (Err "Empty HTTP request line")
  else
    let limit := max_size - Z.of_nat (length line) in
    if limit =? 0 then Ret (Err size_error)
    else
      match split_whitespace (trim line) with
      | [m; u; v] =>
          hs <-? read_headers (S (Z.to_nat limit)) s limit ∅ ;;
          Ret (Ok {| method := m; uri := u; version := v; headers := hs |})
      | _ => Ret (Err "Invalid HTTP request line format")
      end.

(** ** Authentication *)

(** User name and password of a [Basic] header value. *)
Definition basic_credentials (auth_header : bytes) : option (bytes * bytes) :=
  if negb (starts_with "Basic " auth_header) then None
  else match b64_decode (drop 6 auth_header) with
       | None => None
       | Some decoded =>
           match from_utf8 decoded with
           | None => None
           | Some credentials =>
               match splitn2 colon credentials with
               | [username; password] => Some (username, password)
               | _ => None
               end
           end
       end.

Definition validate_auth (hd : HttpProxyHandler) (request : HttpRequest) : prog Sh bool :=
  if negb (auth_enabled (auth (hp_config hd))) then Ret true
  else match headers request !! bstr "proxy-authorization" with
  | None => Ret false
  | Some auth_header =>
      match basic_credentials auth_header with
      | None => Ret false
      | Some (username, password) =>
          match hp_authenticator hd with
          | Some a =>
              r <- authenticate a username password ;;
              match r with
              | Ok valid =>
                  _ <- (if negb valid then count_if (hp_metrics hd) count_auth_failure else Ret tt) ;;
                  Ret valid
              | Err _ =>
                  _ <- count_if (hp_metrics hd) count_auth_failure ;;
                  Ret false
              end
          | None => Ret false
          end
      end
  end.

(** ** Tunnels and forwarding *)

Definition send_error_response (s : sid) (status_code : Z) (message : bytes) : prog Sh (result unit) :=
  _ <-? perform (WriteAll s (error_response status_code message)) ;;
  _ <-? perform (Flush s) ;;
  Ret (Ok tt).

Definition relay_data (has_metrics : bool) (client target : sid) : prog Sh (result unit) :=
  r <- perform (CopyBidirectional client target) ;;
  match r with
  | Ok (bytes1, bytes2) =>
      _ <- count_if has_metrics (add_bytes_tx bytes1) ;;
      _ <- count_if has_metrics (add_bytes_rx bytes2) ;;
      Ret (Ok tt)
  | Err _ => Ret (Ok tt)
  end.

(** The answer to a client whose target could not be reached; the error is then
    returned. *)
Definition connect_failed (client : sid) (e : bytes) : prog Sh (result unit) :=
  _ <-? (if contains blocked_text e
         then send_error_response client 403
                "Forbidden: Egress connection blocked by security policy"
         else send_error_response client 502 ("Bad Gateway: " ++ e)) ;;
  Ret (Err e).

Definition handle_connect (fuel : nat) (hd : HttpProxyHandler) (client : sid)
    (target_host : bytes) (target_port : Z) : prog Sh (result unit) :=
  res <- connect_to_target fuel (hp_config hd) target_host target_port false true ;;
  match res with
  | Err e => connect_failed client e
  | Ok target_stream =>
      _ <-? perform (WriteAll client ("HTTP/1.1 200 Connection Established" ++ crlf ++ crlf)) ;;
      _ <-? relay_data (hp_metrics hd) client target_stream ;;
      Ret (Ok tt)
  end.

Definition forwarded_header (nv : bytes * bytes) : bytes :=
  let '(name, value) := nv in
  if negb (bool_decide (name = "proxy-connection"))
     && negb (bool_decide (name = "proxy-authorization"))
  then name ++ ": " ++ value ++ crlf
  else [].

Definition request_data (request : HttpRequest) : bytes :=
  method request ++ " " ++ uri request ++ " " ++ version request ++ crlf
  ++ (hm_iter (headers request) ≫= forwarded_header) ++ crlf.

Definition handle_regular_proxy (fuel : nat) (hd : HttpProxyHandler) (client : sid)
    (request : HttpRequest) : prog Sh (result unit) :=
  hp <-? Ret (get_host_port request) ;;
  let '(target_host, target_port) := hp in
  res <- connect_to_target fuel (hp_config hd) target_host target_port false true ;;
  match res with
  | Err e => connect_failed client e
  | Ok target_stream =>
      _ <-? perform (WriteAll target_stream (request_data request)) ;;
      _ <-? relay_data (hp_metrics hd) client target_stream ;;
      Ret (Ok tt)
  end.

End handler.
Arguments HttpProxyHandler : clear implicits.

(** ** The authentication gate *)

Section gate.
Context {Sh : Type} `{HasMetrics Sh} `{UnicodeCase} `{Base64}.
Context (P : bytes → bytes → list (event Sh) → Prop).
Implicit Types (hd : HttpProxyHandler Sh).

Lemma read_headers_quiet fuel s limit hs :
  emits (λ R e, quiet e) (read_headers (Sh:=Sh) fuel s limit hs).
Proof. revert limit hs. induction fuel; intros limit hs; cbn [read_headers]; quiet_tac. Qed.

Hint Resolve read_headers_quiet : quiet.

Lemma http_request_quiet hd s : emits (λ R e, quiet e) (handle_request hd s).
Proof. unfold handle_request. quiet_tac. Qed.

Lemma validate_auth_quiet hd r :
  all_justified P (hp_authenticator hd) → emits (λ R e, quiet e) (validate_auth hd r).
Proof.
  intros Hj. unfold validate_auth. quiet_tac.
  by apply (justifies_quiet (P := P) (Justifies := Hj _ eq_refl)).
Qed.

(** With authentication enabled, a request is let through only with evidence for the
    credentials in its Proxy-Authorization header. *)
Lemma validate_auth_gate hd r tr :
  all_justified P (hp_authenticator hd) → auth_enabled (auth (hp_config hd)) = true →
  wp (@any_resp Sh) (validate_auth hd r)
    (λ b tr', b = true → ∃ v u p,
       headers r !! bstr "proxy-authorization" = Some v ∧ basic_credentials v = Some (u, p) ∧
       P u p tr') tr.
Proof.
  intros Hj He. unfold validate_auth. rewrite He. cbn [negb].
  destruct (headers r !! _) as [v|] eqn:Hv; [|by cbn].
  destruct (basic_credentials v) as [[u p]|] eqn:Hc; [|by cbn].
  destruct (hp_authenticator hd) as [a|] eqn:Ha; [|by cbn].
  pose proof (Hj a eq_refl) as Hja.
  eapply wp_bind_intro; [apply (justifies_auth (P := P))|].
  intros [[]|e] tr' Hp.
  - cbn. intros _. exists v, u, p. auto.
  - eapply wp_bind_intro; [apply wp_prefix|]. by intros.
  - eapply wp_bind_intro; [apply wp_prefix|]. by intros.
Qed.

End gate.
#[export] Hint Resolve http_request_quiet : quiet.

(** ** Bounds *)

Section bounds.
Context {Sh : Type} `{HasMetrics Sh} `{UnicodeCase} `{Base64}.
Implicit Types tr : list (event Sh).

(** A read of the stream failed with this very text. *)
Definition read_failed (s : sid) (e : bytes) tr : Prop := ∃ lim, Ev (ReadLine s lim) (Err e) ∈ tr.

(** [limit] bounds what was received in [t], strictly if the result is [Ok]; and the
    loop's fuel did not run out. *)
Definition within {A} (s : sid) (limit : Z) (r : result A) (t : list (event Sh)) : Prop :=
  Z.of_nat (length (received s t)) ≤ limit ∧
  (is_ok r = true → Z.of_nat (length (received s t)) < limit) ∧
  (r = Err out_of_fuel → read_failed s out_of_fuel t).

(** One line received before the rest. *)
Lemma within_line {A} s limit (r : result A) lim line t :
  within s (limit - Z.of_nat (length line)) r t →
  within s limit r (Ev (ReadLine s lim) (Ok line) :: t).
Proof.
  unfold within. change (?x :: t) with ([x] ++ t). rewrite received_app, received_one, length_app.
  cbn [read_of]. rewrite bool_decide_eq_true_2 by done. intros (Hle & Hlt & Hf).
  split; [lia|]. split; [intros Hr; specialize (Hlt Hr); lia|].
  intros Hr. destruct (Hf Hr) as [l Hl]. exists l. set_solver.
Qed.

Lemma within_end {A} s limit (a : A) : 0 < limit → within s limit (Ok a) [].
Proof. intros. unfold within. cbn. split; [lia|]. split; [lia|done]. Qed.

Lemma within_err {A} s limit e : 0 ≤ limit → e ≠ out_of_fuel → within (A:=A) s limit (Err e) [].
Proof. intros. unfold within. cbn. split; [lia|]. split; [done|]. by intros [= ->]. Qed.

Lemma within_read_err {A} s limit lim e :
  0 ≤ limit → within (A:=A) s limit (Err e) [Ev (ReadLine s lim) (Err e)].
Proof.
  intros. unfold within. rewrite received_one. cbn. split; [lia|]. split; [done|].
  intros [= ->]. exists lim. set_solver.
Qed.

Lemma read_headers_within fuel s limit hs tr :
  0 < limit → (Z.to_nat limit < fuel)%nat →
  wp (@resp_ok Sh) (read_headers fuel s limit hs) (λ r tr', ∃ t, tr' = tr ++ t ∧ within s limit r t) tr.
Proof.
  revert limit hs tr. induction fuel as [|fuel IH]; intros limit hs tr Hl Hf; [lia|].
  cbn [read_headers bind_q bind perform wp]. intros [line|e] Hr.
  2: { cbn. eexists. split; [done|]. apply within_read_err. lia. }
  cbn [resp_ok] in Hr. destruct Hr as [_ Hr]. rewrite Z.max_r in Hr by lia.
  destruct (Z.eqb_spec (limit - Z.of_nat (length line)) 0) as [Hz|Hz].
  { cbn. eexists. split; [done|]. apply within_line, within_err; [lia|done]. }
  case_bool_decide as Hn; [cbn; eexists; split; [done|]; apply within_line, within_end; lia|].
  case_bool_decide as Ht; [cbn; eexists; split; [done|]; apply within_line, within_end; lia|].
  assert (length line ≠ 0%nat) by (by destruct line).
  eapply wp_mono; [|apply IH; lia]. intros r tr' (t & -> & Hw).
  exists (Ev (ReadLine s (Some limit)) (Ok line) :: t). rewrite <- app_assoc. split; [done|].
  by apply within_line.
Qed.

(** C29. A request cannot make the proxy read without bound. Whatever the client sends,
    reading the request line and all headers takes at most [max_request_size] bytes, a
    request is accepted only if it is strictly smaller, and the header loop ends within
    that many turns: the fuel given to it never runs out. *)
Theorem request_bounded {St} (h : handler Sh St) (st : St) (hd : HttpProxyHandler Sh) (s : sid) :
  lawful h → 0 ≤ max_request_size (security (hp_config hd)) →
  within s (max_request_size (security (hp_config hd)))
    (result_of (run h (handle_request hd s) st)) (trace_of (run h (handle_request hd s) st)).
Proof.
  intros Hh Hz. set (limit := max_request_size _) in *.
  apply (wp_run_lawful h _ (λ r tr, within s limit r tr) st Hh).
  unfold handle_request. fold limit. cbn [bind_q bind perform wp]. intros [line|e] Hr.
  2: { cbn. apply within_read_err. lia. }
  cbn [resp_ok] in Hr. destruct Hr as [_ Hr]. rewrite Z.max_r in Hr by lia. cbn [app].
  case_bool_decide as Hn; [cbn; apply within_line, within_err; [lia|done]|].
  destruct (Z.eqb_spec (limit - Z.of_nat (length line)) 0) as [He|He];
    [cbn; apply within_line, within_err; [lia|done]|].
  assert (∀ x : result HttpRequest, x = Err "Invalid HTTP request line format" →
    within s limit x [Ev (ReadLine s (Some limit)) (Ok line)]) as Hbad.
  { intros x ->. apply within_line, within_err; [lia|done]. }
  destruct (split_whitespace (trim line)) as [|m [|u [|v [|]]]]; try (by apply Hbad).
  eapply wp_bind_intro; [apply read_headers_within; lia|].
  intros [hs|e] tr' (t & -> & Hw); cbn; apply within_line.
  - destruct Hw as (? & Hok & _). split; [done|]. by split; [intros _; apply Hok|].
  - destruct Hw as (? & _ & Hw). split; [done|]. split; [done|]. intros [= ->]. by apply Hw.
Qed.

End bounds.

(** ** Targets *)

Definition show_target_port (port : option Z) : bytes :=
  match port with Some p => ":" ++ dec p | None => [] end.

Lemma split_char_two c l r : c ∉ l → c ∉ r → split_char c (l ++ c :: r) = [l; r].
Proof. intros. by rewrite split_char_app, split_char_none. Qed.

Lemma split_char_length c s : length (split_char c s) = S (length (filter (λ x, x = c) s)).
Proof.
  induction s as [|x s IH]; [done|]. cbn [split_char]. rewrite filter_cons.
  case_bool_decide as Hx.
  - rewrite decide_True by done. cbn. by rewrite IH.
  - rewrite decide_False by done. destruct (split_char c s); [done|]. exact IH.
Qed.

(** C35. Which target a request names. CONNECT takes exactly [host:port] and gives them
    back, and refuses any text with more than one colon, so that no IPv6 literal,
    bracketed or not, can be reached through CONNECT; any other method takes an
    absolute URL, whose host and port, or the scheme's default port, it gives back
    whatever the path. *)
Theorem get_host_port_spec `{UnicodeCase} (r : HttpRequest) (host : bytes) (port : Z) (path : bytes)
    (explicit : option Z) :
  0 ≤ port ≤ U16_MAX → (∀ p, explicit = Some p → 0 ≤ p ≤ U16_MAX) →
  (path = [] ∨ ∃ p, path = "/" ++ p) →
  (to_uppercase (method r) = "CONNECT" →
     (uri r = host ++ ":" ++ dec port → colon ∉ host → get_host_port r = Ok (host, port)) ∧
     ((2 ≤ length (filter (λ c, c = colon) (uri r)))%nat → is_ok (get_host_port r) = false)) ∧
  (to_uppercase (method r) ≠ "CONNECT" → host ≠ [] → colon ∉ host → slash ∉ host →
     (uri r = "http://" ++ host ++ show_target_port explicit ++ path →
        get_host_port r = Ok (host, default 80 explicit)) ∧
     (uri r = "https://" ++ host ++ show_target_port explicit ++ path →
        get_host_port r = Ok (host, default 443 explicit))).
Proof.
  intros Hp He Hpath. unfold get_host_port, is_connect. split.
  - intros Hm. rewrite bool_decide_eq_true_2 by done. unfold parse_connect_uri. split.
    + intros -> Hc. change (host ++ ":" ++ dec port) with (host ++ colon :: dec port).
      rewrite split_char_two by (done || (apply dec_not_in; [lia|by right])).
      unfold parse_u16. by rewrite parse_uint_dec.
    + intros Hl. pose proof (split_char_length colon (uri r)) as Hs.
      destruct (split_char colon (uri r)) as [|a [|b [|c l]]]; try done; cbn in Hs; lia.
  - intros Hm Hne Hc Hsl. rewrite bool_decide_eq_false_2 by done.
    assert (Hsplit : head (split_char slash (host ++ show_target_port explicit ++ path))
                     = Some (host ++ show_target_port explicit)).
    { assert (slash ∉ host ++ show_target_port explicit) as Hns.
      { rewrite elem_of_app. intros [?|Hin]; [done|]. destruct explicit as [p|]; cbn in Hin;
          [|by apply elem_of_nil in Hin]. apply elem_of_cons in Hin as [?|Hin]; [done|]. revert Hin.
        apply dec_not_in; [apply He; done|by left]. }
      rewrite app_assoc. destruct Hpath as [->|[p ->]].
      - by rewrite app_nil_r, split_char_none.
      - change ("/" ++ p) with (slash :: p). by rewrite split_char_app. }
    assert (Hparts : split_char colon (host ++ show_target_port explicit)
                     = host :: match explicit with Some p => [dec p] | None => [] end).
    { destruct explicit as [p|]; cbn [show_target_port].
      - change (":" ++ dec p) with (colon :: dec p). apply split_char_two; [done|].
        apply dec_not_in; [apply He; done|by right].
      - by rewrite app_nil_r, split_char_none. }
    assert (Hport : ∀ p, explicit = Some p → parse_u16 (dec p) = Some p)
      by (intros p Hx; apply parse_uint_dec, He, Hx).
    assert (Hgo : ∀ scheme d, strip_scheme (scheme ++ host ++ show_target_port explicit ++ path)
        = host ++ show_target_port explicit ++ path →
      (if starts_with "https://" (scheme ++ host ++ show_target_port explicit ++ path) then 443 else 80) = d →
      uri r = scheme ++ host ++ show_target_port explicit ++ path → parse_proxy_uri r = Ok (host, default d explicit)).
    { intros scheme d Hst Hd Hu. unfold parse_proxy_uri. rewrite Hu, Hst, Hsplit. cbn [from_option id].
      rewrite Hparts, bool_decide_eq_false_2 by done.
      destruct explicit as [p|]; [by rewrite (Hport p eq_refl)|]. by rewrite Hd. }
    split; intros Hu; [apply (Hgo "http://") | apply (Hgo "https://")]; done.
Qed.

Lemma get_host_port_spec_witness :
  let _ := ascii_only_case in
  let r := {| method := "GET"; uri := "https://h/x"; version := "HTTP/1.1"; headers := ∅ |} in
  let c := {| method := "connect"; uri := "[::1]:443"; version := "HTTP/1.1"; headers := ∅ |} in
  get_host_port r = Ok ("h" : bytes, 443) ∧ is_ok (get_host_port c) = false.
Proof.
  intros H1 r c. split.
  - destruct (get_host_port_spec r "h" 1 "/x" None) as [_ Hg].
    + unfold U16_MAX. lia.
    + discriminate.
    + right. exists "x". reflexivity.
    + apply Hg; [discriminate|discriminate|..|reflexivity];
        intros Hx; apply list_elem_of_singleton in Hx; discriminate.
  - destruct (get_host_port_spec c [] 1 [] None) as [Hg _].
    + unfold U16_MAX. lia.
    + discriminate.
    + left. reflexivity.
    + apply Hg; [reflexivity|]. vm_compute. lia.
Defined.

(** A handler and a client that sends one request in two segments. *)
Lemma request_bounded_witness :
  let _ := ascii_only_case in
  let hd : HttpProxyHandler ServerMetrics :=
    {| hp_config := Config_default; hp_authenticator := None; hp_metrics := true |} in
  let w := set_streams (empty_world ServerMetrics_new)
             {[ 7%nat := incoming ["GET / HT" : bytes; "TP/1.1" ++ crlf ++ crlf] ]} in
  is_ok (result_of (run script (handle_request hd 7) w)) = true ∧
  within 7 (max_request_size (security Config_default))
    (result_of (run script (handle_request hd 7) w)) (trace_of (run script (handle_request hd 7) w)).
Proof.
  intros H1 hd w. split; [vm_compute; reflexivity|].
  apply (request_bounded script w hd 7 script_lawful). discriminate.
Defined.
