(* ===== verification/Tokens.v ===== *)
(** * Admin tokens (src/src/admin.rs, lines 23-63)

    The store of bearer tokens behind its mutex. Instants are nanoseconds of the
    monotonic clock; adding a duration to one panics when the result is not
    representable, and a panic under the lock poisons the mutex for good. A panic ends
    the task that raised it, as an error returned to its top does. *)

From S2P Require Import Prelude RustStr IpAddr Effects Config.

Local Open Scope Z_scope.
Local Open Scope rust_scope.

Record TokenInfo : Set := { ti_username : bytes; ti_expires_at : Z }.

Record TokenTable : Set := { tt_tokens : gmap bytes TokenInfo; tt_poisoned : bool }.

Definition TokenTable_new : TokenTable := {| tt_tokens := ∅; tt_poisoned := false |}.

Class HasTokens (Sh : Type) := {
  get_tokens : Sh → TokenTable;
  put_tokens : TokenTable → Sh → Sh;
  get_put_tokens : ∀ t sh, get_tokens (put_tokens t sh) = t;
}.

#[export] Instance tokens_alone : HasTokens TokenTable.
Proof. by refine {| get_tokens t := t; put_tokens t _ := t |}. Defined.

(** [Duration::from_secs(n)], and [Instant + Duration], whose seconds are an [i64]. *)
Definition from_secs (n : Z) : Z := n * 1000000000.
Definition I64_MAX : Z := 9223372036854775807.
Definition instant_add (t d : Z) : option Z :=
  if (t + d) / 1000000000 <=? I64_MAX then Some (t + d) else None.

Definition lock_poisoned : bytes := "panicked: PoisonError".
Definition instant_overflow : bytes := "panicked: overflow when adding duration to instant".

(** ** Operations under the lock *)

Definition insert_token (ttl now : Z) (token username : bytes) (t : TokenTable)
  : result bytes * TokenTable :=
  if tt_poisoned t then (Err lock_poisoned, t)
  else match instant_add now (from_secs ttl) with
       | Some e =>
           (Ok token, {| tt_tokens := <[token := {| ti_username := username; ti_expires_at := e |}]>
                                        (tt_tokens t);
                         tt_poisoned := false |})
       | None => (Err instant_overflow, {| tt_tokens := tt_tokens t; tt_poisoned := true |})
       end.

(** [retain(|_, info| info.expires_at > Instant::now())]: the entry visited [i]-th is
    compared with the [i]-th reading of the clock. *)
Fixpoint expired_keys (clock : nat → Z) (i : nat) (l : list (bytes * TokenInfo)) : list bytes :=
  match l with
  | [] => []
  | (k, info) :: l' =>
      if clock i <? ti_expires_at info then expired_keys clock (S i) l'
      else k :: expired_keys clock (S i) l'
  end.

Definition drop_expired `{HashOrder} (clock : nat → Z) (m : gmap bytes TokenInfo)
  : gmap bytes TokenInfo :=
  foldr delete m (expired_keys clock 0 (hm_iter m)).

Definition lookup_token `{HashOrder} (clock : nat → Z) (token : bytes) (t : TokenTable)
  : result (option bytes) * TokenTable :=
  if tt_poisoned t then (Err lock_poisoned, t)
  else
    let m := drop_expired clock (tt_tokens t) in
    (Ok (ti_username <$> m !! token), {| tt_tokens := m; tt_poisoned := false |}).

(** ** The store *)

Section store.
Context {Sh : Type} `{HasTokens Sh} `{HashOrder}.

Definition generate_token (ttl : Z) (username : bytes) : prog Sh (result bytes) :=
  token <- perform (RandAlphanumeric 32) ;;
  now <- perform InstantNow ;;
  perform (Locked Atomic (λ sh, let '(r, t) := insert_token ttl now token username (get_tokens sh) in
                         (r, put_tokens t sh))).

Definition validate_token (token : bytes) : prog Sh (result (option bytes)) :=
  clock <- perform Instants ;;
  perform (Locked Atomic (λ sh, let '(r, t) := lookup_token clock token (get_tokens sh) in
                         (r, put_tokens t sh))).

End store.

(** ** Expiry *)

Lemma foldr_delete_lookup {A} (m : gmap bytes A) ks k :
  foldr delete m ks !! k = if bool_decide (k ∈ ks) then None else m !! k.
Proof.
  induction ks as [|k' ks IH]; cbn [foldr]; [done|].
  destruct (decide (k = k')) as [->|Hne].
  - rewrite lookup_delete_eq. rewrite bool_decide_eq_true_2 by set_solver. done.
  - rewrite lookup_delete_ne by done. rewrite IH.
    apply (f_equal (λ b : bool, if b then None else m !! k)), bool_decide_ext. set_solver.
Qed.

Lemma expired_keys_elem clock i l k :
  k ∈ expired_keys clock i l ↔
  ∃ j info, l !! j = Some (k, info) ∧ ti_expires_at info ≤ clock (i + j)%nat.
Proof.
  revert i. induction l as [|[k' info'] l IH]; intros i; cbn [expired_keys].
  - split; [by intros ?%elem_of_nil | by intros (? & ? & ? & _)].
  - destruct (Z.ltb_spec (clock i) (ti_expires_at info')) as [Hlt|Hge].
    + rewrite IH. split.
      * intros (j & info & Hj & Hx). exists (S j), info. by rewrite Nat.add_succ_r.
      * intros ([|j] & info & Hj & Hx); cbn in Hj; simplify_eq.
        { rewrite Nat.add_0_r in Hx. lia. }
        exists j, info. by rewrite Nat.add_succ_r in Hx.
    + rewrite elem_of_cons, IH. split.
      * intros [->|(j & info & Hj & Hx)].
        { exists 0%nat, info'. by rewrite Nat.add_0_r. }
        exists (S j), info. by rewrite Nat.add_succ_r.
      * intros ([|j] & info & Hj & Hx); cbn in Hj; simplify_eq; [by left|].
        right. exists j, info. by rewrite Nat.add_succ_r in Hx.
Qed.

(** What survives the clean-up: a token that has not expired at the last reading is
    kept, one that had expired at the first is dropped, and nothing else changes. *)
Lemma drop_expired_lookup `{HashOrder} clock m k :
  (drop_expired clock m !! k = m !! k ∧
     ∀ info, m !! k = Some info → ∃ j, (j < size m)%nat ∧ clock j < ti_expires_at info) ∨
  (drop_expired clock m !! k = None ∧
     ∃ info j, m !! k = Some info ∧ (j < size m)%nat ∧ ti_expires_at info ≤ clock j).
Proof.
  unfold drop_expired. rewrite foldr_delete_lookup.
  assert (length (hm_iter m) = size m) as Hlen
    by (by rewrite hm_iter_perm, <- map_size_list_to_map, list_to_map_to_list; [|apply NoDup_fst_map_to_list]).
  case_bool_decide as Hk.
  - right. split; [done|]. apply expired_keys_elem in Hk as (j & info & Hj & Hx).
    exists info, j. split; [|split; [|done]].
    + apply hm_iter_elem. by eapply list_elem_of_lookup_2.
    + rewrite <- Hlen. by eapply lookup_lt_Some.
  - left. split; [done|]. intros info Hm.
    apply hm_iter_elem, list_elem_of_lookup in Hm as [j Hj].
    exists j. split; [rewrite <- Hlen; by eapply lookup_lt_Some|].
    destruct (Z.lt_ge_cases (clock j) (ti_expires_at info)) as [|Hge]; [done|].
    exfalso. apply Hk, expired_keys_elem. by exists j, info.
Qed.

(** ** Histories *)

(** The operations of the store in the order in which they held the lock. *)
Inductive token_op : Type :=
  | OpGenerate (ttl now : Z) (token username : bytes)
  | OpValidate (clock : nat → Z) (token : bytes).

Section history.
Context `{HashOrder}.

Definition apply_op (t : TokenTable) (o : token_op) : TokenTable :=
  match o with
  | OpGenerate ttl now token username => (insert_token ttl now token username t).2
  | OpValidate clock token => (lookup_token clock token t).2
  end.

Definition store_after (ops : list token_op) : TokenTable := fold_left apply_op ops TokenTable_new.

(** The log of all issued tokens: nothing is ever removed from it. *)
Definition log_op (m : gmap bytes TokenInfo) (o : token_op) : gmap bytes TokenInfo :=
  match o with
  | OpGenerate ttl now token username =>
      match instant_add now (from_secs ttl) with
      | Some e => <[token := {| ti_username := username; ti_expires_at := e |}]> m
      | None => m
      end
  | OpValidate _ _ => m
  end.

Definition issued (ops : list token_op) : gmap bytes TokenInfo := fold_left log_op ops ∅.

(** All readings of the clock in the history are before [e]. *)
Definition before_op (e : Z) (o : token_op) : Prop :=
  match o with OpValidate clock _ => ∀ j, clock j < e | OpGenerate _ _ _ _ => True end.

Definition issued_as (ops : list token_op) (k : bytes) (info : TokenInfo) : Prop :=
  ∃ ttl now, OpGenerate ttl now k (ti_username info) ∈ ops ∧
             instant_add now (from_secs ttl) = Some (ti_expires_at info).

(** The store holds only what was issued, and, unless the mutex is poisoned, all of it
    that no clock reading has reached yet. *)
Record store_inv (ops : list token_op) (t : TokenTable) : Prop := {
  inv_issued k info : tt_tokens t !! k = Some info → issued_as ops k info;
  inv_kept k info : tt_poisoned t = false → issued ops !! k = Some info →
    Forall (before_op (ti_expires_at info)) ops → tt_tokens t !! k = Some info;
}.

Lemma issued_snoc ops o : issued (ops ++ [o]) = log_op (issued ops) o.
Proof. unfold issued. by rewrite fold_left_app. Qed.

Lemma store_snoc ops o : store_after (ops ++ [o]) = apply_op (store_after ops) o.
Proof. unfold store_after. by rewrite fold_left_app. Qed.

Lemma issued_as_snoc ops o k info : issued_as ops k info → issued_as (ops ++ [o]) k info.
Proof. intros (ttl & now & ? & ?). exists ttl, now. split; [set_solver|done]. Qed.

Lemma drop_expired_sub clock m k info :
  drop_expired clock m !! k = Some info → m !! k = Some info.
Proof. destruct (drop_expired_lookup clock m k) as [[-> _]|[-> _]]; done. Qed.

Lemma drop_expired_kept clock m k info :
  m !! k = Some info → (∀ j, clock j < ti_expires_at info) → drop_expired clock m !! k = Some info.
Proof.
  intros Hm Hc. destruct (drop_expired_lookup clock m k) as [[-> _]|(_ & info' & j & Hm' & _ & Hj)]; [done|].
  simplify_eq. specialize (Hc j). lia.
Qed.

Lemma store_inv_step ops t o : store_inv ops t → store_inv (ops ++ [o]) (apply_op t o).
Proof.
  intros [Hi Hk]. destruct o as [ttl now token username|clock token]; cbn [apply_op].
  - unfold insert_token. destruct (tt_poisoned t) eqn:Hp; cbn [snd].
    { split; [intros k info ?; by apply issued_as_snoc, Hi | by rewrite Hp]. }
    destruct (instant_add now (from_secs ttl)) as [e|] eqn:He; cbn [snd tt_tokens tt_poisoned].
    + split; intros k info; cbn [tt_tokens tt_poisoned].
      * intros [[<- <-]|[Hne Hl]]%lookup_insert_Some; [|by apply issued_as_snoc, Hi].
        exists ttl, now. split; [set_solver|done].
      * intros _. rewrite issued_snoc. cbn [log_op]. rewrite He.
        intros [[-> <-]|[Hne Hl]]%lookup_insert_Some Hall; [by rewrite lookup_insert_eq|].
        rewrite lookup_insert_ne by done. apply Forall_app in Hall as [Hall _]. by apply Hk.
    + split; intros k info; cbn [tt_tokens tt_poisoned]; [|done].
      intros Hl. by apply issued_as_snoc, Hi.
  - unfold lookup_token. destruct (tt_poisoned t) eqn:Hp; cbn [snd].
    { split; [intros k info ?; by apply issued_as_snoc, Hi | by rewrite Hp]. }
    split; intros k info; cbn [tt_tokens tt_poisoned].
    + intros Hl%drop_expired_sub. by apply issued_as_snoc, Hi.
    + intros _. rewrite issued_snoc. cbn [log_op]. intros Hl [Hall Hc]%Forall_app.
      apply drop_expired_kept; [by apply Hk|]. rewrite Forall_singleton in Hc. exact Hc.
Qed.

Lemma store_after_inv ops : store_inv ops (store_after ops).
Proof.
  induction ops as [|o ops IH] using rev_ind.
  - assert (∀ k (info : TokenInfo), (∅ : gmap bytes TokenInfo) !! k ≠ Some info) as He
      by (intros k info; by rewrite lookup_empty).
    split; [intros k info Hl | intros k info _ Hl]; by destruct (He k info).
  - rewrite store_snoc. by apply store_inv_step.
Qed.

End history.

(** C20. Tokens mean what they say. Whatever the history of logins and checks, a token is
    accepted for a user only if it was issued to that user and its expiry is later than
    the first clock reading of the check; and a token last issued to a user is accepted
    for that user as long as no clock reading so far has reached its expiry and no panic
    has poisoned the lock. *)
Theorem token_lifetime `{HashOrder} (ops : list token_op) (clock : nat → Z) (token : bytes) :
  (∀ i j, (i ≤ j)%nat → clock i ≤ clock j) →
  let r := (lookup_token clock token (store_after ops)).1 in
  (∀ u, r = Ok (Some u) → ∃ info, issued_as ops token info ∧ ti_username info = u ∧
                                  clock 0%nat < ti_expires_at info) ∧
  (∀ info, issued ops !! token = Some info → tt_poisoned (store_after ops) = false →
     Forall (before_op (ti_expires_at info)) (ops ++ [OpValidate clock token]) →
     r = Ok (Some (ti_username info))).
Proof.
  intros Hmono r. destruct (store_after_inv ops) as [Hi Hk]. unfold r, lookup_token. split.
  - intros u. destruct (tt_poisoned (store_after ops)); cbn [fst]; [done|]. intros [= Hu].
    apply fmap_Some in Hu as (info & Hl & ->). exists info.
    pose proof (drop_expired_lookup clock (tt_tokens (store_after ops)) token) as Hd.
    rewrite Hl in Hd. destruct Hd as [[Hm Hj]|[? _]]; [|done].
    destruct (Hj info) as (j & _ & Hlt); [done|].
    split; [by apply Hi|]. split; [done|]. specialize (Hmono 0%nat j ltac:(lia)). lia.
  - intros info Hlog Hp [Hall Hc]%Forall_app. rewrite Hp. cbn [fst].
    rewrite Forall_singleton in Hc.
    by rewrite (drop_expired_kept clock _ token info) by auto.
Qed.

Definition sample_tokens : list token_op :=
  [OpGenerate 60 1000 "tok-a" "root"; OpGenerate 1 2000 "tok-b" "ann";
   OpValidate (λ _, 5000) "tok-x"].

Lemma token_lifetime_witness :
  let _ := map_order in
  (lookup_token (λ _, 6000) "tok-a" (store_after sample_tokens)).1 = Ok (Some ("root" : bytes)) ∧
  (lookup_token (λ _, 1000002000) "tok-b" (store_after sample_tokens)).1 = Ok None.
Proof.
  intros Ho. split; [|vm_compute; reflexivity].
  destruct (token_lifetime sample_tokens (λ _, 6000) "tok-a") as [_ Hk];
    [intros; apply Z.le_refl|].
  apply (Hk {| ti_username := "root"; ti_expires_at := 60000001000 |}).
  - vm_compute. reflexivity.
  - vm_compute. reflexivity.
  - cbn [sample_tokens app]. repeat constructor; cbn; reflexivity.
Defined.

(** C34. A lifetime the clock cannot represent disables the admin interface. The
    configuration's [token_ttl] is never checked; with one beyond the range of an
    instant, the first successful login panics while it holds the lock, and from then on
    every login and every token check fails, whatever the clock and the token. *)
Theorem huge_ttl_poisons `{HashOrder} (c : Config) (ttl now : Z) (token username : bytes) :
  I64_MAX < ttl → 0 ≤ now →
  let with_ttl := {| server := server c; auth := auth c; logging := logging c;
    security := security c; upstream := upstream c;
    admin := {| adm_enabled := adm_enabled (admin c); adm_bind_address := adm_bind_address (admin c);
                adm_port := adm_port (admin c); adm_token := adm_token (admin c);
                adm_admin_users := adm_admin_users (admin c); adm_token_ttl := ttl |} |} in
  validate with_ttl = validate c ∧
  let t := (insert_token (adm_token_ttl (admin with_ttl)) now token username TokenTable_new).2 in
  (insert_token ttl now token username TokenTable_new).1 = Err instant_overflow ∧
  (∀ clock tok, lookup_token clock tok t = (Err lock_poisoned, t)) ∧
  (∀ ttl' now' tok u, insert_token ttl' now' tok u t = (Err lock_poisoned, t)).
Proof.
  intros Ht Hn with_ttl. split; [done|]. cbn [with_ttl admin adm_token_ttl].
  assert (instant_add now (from_secs ttl) = None) as Ha.
  { unfold instant_add, from_secs.
    destruct (Z.leb_spec ((now + ttl * 1000000000) / 1000000000) I64_MAX) as [Hle|]; [|done].
    rewrite Z.div_add in Hle by lia. pose proof (Z.div_pos now 1000000000). lia. }
  unfold insert_token. cbn [tt_poisoned TokenTable_new]. by rewrite Ha.
Qed.

Lemma huge_ttl_poisons_witness :
  let _ := map_order in
  let t := (insert_token U64_MAX 5 "tok" "root" TokenTable_new).2 in
  (lookup_token (λ _, 6) "tok" t).1 = Err lock_poisoned.
Proof.
  intros Ho t.
  destruct (huge_ttl_poisons Config_default U64_MAX 5 "tok" "root") as (_ & _ & H & _).
  - unfold I64_MAX, U64_MAX. lia.
  - lia.
  - cbv zeta in H. unfold t. cbn [admin adm_token_ttl] in H. by rewrite H.
Defined.
