(* ===== verification/Server.v ===== *)
(** * The server (src/src/server.rs)

    The state shared by all tasks, admission of clients, and the two connection
    handlers. Listeners, the semaphore and the timeouts are in Pool.v. *)

From S2P Require Import Prelude Float64 RustStr IpAddr Effects Script Config Policy Upstream.
From S2P Require Import Users Auth Metrics Socks5 RateLimit Http Tokens.

Local Open Scope Z_scope.
Local Open Scope rust_scope.

Record ServerState : Type := {
  ss_config : Config;
  ss_authenticator : option AnyAuthenticator;
}.

(** Everything behind an [Arc] that some task changes: the [RwLock<ServerState>], the
    metrics, the limiter's table and the token store. *)
Record Shared : Type := {
  sh_state : ServerState;
  sh_metrics : ServerMetrics;
  sh_buckets : buckets;
  sh_tokens : TokenTable;
}.

#[export] Instance shared_metrics : HasMetrics Shared.
Proof.
  refine {| get_metrics := sh_metrics;
    put_metrics m sh := {| sh_state := sh_state sh; sh_metrics := m;
                           sh_buckets := sh_buckets sh; sh_tokens := sh_tokens sh |} |};
  by intros; try destruct sh.
Defined.

#[export] Instance shared_buckets : HasBuckets Shared.
Proof.
  by refine {| get_buckets := sh_buckets;
    put_buckets b sh := {| sh_state := sh_state sh; sh_metrics := sh_metrics sh;
                           sh_buckets := b; sh_tokens := sh_tokens sh |} |}.
Defined.

#[export] Instance shared_tokens : HasTokens Shared.
Proof.
  by refine {| get_tokens := sh_tokens;
    put_tokens t sh := {| sh_state := sh_state sh; sh_metrics := sh_metrics sh;
                          sh_buckets := sh_buckets sh; sh_tokens := t |} |}.
Defined.

Section server.
Context `{PasswordVerify} `{UserYaml} `{HashOrder} `{UnicodeCase} `{Base64}.

(** [state.read()]: a snapshot of the configuration and the authenticator. *)
Definition read_state : prog Shared ServerState := perform (Locked ReadGuard (λ sh, (sh_state sh, sh))).

(** ** Creation *)

Record ProxyServer : Type := {
  ps_shared : Shared;               (* the initial shared state *)
  ps_connection_permits : Z;        (* Semaphore::new(max_connections) *)
  ps_rate_limiter : option RateLimiter;
  ps_config_path : bytes;
}.

Definition create {Sh0} (config : Config) (config_path : bytes) : prog Sh0 (result ProxyServer) :=
  authenticator <-? create_authenticator (auth config) ;;
  Ret (Ok {|
    ps_shared := {|
      sh_state := {| ss_config := config; ss_authenticator := authenticator |};
      sh_metrics := ServerMetrics_new; sh_buckets := ∅; sh_tokens := TokenTable_new |};
    ps_connection_permits := srv_max_connections (server config);
    ps_rate_limiter := RateLimiter_new <$> rate_limit (security config);
    ps_config_path := config_path |}).

(** ** Admission *)

Definition admit_client (rate_limiter : option RateLimiter) (addr : SocketAddr) : prog Shared bool :=
  st <- read_state ;;
  if negb (check_client_allowed (ss_config st) (sa_ip addr)) then Ret false
  else match rate_limiter with
       | Some limiter => check limiter (sa_ip addr)
       | None => Ret true
       end.

(** ** SOCKS5 connections *)

Definition socks5_handler (authenticator : option AnyAuthenticator) : Socks5Handler Shared :=
  {| sk_authenticator := dyn <$> authenticator; sk_metrics := true |}.

Definition address_text (a : Address) : bytes :=
  match a with
  | IPv4 o => show_ip (V4 o)
  | IPv6 o => show_ip (V6 o)
  | DomainName domain => domain
  end.

Definition handle_socks5_connect (fuel : nat) (config : Config) (client : sid)
    (request : Socks5Request) : prog Shared (result unit) :=
  let target_host := address_text (rq_address request) in
  res <- connect_to_target fuel config target_host (rq_port request) true true ;;
  match res with
  | Err e =>
      let reply_code := if contains blocked_text e then 2 else 4 in
      _ <-? send_response client (new_error reply_code) ;;
      Ret (Err ("Connection to target failed: " ++ e))
  | Ok target_stream =>
      local_addr <-? perform (LocalAddr target_stream) ;;
      _ <-? send_response client (new_success local_addr) ;;
      relay_data true client target_stream
  end.

Definition handle_socks5_connection (fuel : nat) (config : Config)
    (authenticator : option AnyAuthenticator) (stream : sid) : prog Shared (result unit) :=
  let handler := socks5_handler authenticator in
  let auth_required := auth_enabled (auth config) in
  ok <-? handle_handshake handler stream auth_required ;;
  if negb ok then Ret (Err "SOCKS5 handshake failed")
  else
    request <-? Socks5.handle_request stream ;;
    match rq_command request with
    | Connect => handle_socks5_connect fuel config stream request
    | Bind =>
        _ <-? send_response stream (new_error 7) ;;
        Ret (Err "BIND command not supported")
    | UdpAssociate =>
        _ <-? send_response stream (new_error 7) ;;
        Ret (Err "UDP ASSOCIATE command not supported")
    end.

(** ** HTTP connections *)

Definition http_handler (config : Config) (authenticator : option AnyAuthenticator)
  : HttpProxyHandler Shared :=
  {| hp_config := config; hp_authenticator := dyn <$> authenticator; hp_metrics := true |}.

Definition auth_challenge : bytes :=
  "Proxy Authentication Required" ++ crlf ++ q "Proxy-Authenticate: Basic realm=`Proxy`".

Definition handle_http_connection (fuel : nat) (config : Config)
    (authenticator : option AnyAuthenticator) (stream : sid) : prog Shared (result unit) :=
  let handler := http_handler config authenticator in
  _ <- perform (BufReaderNew stream) ;;
  request <-? Http.handle_request handler stream ;;
  authorized <- validate_auth handler request ;;
  if negb authorized then
    _ <-? send_error_response stream 407 auth_challenge ;;
    Ret (Ok tt)
  else
    _ <- perform (BufReaderIntoInner stream) ;;
    if is_connect request then
      hp <-? Ret (get_host_port request) ;;
      handle_connect fuel handler stream hp.1 hp.2
    else handle_regular_proxy fuel handler stream request.

(** Either kind of connection. *)
Inductive listener : Set := LSocks5 | LHttp.

Definition serve (fuel : nat) (k : listener) (st : ServerState) (stream : sid)
  : prog Shared (result unit) :=
  match k with
  | LSocks5 => handle_socks5_connection fuel (ss_config st) (ss_authenticator st) stream
  | LHttp => handle_http_connection fuel (ss_config st) (ss_authenticator st) stream
  end.

End server.

(** ** No connection before the login *)

Section login_first.
Context `{PasswordVerify} `{UnicodeCase} `{Base64} (st : ServerState).
Context (P : bytes → bytes → list (event Shared) → Prop).
Hypothesis Hj : all_justified P (dyn <$> ss_authenticator st).
Hypothesis Pmono : ∀ u p tr tr', P u p tr → P u p (tr ++ tr').
Hypothesis Hauth : auth_enabled (auth (ss_config st)) = true.

Definition some_login (tr : list (event Shared)) : Prop := ∃ u p, P u p tr.

Lemma some_login_mono tr tr' : some_login tr → some_login (tr ++ tr').
Proof. intros (u & p & Hp). exists u, p. by apply Pmono. Qed.

Lemma socks5_guarded fuel s :
  guarded (λ R e, quiet e) some_login (handle_socks5_connection fuel (ss_config st) (ss_authenticator st) s) [].
Proof.
  unfold handle_socks5_connection. rewrite Hauth. apply guarded_bind_q.
  - by apply guarded_free, (handle_handshake_quiet P).
  - eapply wp_mono; [|by apply (handle_handshake_gate P)].
    intros r tr Hr ok ->. destruct ok; [|done]. apply guarded_open; [apply some_login_mono|].
    destruct (Hr eq_refl) as (u & p & _ & _ & Hp). by exists u, p.
Qed.

Lemma http_guarded `{HashOrder} fuel s :
  guarded (λ R e, quiet e) some_login (handle_http_connection fuel (ss_config st) (ss_authenticator st) s) [].
Proof.
  unfold handle_http_connection. set (hd := http_handler (ss_config st) (ss_authenticator st)).
  apply guarded_bind; [by apply guarded_free; cbn|]. cbn [wp perform]. intros [] _.
  apply guarded_bind_q; [apply guarded_free, http_request_quiet|].
  eapply wp_mono; [|apply wp_prefix]. intros rr tr _ request ->. apply guarded_bind.
  - by apply guarded_free, (validate_auth_quiet P hd).
  - eapply wp_mono; [|by apply (validate_auth_gate P hd)].
    intros [] tr' Hok; cbn [negb];
      [|by apply guarded_free; unfold send_error_response; quiet_tac].
    apply guarded_open; [apply some_login_mono|].
    destruct (Hok eq_refl) as (v & u & p & _ & _ & Hp). by exists u, p.
Qed.

Lemma serve_guarded `{HashOrder} fuel k s : guarded (λ R e, quiet e) some_login (serve fuel k st s) [].
Proof. destruct k; [apply socks5_guarded | apply http_guarded]. Qed.

End login_first.

(** The server state is one that [create], or a reload, can produce: the authenticator
    was built from the configuration beside it. *)
Definition state_built `{UnicodeCase} (st : ServerState) (table : option UserConfig) : Prop :=
  ∀ a, ss_authenticator st = Some a → built_from (auth (ss_config st)) table a.

(** C1. No connection before the login. When authentication is enabled and the
    authenticator is the one built from the configuration, then on either listener,
    whatever the client, the backend, the resolver and every other peer send, each
    connection the server opens on behalf of the client and each name it resolves comes
    after credentials for which the backend has given its evidence; and there is a
    backend: without one, nothing is ever dialled. *)
Theorem no_dial_before_login {St} `{PasswordVerify} `{HashOrder} `{UnicodeCase} `{Base64}
    (h : handler Shared St) (s : St) (fuel : nat) (k : listener) (st : ServerState)
    (table : option UserConfig) (c : sid) (l : list (event Shared)) (x : event Shared)
    (r : list (event Shared)) :
  state_built st table → auth_enabled (auth (ss_config st)) = true →
  trace_of (run h (serve fuel k st c) s) = l ++ x :: r → dials x →
  (∃ u p, login_evidence (auth (ss_config st)) table u p l) ∧ ss_authenticator st ≠ None.
Proof.
  intros Hb Ha Ht Hx. split.
  - apply (guarded_run (λ R e, quiet e) (some_login (login_evidence (auth (ss_config st)) table)) h
      (serve fuel k st c) s [] l x r); [|done..].
    apply serve_guarded; [|apply login_evidence_mono|done].
    intros a (v & Hv & ->)%fmap_Some. by apply built_justifies, Hb.
  - intros Hn. destruct (guarded_run (λ R e, quiet e) (some_login (λ _ _ _, False)) h
      (serve fuel k st c) s [] l x r) as (u & p & []); [|done..].
    apply serve_guarded; [|done|done]. by rewrite Hn.
Qed.

(** A server with one user, for concrete inputs. *)
Definition login_config : Config := {|
  server := server Config_default; auth := simple_config; logging := logging Config_default;
  security := security Config_default; upstream := upstream Config_default;
  admin := admin Config_default |}.

Definition login_state : ServerState :=
  {| ss_config := login_config; ss_authenticator := Some (SimpleAuth one_user) |}.

Definition shared_of (st : ServerState) : Shared := {|
  sh_state := st; sh_metrics := ServerMetrics_new; sh_buckets := ∅; sh_tokens := TokenTable_new |}.

(** A world where every name is one address, every address answers [segs], and stream 7
    is a client that sends [client]. *)
Definition client_world (st : ServerState) (segs client : list bytes) : world Shared :=
  let w := one_host (shared_of st) (ip4 93 184 216 34) segs in
  set_streams w {[ 7%nat := incoming client ]}.

Definition socks_client (password : bytes) : bytes :=
  u8s [5; 1; 2] ++ user_pass_message "ann" password ++
  u8s [5; 1; 0; 3; 11] ++ "example.org" ++ u16_be 80.

Lemma no_dial_before_login_witness :
  let _ := tag_verify in let _ := map_order in let _ := ascii_only_case in let _ := plain_base64 in
  let go p := run script (serve 0 LSocks5 login_state 7)
                (client_world login_state ["hello" : bytes] [socks_client p]) in
  connects (trace_of (go "secret")) = [{| sa_ip := ip4 93 184 216 34; sa_port := 80 |}] ∧
  connects (trace_of (go "guess!")) = [] ∧
  ∃ l x r, trace_of (go "secret") = l ++ x :: r ∧
    ∃ u p, login_evidence simple_config (Some one_user) u p l.
Proof.
  intros H1 H2 H3 H4 go.
  assert (connects (trace_of (go "secret")) = [{| sa_ip := ip4 93 184 216 34; sa_port := 80 |}])
    as Hc by (vm_compute; reflexivity).
  split; [exact Hc|]. split; [vm_compute; reflexivity|].
  destruct (connects_split (trace_of (go "secret"))) as (l & x & r & Ht & Hx); [by rewrite Hc|].
  exists l, x, r. split; [exact Ht|].
  apply (no_dial_before_login script (client_world login_state ["hello" : bytes] [socks_client "secret"])
    0 LSocks5 login_state (Some one_user) 7 l x r); [|reflexivity|exact Ht|exact Hx].
  intros a [= <-]. exact (ex_intro _ one_user (conj eq_refl eq_refl)).
Defined.

(** ** Where a connection of a client can lead *)

Section egress.
Context `{UnicodeCase} `{Base64} {Sh : Type} (c : Config).
Implicit Types tr : list (event Sh).

Lemma elem_of_middle {A} (x : A) l k r : x ∈ k → x ∈ l ++ k ++ r.
Proof. intros Hx. apply elem_of_app. right. apply elem_of_app. by left. Qed.

Lemma dial_ok_around host port tr t t' a :
  quiet_trace tr → quiet_trace t' →
  dial_ok c host port t a → dial_ok c host port (tr ++ t ++ t') a.
Proof.
  intros Hq Hq' (ips & (Hne & Hall & Hsrc) & Hd). exists ips. split.
  - repeat split; [done|done|]. destruct Hsrc as [?|Hin]; [by left|]. right. by apply elem_of_middle.
  - destruct Hd as [(? & ? & Hl)|(p & Hc & ? & Hr)].
    + left. rewrite !lookups_app, (quiet_lookups tr), (quiet_lookups t') by done.
      rewrite Nat.add_0_r. done.
    + right. exists p. split; [|split; [done|]].
      * destruct Hc as [?|(k & v & ? & ?)]; [by left|]. right. exists k, v.
        split; [by apply elem_of_middle | done].
      * destruct Hr as [?|(l & ?)]; [by left|]. right. exists l. by apply elem_of_middle.
Qed.

Lemma dials_ok_around host port tr t t' :
  quiet_trace tr → quiet_trace t' → dials_ok c host port t → dials_ok c host port (tr ++ t ++ t').
Proof.
  intros Hq Hq' [Hn Hc]. split.
  - apply Forall_app. split; [by apply quiet_no_name_connect|].
    apply Forall_app. split; [done | by apply quiet_no_name_connect].
  - rewrite !connects_app, (quiet_connects tr), (quiet_connects t') by done.
    rewrite app_nil_r. cbn [app]. destruct (connects t) as [|a [|? ?]]; [done| |done].
    by apply dial_ok_around.
Qed.

Lemma dials_ok_quiet_trace host port tr : quiet_trace tr → dials_ok c host port tr.
Proof. intros Hq. split; [by apply quiet_no_name_connect | by rewrite quiet_connects]. Qed.

(** However it ends, [p] has dialled at most once, and as the rules allow. *)
Definition egress_ok {A} (p : prog Sh A) : Prop :=
  wp (@any_resp Sh) p (λ _ t, ∃ host port, dials_ok c host port t) [].

Lemma egress_quiet {A} (p : prog Sh A) : emits (λ R e, quiet e) p → egress_ok p.
Proof.
  intros Hp. eapply wp_mono; [|by apply wp_quiet]. intros _ tr (t & -> & Ht).
  exists [], 0. by apply dials_ok_quiet_trace.
Qed.

Lemma egress_after {A B} (p : prog Sh A) (f : A → prog Sh B) :
  emits (λ R e, quiet e) p → (∀ a, egress_ok (f a)) → egress_ok (bind p f).
Proof.
  intros Hp Hf. eapply wp_bind_intro; [by apply wp_quiet|]. intros a tr (t & -> & Ht).
  pose proof (wp_frame _ _ _ [] t (Hf a)) as Hw. rewrite app_nil_r in Hw.
  eapply wp_mono; [|exact Hw].
  intros b tr' (t2 & -> & host & port & Hd). exists host, port.
  rewrite <- (app_nil_r t2). apply dials_ok_around; [done|constructor|done].
Qed.

Lemma egress_before {A B} (p : prog Sh A) (f : A → prog Sh B) :
  egress_ok p → (∀ a, emits (λ R e, quiet e) (f a)) → egress_ok (bind p f).
Proof.
  intros Hp Hf. eapply wp_bind_intro; [exact Hp|]. intros a tr (host & port & Hd).
  eapply wp_mono; [|apply wp_quiet, Hf]. intros b tr' (t2 & -> & Ht). exists host, port.
  change (dials_ok c host port ([] ++ tr ++ t2)). apply dials_ok_around; [constructor|done|done].
Qed.

End egress.

Section connection_egress.
Context `{PasswordVerify} `{HashOrder} `{UnicodeCase} `{Base64} (st : ServerState).
Context (P : bytes → bytes → list (event Shared) → Prop).
Hypothesis Hj : all_justified P (dyn <$> ss_authenticator st).
Hypothesis Heg : has_egress_rules (ss_config st) = true.

Lemma connect_egress fuel host port sk :
  egress_ok (Sh:=Shared) (ss_config st) (connect_to_target fuel (ss_config st) host port sk true).
Proof.
  eapply wp_mono; [|by apply connect_to_target_dials]. cbn. eauto.
Qed.

Lemma socks5_connect_egress fuel s r :
  egress_ok (ss_config st) (handle_socks5_connect fuel (ss_config st) s r).
Proof.
  apply egress_before; [apply connect_egress|].
  intros res. unfold send_response, relay_data. quiet_tac.
Qed.

Lemma http_connect_egress fuel hd s host port :
  hp_config hd = ss_config st → egress_ok (ss_config st) (handle_connect fuel hd s host port).
Proof.
  intros Hc. unfold handle_connect. rewrite Hc. apply egress_before; [apply connect_egress|].
  intros res. unfold connect_failed, send_error_response, relay_data. quiet_tac.
Qed.

Lemma http_regular_egress fuel hd s r :
  hp_config hd = ss_config st → egress_ok (ss_config st) (handle_regular_proxy fuel hd s r).
Proof.
  intros Hc. unfold handle_regular_proxy. apply egress_after; [done|].
  intros [[host port]|e]; [|by apply egress_quiet]. rewrite Hc.
  apply egress_before; [apply connect_egress|].
  intros res. unfold connect_failed, send_error_response, relay_data. quiet_tac.
Qed.

Lemma serve_egress fuel k s : egress_ok (ss_config st) (serve fuel k st s).
Proof.
  destruct k; cbn [serve].
  - unfold handle_socks5_connection. apply egress_after; [by apply (handle_handshake_quiet P)|].
    intros [[]|e]; [|by apply egress_quiet..]. cbn [negb].
    apply egress_after; [apply socks5_request_quiet|].
    intros [rq|e]; [|by apply egress_quiet].
    destruct (rq_command rq); [apply socks5_connect_egress| |];
      apply egress_quiet; unfold send_response; quiet_tac.
  - unfold handle_http_connection. apply egress_after; [by cbn|]. intros [].
    apply egress_after; [apply http_request_quiet|].
    intros [rq|e]; [|by apply egress_quiet].
    apply egress_after; [by apply (validate_auth_quiet P)|].
    intros []; cbn [negb]; [|apply egress_quiet; unfold send_error_response; quiet_tac].
    apply egress_after; [by cbn|]. intros []. destruct (is_connect rq).
    + apply egress_after; [done|]. intros [hp|e]; [by apply http_connect_egress|by apply egress_quiet].
    + by apply http_regular_egress.
Qed.

End connection_egress.

(** C5. With egress rules configured, a whole client connection, SOCKS5 or HTTP, from
    its first byte to its end, dials at most one address and never by name; that address
    is, for some host and port, the first of the addresses the host resolved to, all of
    which passed the rules and none of which was looked up again, or the proxy's that the
    configuration or the environment names. *)
Theorem connection_egress {St} `{PasswordVerify} `{HashOrder} `{UnicodeCase} `{Base64}
    (h : handler Shared St) (s : St) (fuel : nat) (k : listener) (st : ServerState)
    (table : option UserConfig) (c : sid) :
  state_built st table → has_egress_rules (ss_config st) = true →
  ∃ host port, dials_ok (ss_config st) host port (trace_of (run h (serve fuel k st c) s)).
Proof.
  intros Hb He.
  apply (wp_run_any h _ (λ _ tr, ∃ host port, dials_ok (ss_config st) host port tr)).
  apply (serve_egress st (login_evidence (auth (ss_config st)) table)); [|done].
  intros a (v & Hv & ->)%fmap_Some. by apply built_justifies, Hb.
Qed.

Definition blocking_state : ServerState :=
  {| ss_config := blocking_private; ss_authenticator := None |}.

Lemma connection_egress_witness :
  let _ := tag_verify in let _ := map_order in let _ := ascii_only_case in let _ := plain_base64 in
  let go := run script (serve 0 LHttp blocking_state 7) (client_world blocking_state []
              ["CONNECT example.org:443 HTTP/1.1" ++ crlf ++ crlf]) in
  result_of go = Ok tt ∧ connects (trace_of go) = [{| sa_ip := ip4 93 184 216 34; sa_port := 443 |}] ∧
  ∃ host port, dials_ok (ss_config blocking_state) host port (trace_of go).
Proof.
  intros H1 H2 H3 H4 go. split; [vm_compute; reflexivity|]. split; [vm_compute; reflexivity|].
  assert (state_built blocking_state None) as Hb by (intros a [=]).
  exact (connection_egress script (client_world blocking_state []
    ["CONNECT example.org:443 HTTP/1.1" ++ crlf ++ crlf]) 0 LHttp blocking_state None 7 Hb eq_refl).
Defined.

(** ** What a connection changes in the shared state *)

(** The counters of opened connections are not touched by what happens inside one. *)
Definition opened (m : ServerMetrics) : Z * Z := (active_connections m, total_connections m).

(** Everything a connection cannot change while it is being served. *)
Definition fixed_part (sh : Shared) : ServerState * buckets * TokenTable * (Z * Z) :=
  (sh_state sh, sh_buckets sh, sh_tokens sh, opened (sh_metrics sh)).

Definition no_access {Sh R} (e : eff Sh R) : Prop :=
  match e with Locked _ _ => False | _ => True end.

Section footprint.
Context {Sh : Type} `{UnicodeCase} `{Base64}.

Lemma resolve_upstream_no_access c host port ip sk :
  emits (λ R (e : eff Sh R), no_access e) (resolve_upstream c host port ip sk).
Proof.
  assert (∀ keys, emits (λ R (e : eff Sh R), no_access e) (lookup_keys keys)) as Hk
    by (intros keys; induction keys; cbn [lookup_keys]; emits_tac ltac:(done); exact I).
  unfold resolve_upstream, lookup_env_proxy, get_no_proxy_list, env_var_or.
  emits_tac ltac:(apply Hk); exact I.
Qed.

Lemma handshakes_no_access fuel s host port u p :
  emits (λ R (e : eff Sh R), no_access e) (socks5_connect_handshake s host port u p) ∧
  emits (λ R (e : eff Sh R), no_access e) (http_connect_handshake fuel s host port u p).
Proof.
  assert (emits (λ R (e : eff Sh R), no_access e) (skip_headers fuel s)) as Hk
    by (induction fuel; cbn [skip_headers]; emits_tac ltac:(done); exact I).
  unfold socks5_connect_handshake, send_credentials, skip_bound_address, http_connect_handshake.
  split; emits_tac ltac:(apply Hk); exact I.
Qed.

Lemma connect_to_target_no_access fuel c host port sk res :
  emits (λ R (e : eff Sh R), no_access e) (connect_to_target fuel c host port sk res).
Proof.
  assert (∀ h p b, emits (λ R (e : eff Sh R), no_access e) (connect_stream h p b)) as Hs
    by (intros; unfold connect_stream, connect_stream_ip; emits_tac idtac; exact I).
  unfold connect_to_target, resolve_target, connect_via, connect_direct, connect_stream_ip,
    get_no_proxy_list, env_var_or.
  emits_tac ltac:(first [apply resolve_upstream_no_access | apply (handshakes_no_access fuel) | apply Hs]);
    exact I.
Qed.

End footprint.

Section connection_footprint.
Context `{PasswordVerify} `{HashOrder} `{UnicodeCase} `{Base64}.

Lemma count_keeps f : (∀ m, opened (f m) = opened m) →
  emits (λ R e, keeps fixed_part e) (count (Sh:=Shared) f).
Proof. intros Hf. split; [|done]. intros sh. unfold fixed_part. cbn. by rewrite Hf. Qed.

Lemma no_access_keeps {X A} (g : Shared → X) (p : prog Shared A) :
  emits (λ R e, no_access e) p → emits (λ R e, keeps g e) p.
Proof. apply emits_mono. by intros R []. Qed.

Lemma backend_no_access (a : AnyAuthenticator) u p :
  emits (λ R (e : eff Shared R), no_access e) (authenticate (dyn a) u p).
Proof. eapply emits_mono, dyn_backend_events. by intros R []. Qed.

Lemma handle_handshake_keeps o s b :
  emits (λ R e, keeps fixed_part e) (handle_handshake (socks5_handler o) s b).
Proof.
  unfold handle_handshake, handle_user_pass_auth, validate_credentials, count_if.
  destruct o as [a|]; cbn [socks5_handler sk_authenticator sk_metrics fmap option_fmap option_map];
    emits_tac ltac:(first
    [ apply no_access_keeps, backend_no_access | by apply count_keeps ]); exact I.
Qed.

Lemma socks5_request_no_access s : emits (λ R (e : eff Shared R), no_access e) (Socks5.handle_request s).
Proof. unfold Socks5.handle_request, read_address. emits_tac idtac; exact I. Qed.

Lemma http_request_no_access hd s : emits (λ R (e : eff Shared R), no_access e) (Http.handle_request hd s).
Proof.
  assert (∀ fuel limit hs, emits (λ R (e : eff Shared R), no_access e) (read_headers fuel s limit hs)) as Hk
    by (intros fuel; induction fuel as [|fuel IH]; intros limit hs; cbn [read_headers];
        [done|]; emits_tac ltac:(apply IH); exact I).
  unfold Http.handle_request. emits_tac ltac:(apply Hk); exact I.
Qed.

Lemma validate_auth_keeps c o r :
  emits (λ R e, keeps fixed_part e) (validate_auth (http_handler c o) r).
Proof.
  unfold validate_auth, count_if.
  destruct o as [a|]; cbn [http_handler hp_authenticator hp_metrics hp_config fmap option_fmap option_map];
    emits_tac ltac:(first
    [ apply no_access_keeps, backend_no_access | by apply count_keeps ]); exact I.
Qed.

Lemma relay_keeps m client target : emits (λ R e, keeps fixed_part e) (relay_data (Sh:=Shared) m client target).
Proof. unfold relay_data, count_if. emits_tac ltac:(by apply count_keeps); exact I. Qed.

(** A connection, from its first byte to its end, counts bytes and failed logins and
    changes nothing else that is shared. *)
Lemma serve_keeps fuel k st s : emits (λ R e, keeps fixed_part e) (serve fuel k st s).
Proof.
  destruct k; unfold serve, handle_socks5_connection, handle_socks5_connect, handle_http_connection,
    handle_connect, handle_regular_proxy, connect_failed, send_error_response, send_response;
    emits_tac ltac:(first
      [ apply handle_handshake_keeps | apply validate_auth_keeps | apply relay_keeps
      | apply no_access_keeps;
        first [apply socks5_request_no_access | apply http_request_no_access
              | apply connect_to_target_no_access] ]); exact I.
Qed.

End connection_footprint.
