(* ===== verification/Forward.v ===== *)
(** * Requests as text

    What the proxy writes to a target is read back, by the proxy's own grammar, as the
    client's request without the proxy's headers; and what is read ahead of a request's
    end is lost when the stream is taken out of its BufReader (server.rs, line 427). *)

From S2P Require Import Prelude RustStr IpAddr Effects Script Config Policy Upstream.
From S2P Require Import Users Auth Metrics Socks5 RateLimit Http Tokens Server.

Local Open Scope Z_scope.
Local Open Scope rust_scope.

Section text.
Context {Sh : Type} `{HasMetrics Sh} `{UnicodeCase} `{Base64}.

Definition header_line (nv : bytes * bytes) : bytes := nv.1 ++ ": " ++ nv.2 ++ crlf.

(** A name without colon and a value, neither with a line break or with blanks around
    it. *)
Record header_wf (nv : bytes * bytes) : Prop := {
  hw_name : trimmed nv.1;
  hw_colon : colon ∉ nv.1;
  hw_name_lf : lf ∉ nv.1;
  hw_value : trimmed nv.2;
  hw_value_lf : lf ∉ nv.2;
}.

Definition request_wf (r : HttpRequest) : Prop :=
  word (method r) ∧ word (uri r) ∧ word (version r) ∧
  map_Forall (λ n v, header_wf (n, v) ∧ to_lowercase n = n) (headers r).

Lemma blank_crlf : blank crlf.
Proof. split; [done|]. by repeat constructor. Qed.

Lemma trimmed_colon n v : trimmed n → trimmed v → v ≠ [] → trimmed (n ++ ": " ++ v).
Proof.
  intros (Hvn & Hhn & _) (Hvv & _ & Hlv) Hne. split; [by repeat apply utf8_valid_app|].
  rewrite !chars_app by (done || by apply utf8_valid_app).
  change (chars ": ") with [bstr ":"; bstr " "]. split; intros c Hc.
  - destruct (chars n) as [|x xs]; cbn in Hc; simplify_eq; [done|]. by apply Hhn.
  - rewrite !app_assoc, last_app in Hc. destruct (last (chars v)) as [x|] eqn:Hl.
    + simplify_eq. by apply Hlv.
    + apply last_None in Hl. exfalso. apply Hne. by rewrite <- (concat_chars v), Hl.
Qed.

Lemma trimmed_name_colon n : trimmed n → trimmed (n ++ ":").
Proof.
  intros (Hvn & Hhn & _). split; [by apply utf8_valid_app|].
  rewrite chars_app by done. change (chars ":") with [bstr ":"]. split; intros c Hc.
  - destruct (chars n) as [|x xs]; cbn in Hc; simplify_eq; [done|]. by apply Hhn.
  - rewrite last_app in Hc. cbn in Hc. by simplify_eq.
Qed.

(** The parser undoes [header_line]. *)
Lemma insert_header_line n v m :
  header_wf (n, v) →
  trim (header_line (n, v)) ≠ [] ∧ insert_header (trim (header_line (n, v))) m = <[to_lowercase n := v]> m.
Proof.
  intros [Hn Hc _ Hv _]. cbn [fst snd] in Hn, Hc, Hv.
  destruct (decide (v = [])) as [->|Hne].
  - assert (trim (header_line (n, [])) = n ++ ":") as ->.
    { pose proof (trim_around [] (n ++ ":") (" " ++ crlf) blank_nil (trimmed_name_colon n Hn)) as Ht.
      cbn [app] in Ht. rewrite <- app_assoc in Ht. apply Ht. split; [done|]. by repeat constructor. }
    split; [by destruct n|]. unfold insert_header. change (n ++ ":") with (n ++ colon :: []).
    rewrite find_char_app, take_app_exact, drop_sep by done. by rewrite trim_trimmed.
  - assert (trim (header_line (n, v)) = n ++ ": " ++ v) as ->.
    { pose proof (trim_around [] (n ++ ": " ++ v) crlf blank_nil (trimmed_colon n v Hn Hv Hne)) as Ht.
      cbn [app] in Ht. rewrite <- !app_assoc in Ht. apply Ht, blank_crlf. }
    split; [by destruct n|]. unfold insert_header.
    change (n ++ ": " ++ v) with (n ++ colon :: (" " ++ v)).
    rewrite find_char_app, take_app_exact, drop_sep by done. rewrite trim_trimmed by done.
    f_equal. pose proof (trim_around " " v [] ) as Ht. rewrite app_nil_r in Ht. apply Ht; [|done|apply blank_nil].
    split; [done|]. by repeat constructor.
Qed.

Definition insert_all (m : gmap bytes bytes) (hs : list (bytes * bytes)) : gmap bytes bytes :=
  foldl (λ m nv, <[to_lowercase nv.1 := nv.2]> m) m hs.

Lemma header_line_split n v :
  header_wf (n, v) →
  ∃ l, header_line (n, v) = l ++ [lf] ∧ lf ∉ l ∧ utf8_valid l = true.
Proof.
  intros [(Hn & _) _ Hnl (Hv & _) Hvl]. cbn in *. exists (n ++ ": " ++ v ++ ["013"%char]).
  split; [unfold header_line; cbn; by rewrite <- !app_assoc; cbn; rewrite <- app_assoc|]. split.
  - rewrite !elem_of_app. intros [?|[Hx|[?|Hx]]]; [done| |done|]; repeat (apply elem_of_cons in Hx as [|Hx]; [done|]); by apply elem_of_nil in Hx.
  - by repeat apply utf8_valid_app.
Qed.

Lemma read_headers_text Q s hs rest :
  line_stable Q → Forall header_wf hs → ∀ fuel limit m w,
  stream_with Q s ((hs ≫= header_line) ++ crlf ++ rest) w →
  Z.of_nat (length ((hs ≫= header_line) ++ crlf)) < limit → (Z.to_nat limit < fuel)%nat →
  ∃ w', (run script (read_headers (Sh:=Sh) fuel s limit m) w).1 = (Ok (insert_all m hs), w') ∧
        stream_with Q s rest w'.
Proof.
  intros HQ. induction 1 as [|[n v] hs Hh Hhs IH]; intros fuel limit m w Hat Hlim Hf;
    destruct fuel as [|fuel]; try lia; cbn [read_headers bind_q bind perform run].
  - cbn in Hlim. destruct (script_read_line Q s limit ["013"%char] rest w HQ) as (w' & -> & Hat').
    + exact Hat.
    + intros Hx%list_elem_of_singleton. done.
    + done.
    + cbn. lia.
    + cbn [app length]. destruct (Z.eqb_spec (limit - Z.of_nat 2) 0); [lia|].
      exists w'. split; [|done]. reflexivity.
  - destruct (header_line_split n v Hh) as (l & Hl & Hlf & Hu).
    rewrite bind_cons, length_app, length_app in Hlim. cbn [bind_cons] in Hat.
    rewrite bind_cons, Hl, <- !app_assoc in Hat. cbn [app] in Hat.
    assert (Hll : length (header_line (n, v)) = S (length l)) by (rewrite Hl, length_app; cbn; lia).
    destruct (script_read_line Q s limit l _ w HQ Hat Hlf Hu) as (w1 & -> & Hat1); [lia|].
    rewrite <- Hl. destruct (insert_header_line n v m Hh) as [Hne Hins].
    destruct (Z.eqb_spec (limit - Z.of_nat (length (header_line (n, v)))) 0); [lia|].
    rewrite bool_decide_eq_false_2 by (by rewrite Hl; destruct l).
    rewrite bool_decide_eq_false_2 by done. rewrite Hins.
    destruct (IH fuel (limit - Z.of_nat (length (header_line (n, v)))) (<[to_lowercase n := v]> m) w1 Hat1)
      as (w2 & Hr & Hat2); [rewrite length_app; lia|lia|].
    exists w2. split; [|done].
    destruct (run script _ w1) as [[r w3] t]. exact Hr.
Qed.

Definition request_line (m u v : bytes) : bytes := m ++ " " ++ u ++ " " ++ v ++ crlf.

Lemma request_line_split m u v :
  word m → word u → word v →
  split_whitespace (trim (request_line m u v)) = [m; u; v] ∧
  ∃ l, request_line m u v = l ++ [lf] ∧ lf ∉ l ∧ utf8_valid l = true.
Proof.
  intros Hm Hu Hv. split.
  - assert (trim (request_line m u v) = m ++ " " ++ u ++ " " ++ v) as ->;
      [|by apply split_three_words].
    pose proof (word_trimmed_ends m (" " ++ u ++ " ") v Hm) as Ht. rewrite <- !app_assoc in Ht.
    pose proof (trim_around [] _ crlf blank_nil (Ht (utf8_valid_app (bstr " ") _ eq_refl (utf8_valid_app u (bstr " ") (proj1 Hu) eq_refl)) Hv) blank_crlf) as Htr.
    cbn [app] in Htr. by rewrite <- !app_assoc in Htr.
  - assert (Hw : ∀ w, word w → lf ∉ w) by (intros w Hw; by apply word_no_blank).
    exists (m ++ " " ++ u ++ " " ++ v ++ ["013"%char]). split; [|split].
    + unfold request_line. rewrite <- !app_assoc. reflexivity.
    + assert (lf ∉ bstr " ") by (by intros ?%list_elem_of_singleton).
      assert (lf ∉ ["013"%char]) by (by intros ?%list_elem_of_singleton).
      rewrite !elem_of_app. naive_solver.
    + repeat (apply utf8_valid_app; [by apply Hm || by apply Hu || by apply Hv || done|]). done.
Qed.

Definition request_text (m u v : bytes) (hs : list (bytes * bytes)) : bytes :=
  request_line m u v ++ (hs ≫= header_line) ++ crlf.

Definition max_size (hd : HttpProxyHandler Sh) : Z := max_request_size (security (hp_config hd)).

(** Parsing the text of a request, once its first line can be read. *)
Lemma handle_request_text Q (hd : HttpProxyHandler Sh) s m u v hs rest w :
  line_stable Q → word m → word u → word v → Forall header_wf hs →
  Z.of_nat (length (request_text m u v hs)) < max_size hd →
  stream_with Q s (request_text m u v hs ++ rest) w →
  ∃ w', (run script (handle_request hd s) w).1
        = (Ok {| method := m; uri := u; version := v; headers := insert_all ∅ hs |}, w') ∧
        stream_with Q s rest w'.
Proof.
  intros HQ Hm Hu Hv Hhs Hlen Hst.
  destruct (request_line_split m u v Hm Hu Hv) as (Hwords & l & Hl & Hlf & Hul).
  unfold request_text in *. rewrite !length_app in Hlen.
  assert (Hll : length (request_line m u v) = S (length l)) by (rewrite Hl, length_app; cbn; lia).
  rewrite Hl, <- !app_assoc in Hst. cbn [app] in Hst.
  destruct (script_read_line Q s (max_size hd) l ((hs ≫= header_line) ++ crlf ++ rest) w HQ Hst Hlf Hul)
    as (w1 & Hr & Hat); [lia|].
  unfold handle_request. cbn [bind_q bind perform run]. fold (max_size hd). rewrite Hr, <- Hl.
  rewrite bool_decide_eq_false_2 by (by rewrite Hl; destruct l).
  destruct (Z.eqb_spec (max_size hd - Z.of_nat (length (request_line m u v))) 0); [lia|].
  rewrite Hwords.
  destruct (read_headers_text Q s hs rest HQ Hhs
    (S (Z.to_nat (max_size hd - Z.of_nat (length (request_line m u v)))))
    (max_size hd - Z.of_nat (length (request_line m u v))) ∅ w1) as (w2 & Hh & Hat2);
    [done|rewrite length_app; lia|lia|].
  exists w2. split; [|done]. rewrite run_bind_q.
  destruct (run script (read_headers _ _ _ _) w1) as [[r w3] t]. cbn in Hh. by simplify_eq.
Qed.

(** ** Forwarded requests *)

Definition kept (nv : bytes * bytes) : bool :=
  negb (bool_decide (nv.1 = "proxy-connection")) && negb (bool_decide (nv.1 = "proxy-authorization")).

Lemma forwarded_headers l : (l ≫= forwarded_header) = (List.filter kept l ≫= header_line).
Proof.
  induction l as [|[n v] l IH]; [done|]. rewrite bind_cons, IH. cbn [List.filter]. unfold forwarded_header.
  fold (kept (n, v)). destruct (kept (n, v)) eqn:Hk; unfold kept in Hk; cbn [fst] in Hk; rewrite Hk; done.
Qed.

Lemma insert_all_union hs m :
  NoDup hs.*1 → Forall (λ n, to_lowercase n = n) hs.*1 → insert_all m hs = list_to_map hs ∪ m.
Proof.
  revert m. induction hs as [|[n v] hs IH]; intros m; cbn; [by rewrite (left_id_L ∅ (∪))|].
  intros [Hn Hnd]%NoDup_cons [Hlow Hl]%Forall_cons. unfold insert_all in *. cbn.
  rewrite Hlow, IH by done.
  rewrite <- insert_union_l. symmetry. apply insert_union_r. by apply not_elem_of_list_to_map_1.
Qed.

Lemma kept_headers `{HashOrder} (m : gmap bytes bytes) :
  map_Forall (λ n _, to_lowercase n = n) m →
  insert_all ∅ (List.filter kept (hm_iter m))
  = delete (bstr "proxy-connection") (delete (bstr "proxy-authorization") m).
Proof.
  intros Hlow. assert (NoDup (List.filter kept (hm_iter m)).*1) as Hnd.
  { assert (NoDup (hm_iter m).*1) as Hm by (rewrite hm_iter_perm; apply NoDup_fst_map_to_list).
    induction (hm_iter m) as [|nv l IH]; cbn; [constructor|]. apply NoDup_cons in Hm as [Hnv Hl].
    destruct (kept nv); cbn; [|auto]. constructor; [|auto]. intros Hin. apply Hnv.
    apply list_elem_of_fmap in Hin as (nv' & -> & Hin). apply list_elem_of_fmap. exists nv'. split; [done|].
    apply list_elem_of_In, filter_In in Hin as [Hin _]. by apply list_elem_of_In. }
  rewrite insert_all_union; [|done|].
  2: { apply Forall_fmap, Forall_forall. intros [n v] Hin%list_elem_of_In%filter_In.
       destruct Hin as [Hin%list_elem_of_In%hm_iter_elem _]. by apply (Hlow n v). }
  rewrite (right_id_L ∅ (∪)). apply map_eq. intros k. apply option_eq. intros v.
  rewrite <- elem_of_list_to_map by done. rewrite list_elem_of_In, filter_In, <- list_elem_of_In, hm_iter_elem.
  rewrite !lookup_delete_Some. unfold kept. cbn [fst].
  rewrite andb_true_iff, !negb_true_iff, !bool_decide_eq_false. naive_solver.
Qed.

End text.

(** C28. A forwarded request is the client's request without the proxy's headers. For
    every request with well-formed parts, in whatever order the header map is walked and
    however the bytes are cut into segments, the text written to the target is read back
    by the same grammar as the same method, URI and version with exactly the headers
    other than Proxy-Authorization and Proxy-Connection, so that the client's proxy
    credentials are not passed on; and what follows the text is left unread. *)
Theorem forward_roundtrip {Sh} `{HasMetrics Sh} `{UnicodeCase} `{HashOrder}
    (hd : HttpProxyHandler Sh) (r : HttpRequest) (s : sid) (rest : bytes) (w : world Sh) :
  request_wf r → stream_at s (request_data r ++ rest) w →
  Z.of_nat (length (request_data r)) < max_size hd →
  ∃ w', (run script (handle_request hd s) w).1
    = (Ok {| method := method r; uri := uri r; version := version r;
             headers := delete (bstr "proxy-connection")
                          (delete (bstr "proxy-authorization") (headers r)) |}, w') ∧
    stream_at s rest w'.
Proof.
  intros (Hm & Hu & Hv & Hh) Hat Hlen. set (hs := List.filter kept (hm_iter (headers r))).
  assert (Ht : request_data r = request_text (method r) (uri r) (version r) hs).
  { unfold request_data, request_text, request_line, hs. by rewrite forwarded_headers, <- !app_assoc. }
  rewrite <- kept_headers by (intros n v Hin; by apply (Hh n v)). rewrite Ht in Hat, Hlen.
  apply (handle_request_text _ hd s _ _ _ hs rest w any_stable); [done..| |done|done].
  apply Forall_forall. intros [n v] Hin%list_elem_of_In%filter_In.
  destruct Hin as [Hin%list_elem_of_In%hm_iter_elem _]. by apply (Hh n v).
Qed.

(** Decidable forms of the conditions, for concrete requests. *)
Definition wordb (s : bytes) : bool :=
  utf8_valid s && negb (bool_decide (s = [])) && forallb (λ c, negb (is_whitespace c)) (chars s).

Definition not_blank (o : option bytes) : bool :=
  match o with Some c => negb (is_whitespace c) | None => true end.

Definition trimmedb (s : bytes) : bool :=
  utf8_valid s && not_blank (head (chars s)) && not_blank (last (chars s)).

Definition header_wfb (nv : bytes * bytes) : bool :=
  trimmedb nv.1 && negb (contains_char colon nv.1) && negb (contains_char lf nv.1)
  && trimmedb nv.2 && negb (contains_char lf nv.2).

Lemma wordb_word s : wordb s = true → word s.
Proof.
  unfold wordb. rewrite !andb_true_iff, negb_true_iff, bool_decide_eq_false, forallb_forall.
  intros [[Hv Hne] Hw]. repeat split; [done..|]. apply Forall_forall. intros c Hc%list_elem_of_In.
  apply negb_true_iff. by apply Hw.
Qed.

Lemma trimmedb_trimmed s : trimmedb s = true → trimmed s.
Proof.
  unfold trimmedb. rewrite !andb_true_iff. intros [[Hv Hh] Hl].
  repeat split; [done|..]; intros c Hc; [rewrite Hc in Hh | rewrite Hc in Hl]; by apply negb_true_iff.
Qed.

Lemma header_wfb_wf nv : header_wfb nv = true → header_wf nv.
Proof.
  unfold header_wfb, contains_char. rewrite !andb_true_iff, !negb_true_iff, !bool_decide_eq_false.
  intros [[[[? ?] ?] ?] ?]. by split; try apply trimmedb_trimmed.
Qed.

Definition sample_request : HttpRequest := {|
  method := "GET"; uri := "http://example.org/a"; version := "HTTP/1.1";
  headers := {[ bstr "host" := bstr "example.org"; bstr "accept" := bstr "text/html, */*";
                bstr "proxy-authorization" := bstr "Basic ann:secret"; bstr "x-empty" := [] ]} |}.

Definition stream_world (segs : list bytes) : world Shared :=
  set_streams (empty_world (shared_of login_state)) {[ 7%nat := incoming segs ]}.

Lemma forward_roundtrip_witness :
  let _ := ascii_only_case in let _ := map_order in
  let hd := {| hp_config := Config_default; hp_authenticator := None; hp_metrics := true |} in
  let w := stream_world [take 9 (request_data sample_request); drop 9 (request_data sample_request)] in
  ∃ w', (run script (handle_request hd 7) w).1
    = (Ok {| method := "GET"; uri := "http://example.org/a"; version := "HTTP/1.1";
             headers := {[ bstr "host" := bstr "example.org"; bstr "x-empty" := [];
                           bstr "accept" := bstr "text/html, */*" ]} |}, w') ∧
    stream_at 7 [] w'.
Proof.
  intros H1 H2 hd w.
  destruct (forward_roundtrip hd sample_request 7 [] w) as (w' & Hr & Hat).
  - do 3 (split; [apply wordb_word; vm_compute; reflexivity|]).
    repeat (apply map_Forall_insert_2;
      [split; [apply header_wfb_wf; vm_compute; reflexivity | vm_compute; reflexivity]|]).
    apply map_Forall_empty.
  - eexists. split; [reflexivity|]. split; [vm_compute; reflexivity|exact I].
  - vm_compute. reflexivity.
  - exists w'. split; [|exact Hat]. rewrite Hr. reflexivity.
Defined.

(** ** Error answers *)

(** A message of an error answer: the reason, and the header lines that some callers
    append to it. *)
Definition message (reason : bytes) (extra : list (bytes * bytes)) : bytes :=
  reason ++ (extra ≫= λ nv, crlf ++ nv.1 ++ ": " ++ nv.2).

Definition framing (m : bytes) : list (bytes * bytes) :=
  [("Content-Length" : bytes, dec (Z.of_nat (length m))); ("Connection" : bytes, "close" : bytes)].

Lemma error_response_text code reason extra :
  error_response code (message reason extra)
  = "HTTP/1.1 " ++ dec code ++ " " ++ reason ++ crlf
    ++ ((extra ++ framing (message reason extra)) ≫= header_line) ++ crlf ++ message reason extra.
Proof.
  assert (Hx : ∀ t, (extra ≫= λ nv, crlf ++ nv.1 ++ ": " ++ nv.2) ++ crlf ++ t
                   = crlf ++ (extra ≫= header_line) ++ t).
  { induction extra as [|[n v] l IH]; intros t; [done|]. rewrite !bind_cons. unfold header_line at 1.
    cbn [fst snd]. rewrite <- !app_assoc, IH. done. }
  unfold error_response, framing. rewrite bind_app. set (m := message reason extra).
  unfold m at 1, message. rewrite <- !app_assoc, Hx. cbn [mbind list_bind]. unfold header_line. cbn [fst snd].
  by rewrite <- !app_assoc.
Qed.

Lemma dec_word z : 0 ≤ z → word (dec z).
Proof.
  intros Hz. pose proof (dec_nonempty z Hz) as Hne.
  assert (all_ascii (dec z) = true) as Ha.
  { unfold all_ascii. apply forallb_forall. intros c Hc%list_elem_of_In. apply (dec_chars z c Hz) in Hc.
    unfold is_ascii. lia. }
  split; [by apply utf8_valid_ascii|]. split; [done|]. rewrite chars_ascii by done.
  apply Forall_fmap, Forall_forall. intros c Hc. apply (dec_chars z c Hz) in Hc.
  unfold compose, is_whitespace. cbn [code_point]. lia.
Qed.

Lemma word_trimmed s : word s → trimmed s.
Proof.
  intros (Hv & _ & Hw). rewrite Forall_forall in Hw. split; [done|]. split; intros c Hc; apply Hw.
  - by apply head_Some_elem_of.
  - by apply last_Some_elem_of.
Qed.

(** The last header line of a name is the one that counts, and there are no others. *)
Lemma insert_all_last `{UnicodeCase} m before n v after :
  Forall (λ nv, to_lowercase nv.1 ≠ to_lowercase n) after →
  insert_all m (before ++ (n, v) :: after) !! to_lowercase n = Some v.
Proof.
  unfold insert_all. rewrite foldl_app. cbn [foldl fst snd]. generalize (foldl (λ m nv, <[to_lowercase nv.1 := nv.2]> m) m before).
  intros m0 Ha. assert (<[to_lowercase n := v]> m0 !! to_lowercase n = Some v) as Hv by apply lookup_insert_eq.
  revert Hv. generalize (<[to_lowercase n := v]> m0). clear m0 m before.
  induction Ha as [|nv l Hne _ IH]; intros m Hm; [done|]. cbn. apply IH. by rewrite lookup_insert_ne.
Qed.

Lemma insert_all_only `{UnicodeCase} m hs k :
  is_Some (insert_all m hs !! k) → is_Some (m !! k) ∨ k ∈ to_lowercase <$> hs.*1.
Proof.
  unfold insert_all. revert m. induction hs as [|nv hs IH]; intros m; cbn; [by left|].
  intros [Hk|Hk]%IH; [|right; set_solver].
  destruct (decide (to_lowercase nv.1 = k)) as [<-|Hne]; [right; set_solver|].
  rewrite lookup_insert_ne in Hk by done. by left.
Qed.

(** A client's reading of an answer: the status line, then the headers. *)
Definition read_answer {Sh} `{UnicodeCase} (fuel : nat) (s : sid) (limit : Z)
  : prog Sh (result (bytes * gmap bytes bytes)) :=
  line <-? perform (ReadLine s (Some limit)) ;;
  hs <-? read_headers fuel s limit ∅ ;;
  Ret (Ok (line, hs)).

(** C36. Error answers are framed right. For every status code, reason without line break
    and list of well-formed extra headers in the message, as the proxy's 403, 407 and 502
    have, a client that reads the answer line by line finds the status line,
    [Connection: close], a Content-Length that is exactly the number of bytes of the
    body that follows, and each extra header, the last one of a name, with its value;
    it finds no other header, and the body is the message. *)
Theorem error_response_framed {Sh} `{UnicodeCase} (code : Z) (reason rest : bytes)
    (extra : list (bytes * bytes)) (s : sid) (fuel : nat) (limit : Z) (w : world Sh) :
  0 ≤ code → utf8_valid reason = true → lf ∉ reason → Forall header_wf extra →
  stream_at s (error_response code (message reason extra) ++ rest) w →
  Z.of_nat (length (error_response code (message reason extra))) < limit → (Z.to_nat limit < fuel)%nat →
  ∃ w' hs, (run script (read_answer fuel s limit) w).1
           = (Ok ("HTTP/1.1 " ++ dec code ++ " " ++ reason ++ crlf, hs), w') ∧
    hs !! bstr "content-length" = Some (dec (Z.of_nat (length (message reason extra)))) ∧
    hs !! bstr "connection" = Some (bstr "close") ∧
    (∀ before n v after, extra = before ++ (n, v) :: after →
       Forall (λ nv, to_lowercase nv.1 ≠ to_lowercase n) after →
       to_lowercase n ≠ "content-length" → to_lowercase n ≠ "connection" →
       hs !! to_lowercase n = Some v) ∧
    (∀ k : bytes, is_Some (hs !! k) → k = "content-length" ∨ k = "connection" ∨ k ∈ to_lowercase <$> extra.*1) ∧
    stream_at s (message reason extra ++ rest) w'.
Proof.
  intros Hcode Hu Hlf Hex Hat Hlim Hf.
  set (m := message reason extra) in *. set (hs := extra ++ framing m).
  assert (Hhs : Forall header_wf hs).
  { apply Forall_app. split; [done|]. constructor; [|constructor; [by apply header_wfb_wf|constructor]].
    split; cbn [fst snd]; [by apply trimmedb_trimmed| | | |].
    - by apply (bool_decide_eq_false (colon ∈ bstr "Content-Length")).
    - by apply (bool_decide_eq_false (lf ∈ bstr "Content-Length")).
    - apply word_trimmed, dec_word. lia.
    - apply dec_not_in; [lia|]. by left. }
  assert (Hdu : utf8_valid (dec code) = true) by (by apply dec_word).
  set (l := "HTTP/1.1 " ++ dec code ++ " " ++ reason ++ ["013"%char]).
  assert (Htext : error_response code m = l ++ [lf] ++ (hs ≫= header_line) ++ crlf ++ m).
  { unfold m at 1, l. rewrite error_response_text. fold m. rewrite <- !app_assoc. reflexivity. }
  assert (Hl : lf ∉ l).
  { assert (lf ∉ dec code) by (apply dec_not_in; [lia|by left]).
    assert (lf ∉ bstr " ") by (by intros ?%list_elem_of_singleton).
    assert (lf ∉ ["013"%char]) by (by intros ?%list_elem_of_singleton).
    assert (lf ∉ bstr "HTTP/1.1 ") by (by apply (bool_decide_eq_false (lf ∈ bstr "HTTP/1.1 "))).
    unfold l. rewrite !elem_of_app. naive_solver. }
  rewrite Htext, !length_app in Hlim. rewrite Htext, <- !app_assoc in Hat.
  destruct (script_read_line _ s limit l ((hs ≫= header_line) ++ crlf ++ m ++ rest) w any_stable)
    as (w1 & Hr & Hat1); [exact Hat|done| |lia|].
  { unfold l. by repeat (apply utf8_valid_app; [done|]). }
  destruct (read_headers_text _ s hs (m ++ rest) any_stable Hhs fuel limit ∅ w1 Hat1) as (w2 & Hh & Hat2);
    [rewrite length_app; lia|done|].
  exists w2, (insert_all ∅ hs). split; [|split; [|split; [|split; [|split]]]]; [..|exact Hat2].
  - unfold read_answer. cbn [bind_q bind perform run]. rewrite Hr, run_bind_q.
    destruct (run script (read_headers _ _ _ _) w1) as [[r w3] t]. cbn in Hh. simplify_eq. cbn [run fst].
    unfold l. by rewrite <- !app_assoc.
  - unfold hs, insert_all. rewrite foldl_app. cbn [foldl framing fst snd].
    change (to_lowercase "Connection") with (bstr "connection").
    change (to_lowercase "Content-Length") with (bstr "content-length").
    by rewrite lookup_insert_ne, lookup_insert_eq.
  - unfold hs, insert_all. rewrite foldl_app. cbn [foldl framing fst snd].
    change (to_lowercase "Connection") with (bstr "connection"). by rewrite lookup_insert_eq.
  - intros before n v after -> Ha Hcl Hco. unfold hs. rewrite <- app_assoc. cbn [app].
    apply insert_all_last, Forall_app. split; [done|].
    repeat constructor; cbn [fst]; intros He; [apply Hcl|apply Hco]; by rewrite <- He.
  - intros k Hk%insert_all_only. unfold hs in Hk. rewrite lookup_empty in Hk.
    destruct Hk as [[]%is_Some_None|Hk]. rewrite !fmap_app, elem_of_app in Hk.
    destruct Hk as [Hk|Hk]; [by right; right|]. cbn in Hk.
    apply elem_of_cons in Hk as [->|Hk%list_elem_of_singleton]; [by left|right; left; exact Hk].
Qed.

Lemma error_response_framed_witness :
  let _ := ascii_only_case in
  let w := stream_world [error_response 407 auth_challenge] in
  ∃ w' hs, (run script (read_answer 300 7 200) w).1
           = (Ok ("HTTP/1.1 407 Proxy Authentication Required" ++ crlf, hs), w') ∧
    hs !! bstr "content-length" = Some (bstr "70") ∧ hs !! bstr "connection" = Some (bstr "close") ∧
    hs !! bstr "proxy-authenticate" = Some (q "Basic realm=`Proxy`") ∧
    stream_at 7 auth_challenge w'.
Proof.
  intros H1 w.
  destruct (error_response_framed 407 "Proxy Authentication Required" []
    [("Proxy-Authenticate" : bytes, q "Basic realm=`Proxy`")] 7 300 200 w) as (w' & hs & Hr & Hc & Hk & Hx & _ & Hat).
  - lia.
  - vm_compute. reflexivity.
  - apply (bool_decide_eq_false (lf ∈ bstr "Proxy Authentication Required")). vm_compute. reflexivity.
  - constructor; [|constructor]. apply header_wfb_wf. vm_compute. reflexivity.
  - eexists. split; [reflexivity|]. split; [vm_compute; reflexivity|exact I].
  - vm_compute. reflexivity.
  - vm_compute. lia.
  - exists w', hs. split; [exact Hr|]. split; [exact Hc|]. split; [exact Hk|]. split; [|exact Hat].
    exact (Hx [] (bstr "Proxy-Authenticate") _ [] eq_refl (Forall_nil_2 _) ltac:(discriminate) ltac:(discriminate)).
Defined.

(** ** Bytes read ahead *)

(** C37. What arrives together with a request's end is lost. When the proxy takes the
    stream out of its BufReader after parsing, everything the reader had buffered is
    gone. Let a client's request, well-formed and within the limit, and the bytes [ahead]
    behind it (the body of a POST, or a TLS hello sent right after CONNECT) come in one
    segment. Then the tunnel or the forwarding continues on a client stream without the
    bytes of [ahead] that lie in the 8 KiB chunk in which the request ends: for a
    request that ends in the first chunk, all of them up to the first 8192 bytes of the
    segment. *)
Theorem pipelined_bytes_lost `{PasswordVerify} `{HashOrder} `{UnicodeCase} `{Base64}
    (config : Config) (authenticator : option AnyAuthenticator) (fuel : nat) (s : sid)
    (m u v : bytes) (hs : list (bytes * bytes)) (ahead : bytes) (w : world Shared) :
  auth_enabled (auth config) = false →
  word m → word u → word v → Forall header_wf hs →
  Z.of_nat (length (request_text m u v hs)) < max_request_size (security config) →
  w_streams w !! s = Some (incoming [request_text m u v hs ++ ahead]) →
  let request := {| method := m; uri := u; version := v; headers := insert_all ∅ hs |} in
  let handler := http_handler config authenticator in
  ∃ w', stream_at s (drop (ahead_of (length (request_text m u v hs))) ahead) w' ∧
    (run script (handle_http_connection fuel config authenticator s) w).1
    = (run script (if is_connect request then
                     hp <-? Ret (get_host_port request) ;;
                     handle_connect fuel handler s hp.1 hp.2
                   else handle_regular_proxy fuel handler s request) w').1.
Proof.
  intros Hauth Hm Hu Hv Hhs Hlen Hst request handler. set (text := request_text m u v hs) in *.
  set (w1 := set_streams w (<[s := {| st_segs := [text ++ ahead] ≫= chunks; st_buf := Some [];
                                      st_tx := [] |}]> (w_streams w))).
  destruct (handle_request_text (chunked_stream (length (text ++ ahead))) handler s m u v hs ahead w1
    (chunked_stable _)) as (w2 & Hr & st & Hst2 & Hp & Hc); [done..| |].
  { eexists. split; [cbn; by rewrite lookup_insert_eq|]. split; [|apply chunked_new].
    unfold pending. pose proof (concat_bind_chunks [text ++ ahead]) as Hc. cbn in Hc |- *.
    by rewrite Hc, app_nil_r. }
  exists (set_streams w2 (<[s := {| st_segs := st_segs st; st_buf := None; st_tx := st_tx st |}]>
                            (w_streams w2))). split.
  { eexists. split; [cbn; by rewrite lookup_insert_eq|]. split; [|done]. exact (chunked_left text ahead st Hc Hp). }
  unfold handle_http_connection. cbn [bind perform]. fold handler. cbn [run].
  assert (script unit (BufReaderNew s) w = ((), w1)) as ->.
  { cbn [script]. unfold on_stream. by rewrite Hst. }
  rewrite run_bind_q. destruct (run script (handle_request handler s) w1) as [[r w3] t]. cbn in Hr.
  simplify_eq. fold request. unfold validate_auth. cbn [handler http_handler hp_config]. rewrite Hauth.
  cbn [negb bind run].
  assert (script unit (BufReaderIntoInner s) w2 = ((), set_streams w2 (<[s := {|
      st_segs := st_segs st; st_buf := None; st_tx := st_tx st |}]> (w_streams w2)))) as ->.
  { cbn. unfold on_stream. by rewrite Hst2. }
  fold handler. by destruct (run script _ (set_streams w2 _)) as [[a w4] t4].
Qed.

Definition post (segs : list bytes) : world Shared :=
  client_world blocking_state [] segs.

Definition post_head : bytes := request_text "POST" "http://h/" "HTTP/1.1" [("content-length" : bytes, "5" : bytes)].

(** The bytes that reached stream 10, the target's. *)
Definition reached (x : result unit * world Shared * list (event Shared)) : bytes :=
  match w_streams (state_of x) !! 10%nat with Some st => st_tx st | None => [] end.

Lemma pipelined_bytes_lost_witness :
  let _ := tag_verify in let _ := map_order in let _ := ascii_only_case in let _ := plain_base64 in
  let go segs := run script (handle_http_connection 0 Config_default None 7) (post segs) in
  reached (go [post_head; "a=b&c" : bytes]) = post_head ++ "a=b&c" ∧
  reached (go [post_head ++ "a=b&c"]) = post_head ∧
  ∃ w', stream_at 7 [] w' ∧
    (go [post_head ++ "a=b&c"]).1 =
    (run script (handle_regular_proxy 0 (http_handler Config_default None) 7
       {| method := "POST"; uri := "http://h/"; version := "HTTP/1.1";
          headers := {[ bstr "content-length" := bstr "5" ]} |}) w').1.
Proof.
  intros H1 H2 H3 H4 go. split; [vm_compute; reflexivity|]. split; [vm_compute; reflexivity|].
  refine (pipelined_bytes_lost Config_default None 0 7 "POST" "http://h/" "HTTP/1.1"
    [("content-length" : bytes, "5" : bytes)] "a=b&c" (post [post_head ++ "a=b&c"]) _ _ _ _ _ _ _).
  - reflexivity.
  - apply wordb_word. vm_compute. reflexivity.
  - apply wordb_word. vm_compute. reflexivity.
  - apply wordb_word. vm_compute. reflexivity.
  - constructor; [|constructor]. apply header_wfb_wf. vm_compute. reflexivity.
  - vm_compute. reflexivity.
  - reflexivity.
Defined.
