(* ===== verification/Admin.v ===== *)
(** * The admin API (src/src/admin.rs, lines 65-499)

    Requests, responses, bearer and basic authentication, the endpoints, and the masking
    of secrets in [GET /config]. The token store is in Tokens.v. *)

From S2P Require Import Prelude Float64 RustStr IpAddr Effects Script Config Policy Upstream.
From S2P Require Import Users Auth Metrics Socks5 RateLimit Http Tokens Server.

Local Open Scope Z_scope.
Local Open Scope rust_scope.

(** ** JSON *)

(** [serde_json::Value]. *)
Inductive Value : Type :=
  | VNull
  | VBool (b : bool)
  | VNumber (n : Z)
  | VString (s : bytes)
  | VArray (l : list Value)
  | VObject (l : list (bytes * Value)).

(** The text of values, and of a string as a JSON literal: serde_json. *)
Class SerdeJson := {
  json_to_string : Value → bytes;
  json_to_string_pretty : Value → result bytes;
}.

Definition v_opt {A} (f : A → Value) (o : option A) : Value :=
  match o with Some a => f a | None => VNull end.
Definition v_strings (l : list bytes) : Value := VArray (VString <$> l).

(** What the [Serialize] derived for the configuration types yields: a map of the field
    names, the backend flattened into the [auth] map with its tag [type]. *)
Definition hash_type_value (t : HashType) : Value :=
  VString (match t with Argon2 => "argon2" | Bcrypt => "bcrypt" | Scrypt => "scrypt" end).

Definition backend_fields (b : AuthBackendConfig) : list (bytes * Value) :=
  match b with
  | CfgSimple f => [("type" : bytes, VString "simple"); ("user_config_file" : bytes, VString f)]
  | CfgPam s => [("type" : bytes, VString "pam"); ("service" : bytes, VString s)]
  | CfgLdap url base_dn bind_dn bind_password user_filter =>
      [("type" : bytes, VString "ldap"); ("url" : bytes, VString url);
       ("base_dn" : bytes, VString base_dn); ("bind_dn" : bytes, v_opt VString bind_dn);
       ("bind_password" : bytes, v_opt VString bind_password);
       ("user_filter" : bytes, VString user_filter)]
  | CfgDatabase db_type url query t =>
      [("type" : bytes, VString "database"); ("db_type" : bytes, VString db_type);
       ("url" : bytes, VString url); ("query" : bytes, VString query);
       ("hash_type" : bytes, hash_type_value t)]
  | CfgNone => [("type" : bytes, VString "none")]
  end.

Definition server_value (s : ServerConfig) : Value := VObject
  [("bind_address" : bytes, VString (srv_bind_address s));
   ("socks5_port" : bytes, VNumber (srv_socks5_port s));
   ("http_port" : bytes, VNumber (srv_http_port s));
   ("max_connections" : bytes, VNumber (srv_max_connections s));
   ("connection_timeout" : bytes, VNumber (srv_connection_timeout s));
   ("buffer_size" : bytes, VNumber (srv_buffer_size s))].

Definition auth_value (a : AuthConfig) : Value :=
  VObject (("enabled" : bytes, VBool (auth_enabled a)) :: backend_fields (auth_backend a)).

Definition logging_value (l : LoggingConfig) : Value := VObject
  [("level" : bytes, VString (log_level l)); ("file" : bytes, v_opt VString (log_file l));
   ("console" : bytes, VBool (log_console l)); ("journald" : bytes, VBool (log_journald l))].

Definition rate_limit_value (r : RateLimitConfig) : Value := VObject
  [("requests_per_minute" : bytes, VNumber (requests_per_minute r));
   ("burst_size" : bytes, VNumber (burst_size r))].

Definition security_value (s : SecurityConfig) : Value := VObject
  [("allowed_networks" : bytes, v_strings (allowed_networks s));
   ("blocked_domains" : bytes, v_strings (blocked_domains s));
   ("allowed_egress_networks" : bytes, v_strings (allowed_egress_networks s));
   ("blocked_egress_networks" : bytes, v_strings (blocked_egress_networks s));
   ("max_request_size" : bytes, VNumber (max_request_size s));
   ("rate_limit" : bytes, v_opt rate_limit_value (rate_limit s))].

Definition upstream_value (u : UpstreamConfig) : Value := VObject
  [("enabled" : bytes, VBool (up_enabled u));
   ("protocol" : bytes, v_opt (λ p, VString (match p with Socks5 => "socks5" | Http => "http" end))
                          (up_protocol u));
   ("address" : bytes, v_opt VString (up_address u)); ("port" : bytes, v_opt VNumber (up_port u));
   ("username" : bytes, v_opt VString (up_username u));
   ("password" : bytes, v_opt VString (up_password u));
   ("exclude_networks" : bytes, v_strings (up_exclude_networks u));
   ("exclude_domains" : bytes, v_strings (up_exclude_domains u));
   ("prefer_env" : bytes, VBool (up_prefer_env u))].

Definition admin_value (a : AdminConfig) : Value := VObject
  [("enabled" : bytes, VBool (adm_enabled a));
   ("bind_address" : bytes, VString (adm_bind_address a));
   ("port" : bytes, VNumber (adm_port a)); ("token" : bytes, v_opt VString (adm_token a));
   ("admin_users" : bytes, v_strings (adm_admin_users a));
   ("token_ttl" : bytes, VNumber (adm_token_ttl a))].

Definition config_value (c : Config) : Value := VObject
  [("server" : bytes, server_value (server c)); ("auth" : bytes, auth_value (auth c));
   ("logging" : bytes, logging_value (logging c));
   ("security" : bytes, security_value (security c));
   ("upstream" : bytes, upstream_value (upstream c));
   ("admin" : bytes, admin_value (admin c))].

(** ** Masking *)

Definition v_get (k : bytes) (l : list (bytes * Value)) : option Value :=
  snd <$> find (λ p, bool_decide (p.1 = k)) l.

(** [obj[k] = v] for a key that is there. *)
Definition v_set (k : bytes) (v : Value) (l : list (bytes * Value)) : list (bytes * Value) :=
  (λ p : bytes * Value, if bool_decide (p.1 = k) then (k, v) else p) <$> l.

(** [if let Some(o) = obj.get_mut(k).and_then(|v| v.as_object_mut()) { f(o) }] *)
Definition on_object (k : bytes) (f : list (bytes * Value) → list (bytes * Value))
    (l : list (bytes * Value)) : list (bytes * Value) :=
  match v_get k l with
  | Some (VObject o) => v_set k (VObject (f o)) l
  | _ => l
  end.

(** [if o.contains_key(k) && !o[k].is_null() { o[k] = "******" }] *)
Definition mask_key (k : bytes) (o : list (bytes * Value)) : list (bytes * Value) :=
  match v_get k o with
  | Some VNull | None => o
  | Some _ => v_set k (VString "******") o
  end.

Definition get_masked_config (c : Config) : Value :=
  match config_value c with
  | VObject obj =>
      VObject (on_object "auth" (on_object "backend" (λ b, mask_key "url" (mask_key "bind_password" b)))
        (on_object "upstream" (mask_key "password")
          (on_object "admin" (mask_key "token") obj)))
  | v => v
  end.

(** ** Requests and responses *)

Record AdminRequest : Type := {
  ar_method : bytes;
  ar_path : bytes;
  ar_headers : gmap bytes bytes;
  ar_body : bytes;
}.

Definition MAX_ADMIN_REQUEST_SIZE : Z := 1024 * 1024.

Definition response_text (status : Z) (status_text content_type body : bytes)
    (extra_headers : list (bytes * bytes)) : bytes :=
  "HTTP/1.1 " ++ dec status ++ " " ++ status_text ++ crlf
  ++ "Content-Type: " ++ content_type ++ crlf
  ++ "Content-Length: " ++ dec (Z.of_nat (length body)) ++ crlf
  ++ "Connection: close" ++ crlf
  ++ (extra_headers ≫= λ kv, kv.1 ++ ": " ++ kv.2 ++ crlf)
  ++ crlf ++ body.

Section admin.
Context `{PasswordVerify} `{UserYaml} `{ConfigYaml} `{HashOrder} `{UnicodeCase} `{Base64} `{SerdeJson}.

(** The loop over the header lines; unlike the proxy's it accepts the end of the input,
    or of the size limit, as the end of the headers. *)
Fixpoint read_admin_headers (fuel : nat) (s : sid) (limit : Z) (hs : gmap bytes bytes)
  : prog Shared (result (gmap bytes bytes)) :=
  match fuel with
  | O => Ret (Err out_of_fuel)
  | S fuel' =>
      line <-? perform (ReadLine s (Some limit)) ;;
      if bool_decide (line = []) then Ret (Ok hs)
      else if bool_decide (trim line = []) then Ret (Ok hs)
      else read_admin_headers fuel' s (limit - Z.of_nat (length line)) (insert_header line hs)
  end.

Definition read_body (s : sid) (hs : gmap bytes bytes) : prog Shared (result bytes) :=
  match hs !! bstr "content-length" ≫= parse_uint U64_MAX with
  | Some cl =>
      if MAX_ADMIN_REQUEST_SIZE <? cl
      then Ret (Err ("Request body exceeds limit (" ++ dec cl ++ " bytes)"))
      else perform (ReadExact s (Z.to_nat cl))
  | None => Ret (Ok [])
  end.

Definition read_request (s : sid) : prog Shared (result AdminRequest) :=
  _ <- perform (BufReaderNew s) ;;
  line <-? perform (ReadLine s (Some MAX_ADMIN_REQUEST_SIZE)) ;;
  match split_whitespace (trim line) with
  | m :: path :: _ :: _ =>
      let limit := MAX_ADMIN_REQUEST_SIZE - Z.of_nat (length line) in
      hs <-? read_admin_headers (S (Z.to_nat limit)) s limit ∅ ;;
      body <-? read_body s hs ;;
      Ret (Ok {| ar_method := to_uppercase m; ar_path := path; ar_headers := hs; ar_body := body |})
  | _ => Ret (Err ("Invalid request line: " ++ line))
  end.

Definition send_admin_response (s : sid) (status : Z) (status_text content_type body : bytes)
    (extra_headers : list (bytes * bytes)) : prog Shared (result unit) :=
  _ <-? perform (WriteAll s (response_text status status_text content_type body extra_headers)) ;;
  _ <-? perform (Flush s) ;;
  Ret (Ok tt).

(** ** Authentication *)

(** Whether the request carries a valid bearer token; an error is a panic. *)
Definition authenticate_request (req : AdminRequest) (config : Config) : prog Shared (result bool) :=
  match ar_headers req !! bstr "authorization" with
  | None => Ret (Ok false)
  | Some auth_header =>
      if negb (starts_with "Bearer " auth_header) then Ret (Ok false)
      else
        let token := drop 7 auth_header in
        if bool_decide (adm_token (admin config) = Some token) then Ret (Ok true)
        else
          v <-? validate_token token ;;
          Ret (Ok (is_some v))
  end.

(** [parse_basic_auth] is the proxy's [basic_credentials] under another name. *)
Definition parse_basic_auth (auth_header : bytes) : option (bytes * bytes) :=
  if negb (starts_with "Basic " auth_header) then None
  else match b64_decode (drop 6 auth_header) with
       | Some decoded =>
           match from_utf8 decoded with
           | Some decoded_str =>
               match splitn2 colon decoded_str with
               | [u; p] => Some (u, p)
               | _ => None
               end
           | None => None
           end
       | None => None
       end.

Definition realm : list (bytes * bytes) :=
  [("WWW-Authenticate" : bytes, q "Basic realm=`Admin API`")].

(** ** Bodies *)

Definition json_error (valid : bool) (error : bytes) : bytes :=
  json_to_string (VObject [("valid" : bytes, VBool valid); ("error" : bytes, VString error)]).

Definition json_status (status : bytes) (error : option bytes) : bytes :=
  json_to_string (VObject (("status" : bytes, VString status) ::
    match error with Some e => [("error" : bytes, VString e)] | None => [] end)).

Definition metric_lines (name help type : bytes) (v : Z) : bytes :=
  "# HELP " ++ name ++ " " ++ help ++ [lf] ++ "# TYPE " ++ name ++ " " ++ type ++ [lf]
  ++ name ++ " " ++ dec v ++ [lf].

Definition prometheus_body (m : ServerMetrics) : bytes :=
  metric_lines "rust_socksd_active_connections" "Number of active connections" "gauge"
    (active_connections m)
  ++ metric_lines "rust_socksd_total_connections" "Total connections accepted" "counter"
    (total_connections m)
  ++ metric_lines "rust_socksd_bytes_tx" "Total bytes transmitted (client to target)" "counter"
    (bytes_tx m)
  ++ metric_lines "rust_socksd_bytes_rx" "Total bytes received (target to client)" "counter"
    (bytes_rx m)
  ++ metric_lines "rust_socksd_auth_failures" "Total authentication failures" "counter"
    (auth_failures m).

(** Five loads, each of one counter at its own moment. *)
Definition load (f : ServerMetrics → Z) : prog Shared Z :=
  perform (Locked Atomic (λ sh, (f (sh_metrics sh), sh))).

Definition load_metrics : prog Shared ServerMetrics :=
  active <- load active_connections ;;
  total <- load total_connections ;;
  tx <- load bytes_tx ;;
  rx <- load bytes_rx ;;
  auth_fails <- load auth_failures ;;
  Ret {| active_connections := active; total_connections := total; bytes_tx := tx;
         bytes_rx := rx; auth_failures := auth_fails |}.

(** ** Endpoints *)

Definition login (ttl : Z) (s : sid) (req : AdminRequest) : prog Shared (result unit) :=
  match ar_headers req !! bstr "authorization" with
  | None =>
      send_admin_response s 401 "Unauthorized" "text/plain" "Authorization header required" realm
  | Some auth_header =>
      match parse_basic_auth auth_header with
      | None =>
          send_admin_response s 400 "Bad Request" "text/plain" "Invalid Basic Auth format" []
      | Some (username, password) =>
          st <- read_state ;;
          r <- (match ss_authenticator st with
                | Some a => authenticate (dyn a) username password
                | None => Ret (Ok false)
                end) ;;
          let auth_success := match r with Ok valid => valid | Err _ => false end in
          if auth_success then
            if bool_decide (username ∈ adm_admin_users (admin (ss_config st))) then
              token <-? generate_token ttl username ;;
              send_admin_response s 200 "OK" "application/json"
                (q "{`token`:`" ++ token ++ q "`,`expires_in`:"
                 ++ dec (adm_token_ttl (admin (ss_config st))) ++ "}") []
            else
              send_admin_response s 403 "Forbidden" "text/plain" "Forbidden: User is not an admin" []
          else
            _ <- count count_auth_failure ;;
            send_admin_response s 401 "Unauthorized" "text/plain" "Invalid username or password" realm
      end
  end.

Definition config_validate (s : sid) (body : bytes) : prog Shared (result unit) :=
  match config_from_yaml (from_utf8_lossy body) with
  | Ok c =>
      match validate c with
      | Ok _ => send_admin_response s 200 "OK" "application/json" (q "{`valid`:true}") []
      | Err e => send_admin_response s 400 "Bad Request" "application/json" (json_error false e) []
      end
  | Err e =>
      send_admin_response s 400 "Bad Request" "application/json"
        (json_error false ("YAML parsing failed: " ++ e)) []
  end.

(** The settings a running server cannot change. *)
Definition same_endpoints (new_config config : Config) : bool :=
  (srv_socks5_port (server new_config) =? srv_socks5_port (server config))
  && (srv_http_port (server new_config) =? srv_http_port (server config))
  && bool_decide (srv_bind_address (server new_config) = srv_bind_address (server config))
  && (adm_port (admin new_config) =? adm_port (admin config))
  && bool_decide (adm_bind_address (admin new_config) = adm_bind_address (admin config)).

(** [state.write()] and the two assignments through the guard, which is then still held. *)
Definition set_state (st : ServerState) : prog Shared unit :=
  perform (Locked WriteGuard (λ sh, (tt, {| sh_state := st; sh_metrics := sh_metrics sh;
                                            sh_buckets := sh_buckets sh; sh_tokens := sh_tokens sh |}))).

(** The end of the match arm, or the [?] in it: the guard is dropped. *)
Definition drop_guard : prog Shared unit := perform (Locked DropWrite (λ sh, (tt, sh))).

Definition config_reload (s : sid) (config_path : bytes) (config : Config) : prog Shared (result unit) :=
  r <- load_from_file config_path ;;
  match r with
  | Ok new_config =>
      if negb (same_endpoints new_config config) then
        send_admin_response s 400 "Bad Request" "application/json"
          (q "{`status`:`failed`,`error`:`Cannot change bind addresses or ports at runtime. Please restart the service.`}") []
      else
        a <- create_authenticator (auth new_config) ;;
        match a with
        | Ok new_auth =>
            _ <- set_state {| ss_config := new_config; ss_authenticator := new_auth |} ;;
            r <- send_admin_response s 200 "OK" "application/json" (q "{`status`:`reloaded`}") [] ;;
            _ <- drop_guard ;;
            Ret r
        | Err e =>
            send_admin_response s 500 "Internal Server Error" "application/json"
              (json_status "failed" (Some ("Failed to recreate authenticator: " ++ e))) []
        end
  | Err e =>
      send_admin_response s 400 "Bad Request" "application/json"
        (json_status "failed" (Some ("Failed to load/validate config: " ++ e))) []
  end.

Definition authenticated_endpoint (s : sid) (config_path : bytes) (config : Config)
    (req : AdminRequest) : prog Shared (result unit) :=
  let route m p := bool_decide (ar_method req = m) && bool_decide (ar_path req = p) in
  if route "GET" "/metrics" then
    m <- load_metrics ;;
    send_admin_response s 200 "OK" "text/plain; version=0.0.4" (prometheus_body m) []
  else if route "GET" "/config" then
    match json_to_string_pretty (get_masked_config config) with
    | Ok json => send_admin_response s 200 "OK" "application/json" json []
    | Err e =>
        send_admin_response s 500 "Internal Server Error" "text/plain"
          ("Failed to serialize config: " ++ e) []
    end
  else if route "POST" "/config/validate" then config_validate s (ar_body req)
  else if route "POST" "/config/reload" then config_reload s config_path config
  else send_admin_response s 404 "Not Found" "text/plain" "Not Found" [].

(** [ttl] is the lifetime the token store was created with. *)
Definition handle_admin_connection (ttl : Z) (config_path : bytes) (s : sid)
  : prog Shared (result unit) :=
  r <- read_request s ;;
  match r with
  | Err e =>
      _ <-? send_admin_response s 400 "Bad Request" "text/plain" ("Failed to parse request: " ++ e) [] ;;
      Ret (Err e)
  | Ok req =>
      if bool_decide (ar_method req = "GET") && bool_decide (ar_path req = "/health") then
        send_admin_response s 200 "OK" "application/json" (q "{`status`:`ok`}") []
      else if bool_decide (ar_method req = "POST") && bool_decide (ar_path req = "/login") then
        login ttl s req
      else
        st <- read_state ;;
        ok <-? authenticate_request req (ss_config st) ;;
        if negb ok then
          send_admin_response s 401 "Unauthorized" "text/plain"
            "Unauthorized: Valid Bearer token required" []
        else authenticated_endpoint s config_path (ss_config st) req
  end.

End admin.

(** ** The bearer gate *)

Section bearer.
Context `{PasswordVerify} `{UserYaml} `{ConfigYaml} `{HashOrder} `{UnicodeCase} `{Base64} `{SerdeJson}.
Implicit Types tr : list (event Shared).

(** The answers anyone may see: refusals, the health check, and a login's new token. *)
Definition refusals : list bytes :=
  [response_text 401 "Unauthorized" "text/plain" "Authorization header required" realm;
   response_text 400 "Bad Request" "text/plain" "Invalid Basic Auth format" [];
   response_text 403 "Forbidden" "text/plain" "Forbidden: User is not an admin" [];
   response_text 401 "Unauthorized" "text/plain" "Invalid username or password" realm;
   response_text 401 "Unauthorized" "text/plain" "Unauthorized: Valid Bearer token required" []].

Definition public_text (bs : bytes) : Prop :=
  bs ∈ refusals ∨
  (∃ e, bs = response_text 400 "Bad Request" "text/plain" ("Failed to parse request: " ++ e) []) ∨
  bs = response_text 200 "OK" "application/json" (q "{`status`:`ok`}") [] ∨
  ∃ token n, bs = response_text 200 "OK" "application/json"
    (q "{`token`:`" ++ token ++ q "`,`expires_in`:" ++ dec n ++ "}") [].

(** What needs no bearer token: no file is touched, no file, configuration or metric is
    shown, and the server's state stays as it is. *)
Definition needs_no_token {R} (e : eff Shared R) : Prop :=
  match e with
  | ReadFile _ | WriteFile _ _ | PathExists _ => False
  | WriteAll _ bs => public_text bs
  | _ => keeps sh_state e
  end.

Lemma read_admin_headers_plain (P : ∀ R, eff Shared R → Prop) fuel s limit hs :
  (∀ lim, P _ (ReadLine s lim)) → emits P (read_admin_headers fuel s limit hs).
Proof.
  intros HP. revert limit hs. induction fuel as [|fuel IH]; intros limit hs; [done|].
  cbn [read_admin_headers]. emits_tac ltac:(apply IH); apply HP.
Qed.

Lemma read_request_plain (P : ∀ R, eff Shared R → Prop) s :
  P _ (BufReaderNew s) → (∀ lim, P _ (ReadLine s lim)) → (∀ n, P _ (ReadExact s n)) →
  emits P (read_request s).
Proof.
  intros ???. unfold read_request, read_body.
  emits_tac ltac:(by apply read_admin_headers_plain); by auto.
Qed.

Lemma send_admin_plain (P : ∀ R, eff Shared R → Prop) s status text ct body hs :
  P _ (WriteAll s (response_text status text ct body hs)) → P _ (Flush s) →
  emits P (send_admin_response s status text ct body hs).
Proof. intros Hw Hf. unfold send_admin_response. emits_tac idtac; done. Qed.

Lemma login_needs_no_token ttl s req : emits (λ R e, needs_no_token e) (login ttl s req).
Proof.
  unfold login, generate_token, count, read_state.
  emits_tac ltac:(first
    [ by eapply emits_mono, dyn_backend_events; intros R []
    | apply send_admin_plain; [|done]; cbn [needs_no_token];
      first [left; unfold refusals; set_solver | right; right; right; eauto] ]);
    cbn -[get_metrics]; try done.
  intros sh. by case_match.
Qed.

(** The state that was read, and a successful check of a token in the store. *)
Definition state_was (st : ServerState) : event Shared := Ev (Locked ReadGuard (λ sh, (sh_state sh, sh))) st.
Definition token_found (clock : nat → Z) (token user : bytes) : event Shared :=
  Ev (Locked Atomic (λ sh, let '(r, t) := lookup_token clock token (get_tokens sh) in
                    (r, put_tokens t sh))) (Ok (Some user)).

(** The client's own request carries a bearer token that is the configuration's, as last
    read, or was found in the store. *)
Definition bearer_shown (c : sid) tr : Prop := ∃ t req token st,
  t `prefix_of` tr ∧ yields (read_request c) t (Ok req) ∧
  ar_headers req !! bstr "authorization" = Some (bstr "Bearer " ++ token) ∧
  state_was st ∈ tr ∧
  (adm_token (admin (ss_config st)) = Some token ∨ ∃ clock u, token_found clock token u ∈ tr).

Lemma bearer_shown_mono c tr tr' : bearer_shown c tr → bearer_shown c (tr ++ tr').
Proof.
  intros (t & req & token & st & Hp & Hy & Hh & Hs & Ht). exists t, req, token, st.
  split; [by apply prefix_app_r|]. split; [done|]. split; [done|].
  split; [apply elem_of_app; by left|]. destruct Ht as [?|(k & u & ?)]; [by left|].
  right. exists k, u. apply elem_of_app. by left.
Qed.

Lemma authenticate_request_spec req c tr :
  wp (@any_resp Shared) (authenticate_request req c)
    (λ r tr', tr `prefix_of` tr' ∧ (r = Ok true → ∃ token,
       ar_headers req !! bstr "authorization" = Some (bstr "Bearer " ++ token) ∧
       (adm_token (admin c) = Some token ∨ ∃ clock u, token_found clock token u ∈ tr'))) tr.
Proof.
  apply wp_and; [apply wp_prefix|]. unfold authenticate_request.
  destruct (ar_headers req !! _) as [hd|]; [|by cbn].
  destruct (starts_with "Bearer " hd) eqn:Hs; cbn [negb]; [|by cbn].
  apply starts_with_spec in Hs as [token ->]. change (drop 7 (bstr "Bearer " ++ token)) with token.
  case_bool_decide as Ht; cbn.
  - intros _. exists token. auto.
  - intros clock _ [[u|]|e] _; cbn; [|done|done]. intros _. exists token. split; [done|]. right.
    exists clock, u. set_solver.
Qed.

Lemma authenticate_request_needs_no_token req c :
  emits (λ R e, needs_no_token e) (authenticate_request req c).
Proof.
  unfold authenticate_request, validate_token. emits_tac idtac; cbn; try done.
  intros sh. by case_match.
Qed.

Lemma admin_guarded ttl path c :
  guarded (λ R e, needs_no_token e) (bearer_shown c) (handle_admin_connection ttl path c) [].
Proof.
  unfold handle_admin_connection. apply guarded_bind.
  { by apply guarded_free, read_request_plain. }
  eapply wp_mono; [|apply wp_yields]. intros [req|e] tr (t & -> & Hy); cbn [app].
  2: { apply guarded_free. emits_tac ltac:(apply send_admin_plain; [right; left; eauto|done]). }
  destruct (_ && _).
  { apply guarded_free, send_admin_plain; [|done]. right. right. by left. }
  destruct (_ && _); [apply guarded_free, login_needs_no_token|].
  cbn [bind]. split; [by left|]. intros st. apply guarded_bind_q.
  { apply guarded_free, authenticate_request_needs_no_token. }
  eapply wp_mono; [|apply authenticate_request_spec]. intros r tr [Hpre Hok] [] ->; cbn [negb].
  2: { apply guarded_free, send_admin_plain; [|done]. left. unfold refusals. set_solver. }
  destruct (Hok eq_refl) as (token & Hh & Ht).
  apply guarded_open; [apply bearer_shown_mono|]. exists t, req, token, st.
  split; [etrans; [by apply prefix_app_r|exact Hpre]|]. do 2 (split; [done|]).
  split; [|done]. destruct Hpre as [k ->]. set_solver.
Qed.

End bearer.

(** C2. The bearer gate. Whatever a client of the admin port sends, and whatever every
    other part of the world answers, nothing privileged happens before the client's own
    request has shown a bearer token equal to the static token of the configuration in
    force, or found in the token store: until then no file is read or written, the
    server's configuration and authenticator stay as they are, and all the client is
    sent is a fixed refusal, the health check, or the token of its own login. *)
Theorem admin_gate `{PasswordVerify} `{UserYaml} `{ConfigYaml} `{HashOrder} `{UnicodeCase}
    `{Base64} `{SerdeJson} {St} (h : handler Shared St) (s : St) (ttl : Z) (path : bytes) (c : sid)
    (l : list (event Shared)) (x : event Shared) (r : list (event Shared)) :
  trace_of (run h (handle_admin_connection ttl path c) s) = l ++ x :: r →
  ¬ ev_sat (λ R e, needs_no_token e) x →
  bearer_shown c l.
Proof.
  apply (guarded_run _ (bearer_shown c) h _ s [] l x r), admin_guarded.
Qed.

(** ** The login gate *)

Section login.
Context `{PasswordVerify} `{UserYaml} `{ConfigYaml} `{HashOrder} `{UnicodeCase} `{Base64} `{SerdeJson}.
Implicit Types tr : list (event Shared).

(** No token appears in the store. *)
Definition issues_no_token {R} (e : eff Shared R) : Prop :=
  match e with
  | Locked _ f => ∀ sh k, is_Some (tt_tokens (sh_tokens (f sh).2) !! k) → is_Some (tt_tokens (sh_tokens sh) !! k)
  | _ => True
  end.

(** The request's own credentials name an administrator of the configuration, and the
    backend built from that configuration has its evidence for them. *)
Definition admin_login (c : sid) tr : Prop := ∃ t req v u p st,
  t `prefix_of` tr ∧ yields (read_request c) t (Ok req) ∧
  ar_method req = "POST" ∧ ar_path req = "/login" ∧
  ar_headers req !! bstr "authorization" = Some v ∧ parse_basic_auth v = Some (u, p) ∧
  state_was st ∈ tr ∧ u ∈ adm_admin_users (admin (ss_config st)) ∧
  ss_authenticator st ≠ None ∧
  ∀ table, state_built st table → login_evidence (auth (ss_config st)) table u p tr.

Lemma admin_login_mono c tr tr' : admin_login c tr → admin_login c (tr ++ tr').
Proof.
  intros (t & req & v & u & p & st & Hp & Hy & Hm & Hpa & Hh & Hb & Hs & Hu & Ha & He).
  exists t, req, v, u, p, st. split; [by apply prefix_app_r|]. do 5 (split; [done|]).
  split; [apply elem_of_app; by left|]. do 2 (split; [done|]).
  intros table Hst. by apply login_evidence_mono, He.
Qed.

(** An access that does not change the tokens. *)
Ltac same_tokens := first [exact I | by intros ??; cbn].

Lemma send_admin_issues_none s status text ct body hs :
  emits (λ R e, issues_no_token e) (send_admin_response s status text ct body hs).
Proof. by apply send_admin_plain. Qed.

Lemma dyn_issues_none (a : AnyAuthenticator) u p :
  emits (λ R (e : eff Shared R), issues_no_token e) (authenticate (dyn a) u p).
Proof. by eapply emits_mono, dyn_backend_events; intros R []. Qed.

Lemma create_authenticator_outside (P : ∀ R, eff Shared R → Prop) c :
  (∀ f, P _ (ReadFile f)) → (∀ b url, P _ (SqlConnect b url)) → emits P (create_authenticator c).
Proof.
  intros. unfold create_authenticator, some_ok, SimpleAuthenticator_load_from_file, load_users,
    SqlAuthenticator_new. emits_tac idtac; auto.
Qed.

Lemma authenticate_request_issues_none req c :
  emits (λ R e, issues_no_token e) (authenticate_request req c).
Proof.
  unfold authenticate_request, validate_token. emits_tac idtac; try exact I.
  intros sh k. cbn. unfold lookup_token. destruct (tt_poisoned (sh_tokens sh)); [done|]. cbn.
  intros [i Hi%drop_expired_sub]. by exists i.
Qed.

Lemma authenticated_endpoint_issues_none s path c req :
  emits (λ R e, issues_no_token e) (authenticated_endpoint s path c req).
Proof.
  unfold authenticated_endpoint, load_metrics, load, config_validate, config_reload, load_from_file, set_state, drop_guard.
  emits_tac ltac:(first [apply send_admin_issues_none | by apply create_authenticator_outside]); same_tokens.
Qed.

Lemma login_guarded ttl s req t :
  yields (read_request s) t (Ok req) → ar_method req = "POST" → ar_path req = "/login" →
  guarded (λ R e, issues_no_token e) (admin_login s) (login ttl s req) t.
Proof.
  intros Hy Hm Hp. unfold login.
  destruct (ar_headers req !! _) as [v|] eqn:Hv; [|apply guarded_free, send_admin_issues_none].
  destruct (parse_basic_auth v) as [[u p]|] eqn:Hb; [|apply guarded_free, send_admin_issues_none].
  cbn [bind perform read_state]. split; [by left; cbn|]. intros st.
  destruct (ss_authenticator st) as [a|] eqn:Ha.
  2: { apply guarded_free. cbn [bind]. unfold count. emits_tac ltac:(apply send_admin_issues_none); same_tokens. }
  apply guarded_bind; [by apply guarded_free, dyn_issues_none|].
  eapply wp_mono; [|apply wp_and; [apply wp_prefix|];
    apply (wp_forall _ _ (λ (T : { table | state_built st table }) r tr', r = Ok true →
      login_evidence (auth (ss_config st)) (`T) u p tr'))].
  2: { intros [table HT]. by apply built_evidence, HT. }
  cbn beta. intros r tr [[k ->] He].
  destruct r as [[]|e]; cbv beta iota;
    [|apply guarded_free; unfold count; emits_tac ltac:(apply send_admin_issues_none); same_tokens..].
  case_bool_decide as Hu; [|apply guarded_free, send_admin_issues_none].
  apply guarded_open; [apply admin_login_mono|]. exists t, req, v, u, p, st.
  split; [rewrite <- app_assoc; by apply prefix_app_r|]. do 5 (split; [done|]).
  split; [apply elem_of_app; left; apply elem_of_app; right; by apply list_elem_of_singleton|].
  split; [done|]. split; [by rewrite Ha|]. intros table HT. by apply (He (table ↾ HT)).
Qed.

Lemma admin_login_guarded ttl path c :
  guarded (λ R e, issues_no_token e) (admin_login c) (handle_admin_connection ttl path c) [].
Proof.
  unfold handle_admin_connection. apply guarded_bind.
  { by apply guarded_free, read_request_plain. }
  eapply wp_mono; [|apply wp_yields]. intros [req|e] tr (t & -> & Hy); cbn [app].
  2: { apply guarded_free. emits_tac ltac:(apply send_admin_issues_none). }
  destruct (_ && _); [apply guarded_free, send_admin_issues_none|].
  destruct (_ && _) eqn:Hr.
  { apply andb_true_iff in Hr as [Hm%bool_decide_eq_true Hp%bool_decide_eq_true].
    by apply login_guarded. }
  apply guarded_free. unfold read_state. emits_tac ltac:(first [apply authenticate_request_issues_none
    | apply send_admin_issues_none | apply authenticated_endpoint_issues_none]); same_tokens.
Qed.

End login.

(** C3. The login gate. A token enters the store only when the request just read is
    [POST /login] with basic credentials whose user is listed in [admin_users] of the
    configuration in force, and the backend built from that configuration has given its
    evidence for exactly that user name and password; without a backend no token is
    ever issued. *)
Theorem login_gate `{PasswordVerify} `{UserYaml} `{ConfigYaml} `{HashOrder} `{UnicodeCase}
    `{Base64} `{SerdeJson} {St} (h : handler Shared St) (s : St) (ttl : Z) (path : bytes) (c : sid)
    (l : list (event Shared)) (x : event Shared) (r : list (event Shared)) :
  trace_of (run h (handle_admin_connection ttl path c) s) = l ++ x :: r →
  ¬ ev_sat (λ R e, issues_no_token e) x →
  admin_login c l.
Proof.
  apply (guarded_run _ (admin_login c) h _ s [] l x r), admin_login_guarded.
Qed.

(** ** Reloading *)

(** The authenticator is the one the configuration beside it calls for. *)
Definition authenticator_current `{UnicodeCase} (c : AuthConfig) (o : option AnyAuthenticator) : Prop :=
  match o with
  | Some a => auth_enabled c = true ∧ ∃ table, built_from c table a
  | None => auth_enabled c = false ∨ auth_backend c = CfgNone
  end.

(** What is true of the server's state at all times; [c0] is the configuration the
    server was started with, and [okc] what is known of the configurations in force. *)
Record state_good `{UnicodeCase} (okc : Config → Prop) (c0 : Config) (st : ServerState) : Prop := {
  good_config : okc (ss_config st);
  good_endpoints : same_endpoints (ss_config st) c0 = true;
  good_authenticator : authenticator_current (auth (ss_config st)) (ss_authenticator st);
}.

Lemma same_endpoints_spec c c' :
  same_endpoints c c' = true ↔
  srv_socks5_port (server c) = srv_socks5_port (server c') ∧
  srv_http_port (server c) = srv_http_port (server c') ∧
  srv_bind_address (server c) = srv_bind_address (server c') ∧
  adm_port (admin c) = adm_port (admin c') ∧
  adm_bind_address (admin c) = adm_bind_address (admin c').
Proof.
  unfold same_endpoints. rewrite !andb_true_iff, !Z.eqb_eq, !bool_decide_eq_true. tauto.
Qed.

Lemma same_endpoints_trans a b c :
  same_endpoints a b = true → same_endpoints b c = true → same_endpoints a c = true.
Proof. rewrite !same_endpoints_spec. intros (-> & -> & -> & -> & ->). tauto. Qed.

Lemma create_authenticator_current `{PasswordVerify} `{UserYaml} `{HashOrder} `{UnicodeCase} {Sh} c :
  wp (@any_resp Sh) (create_authenticator c)
    (λ r _, ∀ o, r = Ok o → authenticator_current c o) [].
Proof.
  eapply wp_mono; [|apply wp_and; [apply create_authenticator_built|apply wp_yields]].
  cbn beta. intros r tr [Hsome (t & _ & Hy)] [a|] ->.
  { destruct (Hsome a eq_refl) as (He & table & Hb & _). split; [done|]. by exists table. }
  cbn. revert Hy. unfold create_authenticator. destruct (auth_enabled c); [|by left].
  unfold some_ok, SimpleAuthenticator_load_from_file, load_users, SqlAuthenticator_new.
  destruct (auth_backend c); cbn; [|naive_solver| | |by right].
  - intros ([content|e] & t' & _ & Hy); cbn in Hy; [destruct (users_of_content content)|]; naive_solver.
  - naive_solver.
  - destruct (database_backend _); cbn; [|naive_solver].
    intros ([[]|e] & t' & _ & Hy); cbn in Hy; naive_solver.
Qed.

Section reload.
Context `{PasswordVerify} `{UserYaml} `{ConfigYaml} `{HashOrder} `{UnicodeCase} `{Base64} `{SerdeJson}.
Context (okc : Config → Prop) (c0 : Config).

Definition state_ok (sh : Shared) : Prop := state_good okc c0 (sh_state sh).

Lemma keeps_state_safe {A} (p : prog Shared A) :
  emits (λ R e, keeps sh_state e) p → safe state_ok p (λ _, True).
Proof. apply safe_keeps. unfold state_ok. by intros sh sh' ->. Qed.

Lemma needs_no_token_safe {A} (p : prog Shared A) :
  emits (λ R e, needs_no_token e) p → safe state_ok p (λ _, True).
Proof. intros Hp. apply keeps_state_safe. eapply emits_mono; [|exact Hp]. by intros R []. Qed.

Lemma send_admin_safe s status text ct body hs :
  safe state_ok (send_admin_response s status text ct body hs) (λ _, True).
Proof. apply keeps_state_safe. by apply send_admin_plain. Qed.

(** What a reload installs has passed the validation. *)
Hypothesis Hvalid : ∀ c, valid c → okc c.

Lemma config_reload_safe s path config :
  same_endpoints config c0 = true → safe state_ok (config_reload s path config) (λ _, True).
Proof.
  intros Hsame. unfold config_reload.
  eapply (safe_bind _ _ _ (λ r, ∀ c, r = Ok c → valid c)).
  { unfold load_from_file, bind_q. cbn. intros sh r sh' Hi [_ ->]. split; [done|].
    destruct r as [content|e]; cbn; [|done]. by intros c [_ Hv]%load_checks. }
  intros [c|e] Hv; [|apply send_admin_safe]. destruct (same_endpoints c config) eqn:Hc; cbn [negb];
    [|apply send_admin_safe].
  eapply (safe_bind _ _ _ (λ r, ∀ o, r = Ok o → authenticator_current (auth c) o)).
  { eapply safe_wp; [|apply create_authenticator_current|by cbn].
    apply keeps_state_safe. by apply create_authenticator_outside. }
  intros [o|e] Ho; [|apply send_admin_safe]. eapply (safe_bind _ _ _ (λ _, True)).
  - intros sh r sh' Hi [= <- <-]. split; [|done]. split; cbn.
    + by apply Hvalid, Hv.
    + by eapply same_endpoints_trans.
    + by apply Ho.
  - intros _ _. eapply (safe_bind _ _ _ (λ _, True)); [apply send_admin_safe|]. intros r _.
    eapply (safe_bind _ _ _ (λ _, True)); [|done]. by apply keeps_state_safe.
Qed.

Lemma authenticated_endpoint_safe s path config req :
  same_endpoints config c0 = true →
  safe state_ok (authenticated_endpoint s path config req) (λ _, True).
Proof.
  intros Hs. unfold authenticated_endpoint. destruct (_ && _).
  { eapply safe_bind; [|intros m _; apply send_admin_safe].
    apply keeps_state_safe. unfold load_metrics, load. emits_tac idtac; by intros sh. }
  destruct (_ && _); [case_match; apply send_admin_safe|].
  destruct (_ && _); [unfold config_validate; repeat case_match; apply send_admin_safe|].
  destruct (_ && _); [by apply config_reload_safe | apply send_admin_safe].
Qed.

Lemma admin_connection_safe ttl path c :
  safe state_ok (handle_admin_connection ttl path c) (λ _, True).
Proof.
  unfold handle_admin_connection. eapply (safe_bind _ _ _ (λ _, True)).
  { by apply keeps_state_safe, read_request_plain. }
  intros [req|e] _.
  2: { eapply (safe_bind_q _ _ _ (λ _, True)); [|done..].
       eapply safe_mono; [|apply send_admin_safe]. done. }
  destruct (_ && _); [apply send_admin_safe|].
  destruct (_ && _); [apply needs_no_token_safe, login_needs_no_token|].
  cbn [bind]. intros sh st sh' Hi [= <- <-]. split; [done|].
  eapply (safe_bind_q _ _ _ (λ _, True)); [|intros [] _; cbn [negb]|done].
  - eapply safe_mono; [|apply needs_no_token_safe, authenticate_request_needs_no_token]. done.
  - apply authenticated_endpoint_safe, Hi.
  - apply send_admin_safe.
Qed.

End reload.

Lemma state_kept `{PasswordVerify} `{UserYaml} `{ConfigYaml} `{HashOrder} `{UnicodeCase}
    `{Base64} `{SerdeJson} (okc : Config → Prop) (c0 : Config) :
  (∀ c, valid c → okc c) →
  (∀ {Sh0 St} (h : handler Sh0 St) s path ps, okc c0 →
     result_of (run h (create c0 path) s) = Ok ps → state_ok okc c0 (ps_shared ps)) ∧
  (∀ ttl path c, safe (state_ok okc c0) (handle_admin_connection ttl path c) (λ _, True)) ∧
  (∀ fuel k st c, safe (state_ok okc c0) (serve fuel k st c) (λ _, True)) ∧
  (∀ limiter addr, safe (state_ok okc c0) (admit_client limiter addr) (λ _, True)).
Proof.
  intros Hvalid. split; [|split; [intros; by apply admin_connection_safe|split]].
  - intros Sh0 St h s path ps Hv. unfold create, result_of. rewrite run_bind_q.
    pose proof (wp_run_any h _ _ s (create_authenticator_current (auth c0))) as Hc.
    unfold result_of in Hc.
    destruct (run h (create_authenticator (auth c0)) s) as [[[o|e] s1] t]; cbn in *; [|done].
    intros [= <-]. split; [done| |by apply Hc]. by apply same_endpoints_spec.
  - intros. apply keeps_state_safe. eapply emits_mono; [|apply serve_keeps].
    intros R [] ; try done. cbn. unfold fixed_part. intros Hk sh. by injection (Hk sh).
  - intros. apply keeps_state_safe. unfold admit_client, read_state, check.
    emits_tac idtac; cbn; try done. intros sh. by case_match.
Qed.

(** C4. Reloading is safe. A server created from a valid configuration keeps, whatever its
    clients, administrators and files do and however their steps interleave: a valid
    configuration, the addresses and ports it listens on, and an authenticator that is
    the one this very configuration calls for. Each single step of an admin connection
    (the only code that can change the state), of a proxy connection and of an admission
    check preserves this, from whatever state the others left. *)
Theorem reload_safe `{PasswordVerify} `{UserYaml} `{ConfigYaml} `{HashOrder} `{UnicodeCase}
    `{Base64} `{SerdeJson} (c0 : Config) :
  (∀ {Sh0 St} (h : handler Sh0 St) s path ps, valid c0 →
     result_of (run h (create c0 path) s) = Ok ps → state_ok valid c0 (ps_shared ps)) ∧
  (∀ ttl path c, safe (state_ok valid c0) (handle_admin_connection ttl path c) (λ _, True)) ∧
  (∀ fuel k st c, safe (state_ok valid c0) (serve fuel k st c) (λ _, True)) ∧
  (∀ limiter addr, safe (state_ok valid c0) (admit_client limiter addr) (λ _, True)).
Proof. by apply state_kept. Qed.

(** ** Concrete requests *)

Lemma existsb_split {A} (f : A → bool) l :
  existsb f l = true → ∃ l1 x l2, l = l1 ++ x :: l2 ∧ f x = true.
Proof.
  induction l as [|a l IH]; cbn; [done|]. intros [Ha|Hl]%orb_true_iff.
  - by exists [], a, l.
  - destruct (IH Hl) as (l1 & x & l2 & -> & Hx). by exists (a :: l1), x, l2.
Qed.

Definition file_read {Sh} (x : event Sh) : bool :=
  match x with Ev e _ => match e with ReadFile _ => true | _ => false end end.

(** Whether the step fills an empty token store. *)
Definition fills_store (st : ServerState) (x : event Shared) : bool :=
  match x with
  | Ev e _ => match e with
              | Locked _ f => negb (bool_decide (tt_tokens (sh_tokens (f (shared_of st)).2) = ∅))
              | _ => false
              end
  end.

Lemma file_read_guarded x : file_read x = true → ¬ ev_sat (λ R e, needs_no_token e) x.
Proof. destruct x as [R e r]. destruct e; try done. by intros _ []. Qed.

Lemma fills_store_guarded st x : fills_store st x = true → ¬ ev_sat (λ R e, issues_no_token e) x.
Proof.
  destruct x as [R e r]. destruct e; cbn; try done. rewrite negb_true_iff, bool_decide_eq_false.
  intros Hne Hnone. destruct (map_choose _ Hne) as (k & i & Hk).
  destruct (Hnone (shared_of st) k) as [j Hj]; [by exists i|]. cbn in Hj. by rewrite lookup_empty in Hj.
Qed.

(** The one-user server with an administrator and a static token. *)
Definition admin_config (blocked : list bytes) (port : Z) : Config := {|
  server := server Config_default; auth := simple_config; logging := logging Config_default;
  security := {| allowed_networks := []; blocked_domains := blocked; allowed_egress_networks := [];
                 blocked_egress_networks := []; max_request_size := 8192; rate_limit := None |};
  upstream := upstream Config_default;
  admin := {| adm_enabled := true; adm_bind_address := "127.0.0.1"; adm_port := port;
              adm_token := Some ("s3cret" : bytes); adm_admin_users := ["ann" : bytes];
              adm_token_ttl := 60 |} |}.

Definition admin_state : ServerState :=
  {| ss_config := admin_config [] 8081; ss_authenticator := Some (SimpleAuth one_user) |}.

Definition sample_yaml : ConfigYaml := {|
  config_from_yaml content :=
    if bool_decide (content = "new") then Ok (admin_config ["evil.com" : bytes] 8081)
    else if bool_decide (content = "moved") then Ok (admin_config [] 9000)
    else Err "not a mapping";
  config_to_yaml _ := Err "no YAML" |}.

Definition one_user_yaml : UserYaml := {|
  user_from_yaml _ := Ok one_user; user_to_yaml _ := Err "no YAML" |}.

Definition plain_json : SerdeJson := {|
  json_to_string _ := "{}"; json_to_string_pretty _ := Ok ("{}" : bytes) |}.

(** Stream 7 sends [request]; the configuration file holds [content]. *)
Definition admin_world (content request : bytes) : world Shared :=
  set_files (client_world admin_state [] [request])
    {[ bstr "c.yml" := content; bstr "users.yml" := bstr "users" ]}.

Definition reload_request (token : bytes) : bytes :=
  "POST /config/reload HTTP/1.1" ++ crlf ++ "Authorization: Bearer " ++ token ++ crlf ++ crlf.

Definition login_request (credentials : bytes) : bytes :=
  "post /login HTTP/1.1" ++ crlf ++ "Authorization: Basic " ++ credentials ++ crlf ++ crlf.

Lemma admin_gate_witness :
  let _ := tag_verify in let _ := one_user_yaml in let _ := sample_yaml in let _ := map_order in
  let _ := ascii_only_case in let _ := plain_base64 in let _ := plain_json in
  let go token := trace_of (run script (handle_admin_connection 60 "c.yml" 7)
                    (admin_world "new" (reload_request token))) in
  existsb file_read (go "s3cret") = true ∧ existsb file_read (go "S3cret") = false ∧
  ∃ l x r, go "s3cret" = l ++ x :: r ∧ bearer_shown 7 l.
Proof.
  intros H1 H2 H3 H4 H5 H6 H7 go.
  assert (existsb file_read (go "s3cret") = true) as Hr by (vm_compute; reflexivity).
  split; [exact Hr|]. split; [vm_compute; reflexivity|].
  destruct (existsb_split _ _ Hr) as (l & x & r & Ht & Hx).
  exists l, x, r. split; [exact Ht|].
  exact (admin_gate script (admin_world "new" (reload_request "s3cret")) 60 "c.yml" 7 l x r Ht
    (file_read_guarded x Hx)).
Defined.

Lemma login_gate_witness :
  let _ := tag_verify in let _ := one_user_yaml in let _ := sample_yaml in let _ := map_order in
  let _ := ascii_only_case in let _ := plain_base64 in let _ := plain_json in
  let go creds := trace_of (run script (handle_admin_connection 60 "c.yml" 7)
                    (admin_world "new" (login_request creds))) in
  existsb (fills_store admin_state) (go "ann:secret") = true ∧
  existsb (fills_store admin_state) (go "ann:guess") = false ∧
  ∃ l x r, go "ann:secret" = l ++ x :: r ∧ admin_login 7 l.
Proof.
  intros H1 H2 H3 H4 H5 H6 H7 go.
  assert (existsb (fills_store admin_state) (go "ann:secret") = true) as Hr by (vm_compute; reflexivity).
  split; [exact Hr|]. split; [vm_compute; reflexivity|].
  destruct (existsb_split _ _ Hr) as (l & x & r & Ht & Hx).
  exists l, x, r. split; [exact Ht|].
  exact (login_gate script (admin_world "new" (login_request "ann:secret")) 60 "c.yml" 7 l x r Ht
    (fills_store_guarded admin_state x Hx)).
Defined.

Lemma reload_safe_witness :
  let _ := tag_verify in let _ := one_user_yaml in let _ := sample_yaml in let _ := map_order in
  let _ := ascii_only_case in let _ := plain_base64 in let _ := plain_json in
  let after content token := sh_state (w_shared (state_of (run script
        (handle_admin_connection 60 "c.yml" 7) (admin_world content (reload_request token))))) in
  ss_config (after "new" "s3cret") = admin_config ["evil.com" : bytes] 8081 ∧
  ss_config (after "moved" "s3cret") = admin_config [] 8081 ∧
  ss_config (after "broken" "s3cret") = admin_config [] 8081 ∧
  ss_config (after "new" "wrong") = admin_config [] 8081 ∧
  ∃ ps, result_of (run script (create (Sh0:=Shared) (admin_config [] 8081) "c.yml")
                     (admin_world "new" [])) = Ok ps ∧ state_ok valid (admin_config [] 8081) (ps_shared ps).
Proof.
  intros H1 H2 H3 H4 H5 H6 H7 after.
  do 4 (split; [vm_compute; reflexivity|]). eexists. split; [reflexivity|].
  apply (proj1 (reload_safe (admin_config [] 8081)) Shared (world Shared) script
    (admin_world "new" []) "c.yml").
  - apply validate_ok. vm_compute. reflexivity.
  - reflexivity.
Defined.

(** ** Masking *)

Definition masked {A} (o : option A) : option bytes := (λ _, "******" : bytes) <$> o.

(** The configuration with the two secrets that are masked replaced. *)
Definition redact (c : Config) : Config := {|
  server := server c; auth := auth c; logging := logging c; security := security c;
  upstream := {| up_enabled := up_enabled (upstream c); up_protocol := up_protocol (upstream c);
    up_address := up_address (upstream c); up_port := up_port (upstream c);
    up_username := up_username (upstream c); up_password := masked (up_password (upstream c));
    up_exclude_networks := up_exclude_networks (upstream c);
    up_exclude_domains := up_exclude_domains (upstream c);
    up_prefer_env := up_prefer_env (upstream c) |};
  admin := {| adm_enabled := adm_enabled (admin c); adm_bind_address := adm_bind_address (admin c);
    adm_port := adm_port (admin c); adm_token := masked (adm_token (admin c));
    adm_admin_users := adm_admin_users (admin c); adm_token_ttl := adm_token_ttl (admin c) |} |}.

(** [val[k1][k2]] of a JSON value. *)
Definition v_path (k1 k2 : bytes) (v : Value) : option Value :=
  match v with
  | VObject l => match v_get k1 l with Some (VObject o) => v_get k2 o | _ => None end
  | _ => None
  end.

Lemma masked_redact c : get_masked_config c = config_value (redact c).
Proof.
  destruct c as [srv au lg sec [] []]. unfold get_masked_config, config_value, redact.
  destruct au as [en []], up_password as [pw|], adm_token as [tok|]; reflexivity.
Qed.

(** C38. What [GET /config] shows. For every configuration the answer is exactly the
    configuration's own value with the admin token and the upstream password replaced by
    asterisks, so that two configurations that differ only in these two secrets give the
    same answer; but the secrets of the authentication backend are shown as they are:
    the LDAP bind password, and the database URL with its credentials. *)
Theorem masked_config_spec (c c' : Config) :
  get_masked_config c = config_value (redact c) ∧
  (redact c = redact c' → get_masked_config c = get_masked_config c') ∧
  (∀ url base dn pw filter, auth_backend (auth c) = CfgLdap url base dn (Some pw) filter →
     v_path "auth" "bind_password" (get_masked_config c) = Some (VString pw) ∧
     v_path "auth" "url" (get_masked_config c) = Some (VString url)) ∧
  (∀ db url query t, auth_backend (auth c) = CfgDatabase db url query t →
     v_path "auth" "url" (get_masked_config c) = Some (VString url)).
Proof.
  rewrite !masked_redact. split; [done|]. split; [by intros ->|].
  destruct c as [srv [en b] lg sec u a]. cbn [auth auth_backend].
  split; [intros url base dn pw f -> | intros db url qu t ->]; by repeat split.
Qed.

Definition ldap_secret : Config := {|
  server := server Config_default;
  auth := {| auth_enabled := true;
             auth_backend := CfgLdap "ldap://x" "dc=x" None (Some ("hunter2" : bytes)) "(uid={})" |};
  logging := logging Config_default; security := security Config_default;
  upstream := upstream Config_default; admin := admin (admin_config [] 8081) |}.

Lemma masked_config_spec_witness :
  v_path "admin" "token" (get_masked_config ldap_secret) = Some (VString "******") ∧
  v_path "auth" "bind_password" (get_masked_config ldap_secret) = Some (VString "hunter2").
Proof.
  split; [reflexivity|].
  destruct (masked_config_spec ldap_secret ldap_secret) as (_ & _ & H & _).
  exact (proj1 (H "ldap://x" "dc=x" None "hunter2" "(uid={})" eq_refl)).
Defined.

(** ** Bounds *)

Section bounds.
Context `{PasswordVerify} `{UserYaml} `{ConfigYaml} `{HashOrder} `{UnicodeCase} `{Base64} `{SerdeJson}.
Implicit Types tr : list (event Shared).

(** At most [limit] bytes were received in [t]; and the loop's fuel did not run out. *)
Definition upto {A} (s : sid) (limit : Z) (r : result A) (t : list (event Shared)) : Prop :=
  Z.of_nat (length (received s t)) ≤ limit ∧ (r = Err out_of_fuel → read_failed s out_of_fuel t).

Lemma upto_line {A} s limit (r : result A) lim line t :
  upto s (limit - Z.of_nat (length line)) r t → upto s limit r (Ev (ReadLine s lim) (Ok line) :: t).
Proof.
  unfold upto. change (?x :: t) with ([x] ++ t). rewrite received_app, received_one, length_app.
  cbn [read_of]. rewrite bool_decide_eq_true_2 by done. intros [Hle Hf]. split; [lia|].
  intros Hr. destruct (Hf Hr) as [l Hl]. exists l. set_solver.
Qed.

Lemma upto_end {A} s limit (r : result A) : 0 ≤ limit → r ≠ Err out_of_fuel → upto s limit r [].
Proof. intros. by split. Qed.

Lemma upto_read_err {A} s limit lim e :
  0 ≤ limit → upto (A:=A) s limit (Err e) [Ev (ReadLine s lim) (Err e)].
Proof.
  intros. unfold upto. rewrite received_one. split; [cbn; lia|]. intros [= ->]. exists lim. set_solver.
Qed.

Lemma read_admin_headers_upto fuel s limit hs tr :
  0 ≤ limit → (Z.to_nat limit < fuel)%nat →
  wp (@resp_ok Shared) (read_admin_headers fuel s limit hs)
    (λ r tr', ∃ t, tr' = tr ++ t ∧ upto s limit r t) tr.
Proof.
  revert limit hs tr. induction fuel as [|fuel IH]; intros limit hs tr Hl Hf; [lia|].
  cbn [read_admin_headers bind_q bind perform wp]. intros [line|e] Hr.
  2: { cbn. eexists. split; [done|]. apply upto_read_err. lia. }
  cbn [resp_ok] in Hr. destruct Hr as [_ Hr]. rewrite Z.max_r in Hr by lia.
  case_bool_decide as Hn; [cbn; eexists; split; [done|]; apply upto_line, upto_end; [lia|done]|].
  case_bool_decide as Ht; [cbn; eexists; split; [done|]; apply upto_line, upto_end; [lia|done]|].
  assert (length line ≠ 0%nat) by (by destruct line).
  eapply wp_mono; [|apply IH; lia]. intros r tr' (t & -> & Hw).
  exists (Ev (ReadLine s (Some limit)) (Ok line) :: t). rewrite <- app_assoc. split; [done|].
  by apply upto_line.
Qed.

(** A read of the stream failed with this very text. *)
Definition some_read_failed (s : sid) (e : bytes) tr : Prop :=
  read_failed s e tr ∨ ∃ n, Ev (ReadExact s n) (Err e) ∈ tr.

(** What reading a request, or a part of it, guarantees. *)
Definition bounded {A} (s : sid) (limit : Z) (r : result A) (t : list (event Shared)) : Prop :=
  Z.of_nat (length (received s t)) ≤ limit ∧ (r = Err out_of_fuel → some_read_failed s out_of_fuel t).

Lemma bounded_after {A} s l1 l2 (r : result A) t1 t2 :
  Z.of_nat (length (received s t1)) ≤ l1 → bounded s l2 r t2 → bounded s (l1 + l2) r (t1 ++ t2).
Proof.
  intros H1' [H2' Hf]. unfold bounded. rewrite received_app, length_app. split; [lia|].
  intros Hr. destruct (Hf Hr) as [[l Hl]|[n Hn]]; [left; exists l | right; exists n]; set_solver.
Qed.

Lemma read_body_bounded s hs tr :
  wp (@resp_ok Shared) (read_body s hs)
    (λ r tr', ∃ t, tr' = tr ++ t ∧ bounded s MAX_ADMIN_REQUEST_SIZE r t) tr.
Proof.
  assert (Hnil : ∀ r : result bytes, r ≠ Err out_of_fuel → ∃ t : list (event Shared),
      tr = tr ++ t ∧ bounded s MAX_ADMIN_REQUEST_SIZE r t).
  { intros r Hr. exists []. rewrite app_nil_r. split; [done|]. by split. }
  unfold read_body. destruct (_ ≫= _) as [cl|] eqn:Hcl; [|by apply Hnil].
  apply bind_Some in Hcl as (txt & _ & Hcl). apply parse_uint_range in Hcl; [|done].
  destruct (Z.ltb_spec MAX_ADMIN_REQUEST_SIZE cl); [by apply Hnil|].
  cbn [perform wp]. intros [bs|e] Hr; eexists; (split; [done|]); unfold bounded;
    rewrite received_one; cbn -[MAX_ADMIN_REQUEST_SIZE].
  - rewrite bool_decide_eq_true_2 by done. cbn in Hr. split; [lia|done].
  - split; [done|]. intros [= ->]. right. exists (Z.to_nat cl). set_solver.
Qed.

(** C39. An unauthenticated client cannot exhaust the memory of the admin port. Whatever
    it sends, and whatever Content-Length it announces, a request is read from at most
    one mebibyte of request line and headers and one mebibyte of body, and the header
    loop ends within the fuel it is given. *)
Theorem admin_request_bounded {St} (h : handler Shared St) (st : St) (s : sid) :
  lawful h →
  bounded s (MAX_ADMIN_REQUEST_SIZE + MAX_ADMIN_REQUEST_SIZE)
    (result_of (run h (read_request s) st)) (trace_of (run h (read_request s) st)).
Proof.
  intros Hh. apply (wp_run_lawful h _ (λ r tr, bounded s _ r tr) st Hh).
  unfold read_request. cbn [bind_q bind perform wp]. intros [] _ [line|e] Hr; cbn [app].
  2: { split; [by vm_compute|]. intros [= ->]. left. exists (Some MAX_ADMIN_REQUEST_SIZE).
       set_solver. }
  cbn [resp_ok] in Hr. destruct Hr as [_ Hr].
  set (tr0 := [_; _]). assert (Hl : Z.of_nat (length (received s tr0)) = Z.of_nat (length line)).
  { unfold tr0. change [?x; ?y] with ([x] ++ [y]). rewrite received_app, !received_one. cbn.
    by rewrite bool_decide_eq_true_2. }
  assert (∀ x : result AdminRequest, x ≠ Err out_of_fuel →
    bounded s (MAX_ADMIN_REQUEST_SIZE + MAX_ADMIN_REQUEST_SIZE) x tr0) as Hbad.
  { intros x Hx. split; [|done]. rewrite Hl. unfold MAX_ADMIN_REQUEST_SIZE in *. lia. }
  destruct (split_whitespace (trim line)) as [|m [|path [|v rest]]]; try (by apply Hbad).
  rewrite Z.max_r in Hr by done. remember (MAX_ADMIN_REQUEST_SIZE - Z.of_nat (length line)) as limit eqn:Hlim.
  eapply wp_bind_q_intro; [apply read_admin_headers_upto; lia| |].
  - intros hs tr (t & -> & Ht & _). eapply wp_bind_q_intro; [apply read_body_bounded| |].
    + intros body tr' (t' & -> & Ht'). apply bounded_after; [rewrite received_app, length_app; lia|].
      by split; [apply Ht'|].
    + intros e tr' (t' & -> & Ht' & Hf). apply bounded_after; [rewrite received_app, length_app; lia|].
      split; [done|]. intros [= ->]. by apply Hf.
  - intros e tr (t & -> & Ht & Hf). apply bounded_after; [unfold MAX_ADMIN_REQUEST_SIZE in *; lia|].
    split; [unfold MAX_ADMIN_REQUEST_SIZE in *; lia|]. intros [= ->]. left. by apply Hf.
Qed.

End bounds.

Lemma admin_request_bounded_witness :
  let _ := ascii_only_case in
  let w := admin_world "new" ("POST /x HTTP/1.1" ++ crlf ++ "Content-Length: 3" ++ crlf ++ crlf ++ "abc") in
  is_ok (result_of (run script (read_request 7) w)) = true ∧
  bounded 7 (MAX_ADMIN_REQUEST_SIZE + MAX_ADMIN_REQUEST_SIZE)
    (result_of (run script (read_request 7) w)) (trace_of (run script (read_request 7) w)).
Proof.
  intros H1 w. split; [vm_compute; reflexivity|].
  exact (admin_request_bounded script w 7 script_lawful).
Defined.
