(* ===== verification/Guard.v ===== *)
(** * The write guard of the server's state (src/src/admin.rs, lines 398-404)

    The state is behind a Tokio [RwLock]. Read guards are dropped in the step that takes
    them; a reload takes the write guard, assigns the new state, and holds the guard
    while it sends its answer. This file says which events take, keep and drop the guard,
    and that an admin connection uses it well. *)

From S2P Require Import Prelude Float64 RustStr IpAddr Effects Script Config Policy Upstream.
From S2P Require Import Users Auth Metrics Socks5 RateLimit Http Tokens Server Admin.

Local Open Scope Z_scope.
Local Open Scope rust_scope.

(** Whether a task holds the guard after an event. *)
Definition holds (held : bool) {R} (e : eff Shared R) : bool :=
  match e with Locked WriteGuard _ => true | Locked DropWrite _ => false | _ => held end.

(** What a task may do: holding the guard, only write to a stream or drop the guard. *)
Definition guard_use (held : bool) {R} (e : eff Shared R) : Prop :=
  if held then match e with WriteAll _ _ | Flush _ | Locked DropWrite _ => True | _ => False end
  else match e with Locked DropWrite _ => False | _ => True end.

Fixpoint lock_wp (held : bool) {A} (p : prog Shared A) (Q : bool → A → Prop) : Prop :=
  match p with
  | Ret a => Q held a
  | Op e k => guard_use held e ∧ ∀ r, lock_wp (holds held e) (k r) Q
  end.

(** A program that comes to its end without the guard. *)
Abbreviation gives_back held p := (lock_wp held p (λ b _, b = false)).

Lemma lock_mono {A} held (p : prog Shared A) (Q Q' : bool → A → Prop) :
  (∀ b a, Q b a → Q' b a) → lock_wp held p Q → lock_wp held p Q'.
Proof. intros HQ. revert held. induction p as [a|R e k IH]; intros held; cbn; [auto|]. naive_solver. Qed.

Lemma lock_bind {A B} held (p : prog Shared A) (f : A → prog Shared B) Q :
  lock_wp held p (λ b a, lock_wp b (f a) Q) → lock_wp held (bind p f) Q.
Proof. revert held. induction p as [a|R e k IH]; intros held; cbn; [done|]. naive_solver. Qed.

(** Programs that have nothing to do with the guard, and those that only send. *)
Definition no_guard {R} (e : eff Shared R) : Prop :=
  match e with Locked (WriteGuard | DropWrite) _ => False | _ => True end.

Definition only_sends {R} (e : eff Shared R) : Prop :=
  match e with WriteAll _ _ | Flush _ => True | _ => False end.

Lemma lock_free {A} (p : prog Shared A) : emits (λ R e, no_guard e) p → gives_back false p.
Proof.
  induction p as [a|R e k IH]; cbn [emits lock_wp]; [done|]. intros [He Hk].
  assert (guard_use false e ∧ holds false e = false) as [Hu ->]
    by (destruct e; try done; match goal with a : access |- _ => by destruct a end).
  split; [done|]. intros r. by apply IH.
Qed.

Lemma lock_sends {A} (p : prog Shared A) :
  emits (λ R e, only_sends e) p → lock_wp true p (λ b _, b = true).
Proof.
  induction p as [a|R e k IH]; cbn; [done|]. intros [He Hk].
  destruct e; try done; (split; [done|]); intros r; by apply IH.
Qed.

(** What comes after a program without the guard starts without it. *)
Lemma lock_then {A B} (p : prog Shared A) (f : A → prog Shared B) :
  emits (λ R e, no_guard e) p → (∀ a, gives_back false (f a)) → gives_back false (bind p f).
Proof.
  intros Hp Hf. apply lock_bind. eapply lock_mono; [|by apply lock_free]. by intros b a ->.
Qed.

Section admin.
Context `{PasswordVerify} `{UserYaml} `{ConfigYaml} `{HashOrder} `{UnicodeCase} `{Base64} `{SerdeJson}.

Lemma send_no_guard s status text ct body hs :
  emits (λ R e, no_guard e) (send_admin_response s status text ct body hs).
Proof. by apply send_admin_plain. Qed.

Lemma login_no_guard ttl s req : emits (λ R e, no_guard e) (login ttl s req).
Proof.
  unfold login, generate_token, count, read_state.
  emits_tac ltac:(first [by eapply emits_mono, dyn_backend_events; intros R [] | apply send_no_guard]); by cbn.
Qed.

Lemma reload_lock s path config : gives_back false (config_reload s path config).
Proof.
  unfold config_reload. apply lock_then; [unfold load_from_file; emits_tac idtac; by cbn|].
  intros [c|e]; [|apply lock_free, send_no_guard].
  destruct (negb _); [apply lock_free, send_no_guard|].
  apply lock_then; [by apply create_authenticator_outside|].
  intros [a|e]; [|apply lock_free, send_no_guard].
  apply lock_bind. split; [done|]. intros []. cbn [holds]. apply lock_bind.
  eapply lock_mono; [|by apply lock_sends, send_admin_plain]. by intros b r ->.
Qed.

Lemma admin_lock ttl path c : gives_back false (handle_admin_connection ttl path c).
Proof.
  unfold handle_admin_connection. apply lock_then; [by apply read_request_plain|].
  intros [req|e]; [|apply lock_free; unfold bind_q; emits_tac ltac:(apply send_no_guard)].
  destruct (_ && _); [apply lock_free, send_no_guard|].
  destruct (_ && _); [apply lock_free, login_no_guard|].
  apply lock_then; [by cbn|]. intros st. apply lock_then.
  { unfold authenticate_request, validate_token. emits_tac idtac; by cbn. }
  intros [[]|e]; cbn [negb]; [|apply lock_free, send_no_guard|done]. unfold authenticated_endpoint.
  destruct (_ && _).
  { apply lock_free. unfold load_metrics, load. emits_tac ltac:(apply send_no_guard); by cbn. }
  destruct (_ && _); [case_match; apply lock_free, send_no_guard|].
  destruct (_ && _); [unfold config_validate; repeat case_match; apply lock_free, send_no_guard|].
  destruct (_ && _); [apply reload_lock | apply lock_free, send_no_guard].
Qed.

End admin.
