(* ===== verification/Pool.v ===== *)
(** * The running server (src/src/server.rs, lines 80-328; src/src/admin.rs, lines 95-118)

    The two accept loops, the admin accept loop, the semaphore, the connection tasks and
    their timeouts, as one transition system over the shared state. Every step of the
    system is one atomic step of one task; the tasks interleave in any order. *)

From stdpp Require Import functions.
From S2P Require Import Prelude Float64 RustStr IpAddr Effects Script Config Policy Upstream.
From S2P Require Import Users Auth Metrics Socks5 RateLimit Http Tokens Server Admin Guard.

Local Open Scope Z_scope.
Local Open Scope rust_scope.

#[export] Instance listener_eq_dec : EqDecision listener.
Proof. solve_decision. Defined.

(** ** Starting *)

(** The addresses [start] binds, in order, whether the admin interface is served, and
    the lifetime of its tokens. *)
Definition start_settings (config : Config)
  : result (SocketAddr * SocketAddr * SocketAddr * bool * Z) :=
  let? socks5 := socks5_bind_addr config in
  let? http := http_bind_addr config in
  let? admin_addr := admin_bind_addr config in
  Ok (socks5, http, admin_addr, adm_enabled (admin config), adm_token_ttl (admin config)).

(** ** States *)

(** Where an accept loop stands. *)
Inductive acceptor : Type :=
  | Listening
  | Sleeping                                     (* after a failed accept *)
  | Admitting (c : sid) (p : prog Shared bool)   (* inside admit_client *)
  | AwaitingPermit (c : sid)                     (* acquire_owned *)
  | CountTotal (c : sid)                         (* a permit is held from here on *)
  | CountActive (c : sid)
  | Spawning (c : sid).

(** Where a connection task stands; it holds a permit until it is gone. *)
Inductive task : Type :=
  | Starting (k : listener) (c : sid)            (* about to read the state *)
  | Serving (p : prog Shared (result unit))
  | Closing                                      (* about to decrement the gauge *)
  | Releasing.                                   (* about to drop the permit *)

Record pool : Type := {
  pl_shared : Shared;
  pl_permits : Z;
  pl_acceptor : listener → acceptor;
  pl_tasks : list task;
  pl_admins : list (bool * prog Shared (result unit));  (* does it hold the write guard? *)
}.

Section pool.
Context `{PasswordVerify} `{UserYaml} `{ConfigYaml} `{HashOrder} `{UnicodeCase} `{Base64} `{SerdeJson}.
Context (srv : ProxyServer).

Definition start_config : Config := ss_config (sh_state (ps_shared srv)).

Definition initial : pool := {|
  pl_shared := ps_shared srv; pl_permits := ps_connection_permits srv;
  pl_acceptor := λ _, Listening; pl_tasks := []; pl_admins := [] |}.

Definition with_acceptor (s : pool) (k : listener) (a : acceptor) : pool := {|
  pl_shared := pl_shared s; pl_permits := pl_permits s;
  pl_acceptor := <[k := a]> (pl_acceptor s); pl_tasks := pl_tasks s; pl_admins := pl_admins s |}.

Definition with_shared (s : pool) (sh : Shared) : pool := {|
  pl_shared := sh; pl_permits := pl_permits s; pl_acceptor := pl_acceptor s;
  pl_tasks := pl_tasks s; pl_admins := pl_admins s |}.

Definition with_permits (s : pool) (n : Z) : pool := {|
  pl_shared := pl_shared s; pl_permits := n; pl_acceptor := pl_acceptor s;
  pl_tasks := pl_tasks s; pl_admins := pl_admins s |}.

Definition with_tasks (s : pool) (ts : list task) : pool := {|
  pl_shared := pl_shared s; pl_permits := pl_permits s; pl_acceptor := pl_acceptor s;
  pl_tasks := ts; pl_admins := pl_admins s |}.

Definition with_admins (s : pool) (ps : list (bool * prog Shared (result unit))) : pool := {|
  pl_shared := pl_shared s; pl_permits := pl_permits s; pl_acceptor := pl_acceptor s;
  pl_tasks := pl_tasks s; pl_admins := ps |}.

Definition update_metrics (f : ServerMetrics → ServerMetrics) (s : pool) : pool :=
  with_shared s (put_metrics (f (sh_metrics (pl_shared s))) (pl_shared s)).

(** ** The lock of the state

    The server's state is behind a Tokio [RwLock]. Only a reload takes its write guard,
    and keeps it while it answers the administrator; a read that comes then waits. A read
    guard is dropped in the step that takes it. *)

Definition holders (admins : list (bool * prog Shared (result unit))) : nat :=
  foldr (λ a n, (if a.1 : bool then 1 else 0) + n)%nat 0%nat admins.

Definition unlocked (s : pool) : Prop := holders (pl_admins s) = 0%nat.

(** Whether the lock lets the event happen. *)
Definition allowed (s : pool) {R} (e : eff Shared R) : Prop :=
  match e with Locked (ReadGuard | WriteGuard) _ => unlocked s | _ => True end.

(** ** Steps *)

(** One turn of an accept loop ([run_socks5_server], [run_http_server]). *)
Inductive accept_step (k : listener) : pool → pool → Prop :=
  | step_accept s c addr :
      pl_acceptor s k = Listening →
      accept_step k s (with_acceptor s k (Admitting c (admit_client (ps_rate_limiter srv) addr)))
  | step_accept_error s :
      pl_acceptor s k = Listening → accept_step k s (with_acceptor s k Sleeping)
  | step_wake s :
      pl_acceptor s k = Sleeping → accept_step k s (with_acceptor s k Listening)
  | step_admit s c R (e : eff Shared R) f r sh :
      pl_acceptor s k = Admitting c (Op e f) → allowed s e → answers e (pl_shared s) r sh →
      accept_step k s (with_shared (with_acceptor s k (Admitting c (f r))) sh)
  | step_refused s c :
      pl_acceptor s k = Admitting c (Ret false) → accept_step k s (with_acceptor s k Listening)
  | step_admitted s c :
      pl_acceptor s k = Admitting c (Ret true) → accept_step k s (with_acceptor s k (AwaitingPermit c))
  | step_acquire s c :
      pl_acceptor s k = AwaitingPermit c → 0 < pl_permits s →
      accept_step k s (with_permits (with_acceptor s k (CountTotal c)) (pl_permits s - 1))
  | step_count_total s c :
      pl_acceptor s k = CountTotal c →
      accept_step k s (update_metrics count_total (with_acceptor s k (CountActive c)))
  | step_count_active s c :
      pl_acceptor s k = CountActive c →
      accept_step k s (update_metrics count_active (with_acceptor s k (Spawning c)))
  | step_spawn s c :
      pl_acceptor s k = Spawning c →
      accept_step k s (with_tasks (with_acceptor s k Listening) (pl_tasks s ++ [Starting k c])).

(** The steps of a connection task that need neither its client nor anyone else. The state
    is read before the timer is set; the timer may then fire between any two steps of the
    connection: [connection_timeout] is an upper bound in time, not in steps. *)
Inductive timer_step : pool → pool → Prop :=
  | step_start s l r k c fuel :
      pl_tasks s = l ++ Starting k c :: r → unlocked s →
      timer_step s (with_tasks s (l ++ Serving (serve fuel k (sh_state (pl_shared s)) c) :: r))
  | step_timeout s l r p :
      pl_tasks s = l ++ Serving p :: r → timer_step s (with_tasks s (l ++ Closing :: r))
  | step_close s l r :
      pl_tasks s = l ++ Closing :: r →
      timer_step s (update_metrics connection_closed (with_tasks s (l ++ Releasing :: r)))
  | step_release s l r :
      pl_tasks s = l ++ Releasing :: r →
      timer_step s (with_permits (with_tasks s (l ++ r)) (pl_permits s + 1)).

(** One step of a connection task. *)
Inductive task_step : pool → pool → Prop :=
  | step_timer s s' : timer_step s s' → task_step s s'
  | step_serve s l r R (e : eff Shared R) f x sh :
      pl_tasks s = l ++ Serving (Op e f) :: r → allowed s e → answers e (pl_shared s) x sh →
      task_step s (with_shared (with_tasks s (l ++ Serving (f x) :: r)) sh)
  | step_done s l r x :
      pl_tasks s = l ++ Serving (Ret x) :: r → task_step s (with_tasks s (l ++ Closing :: r)).

(** The admin interface ([AdminServer::start]); it is served without permits. *)
Inductive admin_step : pool → pool → Prop :=
  | step_admin_accept s c :
      adm_enabled (admin start_config) = true →
      admin_step s (with_admins s (pl_admins s ++
        [(false, handle_admin_connection (adm_token_ttl (admin start_config)) (ps_config_path srv) c)]))
  | step_admin s l r b R (e : eff Shared R) f x sh :
      pl_admins s = l ++ (b, Op e f) :: r → allowed s e → answers e (pl_shared s) x sh →
      admin_step s (with_shared (with_admins s (l ++ (holds b e, f x) :: r)) sh)
  | step_admin_done s l r b x :
      pl_admins s = l ++ (b, Ret x) :: r → admin_step s (with_admins s (l ++ r)).

Inductive pool_step (s s' : pool) : Prop :=
  | by_acceptor k : accept_step k s s' → pool_step s s'
  | by_task : task_step s s' → pool_step s s'
  | by_admin : admin_step s s' → pool_step s s'.

Definition reachable (s : pool) : Prop := rtc pool_step initial s.

(** ** The server's own steps *)

(** An accept loop that has admitted its client. *)
Definition past_admission (a : acceptor) : bool :=
  match a with AwaitingPermit _ | CountTotal _ | CountActive _ | Spawning _ => true | _ => false end.

(** The steps the server takes on its own, without any client, target or administrator:
    those of the tasks that only take time, and those of an accept loop between the
    admission of its client and the next [accept]. *)
Inductive own_step (s s' : pool) : Prop :=
  | own_timer : timer_step s s' → own_step s s'
  | own_accept k : past_admission (pl_acceptor s k) = true → accept_step k s s' → own_step s s'.

(** The next step of the reload that holds the write guard. *)
Inductive holder_step : pool → pool → Prop :=
  | step_holder s l r R (e : eff Shared R) f x sh :
      pl_admins s = l ++ (true, Op e f) :: r → allowed s e → answers e (pl_shared s) x sh →
      holder_step s (with_shared (with_admins s (l ++ (holds true e, f x) :: r)) sh).

Lemma own_step_pool s s' : own_step s s' → pool_step s s'.
Proof. intros [?|k _ ?]; [by apply by_task, step_timer|by apply (by_acceptor s s' k)]. Qed.

Lemma holder_step_pool s s' : holder_step s s' → pool_step s s'.
Proof. intros []. by eapply by_admin, step_admin. Qed.

(** ** Accounting *)

(** Permits held by an accept loop, and connections it has counted but not spawned. *)
Definition acceptor_permits (a : acceptor) : Z :=
  match a with CountTotal _ | CountActive _ | Spawning _ => 1 | _ => 0 end.
Definition acceptor_counted (a : acceptor) : Z := match a with Spawning _ => 1 | _ => 0 end.

(** A task counts as active until it has decremented the gauge. *)
Definition task_counted (t : task) : Z := match t with Releasing => 0 | _ => 1 end.

Definition over_acceptors (f : acceptor → Z) (s : pool) : Z :=
  f (pl_acceptor s LSocks5) + f (pl_acceptor s LHttp).

Definition tasks_counted (ts : list task) : Z := foldr (λ t n, task_counted t + n) 0 ts.

Definition permits_held (s : pool) : Z :=
  over_acceptors acceptor_permits s + Z.of_nat (length (pl_tasks s)).

Definition connections_counted (s : pool) : Z :=
  over_acceptors acceptor_counted s + tasks_counted (pl_tasks s).

Lemma tasks_counted_app l r : tasks_counted (l ++ r) = tasks_counted l + tasks_counted r.
Proof. unfold tasks_counted. induction l as [|t l IH]; cbn; [done|]. rewrite IH. lia. Qed.

Lemma tasks_counted_range ts : 0 ≤ tasks_counted ts ≤ Z.of_nat (length ts).
Proof. unfold tasks_counted. induction ts as [|[] ts IH]; cbn [foldr length task_counted] in *; lia. Qed.

Lemma over_acceptors_update f s k a :
  over_acceptors f (with_acceptor s k a) = over_acceptors f s - f (pl_acceptor s k) + f a.
Proof.
  unfold over_acceptors. cbn. destruct k.
  - rewrite fn_lookup_insert, fn_lookup_insert_ne by done. lia.
  - rewrite fn_lookup_insert, fn_lookup_insert_ne by done. lia.
Qed.

Lemma counted_le_held s : 0 ≤ connections_counted s ≤ permits_held s.
Proof.
  unfold connections_counted, permits_held, over_acceptors.
  pose proof (tasks_counted_range (pl_tasks s)).
  destruct (pl_acceptor s LSocks5), (pl_acceptor s LHttp); cbn; lia.
Qed.

(** ** The invariant *)

Definition active_of (sh : Shared) : Z := active_connections (sh_metrics sh).

(** What is known of the configurations in force: the one the server was started with,
    or one that a reload has validated. *)
Definition in_force (c : Config) : Prop := c = start_config ∨ valid c.

Abbreviation state_fine := (state_ok in_force start_config).

(** A program some task is running: its steps keep the state good and leave the gauge
    alone. *)
Definition prog_ok {A} (p : prog Shared A) : Prop :=
  safe state_fine p (λ _, True) ∧ emits (λ R e, keeps active_of e) p.

Lemma prog_ok_step {A R} (e : eff Shared R) (f : R → prog Shared A) sh r sh' :
  prog_ok (Op e f) → state_fine sh → answers e sh r sh' →
  state_fine sh' ∧ active_of sh' = active_of sh ∧ prog_ok (f r).
Proof.
  intros [Hs [He Hf]] Hsh Ha. destruct (Hs sh r sh' Hsh Ha) as [Hsh' Hs'].
  split; [done|]. split; [by eapply keeps_answers|]. by split.
Qed.

Record pool_inv (s : pool) : Prop := {
  inv_permits : pl_permits s + permits_held s = ps_connection_permits srv;
  inv_nonneg : 0 ≤ pl_permits s;
  inv_active : active_of (pl_shared s) = connections_counted s;
  inv_state : state_fine (pl_shared s);
  inv_acceptors k c p : pl_acceptor s k = Admitting c p → prog_ok p;
  inv_tasks p : Serving p ∈ pl_tasks s → prog_ok p;
  inv_admins b p : (b, p) ∈ pl_admins s → prog_ok p ∧ gives_back b p;
  inv_holders : (holders (pl_admins s) ≤ 1)%nat;
}.

Lemma admin_keeps_active ttl path c :
  emits (λ R e, keeps active_of e) (handle_admin_connection ttl path c).
Proof.
  assert (Hsend : ∀ st a b d hs, emits (λ R e, keeps active_of e) (send_admin_response c st a b d hs))
    by (intros; by apply send_admin_plain).
  assert (Hca : ∀ a, emits (λ R e, keeps active_of e) (create_authenticator (Sh:=Shared) a))
    by (intros; by apply create_authenticator_outside).
  assert (Hdyn : ∀ a u p, emits (λ R e, keeps active_of e) (authenticate (dyn (Sh:=Shared) a) u p))
    by (intros; eapply emits_mono, dyn_backend_events; by intros R []).
  assert (Hrd : emits (λ R e, keeps active_of e) (read_request c)) by (by apply read_request_plain).
  unfold handle_admin_connection, login, authenticated_endpoint, config_reload, config_validate,
    load_metrics, load, authenticate_request, validate_token, generate_token, load_from_file,
    set_state, drop_guard, read_state, count.
  emits_tac ltac:(first [exact Hrd | apply Hsend | apply Hca | apply Hdyn]); cbn -[insert_token lookup_token];
    try exact I; intros sh; try reflexivity; by case_match.
Qed.

Lemma in_force_valid c : valid c → in_force c.
Proof. by right. Qed.

Lemma admin_ok ttl path c : prog_ok (handle_admin_connection ttl path c).
Proof. split; [apply admin_connection_safe, in_force_valid | apply admin_keeps_active]. Qed.

Lemma serve_ok fuel k st c : prog_ok (serve fuel k st c).
Proof.
  split; [apply (state_kept in_force start_config in_force_valid)|]. eapply emits_mono; [|apply serve_keeps].
  intros R []; try done. cbn. unfold fixed_part, opened, active_of. intros Hk sh. by injection (Hk sh).
Qed.

Lemma admit_ok limiter addr : prog_ok (admit_client limiter addr).
Proof.
  split; [apply (state_kept in_force start_config in_force_valid)|]. unfold admit_client, read_state, check.
  emits_tac idtac; cbn; try done. intros sh. by case_match.
Qed.

(** The state an acceptor is put into does not concern the other one. *)
Lemma acceptors_update (s : pool) (k : listener) (a : acceptor) :
  (∀ k c p, pl_acceptor s k = Admitting c p → prog_ok p) → (∀ c p, a = Admitting c p → prog_ok p) →
  ∀ k' c p, <[k := a]> (pl_acceptor s) k' = Admitting c p → prog_ok p.
Proof.
  intros Hs Ha k' c p. destruct (decide (k = k')) as [->|Hne].
  - rewrite fn_lookup_insert. apply Ha.
  - rewrite fn_lookup_insert_ne by done. apply Hs.
Qed.

(** Moving an acceptor changes the accounts by the difference of its two states. *)
Lemma accounts_acceptor s k a :
  permits_held (with_acceptor s k a)
  = permits_held s - acceptor_permits (pl_acceptor s k) + acceptor_permits a ∧
  connections_counted (with_acceptor s k a)
  = connections_counted s - acceptor_counted (pl_acceptor s k) + acceptor_counted a.
Proof.
  unfold permits_held, connections_counted. rewrite !over_acceptors_update. cbn [with_acceptor pl_tasks]. lia.
Qed.

Lemma fetch_add_small x : 0 ≤ x < U64_MAX → fetch_add x 1 = x + 1.
Proof. intros. unfold fetch_add. apply Z.mod_small. lia. Qed.

Lemma fetch_sub_small x : 0 < x ≤ U64_MAX → fetch_sub x 1 = x - 1.
Proof. intros. unfold fetch_sub. apply Z.mod_small. lia. Qed.

Hypothesis Hpermits : ps_connection_permits srv < U64_MAX.

(** Only the acceptor moves. *)
Lemma acceptor_moves s k a :
  pool_inv s → acceptor_permits (pl_acceptor s k) = acceptor_permits a →
  acceptor_counted (pl_acceptor s k) = acceptor_counted a →
  (∀ c p, a = Admitting c p → prog_ok p) → pool_inv (with_acceptor s k a).
Proof.
  intros [] Hp Hc Ha. destruct (accounts_acceptor s k a) as [Hph Hcc]. split; cbn; try done.
  - rewrite Hph. lia.
  - rewrite Hcc. lia.
  - by apply acceptors_update.
Qed.

(** Only the shared state changes, and well. *)
Lemma shared_moves s sh :
  pool_inv s → state_fine sh → active_of sh = active_of (pl_shared s) →
  pool_inv (with_shared s sh).
Proof. intros [] Hsh Ha. split; cbn; try done. by rewrite Ha. Qed.

Lemma accept_step_inv k s s' : pool_inv s → accept_step k s s' → pool_inv s'.
Proof.
  intros Hi Hstep.
  destruct Hstep as [s c addr Hk|s Hk|s Hk|s c R e f r sh Hk Hal Ha|s c Hk|s c Hk|s c Hk Hp|s c Hk|s c Hk|s c Hk].
  - apply acceptor_moves; [done|by rewrite Hk..|]. intros c' p [= _ <-]. apply admit_ok.
  - by apply acceptor_moves; rewrite ?Hk.
  - by apply acceptor_moves; rewrite ?Hk.
  - destruct (prog_ok_step e f (pl_shared s) r sh) as (Hsh & Hact & Hf);
      [by eapply (inv_acceptors s Hi)|apply Hi|done|].
    apply shared_moves; [|done..]. apply acceptor_moves; [done|by rewrite Hk..|].
    by intros c' p [= _ <-].
  - by apply acceptor_moves; rewrite ?Hk.
  - by apply acceptor_moves; rewrite ?Hk.
  - destruct Hi. destruct (accounts_acceptor s k (CountTotal c)) as [Hph Hcc]. rewrite Hk in Hph, Hcc.
    split; cbn; try done; [| | |by apply acceptors_update].
    + change (pl_permits s - 1 + permits_held (with_acceptor s k (CountTotal c)) = ps_connection_permits srv).
      rewrite Hph. cbn [acceptor_permits]. lia.
    + lia.
    + change (active_of (pl_shared s) = connections_counted (with_acceptor s k (CountTotal c))).
      rewrite Hcc. cbn [acceptor_counted]. lia.
  - apply shared_moves; [|apply Hi|done]. by apply acceptor_moves; rewrite ?Hk.
  - pose proof (counted_le_held s) as Hle. destruct Hi.
    destruct (accounts_acceptor s k (Spawning c)) as [Hph Hcc]. rewrite Hk in Hph, Hcc.
    split; cbn; try done; [| |by apply acceptors_update].
    + change (pl_permits s + permits_held (with_acceptor s k (Spawning c)) = ps_connection_permits srv).
      rewrite Hph. cbn [acceptor_permits]. lia.
    + change (fetch_add (active_of (pl_shared s)) 1 = connections_counted (with_acceptor s k (Spawning c))).
      rewrite Hcc, fetch_add_small by lia. cbn [acceptor_counted]. lia.
  - destruct Hi. pose proof (over_acceptors_update acceptor_permits s k Listening) as Hph.
    pose proof (over_acceptors_update acceptor_counted s k Listening) as Hcc.
    rewrite Hk in Hph, Hcc. unfold permits_held in inv_permits0. unfold connections_counted in inv_active0.
    split; cbn -[Z.add]; try done.
    + change (pl_permits s + (over_acceptors acceptor_permits (with_acceptor s k Listening)
        + Z.of_nat (length (pl_tasks s ++ [Starting k c]))) = ps_connection_permits srv).
      rewrite Hph, length_app. cbn [acceptor_permits length]. lia.
    + change (active_of (pl_shared s) = over_acceptors acceptor_counted (with_acceptor s k Listening)
        + tasks_counted (pl_tasks s ++ [Starting k c])).
      rewrite Hcc, tasks_counted_app. cbn [acceptor_counted tasks_counted foldr task_counted]. lia.
    + by apply acceptors_update.
    + intros p [Hin|Hin%list_elem_of_singleton]%elem_of_app; [by apply inv_tasks0|done].
Qed.

(** Replacing a task by others. *)
Lemma task_moves s l t ts r n sh :
  pool_inv s → pl_tasks s = l ++ t :: r →
  Z.of_nat (length ts) + n = 1 → 0 ≤ n →
  state_fine sh → active_of sh = active_of (pl_shared s) - task_counted t + tasks_counted ts →
  (∀ p, Serving p ∈ ts → prog_ok p) →
  pool_inv (with_permits (with_shared (with_tasks s (l ++ ts ++ r)) sh) (pl_permits s + n)).
Proof.
  intros [] Ht Hn Hn0 Hsh Ha Hp. unfold permits_held, connections_counted in *. rewrite Ht in *.
  rewrite length_app in inv_permits0. rewrite tasks_counted_app in inv_active0. cbn in *.
  split; cbn; try done.
  - unfold permits_held, over_acceptors in *. cbn in *. rewrite !length_app. lia.
  - lia.
  - unfold connections_counted, over_acceptors in *. cbn in *. rewrite !tasks_counted_app.
    unfold tasks_counted in *. cbn in *. lia.
  - intros p. rewrite !elem_of_app. intros [Hin|[Hin|Hin]]; [|by apply Hp|]; apply inv_tasks0; set_solver.
Qed.

Lemma task_replaced s l t t' r sh :
  pool_inv s → pl_tasks s = l ++ t :: r → state_fine sh →
  active_of sh = active_of (pl_shared s) - task_counted t + task_counted t' →
  (∀ p, Serving p = t' → prog_ok p) →
  pool_inv (with_shared (with_tasks s (l ++ t' :: r)) sh).
Proof.
  intros Hi Ht Hsh Ha Hp. pose proof (task_moves s l t [t'] r 0 sh Hi Ht) as Hm.
  rewrite !Z.add_0_r in Hm. apply Hm; [done|lia|done| |].
  - rewrite Ha. unfold tasks_counted. cbn [foldr]. lia.
  - intros p Hin%list_elem_of_singleton. by apply Hp.
Qed.

Lemma timer_step_inv s s' : pool_inv s → timer_step s s' → pool_inv s'.
Proof.
  intros Hi Hstep. pose proof (inv_state s Hi) as Hst.
  destruct Hstep as [s l r k c fuel Ht Hu|s l r p Ht|s l r Ht|s l r Ht].
  - apply (task_replaced s l _ _ r (pl_shared s) Hi Ht Hst); [cbn [task_counted]; lia|].
    intros p [= ->]. apply serve_ok.
  - by apply (task_replaced s l _ _ r (pl_shared s) Hi Ht Hst); [cbn [task_counted]; lia|].
  - apply (task_replaced s l Closing Releasing r _ Hi Ht); [exact Hst| |done].
    change (fetch_sub (active_of (pl_shared s)) 1 = active_of (pl_shared s) - 1 + 0).
    pose proof (counted_le_held s) as Hle. destruct Hi. rewrite fetch_sub_small; [lia|].
    split; [|lia]. rewrite inv_active0. unfold connections_counted. rewrite Ht, tasks_counted_app.
    unfold over_acceptors. pose proof (tasks_counted_range l). pose proof (tasks_counted_range r).
    unfold tasks_counted in *. cbn [foldr task_counted].
    destruct (pl_acceptor s LSocks5), (pl_acceptor s LHttp); cbn [acceptor_counted]; lia.
  - apply (task_moves s l Releasing [] r 1 (pl_shared s) Hi Ht); [done|lia|done| |].
    + unfold tasks_counted. cbn [foldr task_counted]. lia.
    + by intros p ?%elem_of_nil.
Qed.

Lemma task_step_inv s s' : pool_inv s → task_step s s' → pool_inv s'.
Proof.
  intros Hi Hstep. pose proof (inv_state s Hi) as Hst.
  destruct Hstep as [s s' Hs|s l r R e f x sh Ht Hal Ha|s l r x Ht].
  - by eapply timer_step_inv.
  - destruct (prog_ok_step e f (pl_shared s) x sh) as (Hsh & Hact & Hf); [|done..|].
    { apply (inv_tasks s Hi). rewrite Ht. set_solver. }
    apply (task_replaced s l _ _ r sh Hi Ht Hsh); [cbn [task_counted]; lia|]. by intros p [= ->].
  - by apply (task_replaced s l _ _ r (pl_shared s) Hi Ht Hst); [cbn [task_counted]; lia|].
Qed.

(** Only the admin connections change. *)
Lemma admins_move s ps :
  pool_inv s → (∀ b p, (b, p) ∈ ps → prog_ok p ∧ gives_back b p) → (holders ps ≤ 1)%nat →
  pool_inv (with_admins s ps).
Proof. intros [] Hps Hh. by split. Qed.

Lemma holders_app l r : holders (l ++ r) = (holders l + holders r)%nat.
Proof. unfold holders. induction l as [|a l IH]; cbn; [done|]. rewrite IH. lia. Qed.

Lemma holders_cons b (p : prog Shared (result unit)) r :
  holders ((b, p) :: r) = ((if b then 1 else 0) + holders r)%nat.
Proof. done. Qed.

(** An event the lock allows takes the guard only when nobody has it. *)
Lemma holds_allowed s l r b {R} (e : eff Shared R) (p p' : prog Shared (result unit)) :
  pl_admins s = l ++ (b, p) :: r → allowed s e → (holders (pl_admins s) ≤ 1)%nat →
  (holders (l ++ (holds b e, p') :: r) ≤ 1)%nat.
Proof.
  unfold allowed, unlocked. intros ->. rewrite !holders_app, !holders_cons.
  destruct b, e; cbn; try lia; match goal with a : access |- _ => destruct a end; cbn; lia.
Qed.

Lemma admin_step_inv s s' : pool_inv s → admin_step s s' → pool_inv s'.
Proof.
  intros Hi Hstep. pose proof (inv_admins s Hi) as Had. pose proof (inv_holders s Hi) as Hh.
  destruct Hstep as [s c He|s l r b R e f x sh Ht Hal Ha|s l r b x Ht].
  - apply admins_move; [done| |rewrite holders_app, holders_cons; cbn; lia].
    intros b p [Hin|Hin%list_elem_of_singleton]%elem_of_app; [by apply Had|].
    injection Hin as -> ->. split; [apply admin_ok|apply admin_lock].
  - destruct (Had b (Op e f)) as [Hok [_ Hlock]]; [rewrite Ht; set_solver|].
    destruct (prog_ok_step e f (pl_shared s) x sh) as (Hsh & Hact & Hf); [done|apply Hi|done|].
    apply shared_moves; [|done..]. apply admins_move; [done| |by eapply holds_allowed].
    intros b' p. rewrite elem_of_app, elem_of_cons.
    intros [Hin|[[= -> ->]|Hin]]; [|by split|]; apply Had; rewrite Ht; set_solver.
  - apply admins_move; [done| |].
    + intros b' p Hin. apply Had. rewrite Ht. set_solver.
    + rewrite Ht, holders_app, holders_cons in Hh. rewrite holders_app. lia.
Qed.

Lemma pool_step_inv s s' : pool_inv s → pool_step s s' → pool_inv s'.
Proof.
  intros Hi [k Hs|Hs|Hs];
    [by eapply accept_step_inv | by eapply task_step_inv | by eapply admin_step_inv].
Qed.

Hypothesis Hcreated : state_fine (ps_shared srv).
Hypothesis Hmetrics : sh_metrics (ps_shared srv) = ServerMetrics_new.
Hypothesis Hnonneg : 0 ≤ ps_connection_permits srv.

Lemma reachable_inv s : reachable s → pool_inv s.
Proof.
  unfold reachable. remember initial as i eqn:Hinit. intros Hr. assert (pool_inv i) as Hi.
  - subst. split; try done.
    + unfold permits_held, over_acceptors, initial. cbn [pl_permits pl_acceptor pl_tasks acceptor_permits length]. lia.
    + unfold active_of. cbn. by rewrite Hmetrics.
    + by intros p ?%elem_of_nil.
    + by intros b p ?%elem_of_nil.
    + cbn. lia.
  - clear Hinit. induction Hr as [|s1 s2 s3 Hs Hr IH]; [done|]. by eapply IH, pool_step_inv.
Qed.

End pool.

(** ** Draining *)

Section drain.
Context `{PasswordVerify} `{UserYaml} `{ConfigYaml} `{HashOrder} `{UnicodeCase} `{Base64} `{SerdeJson}.
Context (srv : ProxyServer).

(** [s'] is [s] with the first task gone and its permit back. *)
Definition first_gone (s s' : pool) (t : task) (r : list task) : Prop :=
  rtc timer_step s s' ∧ pl_tasks s' = r ∧ pl_permits s' = pl_permits s + 1 ∧
  pl_acceptor s' = pl_acceptor s ∧ pl_admins s' = pl_admins s.

Lemma releasing_gone s r : pl_tasks s = Releasing :: r → ∃ s', first_gone s s' Releasing r.
Proof.
  intros Ht. eexists. split; [by apply rtc_once, (step_release s [] r)|]. done.
Qed.

Lemma closing_gone s r : pl_tasks s = Closing :: r → ∃ s', first_gone s s' Closing r.
Proof.
  intros Ht. destruct (releasing_gone
    (update_metrics connection_closed (with_tasks s (Releasing :: r))) r eq_refl) as (s' & Hs & Hr).
  exists s'. split; [|exact Hr]. eapply rtc_l; [apply (step_close s [] r Ht) | exact Hs].
Qed.

Lemma serving_gone s p r : pl_tasks s = Serving p :: r → ∃ s', first_gone s s' (Serving p) r.
Proof.
  intros Ht. destruct (closing_gone (with_tasks s (Closing :: r)) r eq_refl) as (s' & Hs & Hr).
  exists s'. split; [|exact Hr]. eapply rtc_l; [apply (step_timeout s [] r p Ht) | exact Hs].
Qed.

Lemma task_gone s t r : unlocked s → pl_tasks s = t :: r → ∃ s', first_gone s s' t r.
Proof.
  intros Hu. destruct t as [k c|p| |]; intros Ht;
    [|by apply serving_gone|by apply closing_gone|by apply releasing_gone].
  set (p := serve 0 k (sh_state (pl_shared s)) c).
  destruct (serving_gone (with_tasks s (Serving p :: r)) p r eq_refl) as (s' & Hs & Hr).
  exists s'. split; [|exact Hr]. eapply rtc_l; [apply (step_start s [] r k c 0 Ht Hu) | exact Hs].
Qed.

Lemma drain s : unlocked s → ∃ s', rtc timer_step s s' ∧ pl_tasks s' = [] ∧
  pl_permits s' = pl_permits s + Z.of_nat (length (pl_tasks s)) ∧ pl_acceptor s' = pl_acceptor s.
Proof.
  remember (pl_tasks s) as ts eqn:Ht. symmetry in Ht. revert s Ht.
  induction ts as [|t ts IH]; intros s Ht Hu.
  - exists s. split; [done|]. split; [done|]. cbn [length]. split; [lia|done].
  - destruct (task_gone s t ts Hu Ht) as (s1 & Hr & Ht1 & Hp & Ha & Hm).
    destruct (IH s1 Ht1) as (s2 & Hr2 & Ht2 & Hp2 & Ha2); [by unfold unlocked; rewrite Hm|].
    exists s2. split; [by etrans|].
    split; [done|]. rewrite Hp2, Hp, Ha2, Ha. cbn [length]. split; [lia|done].
Qed.

Lemma timer_own_steps s s' : rtc timer_step s s' → rtc (own_step srv) s s'.
Proof. apply rtc_subrel. intros x y Hs. by apply own_timer. Qed.

(** What an accept loop does to itself leaves the other one, the permits and the
    administrators alone. *)
Definition handed_over (s s' : pool) (k : listener) : Prop :=
  rtc (own_step srv) s s' ∧ pl_acceptor s' k = Listening ∧
  (∀ k', k' ≠ k → pl_acceptor s' k' = pl_acceptor s k') ∧ pl_admins s' = pl_admins s.

Lemma handed_over_step s s1 s' k a :
  past_admission (pl_acceptor s k) = true → accept_step srv k s s1 →
  pl_acceptor s1 = <[k := a]> (pl_acceptor s) → pl_admins s1 = pl_admins s →
  handed_over s1 s' k → handed_over s s' k.
Proof.
  intros Hk Hs Ha Hm (Hr & Hl & Ho & Hm'). split; [by eapply rtc_l; [eapply own_accept|]|].
  split; [done|]. split; [|congruence]. intros k' Hne. rewrite Ho, Ha by done. by rewrite fn_lookup_insert_ne.
Qed.

(** An accept loop that holds a permit hands it to a task. *)
Lemma hand_over s k : acceptor_permits (pl_acceptor s k) = 1 → ∃ s', handed_over s s' k.
Proof.
  assert (Hspawn : ∀ s c, pl_acceptor s k = Spawning c → ∃ s', handed_over s s' k).
  { intros s1 c Hk. eexists. split; [eapply rtc_once, (own_accept srv _ _ k); [by rewrite Hk|by apply step_spawn]|].
    cbn. split; [by rewrite fn_lookup_insert|]. split; [|done]. intros. by rewrite fn_lookup_insert_ne. }
  assert (Hactive : ∀ s c, pl_acceptor s k = CountActive c → ∃ s', handed_over s s' k).
  { intros s1 c Hk. destruct (Hspawn (update_metrics count_active (with_acceptor s1 k (Spawning c))) c)
      as (s2 & Hs2); [cbn; by rewrite fn_lookup_insert|].
    exists s2. eapply handed_over_step; [by rewrite Hk|by apply step_count_active|done|done|done]. }
  destruct (pl_acceptor s k) as [| | | |c|c|c] eqn:Hk; cbn; try done; intros _;
    [|by eapply Hactive | by eapply Hspawn].
  destruct (Hactive (update_metrics count_total (with_acceptor s k (CountActive c))) c)
    as (s2 & Hs2); [cbn; by rewrite fn_lookup_insert|].
  exists s2. eapply handed_over_step; [by rewrite Hk|by apply step_count_total|done|done|done].
Qed.

(** The reload that holds the guard can come to its end, whatever its peer does. *)
Lemma holder_finishes p s l r :
  pl_admins s = l ++ (true, p) :: r → gives_back true p → holders (l ++ r) = 0%nat →
  ∃ s', rtc holder_step s s' ∧ unlocked s' ∧ pl_acceptor s' = pl_acceptor s ∧
        pl_tasks s' = pl_tasks s ∧ pl_permits s' = pl_permits s.
Proof.
  intros Hs. revert s Hs. induction p as [a|R e k IH]; intros s Hs Hg Hh; [done|].
  destruct Hg as [Hu Hg]. assert (allowed s e) as Hal by (destruct e; try done; by destruct a).
  assert (∃ x sh, answers e (pl_shared s) x sh) as (x & sh & Ha).
  { destruct e; try done; cbn; try (by eexists (Ok tt), _); by eexists _, _; apply surjective_pairing. }
  pose proof (step_holder s l r R e k x sh Hs Hal Ha) as Hstep.
  specialize (IH x (with_shared (with_admins s (l ++ (holds true e, k x) :: r)) sh)).
  destruct (holds true e) eqn:He.
  - destruct (IH eq_refl (Hg x) Hh) as (s' & Hr & Hs'). exists s'. split; [|done]. by eapply rtc_l.
  - eexists. split; [by apply rtc_once|]. split; [|done]. unfold unlocked. cbn.
    rewrite holders_app, holders_cons. by rewrite holders_app in Hh.
Qed.

End drain.

(** ** The running server *)

Section running.
Context `{PasswordVerify} `{UserYaml} `{ConfigYaml} `{HashOrder} `{UnicodeCase} `{Base64} `{SerdeJson}.

(** The largest number of permits a Tokio semaphore takes; [Semaphore::new] panics
    beyond it. *)
Definition MAX_PERMITS : Z := 2305843009213693951.

(** A server that [create] made from a configuration whose [max_connections] the
    semaphore takes. *)
Definition created {Sh0 St} (h : handler Sh0 St) (s0 : St) (c : Config) (path : bytes)
    (srv : ProxyServer) : Prop :=
  0 ≤ srv_max_connections (server c) ≤ MAX_PERMITS ∧
  result_of (run h (create c path) s0) = Ok srv.

Lemma created_spec {Sh0 St} (h : handler Sh0 St) s0 c path srv :
  created h s0 c path srv →
  start_config srv = c ∧ state_ok (in_force srv) c (ps_shared srv) ∧
  sh_metrics (ps_shared srv) = ServerMetrics_new ∧
  ps_connection_permits srv = srv_max_connections (server c).
Proof.
  intros (_ & Hr). assert (start_config srv = c ∧ sh_metrics (ps_shared srv) = ServerMetrics_new ∧
    ps_connection_permits srv = srv_max_connections (server c)) as (Hc & Hm & Hp).
  { revert Hr. unfold create, result_of. rewrite run_bind_q.
    destruct (run h (create_authenticator (auth c)) s0) as [[[o|e] s1] t]; cbn; [|done]. by intros [= <-]. }
  split; [done|]. split; [|done].
  eapply (proj1 (state_kept (in_force srv) c (in_force_valid srv))); [by left|exact Hr].
Qed.

Lemma created_inv {Sh0 St} (h : handler Sh0 St) s0 c path srv s :
  created h s0 c path srv → reachable srv s → pool_inv srv s.
Proof.
  intros Hc Hr. destruct (created_spec h s0 c path srv Hc) as (Hstart & Hok & Hm & Hp).
  destruct Hc as (Hmax & _). unfold MAX_PERMITS in Hmax. apply reachable_inv; [|by rewrite Hstart|done|..|done].
  - rewrite Hp. unfold U64_MAX. lia.
  - rewrite Hp. lia.
Qed.

Definition other (k : listener) : listener := match k with LSocks5 => LHttp | LHttp => LSocks5 end.

Lemma over_both f s k : over_acceptors f s = f (pl_acceptor s k) + f (pl_acceptor s (other k)).
Proof. unfold over_acceptors. destruct k; cbn [other]; lia. Qed.

(** The other accept loop can be brought to hold no permit. *)
Lemma other_idle srv s k :
  ∃ s', rtc (own_step srv) s s' ∧ pl_acceptor s' k = pl_acceptor s k ∧
        acceptor_permits (pl_acceptor s' (other k)) = 0 ∧ pl_admins s' = pl_admins s.
Proof.
  assert (acceptor_permits (pl_acceptor s (other k)) = 1 ∨ acceptor_permits (pl_acceptor s (other k)) = 0)
    as [H1'|H0'] by (destruct (pl_acceptor s (other k)); cbn; auto).
  - destruct (hand_over srv s (other k) H1') as (s' & Hr & Hl & Ho & Hm). exists s'.
    split; [done|]. split; [apply Ho; by destruct k|]. by rewrite Hl.
  - by exists s.
Qed.

Lemma steps_inv srv s s' :
  ps_connection_permits srv < U64_MAX → pool_inv srv s → rtc (pool_step srv) s s' → pool_inv srv s'.
Proof. intros Hmax Hi Hr. induction Hr as [|a b d Hs Hr IH]; [done|]. by eapply IH, pool_step_inv. Qed.

Lemma waiting_gets_permit srv s k c :
  pool_inv srv s → 0 < ps_connection_permits srv → ps_connection_permits srv < U64_MAX →
  pl_acceptor s k = AwaitingPermit c → unlocked s →
  ∃ s', rtc (own_step srv) s s' ∧ pl_acceptor s' k = CountTotal c.
Proof.
  intros Hi Hpos Hmax Hk Hu. destruct (other_idle srv s k) as (s1 & Hr1 & Hk1 & Ho1 & Hm1).
  destruct (drain s1) as (s2 & Hr2 & Ht2 & Hp2 & Ha2); [by unfold unlocked; rewrite Hm1|].
  assert (pool_inv srv s1) as Hi1.
  { eapply steps_inv; [done..|]. eapply rtc_subrel; [|exact Hr1]. apply own_step_pool. }
  pose proof (inv_permits srv s1 Hi1) as Hp1. unfold permits_held in Hp1.
  rewrite (over_both _ s1 k), Ho1, Hk1, Hk in Hp1. cbn [acceptor_permits] in Hp1.
  eexists. split.
  - etrans; [exact Hr1|]. etrans; [by apply timer_own_steps|].
    apply rtc_once, (own_accept srv _ _ k); [by rewrite Ha2, Hk1, Hk|].
    apply (step_acquire srv k s2 c); [by rewrite Ha2, Hk1|lia].
  - cbn. by rewrite fn_lookup_insert.
Qed.

(** Either nobody holds the guard, or one reload does. *)
Lemma holder_cases srv s :
  pool_inv srv s → unlocked s ∨
  ∃ l p r, pl_admins s = l ++ (true, p) :: r ∧ gives_back true p ∧ holders (l ++ r) = 0%nat.
Proof.
  intros Hi. pose proof (inv_holders srv s Hi) as Hh. pose proof (inv_admins srv s Hi) as Ha. unfold unlocked.
  destruct (decide (holders (pl_admins s) = 0%nat)) as [|Hne]; [by left|right].
  assert (∃ p, (true, p) ∈ pl_admins s) as [p Hp].
  { clear Hh Ha Hi. induction (pl_admins s) as [|[[] p] l IH]; [done|exists p; set_solver|].
    rewrite holders_cons in Hne. destruct IH as [p' Hp']; [lia|]. exists p'. set_solver. }
  destruct (list_elem_of_split _ _ Hp) as (l & r & Hs). exists l, p, r. split; [done|].
  split; [by apply Ha in Hp as [_ ?]|]. rewrite Hs, holders_app, holders_cons in Hh. rewrite holders_app. lia.
Qed.

(** While the guard is held and all permits are with tasks that wait for it, the server
    can do nothing by itself. *)
Lemma nothing_moves srv s k c :
  ¬ unlocked s → pl_permits s = 0 → pl_acceptor s k = AwaitingPermit c →
  past_admission (pl_acceptor s (other k)) = false →
  (∀ t, t ∈ pl_tasks s → ∃ k c, t = Starting k c) → ∀ s', ¬ own_step srv s s'.
Proof.
  intros Hl Hp Hk Ho Ht s' [Hs|k' Hpast Hs].
  - assert (∀ t l r, pl_tasks s = l ++ t :: r → ∃ k c, t = Starting k c) as Hst.
    { intros t l r He. apply Ht. rewrite He. set_solver. }
    by destruct Hs as [s l r k' c' fuel He Hu|s l r p He|s l r He|s l r He]; [|destruct (Hst _ _ _ He) as (?&?&?)..].
  - assert (k' = k) as -> by (destruct k, k'; cbn in Ho; congruence || done).
    destruct Hs; rewrite Hk in *; try done. lia.
Qed.

End running.

(** C10. Never more than [max_connections] connections. In every state the running server
    can reach, whatever its clients do and however accept loops, connections, timers and
    administrators interleave, the free permits, those held by the accept loops and
    those held by connections, finished or timed out ones included, add up to the
    configured [max_connections]; so there are never more connection tasks than that. *)
Theorem connections_bounded {Sh0 St} `{PasswordVerify} `{UserYaml} `{ConfigYaml} `{HashOrder}
    `{UnicodeCase} `{Base64} `{SerdeJson} (h : handler Sh0 St) (s0 : St) (c : Config) (path : bytes)
    (srv : ProxyServer) (s : pool) :
  created h s0 c path srv → reachable srv s →
  pl_permits s + permits_held s = srv_max_connections (server c) ∧ 0 ≤ pl_permits s ∧
  Z.of_nat (length (pl_tasks s)) ≤ srv_max_connections (server c).
Proof.
  intros Hc Hr. destruct (created_inv h s0 c path srv s Hc Hr).
  destruct (created_spec h s0 c path srv Hc) as (_ & _ & _ & Hp). rewrite <- Hp.
  split; [done|]. split; [done|]. unfold permits_held, over_acceptors in *.
  destruct (pl_acceptor s LSocks5), (pl_acceptor s LHttp); cbn [acceptor_permits] in *; lia.
Qed.

(** C11. The gauge of active connections is exact. In every reachable state the counter
    equals the number of connections that were counted and have not yet been uncounted:
    it never wraps around, drifts or goes below zero, timeouts and failures included, it
    is at most [max_connections], and it is zero when no connection is left. *)
Theorem gauge_exact {Sh0 St} `{PasswordVerify} `{UserYaml} `{ConfigYaml} `{HashOrder}
    `{UnicodeCase} `{Base64} `{SerdeJson} (h : handler Sh0 St) (s0 : St) (c : Config) (path : bytes)
    (srv : ProxyServer) (s : pool) :
  created h s0 c path srv → reachable srv s →
  let active := active_connections (sh_metrics (pl_shared s)) in
  active = connections_counted s ∧ 0 ≤ active ≤ srv_max_connections (server c) ∧
  (pl_tasks s = [] → (∀ k, pl_acceptor s k = Listening) → active = 0).
Proof.
  intros Hc Hr active. destruct (created_inv h s0 c path srv s Hc Hr).
  destruct (created_spec h s0 c path srv Hc) as (_ & _ & _ & Hp). rewrite <- Hp.
  pose proof (counted_le_held s). unfold active, active_of in *. rewrite inv_active0.
  split; [done|]. split; [lia|]. intros Ht Ha.
  unfold connections_counted, over_acceptors. by rewrite Ht, !Ha.
Qed.

(** C13. A client waits for a permit no longer than the connections before it, or than a
    reload. Whenever an accept loop waits for a permit with an admitted client, and no
    reload holds the write guard of the state, there is a way on by the server's own steps
    alone (timers, tasks that end, and what the accept loops do with clients they have
    admitted) in which the client gets its permit: no client, target or administrator
    has to do anything. When a reload holds the guard, that reload can come to its end,
    and then there is such a way. But as long as it does not, a server whose permits are all
    with connections that have not read the state yet can do nothing by itself: the timers
    of these connections are not running. *)
Theorem waiting_client_served {Sh0 St} `{PasswordVerify} `{UserYaml} `{ConfigYaml} `{HashOrder}
    `{UnicodeCase} `{Base64} `{SerdeJson} (h : handler Sh0 St) (s0 : St) (c : Config) (path : bytes)
    (srv : ProxyServer) (s : pool) (k : listener) (client : sid) :
  created h s0 c path srv → srv_max_connections (server c) ≠ 0 →
  reachable srv s → pl_acceptor s k = AwaitingPermit client →
  (unlocked s → ∃ s', rtc (own_step srv) s s' ∧ pl_acceptor s' k = CountTotal client) ∧
  (∃ s1 s', rtc holder_step s s1 ∧ rtc (own_step srv) s1 s' ∧ pl_acceptor s' k = CountTotal client) ∧
  (¬ unlocked s → pl_permits s = 0 → past_admission (pl_acceptor s (other k)) = false →
   (∀ t, t ∈ pl_tasks s → ∃ k c, t = Starting k c) → ∀ s', ¬ own_step srv s s').
Proof.
  intros Hc Hmax0 Hr Hk. destruct (created_spec h s0 c path srv Hc) as (_ & _ & _ & Hp).
  pose proof (created_inv h s0 c path srv s Hc Hr) as Hi. destruct Hc as (Hmax & _).
  unfold MAX_PERMITS in Hmax.
  assert (0 < ps_connection_permits srv < U64_MAX) as [Hpos Hlt] by (rewrite Hp; unfold U64_MAX; lia).
  split; [by apply waiting_gets_permit|]. split; [|intros; by eapply nothing_moves].
  destruct (holder_cases srv s Hi) as [Hu|(l & p & r & Hs & Hg & Hh)].
  - destruct (waiting_gets_permit srv s k client) as (s' & Hs & Hk'); [done..|]. by exists s, s'.
  - destruct (holder_finishes p s l r Hs Hg Hh) as (s1 & Hr1 & Hu1 & Ha1 & _).
    destruct (waiting_gets_permit srv s1 k client) as (s' & Hs' & Hk'); [|done..|by rewrite Ha1|done|].
    + eapply steps_inv; [done..|]. eapply rtc_subrel; [|exact Hr1]. apply holder_step_pool.
    + by exists s1, s'.
Qed.

(** ** A server with a single permit *)

Definition tiny_config : Config := {|
  server := {| srv_bind_address := "127.0.0.1"; srv_socks5_port := 1080; srv_http_port := 8080;
               srv_max_connections := 1; srv_connection_timeout := 5; srv_buffer_size := 1024 |};
  auth := auth Config_default; logging := logging Config_default; security := security Config_default;
  upstream := upstream Config_default; admin := admin Config_default |}.

Definition tiny_server : ProxyServer := {|
  ps_shared := shared_of {| ss_config := tiny_config; ss_authenticator := None |};
  ps_connection_permits := 1; ps_rate_limiter := None; ps_config_path := "c.yml" |}.

Section tiny.
Local Existing Instances tag_verify one_user_yaml sample_yaml map_order ascii_only_case plain_base64 plain_json.

Definition tiny_world : world Shared := empty_world (ps_shared tiny_server).

Lemma tiny_created : created script tiny_world tiny_config "c.yml" tiny_server.
Proof.
  split; [cbn; unfold MAX_PERMITS; lia|reflexivity].
Qed.

(** A client is admitted in three steps. *)
Definition local_client : SocketAddr := {| sa_ip := ip4 127 0 0 1; sa_port := 5000 |}.

Lemma tiny_allows : check_client_allowed tiny_config (sa_ip local_client) = true.
Proof. vm_compute. reflexivity. Qed.

Definition admitted_state (s : pool) (k : listener) (c : sid) : pool :=
  with_acceptor (with_shared (with_acceptor (with_acceptor s k
    (Admitting c (admit_client None local_client))) k (Admitting c (Ret true))) (pl_shared s)) k
    (AwaitingPermit c).

Lemma tiny_admits s k c :
  sh_state (pl_shared s) = sh_state (ps_shared tiny_server) → pl_acceptor s k = Listening →
  unlocked s → rtc (pool_step tiny_server) s (admitted_state s k c).
Proof.
  intros Hsh Hk Hu. unfold admitted_state.
  eapply rtc_l; [apply (by_acceptor tiny_server _ _ k), (step_accept tiny_server k s c local_client Hk)|].
  set (s1 := with_acceptor s k _).
  assert (Hk1 : pl_acceptor s1 k = Admitting c (Op (Locked ReadGuard (λ sh, (sh_state sh, sh)))
    (λ st, if negb (check_client_allowed (ss_config st) (sa_ip local_client)) then Ret false else Ret true)))
    by (unfold s1; cbn [with_acceptor pl_acceptor]; by rewrite fn_lookup_insert).
  pose proof (step_admit tiny_server k s1 c _ _ _ (sh_state (pl_shared s)) (pl_shared s) Hk1 Hu eq_refl) as Hs.
  cbv beta in Hs. rewrite Hsh in Hs. change (ss_config (sh_state (ps_shared tiny_server))) with tiny_config in Hs.
  rewrite tiny_allows in Hs. cbv beta iota delta [negb] in Hs.
  eapply rtc_l; [exact (by_acceptor tiny_server _ _ k Hs)|].
  apply rtc_once, (by_acceptor tiny_server _ _ k), step_admitted.
  cbn [with_shared with_acceptor pl_acceptor]. by rewrite fn_lookup_insert.
Qed.

(** One connection runs and the other listener's client waits. *)
Lemma tiny_busy : ∃ s, reachable tiny_server s ∧ pl_acceptor s LHttp = AwaitingPermit 8%nat ∧
  pl_tasks s = [Starting LSocks5 7] ∧ pl_permits s = 0 ∧ active_of (pl_shared s) = 1 ∧ unlocked s.
Proof.
  set (s0 := initial tiny_server). set (s1 := admitted_state s0 LSocks5 7%nat).
  set (s2 := with_permits (with_acceptor s1 LSocks5 (CountTotal 7%nat)) (pl_permits s1 - 1)).
  set (s3 := update_metrics count_total (with_acceptor s2 LSocks5 (CountActive 7%nat))).
  set (s4 := update_metrics count_active (with_acceptor s3 LSocks5 (Spawning 7%nat))).
  set (s5 := with_tasks (with_acceptor s4 LSocks5 Listening) (pl_tasks s4 ++ [Starting LSocks5 7%nat])).
  exists (admitted_state s5 LHttp 8%nat). split; [|by repeat split].
  unfold reachable. etrans; [by apply (tiny_admits s0 LSocks5 7%nat)|].
  etrans; [|by apply (tiny_admits s5 LHttp 8%nat)].
  eapply rtc_l; [by apply (by_acceptor tiny_server _ _ LSocks5), (step_acquire tiny_server LSocks5 s1 7%nat)|].
  eapply rtc_l; [by apply (by_acceptor tiny_server _ _ LSocks5), (step_count_total tiny_server LSocks5 s2 7%nat)|].
  eapply rtc_l; [by apply (by_acceptor tiny_server _ _ LSocks5), (step_count_active tiny_server LSocks5 s3 7%nat)|].
  by apply rtc_once, (by_acceptor tiny_server _ _ LSocks5), (step_spawn tiny_server LSocks5 s4 7%nat).
Qed.

End tiny.

Lemma connections_bounded_witness :
  let _ := tag_verify in let _ := one_user_yaml in let _ := sample_yaml in let _ := map_order in
  let _ := ascii_only_case in let _ := plain_base64 in let _ := plain_json in
  ∃ s, reachable tiny_server s ∧ length (pl_tasks s) = 1%nat ∧
       pl_permits s + permits_held s = 1 ∧ Z.of_nat (length (pl_tasks s)) ≤ 1.
Proof.
  intros H1 H2 H3 H4 H5 H6 H7. destruct tiny_busy as (s & Hr & _ & Ht & _). exists s.
  split; [exact Hr|]. split; [rewrite Ht; reflexivity|].
  destruct (connections_bounded script tiny_world tiny_config "c.yml" tiny_server s tiny_created Hr)
    as (Hp & _ & Hb).
  split; [exact Hp|exact Hb].
Defined.

Lemma gauge_exact_witness :
  let _ := tag_verify in let _ := one_user_yaml in let _ := sample_yaml in let _ := map_order in
  let _ := ascii_only_case in let _ := plain_base64 in let _ := plain_json in
  ∃ s, reachable tiny_server s ∧ active_connections (sh_metrics (pl_shared s)) = 1 ∧
       active_connections (sh_metrics (pl_shared s)) = connections_counted s.
Proof.
  intros H1 H2 H3 H4 H5 H6 H7. destruct tiny_busy as (s & Hr & _ & _ & _ & Ha & _). exists s.
  split; [exact Hr|]. split; [exact Ha|].
  exact (proj1 (gauge_exact script tiny_world tiny_config "c.yml" tiny_server s tiny_created Hr)).
Defined.

Lemma waiting_client_served_witness :
  let _ := tag_verify in let _ := one_user_yaml in let _ := sample_yaml in let _ := map_order in
  let _ := ascii_only_case in let _ := plain_base64 in let _ := plain_json in
  ∃ s s', reachable tiny_server s ∧ pl_permits s = 0 ∧ rtc (own_step tiny_server) s s' ∧
          pl_acceptor s' LHttp = CountTotal 8%nat.
Proof.
  intros H1 H2 H3 H4 H5 H6 H7. destruct tiny_busy as (s & Hr & Hk & _ & Hp & _ & Hu).
  destruct (waiting_client_served script tiny_world tiny_config "c.yml" tiny_server s LHttp 8%nat
              tiny_created ltac:(discriminate) Hr Hk) as (Hown & _).
  destruct (Hown Hu) as (s' & Hs & Hk').
  exists s, s'. split; [exact Hr|]. split; [exact Hp|]. split; [exact Hs|exact Hk'].
Defined.
