(* ===== verification/Cli.v ===== *)
(** * The command line (src/src/main.rs)

    The arguments after clap has read them, the user management commands over the user
    file, the validate command, and the start of the server: which configuration it
    runs with, logging, and the binding of the listeners. *)

From S2P Require Import Prelude Float64 RustStr IpAddr Effects Script Config Policy Upstream.
From S2P Require Import Users Auth Metrics Socks5 RateLimit Http Tokens Server Admin Pool.

Local Open Scope Z_scope.
Local Open Scope rust_scope.

(** ** Arguments *)

(** The subcommands of [user], with the options given; what has a default may be
    absent. *)
Inductive UserCommand : Set :=
  | CmdInit (hash_type : option bytes)
  | CmdAdd (username : bytes) (password hash_type : option bytes)
  | CmdRemove (username : bytes)
  | CmdList
  | CmdUpdate (username : bytes) (password : option bytes)
  | CmdEnable (username enabled : bytes)
  | CmdNone.

Inductive Subcommand : Set :=
  | SubValidate (config user_config : option bytes)
  | SubUser (user_config : option bytes) (command : UserCommand).

(** Clap refuses [-c] with [-g], and [-q] with [-v]. *)
Record Matches : Set := {
  m_config : option bytes;
  m_generate_config : option bytes;
  m_verbose : Z;                    (* how often -v was given *)
  m_quiet : bool;
  m_bind : option bytes;
  m_http_port : option bytes;
  m_socks5_port : option bytes;
  m_loglevel : option bytes;
  m_admin_port : option bytes;
  m_admin_enabled : bool;
  m_subcommand : option Subcommand;
}.

Definition default_config_path : bytes := "config.yml".
Definition default_users_path : bytes := "users.yml".
Definition default_hash_type : bytes := "argon2".

(** ** Output *)

Definition println {Sh} (text : bytes) : prog Sh unit := perform (Print (text ++ [lf])).
Definition eprintln {Sh} (text : bytes) : prog Sh unit := perform (Eprint (text ++ [lf])).

(** [{:?}] of a hash type. *)
Definition debug_hash_type (t : HashType) : bytes :=
  match t with Argon2 => "Argon2" | Bcrypt => "Bcrypt" | Scrypt => "Scrypt" end.

(** How a run of the program ends, if it does. *)
Inductive outcome : Type :=
  | Returned (r : result unit)      (* main returned; an error is exit code 1 *)
  | Exited (code : Z)               (* process::exit *)
  | Panicked
  | Running (srv : ProxyServer).    (* the listeners are bound and the server runs *)

(** ** User management *)

Section cli.
Context `{PasswordVerify} `{UserYaml} `{ConfigYaml} `{HashOrder} `{UnicodeCase} `{Base64}.
Context {Sh : Type}.

Definition parse_hash_type (hash_type_str : bytes) : result HashType :=
  let t := to_lowercase hash_type_str in
  if bool_decide (t = "argon2") then Ok Argon2
  else if bool_decide (t = "bcrypt") then Ok Bcrypt
  else if bool_decide (t = "scrypt") then Ok Scrypt
  else Err ("Invalid hash type: " ++ hash_type_str ++ ". Valid options are: argon2, bcrypt, scrypt").

Definition get_password_from_args_or_prompt (arg : option bytes) : prog Sh (result bytes) :=
  match arg with
  | Some password => Ret (Ok password)
  | None =>
      _ <- perform (Print "Enter password: ") ;;
      _ <-? perform StdoutFlush ;;
      password <-? perform StdinLine ;;
      Ret (Ok (trim password))
  end.

Definition init_user_config (path : bytes) (t : HashType) : prog Sh (result unit) :=
  ex <- perform (PathExists path) ;;
  if ex : bool then Ret (Err ("User config file already exists: " ++ path))
  else
    _ <-? save_users {| hash_type := t; users := users UserConfig_default |} path ;;
    _ <- println ("Initialized user configuration file: " ++ path) ;;
    _ <- println ("Hash type: " ++ debug_hash_type t) ;;
    Ret (Ok tt).

(** [println!] and the [Ok(())] that follows it. *)
Definition report (text : bytes) : prog Sh (result unit) :=
  _ <- println text ;;
  Ret (Ok tt).

Definition cli_add_user (path username password : bytes) (t : HashType) : prog Sh (result unit) :=
  ex <- perform (PathExists path) ;;
  user_config <-? (if ex : bool then load_users path
                   else Ret (Ok {| hash_type := t; users := users UserConfig_default |})) ;;
  user_config <-? add_user user_config username password ;;
  _ <-? save_users user_config path ;;
  report ("Added user: " ++ username).

Definition cli_remove_user (path username : bytes) : prog Sh (result unit) :=
  user_config <-? load_users path ;;
  user_config <-? remove_user user_config username ;;
  _ <-? save_users user_config path ;;
  report ("Removed user: " ++ username).

Definition list_entry (p : bytes * UserEntry) : bytes :=
  "  " ++ p.1 ++ " (" ++ (if user_enabled p.2 then "enabled" else "disabled") ++ ") - created: "
  ++ created_at p.2 ++ ", modified: " ++ last_modified p.2.

Fixpoint print_lines (ls : list bytes) : prog Sh unit :=
  match ls with
  | [] => Ret tt
  | l :: ls' => _ <- println l ;; print_lines ls'
  end.

Definition list_users (path : bytes) : prog Sh (result unit) :=
  user_config <-? load_users path ;;
  _ <- println ("Hash type: " ++ debug_hash_type (hash_type user_config)) ;;
  _ <- println "Users:" ;;
  _ <- (if bool_decide (users user_config = ∅) then println "  No users configured"
        else print_lines (list_entry <$> hm_iter (users user_config))) ;;
  Ret (Ok tt).

Definition update_user_password (path username password : bytes) : prog Sh (result unit) :=
  user_config <-? load_users path ;;
  user_config <-? update_password user_config username password ;;
  _ <-? save_users user_config path ;;
  report ("Updated password for user: " ++ username).

Definition cli_enable_user (path username : bytes) (enabled : bool) : prog Sh (result unit) :=
  user_config <-? load_users path ;;
  user_config <-? enable_user user_config username enabled ;;
  _ <-? save_users user_config path ;;
  report ("User " ++ username ++ " " ++ (if enabled then "enabled" else "disabled")).

(** [str::parse::<bool>()]. *)
Definition parse_bool (s : bytes) : result bool :=
  if bool_decide (s = "true") then Ok true
  else if bool_decide (s = "false") then Ok false
  else Err "provided string was not `true` or `false`".

Definition handle_user_command (user_config : option bytes) (c : UserCommand) : prog Sh (result unit) :=
  let user_config_path := default default_users_path user_config in
  match c with
  | CmdInit t =>
      t <-? Ret (parse_hash_type (default default_hash_type t)) ;;
      init_user_config user_config_path t
  | CmdAdd username password t =>
      password <-? get_password_from_args_or_prompt password ;;
      t <-? Ret (parse_hash_type (default default_hash_type t)) ;;
      cli_add_user user_config_path username password t
  | CmdRemove username => cli_remove_user user_config_path username
  | CmdList => list_users user_config_path
  | CmdUpdate username password =>
      password <-? get_password_from_args_or_prompt password ;;
      update_user_password user_config_path username password
  | CmdEnable username enabled =>
      enabled <-? Ret (parse_bool enabled) ;;
      cli_enable_user user_config_path username enabled
  | CmdNone =>
      _ <- eprintln "No valid user subcommand provided. Use --help for usage information." ;;
      Ret (Ok tt)
  end.

(** ** Validation *)

(** One file: whether it is there and loads; [true] when it has errors. *)
Definition check_file {A} (what title path : bytes) (load : prog Sh (result A)) : prog Sh bool :=
  ex <- perform (PathExists path) ;;
  if ex : bool then
    _ <- perform (Print ("Validating " ++ what ++ " config file '" ++ path ++ "': ")) ;;
    r <- load ;;
    match r with
    | Ok _ => _ <- println "✓ Valid" ;; Ret false
    | Err e => _ <- println ("✗ Invalid - " ++ e) ;; Ret true
    end
  else
    _ <- println ("⚠ " ++ title ++ " config file '" ++ path ++ "' does not exist") ;;
    Ret false.

Definition handle_validate_command (config user_config : option bytes) : prog Sh outcome :=
  _ <- println "Validating configuration files..." ;;
  bad <- check_file "main" "Main" (default default_config_path config)
           (load_from_file (default default_config_path config)) ;;
  bad_users <- (match user_config with
                | Some p => check_file "user" "User" p (load_users p)
                | None => Ret false
                end) ;;
  if (bad : bool) || bad_users then Ret (Exited 1)
  else
    _ <- println "All configuration files are valid!" ;;
    Ret (Returned (Ok tt)).

(** ** Logging *)

Definition level_of_name (name : bytes) : bytes :=
  if bool_decide (name ∈ ["trace" : bytes; "debug" : bytes; "info" : bytes; "warn" : bytes; "error" : bytes])
  then to_uppercase name else "INFO".

Definition log_level_of (config : Config) (m : Matches) : bytes :=
  if m_quiet m then "ERROR"
  else if m_verbose m =? 0 then level_of_name (log_level (logging config))
  else if m_verbose m =? 1 then "DEBUG"
  else "TRACE".

(** [Path::file_name] and [Path::parent] of a Unix path: empty and [.] components at the
    end do not count, and neither the root nor [..] is a file name. *)
Fixpoint drop_idle (rev_parts : list bytes) : list bytes :=
  match rev_parts with
  | x :: ((_ :: _) as rest) => if bool_decide (x = [] ∨ x = ".") then drop_idle rest else rev_parts
  | _ => rev_parts
  end.

Definition file_name (path : bytes) : option bytes :=
  match drop_idle (reverse (split_char slash path)) with
  | x :: _ => if bool_decide (x = [] ∨ x = "." ∨ x = "..") then None else Some x
  | [] => None
  end.

Definition parent (path : bytes) : option bytes :=
  match drop_idle (reverse (split_char slash path)) with
  | [x] => if bool_decide (x = []) then None else Some []
  | _ :: rest =>
      match drop_idle rest with
      | [[]] => Some (bstr "/")
      | rest => Some (join slash (reverse rest))
      end
  | [] => None
  end.

(** [rolling::never] and the layer over it: the file is opened at once. The result is
    [None] when [file_name().unwrap()] panics, or [rolling::never] because the file cannot
    be opened. *)
Definition file_layers (config : Config) : prog Sh (option (list log_layer)) :=
  match log_file (logging config) with
  | None => Ret (Some [])
  | Some f =>
      match file_name f with
      | None => Ret None
      | Some name =>
          let directory := default (bstr ".") (parent f) in
          r <- perform (LogFileOpen directory name) ;;
          Ret (match r with Ok _ => Some [FileLayer directory name] | Err _ => None end)
      end
  end.

(** The result is [false] when it panics. *)
Definition setup_logging (config : Config) (m : Matches) : prog Sh bool :=
  env <- perform EnvFilterFromEnv ;;
  let filter := default (log_level_of config m) env in
  let console := if log_console (logging config) then [ConsoleLayer] else [] in
  file <- file_layers config ;;
  match file with
  | None => Ret false
  | Some file =>
      journald <- (if log_journald (logging config) then
                     r <- perform JournaldConnect ;;
                     match r with
                     | Ok _ => Ret [JournaldLayer]
                     | Err e =>
                         _ <- eprintln ("Warning: Failed to initialize journald logging: " ++ e) ;;
                         Ret []
                     end
                   else Ret []) ;;
      _ <- perform (InitSubscriber (console ++ file ++ journald) filter) ;;
      Ret true
  end.

(** ** Starting the server *)

(** The value of an option: the argument, or else the environment variable. *)
Definition arg_or_env (arg : option bytes) (var : bytes) : prog Sh (option bytes) :=
  match arg with Some v => Ret (Some v) | None => perform (EnvVar var) end.

(** A port that does not parse is ignored. *)
Definition port_override (v : option bytes) (port : Z) : Z :=
  default port (v ≫= parse_u16).

Definition apply_overrides (m : Matches) (config : Config) : prog Sh Config :=
  bind_address <- arg_or_env (m_bind m) "RUST_SOCKSD_BIND_ADDRESS" ;;
  http_port <- arg_or_env (m_http_port m) "RUST_SOCKSD_HTTP_PORT" ;;
  socks5_port <- arg_or_env (m_socks5_port m) "RUST_SOCKSD_SOCKS5_PORT" ;;
  level <- arg_or_env (m_loglevel m) "RUST_SOCKSD_LOG_LEVEL" ;;
  admin_port <- arg_or_env (m_admin_port m) "RUST_SOCKSD_ADMIN_PORT" ;;
  admin_enabled <- arg_or_env (if m_admin_enabled m then Some ("true" : bytes) else None)
                     "RUST_SOCKSD_ADMIN_ENABLED" ;;
  let s := server config in
  let l := logging config in
  let a := admin config in
  Ret {|
    server := {| srv_bind_address := default (srv_bind_address s) bind_address;
                 srv_socks5_port := port_override socks5_port (srv_socks5_port s);
                 srv_http_port := port_override http_port (srv_http_port s);
                 srv_max_connections := srv_max_connections s;
                 srv_connection_timeout := srv_connection_timeout s;
                 srv_buffer_size := srv_buffer_size s |};
    auth := auth config;
    logging := {| log_level := default (log_level l) level; log_file := log_file l;
                  log_console := log_console l; log_journald := log_journald l |};
    security := security config;
    upstream := upstream config;
    admin := {| adm_enabled := match parse_bool <$> admin_enabled with
                               | Some (Ok b) => b
                               | _ => adm_enabled a
                               end;
                adm_bind_address := adm_bind_address a;
                adm_port := port_override admin_port (adm_port a);
                adm_token := adm_token a; adm_admin_users := adm_admin_users a;
                adm_token_ttl := adm_token_ttl a |} |}.

(** The configuration before the overrides; [None] when the file is there but does not
    load: the program then says so and exits. *)
Definition base_config (config_path : bytes) : prog Sh (option Config) :=
  ex <- perform (PathExists config_path) ;;
  if ex : bool then
    r <- load_from_file config_path ;;
    match r with
    | Ok config => Ret (Some config)
    | Err e =>
        _ <- eprintln ("Failed to load configuration from " ++ config_path ++ ": " ++ e) ;;
        _ <- eprintln "Refusing to start with default configuration. Fix the config or run --generate-config." ;;
        Ret None
    end
  else Ret (Some Config_default).

(** [ProxyServer::start] up to the accept loops. *)
Definition start (config : Config) : prog Sh (result unit) :=
  s <-? Ret (start_settings config) ;;
  let '(socks5_addr, http_addr, admin_addr, admin_enabled, _) := s in
  _ <-? perform (TcpBind socks5_addr) ;;
  _ <-? perform (TcpBind http_addr) ;;
  if admin_enabled : bool then perform (TcpBind admin_addr) else Ret (Ok tt).

Definition run_server (m : Matches) (config_path : bytes) : prog Sh outcome :=
  base <- base_config config_path ;;
  match base with
  | None => Ret (Exited 1)
  | Some config =>
      config <- apply_overrides m config ;;
      logging_ok <- setup_logging config m ;;
      if negb logging_ok then Ret Panicked
      else
        _ <- perform (PathExists config_path) ;;
        server <- create config config_path ;;
        match server with
        | Err e => Ret (Returned (Err e))
        | Ok srv =>
            r <- start config ;;
            Ret (match r with Ok _ => Running srv | Err _ => Exited 1 end)
        end
  end.

Definition generate_default_config (path : bytes) : prog Sh (result unit) :=
  _ <-? save_to_file Config_default path ;;
  _ <- println ("Generated default configuration file: " ++ path) ;;
  _ <- println "Edit this file to customize your proxy server settings." ;;
  Ret (Ok tt).

Definition main (m : Matches) : prog Sh outcome :=
  match m_generate_config m with
  | Some config_path => r <- generate_default_config config_path ;; Ret (Returned r)
  | None =>
      match m_subcommand m with
      | Some (SubValidate config user_config) => handle_validate_command config user_config
      | Some (SubUser user_config command) =>
          r <- handle_user_command user_config command ;; Ret (Returned r)
      | None => run_server m (default default_config_path (m_config m))
      end
  end.

End cli.

Example paths :
  file_name "/var/log/p.log" = Some (bstr "p.log") ∧ parent "/var/log/p.log" = Some (bstr "/var/log") ∧
  file_name "p.log" = Some (bstr "p.log") ∧ parent "p.log" = Some [] ∧
  file_name "/x/" = Some (bstr "x") ∧ parent "/x/" = Some (bstr "/") ∧ file_name "a/.." = None ∧
  file_name "/" = None ∧ file_name [] = None ∧ file_name "./a/." = Some (bstr "a") ∧ parent "./a/." = Some (bstr ".").
Proof. vm_compute. repeat split. Qed.

(** ** What a start guarantees *)

Section startup.
Context `{PasswordVerify} `{UserYaml} `{ConfigYaml} `{HashOrder} `{UnicodeCase}.
Context {Sh : Type}.
Implicit Types tr : list (event Sh).

Definition no_bind {R} (e : eff Sh R) : Prop := match e with TcpBind _ => False | _ => True end.

Definition bind_of (x : event Sh) : option SocketAddr :=
  match x with Ev e _ => match e with TcpBind a => Some a | _ => None end end.

(** The addresses the program asked to listen on, in order. *)
Definition binds tr : list SocketAddr := omap bind_of tr.

Lemma wp_no_bind {A} (p : prog Sh A) tr :
  emits (λ R e, no_bind e) p →
  wp (@any_resp Sh) p (λ _ tr', binds tr' = binds tr ∧ tr `prefix_of` tr') tr.
Proof.
  revert tr. induction p as [a|R e k IH]; intros tr; cbn; [done|]. intros [He Hk] r _.
  eapply wp_mono; [|by apply IH]. cbn. intros a tr' [-> Hp]. split.
  - unfold binds. rewrite omap_app. cbn. destruct e; by rewrite ?app_nil_r.
  - etransitivity; [|exact Hp]. by exists [Ev e r].
Qed.

(** The configuration that reading the file gave. *)
Definition loaded (r : result bytes) : option Config :=
  match r with
  | Ok content => match config_of_content content with Ok c => Some c | Err _ => None end
  | Err _ => None
  end.

(** The configuration before the overrides, by what the start of the run observed. *)
Definition based_on (path : bytes) (base : option Config) tr : Prop :=
  (base = Some Config_default ∧ [Ev (PathExists path) false] `prefix_of` tr) ∨
  ∃ r, base = loaded r ∧
       [Ev (PathExists path) true; Ev (ReadFile path) r] `prefix_of` tr.

(** The text that an option or else its environment variable gives, if any. *)
Definition given tr (arg : option bytes) (var : bytes) (v : option bytes) : Prop :=
  match arg with Some x => v = Some x | None => Ev (EnvVar var) v ∈ tr end.

Lemma given_mono tr tr' arg var v : tr `prefix_of` tr' → given tr arg var v → given tr' arg var v.
Proof. intros [t ->]. unfold given. destruct arg; [done|]. set_solver. Qed.

(** The port that a text gives: itself when it is one, and the former port otherwise. *)
Definition port_of_text (v : option bytes) (former : Z) : Z :=
  match v with
  | Some text => match parse_u16 text with Some port => port | None => former end
  | None => former
  end.

(** The switch that the environment variable gives: only [true] and [false] count. *)
Definition switch_of_text (v : option bytes) (former : bool) : bool :=
  match v with
  | Some text => if bool_decide (text = "true") then true
                 else if bool_decide (text = "false") then false else former
  | None => former
  end.

(** What each field of [c] is, by the options, the variables and the field of [base]. *)
Record overridden (m : Matches) (base c : Config) tr : Prop := {
  ov_auth : auth c = auth base;
  ov_security : security c = security base;
  ov_upstream : upstream c = upstream base;
  ov_server : srv_max_connections (server c) = srv_max_connections (server base) ∧
    srv_connection_timeout (server c) = srv_connection_timeout (server base) ∧
    srv_buffer_size (server c) = srv_buffer_size (server base);
  ov_admin : adm_bind_address (admin c) = adm_bind_address (admin base) ∧
    adm_token (admin c) = adm_token (admin base) ∧
    adm_admin_users (admin c) = adm_admin_users (admin base) ∧
    adm_token_ttl (admin c) = adm_token_ttl (admin base);
  ov_logging : log_file (logging c) = log_file (logging base) ∧
    log_console (logging c) = log_console (logging base) ∧
    log_journald (logging c) = log_journald (logging base);
  ov_bind : ∃ v, given tr (m_bind m) "RUST_SOCKSD_BIND_ADDRESS" v ∧
    srv_bind_address (server c) = default (srv_bind_address (server base)) v;
  ov_level : ∃ v, given tr (m_loglevel m) "RUST_SOCKSD_LOG_LEVEL" v ∧
    log_level (logging c) = default (log_level (logging base)) v;
  ov_socks5 : ∃ v, given tr (m_socks5_port m) "RUST_SOCKSD_SOCKS5_PORT" v ∧
    srv_socks5_port (server c) = port_of_text v (srv_socks5_port (server base));
  ov_http : ∃ v, given tr (m_http_port m) "RUST_SOCKSD_HTTP_PORT" v ∧
    srv_http_port (server c) = port_of_text v (srv_http_port (server base));
  ov_admin_port : ∃ v, given tr (m_admin_port m) "RUST_SOCKSD_ADMIN_PORT" v ∧
    adm_port (admin c) = port_of_text v (adm_port (admin base));
  ov_admin_enabled :
    if m_admin_enabled m then adm_enabled (admin c) = true
    else ∃ v, Ev (EnvVar "RUST_SOCKSD_ADMIN_ENABLED") v ∈ tr ∧
         adm_enabled (admin c) = switch_of_text v (adm_enabled (admin base));
}.

Lemma overridden_mono m base c tr tr' : tr `prefix_of` tr' → overridden m base c tr → overridden m base c tr'.
Proof.
  intros Hp [H1' H2' H3' H4' H5' H6' Hs1 Hs2 Hs3 Hs4 Hs5 He].
  split; try assumption;
    try (match goal with H : ∃ v, given tr ?a ?n v ∧ _ |- ∃ v, given tr' ?a ?n v ∧ _ =>
      destruct H as (v & Hv & Heq); exists v; split; [by eapply given_mono|exact Heq] end).
  destruct (m_admin_enabled m); [done|]. destruct He as (v & Hv & Heq). exists v. split; [|done].
  destruct Hp as [t ->]. set_solver.
Qed.

Lemma wp_arg_or_env (arg : option bytes) (var : bytes) tr :
  wp (@any_resp Sh) (arg_or_env arg var) (λ v tr', given tr' arg var v ∧ tr `prefix_of` tr') tr.
Proof. destruct arg as [x|]; cbn; [done|]. intros v _. split; [set_solver|by eexists]. Qed.

Lemma port_override_text v p : port_override v p = port_of_text v p.
Proof. destruct v as [text|]; [|done]. unfold port_override. cbn. by destruct (parse_u16 text). Qed.

Lemma switch_text v b :
  match parse_bool <$> v with Some (Ok x) => x | _ => b end = switch_of_text v b.
Proof. destruct v as [text|]; [|done]. cbn. unfold parse_bool. by repeat case_bool_decide. Qed.

Lemma wp_apply_overrides m base tr :
  wp (@any_resp Sh) (apply_overrides m base) (λ c tr', overridden m base c tr') tr.
Proof.
  unfold apply_overrides.
  eapply wp_bind_intro; [apply wp_arg_or_env|]; intros b1 tr1 [E1 _].
  eapply wp_bind_intro; [apply wp_arg_or_env|]; intros b2 tr2 [E2 P2].
  eapply wp_bind_intro; [apply wp_arg_or_env|]; intros b3 tr3 [E3 P3].
  eapply wp_bind_intro; [apply wp_arg_or_env|]; intros b4 tr4 [E4 P4].
  eapply wp_bind_intro; [apply wp_arg_or_env|]; intros b5 tr5 [E5 P5].
  eapply wp_bind_intro; [apply wp_arg_or_env|]; intros b6 tr6 [E6 P6].
  rewrite !port_override_text, switch_text.
  apply (given_mono tr1 tr2), (given_mono tr2 tr3), (given_mono tr3 tr4), (given_mono tr4 tr5), (given_mono tr5 tr6) in E1; [|done..].
  apply (given_mono tr2 tr3), (given_mono tr3 tr4), (given_mono tr4 tr5), (given_mono tr5 tr6) in E2; [|done..].
  apply (given_mono tr3 tr4), (given_mono tr4 tr5), (given_mono tr5 tr6) in E3; [|done..].
  apply (given_mono tr4 tr5), (given_mono tr5 tr6) in E4; [|done..].
  apply (given_mono tr5 tr6) in E5; [|done..].
  split; cbn; eauto.
  destruct (m_admin_enabled m); [by rewrite E6|]. by exists b6.
Qed.

(** Why setting up the log panicked. *)
Definition log_failed (config : Config) tr : Prop :=
  ∃ f, log_file (logging config) = Some f ∧
    (file_name f = None ∨ ∃ name e, file_name f = Some name ∧
       Ev (LogFileOpen (default (bstr ".") (parent f)) name) (Err e) ∈ tr).

Lemma log_failed_mono config tr tr' : tr `prefix_of` tr' → log_failed config tr → log_failed config tr'.
Proof.
  intros [t ->] (f & Hf & [Hn|(name & e & Hn & He)]); exists f; (split; [done|]); [by left|].
  right. exists name, e. split; [done|]. set_solver.
Qed.

(** What a run that got as far as the overrides may end in. *)
Definition started (m : Matches) (path : bytes) (base : Config) (o : outcome) tr : Prop :=
  match o with
  | Running srv =>
      let st := sh_state (ps_shared srv) in
      let c := ss_config st in
      overridden m base c tr ∧ ps_config_path srv = path ∧
      is_some (ss_authenticator st) = auth_enabled (auth c) ∧
      ps_connection_permits srv = srv_max_connections (server c) ∧
      ∃ a1 a2 a3 en ttl, start_settings c = Ok (a1, a2, a3, en, ttl) ∧
        binds tr = [a1; a2] ++ (if en : bool then [a3] else [])
  | Exited code => code = 1
  | Returned r => is_ok r = false ∧ binds tr = []
  | Panicked => binds tr = [] ∧ log_failed base tr
  end.

Lemma wp_file_layers config tr :
  wp (@any_resp Sh) (file_layers config) (λ r tr', r = None → log_failed config tr') tr.
Proof.
  unfold file_layers, log_failed. destruct (log_file (logging config)) as [f|]; [|done].
  destruct (file_name f) as [name|] eqn:Hn; [|by intros _; exists f; auto].
  cbn. intros [[]|e] _; [done|]. intros _. exists f. split; [done|]. right. exists name, e.
  split; [done|]. set_solver.
Qed.

Lemma wp_setup_logging config m tr :
  wp (@any_resp Sh) (setup_logging config m) (λ b tr', b = false → log_failed config tr') tr.
Proof.
  unfold setup_logging. cbn [wp bind perform]. intros env _. cbv zeta.
  eapply wp_bind_intro; [apply wp_file_layers|]. intros [file|] tr1 Hf; [|cbn; auto].
  apply wp_bind, wp_always. by cbn.
Qed.

Lemma apply_overrides_no_bind m base : emits (λ R e, no_bind e) (apply_overrides m base : prog Sh _).
Proof. unfold apply_overrides, arg_or_env. emits_tac done. all: exact I. Qed.

Lemma setup_logging_no_bind config m : emits (λ R e, no_bind e) (setup_logging config m : prog Sh _).
Proof. unfold setup_logging, file_layers, eprintln. emits_tac done. all: exact I. Qed.

Lemma create_no_bind config path : emits (λ R e, no_bind e) (create config path : prog Sh _).
Proof.
  unfold create, create_authenticator, some_ok, SimpleAuthenticator_load_from_file, load_users,
    SqlAuthenticator_new. emits_tac done. all: exact I.
Qed.

Lemma wp_create config path tr :
  (auth_enabled (auth config) = true → auth_backend (auth config) ≠ CfgNone) →
  wp (@any_resp Sh) (create config path)
    (λ r _, ∀ srv, r = Ok srv → ss_config (sh_state (ps_shared srv)) = config ∧
       ps_config_path srv = path ∧
       is_some (ss_authenticator (sh_state (ps_shared srv))) = auth_enabled (auth config) ∧
       ps_connection_permits srv = srv_max_connections (server config)) tr.
Proof.
  intros Hn. unfold create.
  apply (wp_bind_q_intro _ _ _ (λ r _, ∀ a, r = Ok a → is_some a = auth_enabled (auth config)));
    [|intros a tr' Ha; cbn; intros srv [= <-]; cbn; auto|by intros].
  unfold create_authenticator, some_ok. destruct (auth_enabled (auth config)); [|by intros a [= <-]].
  destruct (auth_backend (auth config)); try (by intros a [= <-]); [| |by destruct (Hn eq_refl)].
  all: apply wp_bind_q, wp_always; intros [] t; [by intros ? [= <-]|done].
Qed.

Lemma validate_backend_some (c : Config) :
  validate c = Ok tt → auth_enabled (auth c) = true → auth_backend (auth c) ≠ CfgNone.
Proof. intros [] %validate_ok Ha Hc. pose proof (v_auth Ha) as Hb. by rewrite Hc in Hb. Qed.

Lemma wp_base_config path :
  wp (@any_resp Sh) (base_config path) (λ b tr, based_on path b tr ∧ binds tr = [] ∧
    ∀ c, b = Some c → validate c = Ok tt) [].
Proof.
  unfold base_config. cbn [wp bind perform app]. intros [] _; cbn [wp].
  - cbn. intros r _. destruct r as [content|e]; cbn.
    + destruct (config_of_content content) as [c|e] eqn:Hc; cbn.
      * split; [right; exists (Ok content); cbn; by rewrite Hc|]. split; [done|]. intros ? [= <-].
        unfold config_of_content in Hc. apply res_bind_ok in Hc as (c' & _ & Hc).
        apply res_bind_ok in Hc as ([] & Hv & [= <-]). exact Hv.
      * intros u1 _ u2 _. split; [|done]. right. exists (Ok content). cbn. rewrite Hc. split; [done|].
        by eexists [_; _].
    + intros u1 _ u2 _. split; [|done]. right. exists (Err e). split; [done|]. by eexists [_; _].
  - split; [by left|]. split; [done|]. intros c [= <-]. vm_compute. reflexivity.
Qed.

Lemma wp_start config tr :
  binds tr = [] →
  wp (@any_resp Sh) (start config) (λ r tr', is_ok r = true →
    ∃ a1 a2 a3 en ttl, start_settings config = Ok (a1, a2, a3, en, ttl) ∧
      binds tr' = [a1; a2] ++ (if en : bool then [a3] else [])) tr.
Proof.
  intros Hb. unfold start. destruct (start_settings config) as [[[[[a1 a2] a3] en] ttl]|e]; [|done].
  cbn. intros [[]|e1] _; cbn; [|done]. intros [[]|e2] _; cbn; [|done].
  assert (∀ xs, binds (tr ++ xs) = binds xs) as Ha by (intros; unfold binds in *; by rewrite omap_app, Hb).
  destruct en; cbn; [intros r _ _|intros _]; exists a1, a2, a3; eexists _, ttl;
    rewrite <- ?app_assoc, Ha; by split.
Qed.

Lemma based_on_mono path base tr tr' : tr `prefix_of` tr' → based_on path base tr → based_on path base tr'.
Proof.
  intros Hp [[? ?]|(r & ? & ?)]; [left|right; exists r]; (split; [done|]); by etransitivity.
Qed.

Lemma wp_run_server m path :
  wp (@any_resp Sh) (run_server m path) (λ o tr, ∃ base, based_on path base tr ∧
    match base with
    | Some b => validate b = Ok tt ∧ started m path b o tr
    | None => o = Exited 1 ∧ binds tr = []
    end) [].
Proof.
  unfold run_server. eapply wp_bind_intro; [apply wp_base_config|].
  intros [b|] tr (Hb & Hbi & Hv); [specialize (Hv b eq_refl)|by exists None].
  apply (wp_mono _ _ (λ o tr', started m path b o tr' ∧ tr `prefix_of` tr')).
  { intros o tr' [? ?]. exists (Some b). split; [by eapply based_on_mono|done]. }
  apply wp_and; [|apply wp_prefix].
  eapply wp_bind_intro.
  { apply wp_and; [apply (wp_apply_overrides m b)|apply wp_no_bind, apply_overrides_no_bind]. }
  intros c tr1 (Ho & Hb1 & _). eapply wp_bind_intro.
  { apply wp_and; [apply (wp_setup_logging c m)|apply wp_no_bind, setup_logging_no_bind]. }
  intros [] tr2 (Hl & Hb2 & Hp2); cbn [negb].
  2: { split; [congruence|]. unfold log_failed in *. destruct (ov_logging _ _ _ _ Ho) as [<- _]. by apply Hl. }
  eapply wp_bind_intro; [apply wp_no_bind; by cbn|]. intros _ tr3 [Hb3 Hp3]. eapply wp_bind_intro.
  { apply wp_and; [apply (wp_create c path)|apply wp_no_bind, create_no_bind].
    rewrite (ov_auth _ _ _ _ Ho). by apply validate_backend_some. }
  intros [srv|e] tr4 (Hc & Hb4 & Hp4); [|split; [done|congruence]].
  destruct (Hc srv eq_refl) as (<- & Hpath & Hsome & Hperm).
  eapply wp_bind_intro; [apply wp_and; [apply wp_start; congruence|apply wp_prefix]|].
  intros [[]|e] tr5 [Hs Hp5]; [|done].
  destruct (Hs eq_refl) as (a1 & a2 & a3 & en & ttl & ? & ?). split.
  { eapply overridden_mono; [|exact Ho]. do 3 (etrans; [eassumption|]). done. }
  do 3 (split; [done|]). by exists a1, a2, a3, en, ttl.
Qed.

End startup.

(** C8. Starting is fail-closed. Whatever the file system, the environment and the
    libraries answer, a run of the server command first looks for its configuration
    file. When the file is there but cannot be read, does not parse or is refused by the
    validation, the program exits with code 1 having listened nowhere. Otherwise it
    starts from that validated configuration, or from the defaults when there is no file.
    In what it runs with, each of the bind address, the two proxy ports, the log level, the
    admin port and the admin switch is what its option gives, or else its environment
    variable, or else the field as it was, which also stays for a port or a switch that
    does not parse; nothing else differs. A running server has an authenticator exactly
    when authentication is enabled, the configured number of permits, and listens exactly
    on the two proxy addresses, and on the admin address when that is enabled, in this
    order. All other ends leave no server: an error before any listener, exit code 1, or a
    panic before any listener, for a log file path without a file name or a log file that
    cannot be opened. *)
Theorem startup_spec `{PasswordVerify} `{UserYaml} `{ConfigYaml} `{HashOrder} `{UnicodeCase} {Sh S}
    (h : handler Sh S) (m : Matches) (path : bytes) (s : S) :
  let '(o, _, tr) := run h (run_server m path) s in
  ∃ base, based_on path base tr ∧
    match base with
    | Some b => validate b = Ok tt ∧ started m path b o tr
    | None => o = Exited 1 ∧ binds tr = []
    end.
Proof.
  pose proof (wp_run_any h _ _ s (wp_run_server m path)) as Hw. unfold result_of, trace_of in Hw.
  by destruct (run h (run_server m path) s) as [[o s'] tr].
Qed.

(** ** What the overrides escape *)

(** The command line with nothing on it but a port for the HTTP proxy. *)
Definition only_http_port (v : option bytes) : Matches := {|
  m_config := None; m_generate_config := None; m_verbose := 0; m_quiet := false; m_bind := None;
  m_http_port := v; m_socks5_port := None; m_loglevel := None; m_admin_port := None;
  m_admin_enabled := false; m_subcommand := None |}.

Definition no_config_yaml : ConfigYaml := {|
  config_from_yaml _ := Err "no YAML"; config_to_yaml _ := Err "no YAML" |}.

Definition started_config (o : outcome) : option Config :=
  match o with Running srv => Some (ss_config (sh_state (ps_shared srv))) | _ => None end.

(** The overrides are applied after the validation and not checked again: the HTTP port
    can be made that of the SOCKS5 listener, or 0. *)
Example overrides_not_validated :
  let _ := tag_verify in let _ := no_yaml in let _ := no_config_yaml in
  let _ := map_order in let _ := ascii_only_case in
  let ends v := started_config (result_of (run script
    (run_server (only_http_port (Some v)) "config.yml") (empty_world tt))) in
  (match ends "1080" with Some c => is_ok (validate c) = false | None => False end) ∧
  (match ends "0" with Some c => is_ok (validate c) = false | None => False end) ∧
  (match ends "x" with Some c => c = Config_default | None => False end).
Proof. vm_compute. repeat split. Qed.

(** [logging.file] set to the empty string, or to a path that ends in [..], stops the
    program with a panic at its start. *)
Example empty_log_file_panics :
  let _ := ascii_only_case in
  let c := {| server := server Config_default; auth := auth Config_default;
              logging := {| log_level := "info"; log_file := Some []; log_console := true;
                            log_journald := false |};
              security := security Config_default; upstream := upstream Config_default;
              admin := admin Config_default |} in
  validate c = Ok tt ∧
  result_of (run script (setup_logging c (only_http_port None)) (empty_world tt)) = false.
Proof. vm_compute. by split. Qed.
