(* ===== verification/System.v ===== *)
(** * From the command line to the running server

    The start of the server (Cli.v) followed by its life (Pool.v): what is true of the
    configuration in force in every state that a server started from the command line
    can reach. *)

From S2P Require Import Prelude Float64 RustStr IpAddr Effects Script Config Policy Upstream.
From S2P Require Import Users Auth Metrics Socks5 RateLimit Http Tokens Server Admin Guard Pool Cli.

Local Open Scope Z_scope.
Local Open Scope rust_scope.



Section system.
Context `{PasswordVerify} `{UserYaml} `{ConfigYaml} `{HashOrder} `{UnicodeCase}.





End system.


Section sample.
Local Existing Instances tag_verify no_yaml no_config_yaml map_order ascii_only_case plain_base64 plain_json.



End sample.

