(* ===== verification/Accounts.v ===== *)
(** * The user file over the command line

    The user management commands (src/src/main.rs, lines 390-530) against the accounts
    of Users.v, through the file: what a history of commands leaves in the file decides
    who can log in to a server that loads it. *)

From S2P Require Import Prelude Float64 RustStr IpAddr Effects Script Config Policy Upstream.
From S2P Require Import Users Auth Metrics Socks5 RateLimit Http Tokens Server Admin Pool Cli.

Local Open Scope Z_scope.
Local Open Scope rust_scope.

(** The files of an environment: reads give the content, writes replace it, and the
    other calls of the commands leave the files alone. *)
Record file_system {Sh S} (h : handler Sh S) (fs : S → gmap bytes bytes) : Prop := {
  fs_read p s c : (h _ (ReadFile p) s).1 = Ok c ↔ fs s !! p = Some c;
  fs_read_keeps p s : fs (h _ (ReadFile p) s).2 = fs s;
  fs_exists p s : (h _ (PathExists p) s).1 = bool_decide (is_Some (fs s !! p));
  fs_exists_keeps p s : fs (h _ (PathExists p) s).2 = fs s;
  fs_write p c s : (h _ (WriteFile p c) s).1 = Ok tt;
  fs_write_puts p c s : fs (h _ (WriteFile p c) s).2 = <[p := c]> (fs s);
  fs_hash_keeps t pw s : fs (h _ (HashPassword t pw) s).2 = fs s;
  fs_now_keeps s : fs (h _ UtcNow s).2 = fs s;
  fs_print_keeps text s : fs (h _ (Print text) s).2 = fs s;
}.

(** Parsing undoes printing, for every user table. *)
Definition yaml_roundtrip (Y : UserYaml) : Prop :=
  ∀ uc, ∃ content, user_to_yaml uc = Ok content ∧ user_from_yaml content = Ok uc.

(** No algorithm gives an empty hash. *)
Definition hashes_nonempty {Sh S} (h : handler Sh S) : Prop :=
  ∀ t pw s hash salt, (h _ (HashPassword t pw) s).1 = Ok (hash, salt) → hash ≠ [].

Definition cmd_user (c : user_cmd) : bytes :=
  match c with AddUser u _ | RemoveUser u | UpdatePassword u _ | EnableUser u _ => u end.

(** A command as it is typed. *)
Definition typed (c : user_cmd) : UserCommand :=
  match c with
  | AddUser u p => CmdAdd u (Some p) None
  | RemoveUser u => CmdRemove u
  | UpdatePassword u p => CmdUpdate u (Some p)
  | EnableUser u b => CmdEnable u (if b then "true" else "false")
  end.

Section cli.
Context `{PasswordVerify} `{Y : UserYaml} `{HashOrder} `{UnicodeCase} {Sh S : Type}.
Context (h : handler Sh S) (fs : S → gmap bytes bytes) (path : bytes).
Hypothesis Hfs : file_system h fs.
Hypothesis Hyaml : yaml_roundtrip Y.
Hypothesis Hhash : hashing_works h.
Hypothesis Hne : hashes_nonempty h.

(** The file holds this table, and the program accepts it. *)
Definition holds_table (s : S) (uc : UserConfig) : Prop := ∃ content,
  fs s !! path = Some content ∧ user_from_yaml content = Ok uc ∧ map_Forall user_wf (users uc).

(** The file stands for the accounts [a], with hashes of this type. *)
Definition stores (ty : HashType) (s : S) (a : accounts) : Prop := ∃ uc,
  holds_table s uc ∧ hash_type uc = ty ∧ represents h uc a.

Lemma holds_table_same s s' uc : fs s' = fs s → holds_table s uc → holds_table s' uc.
Proof. intros Hk (content & Hf & ?). exists content. by rewrite Hk. Qed.

Lemma stores_same ty s s' a : fs s' = fs s → stores ty s a → stores ty s' a.
Proof. intros Hk (uc & Ht & ?). exists uc. split; [by eapply holds_table_same|done]. Qed.

Lemma stores_file ty s a : stores ty s a → is_Some (fs s !! path).
Proof. intros (uc & (content & Hf & _) & _). by exists content. Qed.

(** The common shape of the editing commands. *)
Definition edit (c : user_cmd) (text : bytes) : prog Sh (result unit) :=
  user_config <-? load_users path ;;
  user_config <-? exec_cmd user_config c ;;
  _ <-? save_users user_config path ;;
  report text.

Lemma run_load s uc :
  holds_table s uc →
  ∃ s' t, run h (load_users path) s = (Ok uc, s', t) ∧ fs s' = fs s.
Proof.
  intros (content & Hf & Hy & Hw). pose proof (proj2 (fs_read h fs Hfs path s content) Hf) as Hr.
  pose proof (fs_read_keeps h fs Hfs path s) as Hk.
  unfold load_users. cbn [bind_q bind perform run]. destruct (h _ (ReadFile path) s) as [r s1].
  cbn in Hr, Hk. subst r. exists s1, [Ev (ReadFile path) (Ok content)]. cbn. unfold users_of_content.
  rewrite Hy. cbn. by rewrite (proj2 (validate_users_ok uc) Hw).
Qed.

Lemma run_save s uc :
  ∃ s' t content, run h (save_users uc path) s = (Ok tt, s', t) ∧
    user_from_yaml content = Ok uc ∧ fs s' !! path = Some content.
Proof.
  destruct (Hyaml uc) as (content & Hto & Hfrom). unfold save_users. rewrite Hto.
  pose proof (fs_write h fs Hfs path content s) as Hw.
  pose proof (fs_write_puts h fs Hfs path content s) as Hp.
  cbn. destruct (h _ (WriteFile path content) s) as [r s1]. cbn in Hw, Hp. subst r.
  eexists s1, _, content. by rewrite Hp, lookup_insert_eq.
Qed.

Lemma run_report text s : ∃ s' t, run h (report text) s = (Ok tt, s', t) ∧ fs s' = fs s.
Proof.
  pose proof (fs_print_keeps h fs Hfs (text ++ [lf]) s) as Hk. cbn.
  destruct (h _ (Print (text ++ [lf])) s) as [r s1]. cbn in Hk. by eexists s1, _.
Qed.

Lemma run_hash t pw s :
  ∃ x s' tr, run h (hash_password t pw) s = (Ok x, s', tr) ∧ x.1 ≠ [] ∧ fs s' = fs s.
Proof.
  destruct (Hhash t pw s) as (hash & salt & Hh & _). pose proof (Hne _ _ _ _ _ Hh) as Hnn.
  pose proof (fs_hash_keeps h fs Hfs (hash_name t) pw s) as Hk.
  cbn. destruct (h _ _ s) as [r s1]. cbn in Hh, Hk. subst r. by eexists _, s1, _.
Qed.

(** A command keeps a well-formed table well-formed and the files as they are. *)
Lemma run_exec uc c s :
  cmd_user c ≠ [] → map_Forall user_wf (users uc) →
  fs (state_of (run h (exec_cmd uc c) s)) = fs s ∧
  ∀ uc', result_of (run h (exec_cmd uc c) s) = Ok uc' →
    map_Forall user_wf (users uc') ∧ hash_type uc' = hash_type uc.
Proof.
  intros Hu Hw. unfold state_of, result_of. destruct c as [u p|u|u p|u b]; cbn [exec_cmd cmd_user] in *.
  - unfold add_user. destruct (users uc !! u) eqn:He; [done|]. rewrite run_bind_q.
    destruct (run_hash (hash_type uc) p s) as (x & s1 & t & -> & Hx & Hs).
    pose proof (fs_now_keeps h fs Hfs s1) as Hn. cbn. destruct (h _ UtcNow s1) as [now s2]. cbn in *.
    split; [congruence|]. intros uc' [= <-]. split; [by apply map_Forall_insert_2|done].
  - unfold remove_user. destruct (users uc !! u) eqn:He; [|done]. split; [done|].
    intros uc' [= <-]. split; [by apply map_Forall_delete|done].
  - unfold update_password. rewrite run_bind_q.
    destruct (run_hash (hash_type uc) p s) as (x & s1 & t & -> & Hx & Hs).
    destruct (users uc !! u) as [e|] eqn:He; [|done].
    pose proof (fs_now_keeps h fs Hfs s1) as Hn. cbn. destruct (h _ UtcNow s1) as [now s2]. cbn in *.
    split; [congruence|]. intros uc' [= <-]. split; [by apply map_Forall_insert_2|done].
  - unfold enable_user. destruct (users uc !! u) as [e|] eqn:He; [|done].
    pose proof (fs_now_keeps h fs Hfs s) as Hn. cbn. destruct (h _ UtcNow s) as [now s2]. cbn in *.
    split; [done|]. intros uc' [= <-]. split; [|done]. apply map_Forall_insert_2; [|done]. split; [done|]. by apply (Hw u e).
Qed.

(** An edit does to the file what the command does to the accounts. *)
Lemma run_edit ty c text s a :
  cmd_user c ≠ [] → stores ty s a →
  match account_step a c with
  | Some a' => ∃ s', (run h (edit c text) s).1 = (Ok tt, s') ∧ stores ty s' a'
  | None => ∃ s' e, (run h (edit c text) s).1 = (Err e, s') ∧ fs s' = fs s
  end.
Proof.
  intros Hu (uc & Ht & Hty & Hr). unfold edit. rewrite run_bind_q.
  assert (map_Forall user_wf (users uc)) as Hw by (by destruct Ht as (? & ? & ? & ?)).
  destruct (run_load s uc Ht) as (s1 & t1 & -> & Hs1). rewrite run_bind_q.
  destruct (run_exec uc c s1 Hu Hw) as [Hk Hwf]. pose proof (exec_cmd_refines h uc a c s1 Hhash Hr) as Hx.
  unfold state_of, result_of in *. destruct (run h (exec_cmd uc c) s1) as [[[uc2|e] s2] t2]; cbn in Hk, Hwf, Hx;
    destruct (account_step a c) as [a'|]; try done; cbv beta iota.
  - rewrite run_bind_q. destruct (run_save s2 uc2) as (s3 & t3 & content' & -> & Hc & Hp).
    destruct (run_report text s3) as (s4 & t4 & -> & Hs4). exists s4. split; [done|].
    destruct (Hwf uc2 eq_refl) as [Hw2 Ht2].
    exists uc2. split; [exists content'; by rewrite Hs4|]. split; [congruence|done].
  - exists s2, e. split; [done|]. by rewrite Hk.
Qed.

Lemma typed_edit c s :
  is_Some (fs s !! path) →
  ∃ s' text, fs s' = fs s ∧
    (run h (handle_user_command (Some path) (typed c)) s).1 = (run h (edit c text) s').1.
Proof.
  intros Hex. destruct c as [u p|u|u p|u b].
  - pose proof (fs_exists h fs Hfs path s) as He. pose proof (fs_exists_keeps h fs Hfs path s) as Hk.
    rewrite bool_decide_eq_true_2 in He by done.
    exists (h _ (PathExists path) s).2, ("Added user: " ++ u). split; [done|].
    change (handle_user_command (Some path) (typed (AddUser u p))) with (cli_add_user path u p Argon2 : prog Sh _).
    unfold cli_add_user, edit. cbn [bind perform run]. destruct (h _ (PathExists path) s) as [r s1].
    cbn in He. subst r. cbn [exec_cmd snd]. cbv beta iota. by destruct (run h _ s1) as [[? ?] ?].
  - by exists s, ("Removed user: " ++ u).
  - by exists s, ("Updated password for user: " ++ u).
  - exists s, ("User " ++ u ++ " " ++ (if b then "enabled" else "disabled")). by destruct b.
Qed.

(** A session: the commands one after the other, whether they fail or not. *)
Fixpoint session (cs : list user_cmd) : prog Sh unit :=
  match cs with
  | [] => Ret tt
  | c :: cs' => _ <- handle_user_command (Some path) (typed c) ;; session cs'
  end.

Lemma run_session ty cs s a :
  Forall (λ c, cmd_user c ≠ []) cs → stores ty s a →
  stores ty (state_of (run h (session cs) s)) (account_steps a cs).
Proof.
  intros Hcs. revert s a. induction Hcs as [|c cs Hc Hcs IH]; intros s a Hs; [done|].
  cbn [session account_steps fold_left]. unfold state_of. rewrite run_bind.
  destruct (typed_edit c s) as (s0 & text & Hs00 & Hrun); [by eapply stores_file|].
  apply (stores_same _ _ s0) in Hs; [|done].
  pose proof (run_edit ty c text s0 a Hc Hs) as He. rewrite <- Hrun in He.
  destruct (run h (handle_user_command (Some path) (typed c)) s) as [[r s1] t1]. cbn in He.
  specialize (IH s1 (default a (account_step a c))). unfold state_of, account_steps in IH.
  destruct (run h (session cs) s1) as [[r2 s2] t2]. cbn in *. apply IH.
  destruct (account_step a c) as [a'|]; cbn.
  - by destruct He as (s' & [= _ ->] & ?).
  - destruct He as (s' & e & [= _ ->] & Hk). by eapply stores_same.
Qed.

Lemma run_init t s :
  fs s !! path = None →
  ∃ s', (run h (handle_user_command (Some path) (CmdInit (Some t))) s).1
    = (match parse_hash_type t with Ok _ => Ok tt | Err e => Err e end, s') ∧
    (∀ ty, parse_hash_type t = Ok ty → stores ty s' ∅).
Proof.
  intros Hnone. unfold handle_user_command. cbn [default from_option id].
  change (default default_hash_type (Some t)) with t. destruct (parse_hash_type t) as [ty|e];
    [|by exists s].
  cbn [bind_q bind]. unfold init_user_config. cbn [bind perform run].
  pose proof (fs_exists h fs Hfs path s) as He. pose proof (fs_exists_keeps h fs Hfs path s) as Hk.
  rewrite bool_decide_eq_false_2 in He by (rewrite Hnone; by intros []).
  destruct (h _ (PathExists path) s) as [r s1]. cbn in He, Hk. subst r. rewrite run_bind_q.
  destruct (run_save s1 {| hash_type := ty; users := users UserConfig_default |})
    as (s2 & t2 & content & -> & Hc & Hp).
  unfold println. cbn [bind perform run].
  pose proof (fs_print_keeps h fs Hfs (("Initialized user configuration file: " ++ path) ++ [lf]) s2) as Hk2.
  destruct (h _ (Print _) s2) as [r2 s3].
  pose proof (fs_print_keeps h fs Hfs (("Hash type: " ++ debug_hash_type ty) ++ [lf]) s3) as Hk3.
  destruct (h _ (Print _) s3) as [r3 s4]. cbn in *. exists s4. split; [done|]. intros ? [= <-].
  exists {| hash_type := ty; users := ∅ |}. split; [|split; [done|intros u; cbn; by rewrite !lookup_empty]].
  exists content. rewrite Hk3, Hk2. split; [done|]. split; [done|]. apply map_Forall_empty.
Qed.

(** A file that loads but holds the user [""] is refused by the validation. *)
Definition poisoned (s : S) : Prop := ∃ content uc,
  fs s !! path = Some content ∧ user_from_yaml content = Ok uc ∧ is_Some (users uc !! []).

Lemma run_load_poisoned s :
  poisoned s → ∃ s' e t, run h (load_users path) s = (Err e, s', t) ∧ fs s' = fs s.
Proof.
  intros (content & uc & Hf & Hy & en & He). pose proof (proj2 (fs_read h fs Hfs path s content) Hf) as Hr.
  pose proof (fs_read_keeps h fs Hfs path s) as Hk.
  unfold load_users. cbn [bind_q bind perform run]. destruct (h _ (ReadFile path) s) as [r s1].
  cbn in Hr, Hk. subst r. cbn [run]. unfold users_of_content. rewrite Hy. cbn [res_bind].
  destruct (validate_users uc) as [[]|e] eqn:Hv; [|by eexists s1, _, _].
  apply validate_users_ok in Hv. by destruct (Hv [] en He).
Qed.

Lemma run_edit_poisoned c text s :
  poisoned s → ∃ s' e, (run h (edit c text) s).1 = (Err e, s') ∧ fs s' = fs s.
Proof.
  intros Hp. unfold edit. rewrite run_bind_q.
  destruct (run_load_poisoned s Hp) as (s1 & e & t & -> & Hk). by exists s1, e.
Qed.

Lemma run_typed_poisoned c s :
  poisoned s →
  ∃ s' e, (run h (handle_user_command (Some path) (typed c)) s).1 = (Err e, s') ∧ fs s' = fs s.
Proof.
  intros Hp. destruct (typed_edit c s) as (s0 & text & Hk & ->).
  { destruct Hp as (content & uc & Hf & _). by exists content. }
  destruct (run_edit_poisoned c text s0) as (s' & e & Hrun & Hk').
  { destruct Hp as (content & uc & ? & ?). exists content, uc. by rewrite Hk. }
  exists s', e. split; [done|congruence].
Qed.

(** Adding the user [""] is not refused, and leaves such a file. *)
Lemma run_add_empty p s uc :
  holds_table s uc →
  ∃ s', (run h (handle_user_command (Some path) (typed (AddUser [] p))) s).1 = (Ok tt, s') ∧ poisoned s'.
Proof.
  intros Ht. assert (users uc !! [] = None) as Hu.
  { destruct Ht as (? & _ & _ & Hw). apply eq_None_not_Some. intros [e He]. by destruct (Hw [] e He). }
  destruct (typed_edit (AddUser [] p) s) as (s0 & text & Hk & ->); [by destruct Ht as (content & ? & _)|].
  apply (holds_table_same _ s0) in Ht; [|done]. unfold edit. rewrite run_bind_q.
  destruct (run_load s0 uc Ht) as (s1 & t1 & -> & Hs1). rewrite run_bind_q.
  cbn [exec_cmd]. unfold add_user. rewrite Hu, run_bind_q.
  destruct (run_hash (hash_type uc) p s1) as (x & s2 & t & -> & _ & _). rewrite run_bind.
  cbn [perform run]. destruct (h _ UtcNow s2) as [now s3]. cbv beta iota. rewrite run_bind_q.
  match goal with |- context [save_users ?u path] => destruct (run_save s3 u)
    as (s4 & t4 & content' & -> & Hc & Hp) end.
  destruct (run_report text s4) as (s5 & t5 & -> & Hs5). exists s5. split; [done|].
  eexists content', _. rewrite Hs5. split; [done|]. split; [exact Hc|].
  cbn. rewrite lookup_insert_eq. by eexists.
Qed.

End cli.

(** C18. What the [user] commands leave in the file decides the logins of a server that
    loads it. Take a path where no file is, initialise it with any hash type the program
    knows, and run any session of add, remove, update and enable commands on it, some of
    them failing, for user names that are not empty. Then the file loads as a table of
    users of that hash type. A user the account history left enabled logs in with the
    password last set for it; any other password, an earlier one say, is held against a
    hash the library gave for the last one, and accepted exactly when the library takes it
    for that hash. A user the history left absent or disabled logs in with no
    password. The assumptions: files read back what was written, YAML reads back every
    table it prints, hashing succeeds with a hash that verifies and is not empty. *)
Theorem cli_history_logins `{PasswordVerify} `{Y : UserYaml} `{HashOrder} `{UnicodeCase} {Sh S}
    (h : handler Sh S) (fs : S → gmap bytes bytes) (path t : bytes) (ty : HashType) (cs : list user_cmd) (s : S) :
  file_system h fs → yaml_roundtrip Y → hashing_works h → hashes_nonempty h →
  fs s !! path = None → parse_hash_type t = Ok ty → Forall (λ c, cmd_user c ≠ []) cs →
  ∃ uc,
    result_of (run h (_ <- handle_user_command (Some path) (CmdInit (Some t)) ;;
                      _ <- session path cs ;;
                      SimpleAuthenticator_load_from_file path) s) = Ok (SimpleAuth uc) ∧
    ∀ u, match account_steps ∅ cs !! u with
         | Some (p, true) => verify_password uc u p = true ∧
             ∃ hash, made h ty p hash ∧ ∀ q, verify_password uc u q = verify_hash ty q hash
         | _ => ∀ q, verify_password uc u q = false
         end.
Proof.
  intros Hfs Hyaml Hhash Hne Hnone Ht Hcs.
  destruct (run_init h fs path Hfs Hyaml t s Hnone) as (s1 & Hi & Hst). specialize (Hst ty Ht). rewrite Ht in Hi.
  unfold result_of. rewrite run_bind. destruct (run h (handle_user_command _ _) s) as [[r0 s0] t0].
  injection Hi as -> ->. rewrite run_bind.
  pose proof (run_session h fs path Hfs Hyaml Hhash Hne ty cs s1 ∅ Hcs Hst) as Hss.
  unfold state_of in Hss. destruct (run h (session path cs) s1) as [[r2 s2] t2]. cbn in Hss.
  destruct Hss as (uc & Htab & Hty & Hr). unfold SimpleAuthenticator_load_from_file.
  rewrite run_bind_q. destruct (run_load h fs path Hfs s2 uc Htab) as (s3 & t3 & -> & _).
  exists uc. split; [done|]. intros u. pose proof (represents_verify h uc _ u Hr) as Hv. rewrite Hty in Hv.
  destruct (account_steps ∅ cs !! u) as [[p []]|]; [|done..]. split; [|done].
  destruct Hv as (hash & Hm & ->). by eapply made_verifies.
Qed.

(** C40. The user name [""] is accepted by [user add] and locks the file. From any file
    the program accepts, adding the user [""] reports success; from then on every
    further command on the file fails and changes nothing, removing the user included,
    and so does a server that loads it. *)
Theorem empty_username_bricks `{PasswordVerify} `{Y : UserYaml} `{HashOrder} `{UnicodeCase} {Sh S}
    (h : handler Sh S) (fs : S → gmap bytes bytes) (path p : bytes) (uc : UserConfig) (s : S) :
  file_system h fs → yaml_roundtrip Y → hashing_works h → hashes_nonempty h →
  holds_table fs path s uc →
  let add := run h (handle_user_command (Some path) (CmdAdd [] (Some p) None)) s in
  result_of add = Ok tt ∧
  (∀ c, let cmd := run h (handle_user_command (Some path) (typed c)) (state_of add) in
        is_ok (result_of cmd) = false ∧ fs (state_of cmd) = fs (state_of add)) ∧
  is_ok (result_of (run h (SimpleAuthenticator_load_from_file path) (state_of add))) = false.
Proof.
  intros Hfs Hyaml Hhash Hne Hs add.
  destruct (run_add_empty h fs path Hfs Hyaml Hhash Hne p s uc Hs) as (s' & Hadd & Hp).
  assert (result_of add = Ok tt ∧ state_of add = s') as [Hr ->].
  { unfold result_of, state_of, add. change (CmdAdd [] (Some p) None) with (typed (AddUser [] p)).
    by rewrite Hadd. }
  split; [done|]. split.
  - intros c cmd. destruct (run_typed_poisoned h fs path Hfs c s' Hp) as (s2 & e & Hc & Hk).
    unfold result_of, state_of, cmd. by rewrite Hc.
  - unfold result_of, SimpleAuthenticator_load_from_file. rewrite run_bind_q.
    by destruct (run_load_poisoned h fs path Hfs s' Hp) as (s2 & e & t & -> & _).
Qed.

(** ** A concrete instance

    The tables written as their codes in base two, and the files of the scripted
    environment. *)

Fixpoint bits (p : positive) : bytes :=
  match p with
  | xH => []
  | xO p => "0"%char :: bits p
  | xI p => "1"%char :: bits p
  end.

Fixpoint of_bits (s : bytes) : positive :=
  match s with
  | [] => xH
  | c :: s => if bool_decide (c = "0"%char) then xO (of_bits s) else xI (of_bits s)
  end.

Lemma of_bits_bits p : of_bits (bits p) = p.
Proof. induction p as [p IH|p IH|]; cbn; by rewrite ?IH. Qed.

Definition hash_type_of (n : nat) : HashType :=
  match n with 0%nat => Argon2 | 1%nat => Bcrypt | _ => Scrypt end.
Definition hash_type_code (t : HashType) : nat :=
  match t with Argon2 => 0 | Bcrypt => 1 | Scrypt => 2 end.

Definition entry_parts (e : UserEntry) :=
  (password_hash e, salt e, created_at e, last_modified e, user_enabled e).
Definition entry_of_parts (x : bytes * option bytes * bytes * bytes * bool) : UserEntry :=
  let '(h, sa, c, m, en) := x in
  {| password_hash := h; salt := sa; created_at := c; last_modified := m; user_enabled := en |}.

Definition coded_yaml : UserYaml := {|
  user_to_yaml uc := Ok (bits (encode (hash_type_code (hash_type uc), entry_parts <$> users uc)));
  user_from_yaml s :=
    match decode (of_bits s) with
    | Some (n, m) => Ok {| hash_type := hash_type_of n; users := entry_of_parts <$> m |}
    | None => Err "not a table"
    end |}.

Lemma coded_yaml_roundtrip : yaml_roundtrip coded_yaml.
Proof.
  intros [t m]. eexists. split; [done|]. cbn [user_from_yaml coded_yaml hash_type users].
  rewrite of_bits_bits, decode_encode. rewrite <- map_fmap_compose. f_equal. f_equal; [by destruct t|].
  etransitivity; [|apply map_fmap_id]. apply map_fmap_ext. by intros u [].
Qed.

Lemma tag_script_files {Sh} : file_system (@tag_script Sh) w_files.
Proof.
  split; try done. intros p w c. cbn. destruct (w_files w !! p); by split; intros [=->].
Qed.

Lemma tag_script_hashes {Sh} : hashes_nonempty (@tag_script Sh).
Proof. intros t pw w hash salt [= <- _]. by destruct t. Qed.

Lemma cli_history_logins_witness :
  let _ := tag_verify in let _ := coded_yaml in let _ := map_order in let _ := ascii_only_case in
  ∃ uc,
    result_of (run tag_script (_ <- handle_user_command (Some (bstr "u.yml")) (CmdInit (Some (bstr "Bcrypt"))) ;;
                               _ <- session (bstr "u.yml") sample_history ;;
                               SimpleAuthenticator_load_from_file (bstr "u.yml")) (empty_world tt))
      = Ok (SimpleAuth uc) ∧
    verify_password uc "ann" "three" = true ∧ verify_password uc "ann" "one" = false ∧
    ∀ q, verify_password uc "bob" q = false.
Proof.
  intros V Y O U.
  assert (account_steps ∅ sample_history !! bstr "ann" = Some (bstr "three", true)) as E1
    by (vm_compute; reflexivity).
  assert (account_steps ∅ sample_history !! bstr "bob" = Some (bstr "two", false)) as E2
    by (vm_compute; reflexivity).
  destruct (cli_history_logins tag_script w_files (bstr "u.yml") (bstr "Bcrypt") Bcrypt sample_history (empty_world tt)
    tag_script_files coded_yaml_roundtrip tag_hashing_works tag_script_hashes
    ltac:(vm_compute; reflexivity) ltac:(vm_compute; reflexivity)
    ltac:(unfold sample_history; repeat constructor; done)) as (uc & Hrun & Hv).
  pose proof (Hv (bstr "ann")) as P1. pose proof (Hv (bstr "bob")) as P2. rewrite E1 in P1. rewrite E2 in P2.
  destruct P1 as (P1 & hash & (w & salt & Hm) & Hq). injection Hm as <- _.
  pose proof (Hq (bstr "one")) as P3. vm_compute in P3.
  exact (ex_intro _ uc (conj Hrun (conj P1 (conj P3 P2)))).
Defined.

(** The file [init] makes holds no accounts. *)
Lemma fresh_stores (s : world ()) :
  let _ := tag_verify in let _ := coded_yaml in
  holds_table w_files (bstr "u.yml") (set_files s {[ bstr "u.yml" := bits (encode (0%nat,
    (∅ : gmap bytes (bytes * option bytes * bytes * bytes * bool)))) ]}) {| hash_type := Argon2; users := ∅ |}.
Proof.
  intros V Y. exists (bits (encode (0%nat, (∅ : gmap bytes (bytes * option bytes * bytes * bytes * bool))))).
  split; [cbn; apply lookup_insert_eq|]. split; [vm_compute; reflexivity|]. apply map_Forall_empty.
Qed.

Lemma empty_username_bricks_witness :
  let _ := tag_verify in let _ := coded_yaml in let _ := map_order in let _ := ascii_only_case in
  let w := set_files (empty_world tt) {[ bstr "u.yml" := bits (encode (0%nat,
    (∅ : gmap bytes (bytes * option bytes * bytes * bytes * bool)))) ]} in
  let add := run tag_script (handle_user_command (Some (bstr "u.yml")) (CmdAdd [] (Some (bstr "pw")) None)) w in
  result_of add = Ok tt ∧
  is_ok (result_of (run tag_script (handle_user_command (Some (bstr "u.yml")) (CmdRemove [])) (state_of add)))
    = false.
Proof.
  intros V Y O U w add.
  destruct (empty_username_bricks tag_script w_files (bstr "u.yml") (bstr "pw") {| hash_type := Argon2; users := ∅ |} w
    tag_script_files coded_yaml_roundtrip tag_hashing_works tag_script_hashes
    (fresh_stores (empty_world tt))) as (H1' & H2' & _).
  exact (conj H1' (proj1 (H2' (RemoveUser [])))).
Defined.
