(* ===== verification/Segments.v ===== *)
(** * Independence of how TCP cuts the bytes

    Two worlds are equivalent when every stream still has the same bytes to give, cut
    into whatever segments, and every server sends the same bytes. A program that reads
    no lines cannot tell them apart; the SOCKS5 side of the server is such a program,
    as long as no HTTP upstream is involved. *)

From S2P Require Import Prelude Float64 RustStr IpAddr Effects Script Config Policy Upstream.
From S2P Require Import Users Auth Metrics Socks5 RateLimit Http Tokens Server.

Local Open Scope Z_scope.
Local Open Scope rust_scope.

Section worlds.
Context {Sh : Type}.
Implicit Types w : world Sh.

Definition same_stream (st st' : stream) : Prop :=
  st_tx st = st_tx st' ∧ st_buf st = st_buf st' ∧ concat (st_segs st) = concat (st_segs st').

#[export] Instance same_stream_equiv : Equivalence same_stream.
Proof. split; [by split|by intros ?? (?&?&?)|]. intros ??? (?&?&?) (?&?&?). split_and!; by etrans. Qed.

Definition same_bytes (l l' : list bytes) : Prop := concat l = concat l'.

#[export] Instance same_bytes_equiv : Equivalence same_bytes.
Proof. unfold same_bytes. split; congruence. Qed.

(** A world without its peers. *)
Definition calm w : world Sh := {|
  w_shared := w_shared w; w_streams := ∅; w_next := w_next w; w_servers := λ _, None;
  w_dns := w_dns w; w_env := w_env w; w_files := w_files w; w_now := w_now w;
  w_utc := w_utc w; w_random := w_random w; w_hash := w_hash w; w_ldap_bind := w_ldap_bind w;
  w_ldap_search := w_ldap_search w; w_pam := w_pam w; w_sql := w_sql w |}.

#[export] Instance world_equiv : Equiv (world Sh) := λ w w',
  calm w = calm w' ∧
  (∀ s, option_Forall2 same_stream (w_streams w !! s) (w_streams w' !! s)) ∧
  (∀ a, option_Forall2 same_bytes (w_servers w a) (w_servers w' a)).

#[export] Instance world_equivalence : Equivalence (≡@{world Sh}).
Proof.
  split.
  - intros w. split; [done|]. split; intros; reflexivity.
  - intros w w' (? & ? & ?). split; [done|]. split; intros; by symmetry.
  - intros w w' w'' (? & Hs & Ha) (? & Hs' & Ha'). split; [congruence|].
    split; intros x; [by trans (w_streams w' !! x)|by trans (w_servers w' x)].
Qed.

(** The reads that fill a buffer, and so see the segments. *)
Definition no_line {R} (e : eff Sh R) : Prop := match e with ReadLine _ _ => False | _ => True end.

Lemma concat_consume_segs n segs : concat (consume_segs n segs) = drop n (concat segs).
Proof.
  revert n. induction segs as [|seg segs IH]; intros n; cbn [consume_segs concat]; [by rewrite drop_nil|].
  destruct (Nat.ltb_spec n (length seg)); cbn [concat]; [by rewrite drop_app_le by lia|].
  rewrite IH, drop_app_ge by lia. done.
Qed.

#[export] Instance consume_proper n : Proper (same_stream ==> same_stream) (consume n).
Proof.
  intros st st' (Ht & Hb & Hs). unfold consume. rewrite <- Hb.
  destruct (st_buf st); (split; [done|]; split; [done|]); cbn; by rewrite !concat_consume_segs, Hs.
Qed.

Lemma same_pending st st' : same_stream st st' → pending st = pending st'.
Proof. intros (_ & Hb & Hs). unfold pending. by rewrite Hb, Hs. Qed.

Definition same_streams (ss ss' : gmap nat stream) : Prop :=
  ∀ s, option_Forall2 same_stream (ss !! s) (ss' !! s).

Lemma same_streams_insert ss ss' s st st' :
  same_streams ss ss' → same_stream st st' → same_streams (<[s := st]> ss) (<[s := st']> ss').
Proof.
  intros Hs Hst s'. destruct (decide (s' = s)) as [->|];
    [rewrite !lookup_insert_eq; by constructor|by rewrite !lookup_insert_ne].
Qed.

Lemma set_streams_same w w' ss ss' :
  w ≡ w' → same_streams ss ss' → set_streams w ss ≡ set_streams w' ss'.
Proof.
  intros (Hc & _ & Ha) Hss. split; [|by split].
  unfold calm in *. cbn. by injection Hc as -> -> -> -> -> -> -> -> -> -> -> -> ->.
Qed.

Lemma on_stream_same {R} w w' s (d : R) f :
  w ≡ w' →
  (∀ st st', same_stream st st' → (f st).1 = (f st').1 ∧ same_stream (f st).2 (f st').2) →
  (on_stream w s d f).1 = (on_stream w' s d f).1 ∧ (on_stream w s d f).2 ≡ (on_stream w' s d f).2.
Proof.
  intros Hw Hf. pose proof Hw as (_ & Hs & _). unfold on_stream. destruct (Hs s) as [st st' Hst|]; [|done].
  destruct (Hf st st' Hst) as [Hr Ht]. destruct (f st) as [r t], (f st') as [r' t']. cbn in *.
  split; [done|]. by apply set_streams_same, same_streams_insert.
Qed.

Lemma fresh_same w w' l l' :
  w ≡ w' → same_bytes l l' →
  (fresh_stream w l).1 = (fresh_stream w' l').1 ∧ (fresh_stream w l).2 ≡ (fresh_stream w' l').2.
Proof.
  intros (Hc & Hs & Ha) Hl. pose proof (f_equal w_next Hc) as Hn. cbn in Hn. split; [done|].
  split; [|split; [|done]].
  - unfold calm in *. cbn. by injection Hc as -> -> -> -> -> -> -> -> -> -> -> -> ->.
  - cbn. rewrite Hn. by apply same_streams_insert.
Qed.

Lemma copy_same w w' c t :
  w ≡ w' →
  (script _ (CopyBidirectional c t) w).1 = (script _ (CopyBidirectional c t) w').1 ∧
  (script _ (CopyBidirectional c t) w).2 ≡ (script _ (CopyBidirectional c t) w').2.
Proof.
  intros Hw. pose proof Hw as (_ & Hs & _). cbn [script].
  destruct (Hs c) as [sc sc' Hc|]; [|exact (conj eq_refl Hw)].
  destruct (Hs t) as [st st' Ht|]; [|exact (conj eq_refl Hw)].
  rewrite (same_pending sc sc' Hc), (same_pending st st' Ht). split; [done|]. cbn [snd].
  destruct Hc as (-> & -> & _), Ht as (-> & -> & _).
  apply set_streams_same; [done|]. by repeat apply same_streams_insert.
Qed.

Lemma connect_same w w' a :
  w ≡ w' →
  (script _ (TcpConnect a) w).1 = (script _ (TcpConnect a) w').1 ∧
  (script _ (TcpConnect a) w).2 ≡ (script _ (TcpConnect a) w').2.
Proof.
  intros Hw. pose proof Hw as (_ & _ & Ha). cbn [script].
  destruct (Ha a) as [l l' Hl|]; [|exact (conj eq_refl Hw)].
  destruct (fresh_same w w' l l' Hw Hl) as [Hr Hf]. destruct (fresh_stream w l), (fresh_stream w' l').
  cbn [fst snd] in *. by subst.
Qed.

(** One event: the same answer, and again equivalent worlds. *)
Lemma script_same R (e : eff Sh R) w w' :
  no_line e → w ≡ w' →
  (script R e w).1 = (script R e w').1 ∧ (script R e w).2 ≡ (script R e w').2.
Proof.
  intros Hl Hw. destruct e; try done; try (by apply copy_same); try (by apply connect_same); cbn [script].
  1: { apply on_stream_same; [done|]. intros st st' Hst. rewrite (same_pending st st' Hst).
       destruct (n <=? length (pending st'))%nat; (split; [done|]); cbn; by rewrite Hst. }
  1-3: apply on_stream_same; [done|]; intros st st' (Ht & Hb & Hs); (split; [done|]);
    split_and!; cbn [st_tx st_buf st_segs snd]; rewrite ?concat_bind_chunks; congruence.
  all: destruct w, w', Hw as (Hc & Hs & Ha); unfold calm in Hc; cbn in *;
    injection Hc; intros; subst; try (by split).
  destruct (f _). by split.
Qed.

(** A whole run: the same result, the same events, and again equivalent worlds. *)
Lemma run_same {A} (p : prog Sh A) w w' :
  w ≡ w' → Forall (ev_sat (λ R e, no_line e)) (trace_of (run script p w)) →
  result_of (run script p w) = result_of (run script p w') ∧
  trace_of (run script p w) = trace_of (run script p w') ∧
  state_of (run script p w) ≡ state_of (run script p w').
Proof.
  unfold result_of, trace_of, state_of. revert w w'. induction p as [a|R e k IH]; intros w w' Hw; cbn; [done|].
  destruct (script R e w) as [r w1] eqn:E1. destruct (run script (k r) w1) as [[a w2] t] eqn:Er.
  cbn. intros [He Ht]%Forall_cons. destruct (script_same R e w w' He Hw) as [Hr Hw1]. rewrite E1 in Hr, Hw1.
  destruct (script R e w') as [r' w1']. cbn in Hr, Hw1. subst r'. specialize (IH r w1 w1' Hw1).
  rewrite Er in IH. destruct (IH Ht) as (? & ? & ?). destruct (run script (k r) w1') as [[a' w2'] t']. cbn in *.
  by subst.
Qed.

End worlds.

(** ** The SOCKS5 connection reads no lines *)

Section socks5.
Context `{PasswordVerify} `{HashOrder} `{UnicodeCase} `{Base64}.

(** An HTTP upstream is in play: from the configuration or from the environment. *)
Definition http_upstream (config : Config) (tr : list (event Shared)) : Prop :=
  up_protocol (upstream config) = Some Config.Http ∨
  ∃ name v px, Ev (EnvVar name) (Some v) ∈ tr ∧ proxy_of_value v = Some px ∧ px_protocol px = Config.Http.

Lemma http_upstream_mono config tr tr' : http_upstream config tr → http_upstream config (tr ++ tr').
Proof. intros [?|(n & v & px & ? & ?)]; [by left|right; exists n, v, px; set_solver]. Qed.

Abbreviation lineless p := (emits (λ R (e : eff Shared R), no_line e) p).

Lemma credentials_lineless (a : option AnyAuthenticator) u p :
  lineless (validate_credentials (socks5_handler a) u p).
Proof.
  destruct a as [a|]; [|done]. unfold validate_credentials. cbn [sk_authenticator socks5_handler fmap option_fmap option_map].
  apply emits_bind; [|done]. eapply emits_mono; [|apply dyn_backend_events]. by intros R [].
Qed.

Lemma handshake_lineless (a : option AnyAuthenticator) s b : lineless (handle_handshake (socks5_handler a) s b).
Proof.
  unfold handle_handshake, handle_user_pass_auth, count_if, count.
  emits_tac ltac:(apply credentials_lineless); exact I.
Qed.

Lemma request_lineless s : lineless (Socks5.handle_request s).
Proof. unfold Socks5.handle_request, read_address. emits_tac idtac; exact I. Qed.

Lemma send_response_lineless s r : lineless (send_response s r).
Proof. unfold send_response. emits_tac idtac; exact I. Qed.

Lemma connect_stream_lineless host port b : lineless (connect_stream host port b).
Proof. unfold connect_stream. emits_tac idtac; exact I. Qed.

Lemma resolve_target_lineless c host port b : lineless (resolve_target c host port b).
Proof. unfold resolve_target, get_no_proxy_list, env_var_or. emits_tac idtac; exact I. Qed.

Lemma lookup_keys_lineless keys : lineless (lookup_keys keys).
Proof. induction keys as [|k keys IH]; cbn; [done|]. split; [done|]. intros v. by case_match. Qed.

Lemma resolve_upstream_lineless c host port ip b : lineless (resolve_upstream c host port ip b).
Proof.
  unfold resolve_upstream, lookup_env_proxy, get_no_proxy_list, env_var_or.
  emits_tac ltac:(apply lookup_keys_lineless); exact I.
Qed.

Lemma upstream_handshake_lineless s host port u p : lineless (socks5_connect_handshake s host port u p).
Proof.
  unfold socks5_connect_handshake, send_credentials, skip_bound_address. emits_tac idtac; exact I.
Qed.

(** Where an HTTP upstream comes from. *)
Lemma lookup_keys_source config keys tr :
  wp (@any_resp Shared) (lookup_keys keys)
    (λ up tr', ∀ px, up = Some px → px_protocol px = Config.Http → http_upstream config tr') tr.
Proof.
  revert tr. induction keys as [|k keys IH]; intros tr; cbn; [done|]. intros v _.
  destruct (v ≫= proxy_of_value) as [px|] eqn:Hv; [|apply IH]. cbn. intros ? [= <-] Hp. right.
  destruct v as [v|]; [|done]. exists k, v, px. set_solver.
Qed.

Lemma resolve_upstream_source c host port ip b tr :
  wp (@any_resp Shared) (resolve_upstream c host port ip b)
    (λ up tr', ∀ px, up = Some px → px_protocol px = Config.Http → http_upstream c tr') tr.
Proof.
  unfold resolve_upstream. eapply wp_bind_intro; [by apply wp_always with (Q := λ _ _, True)|].
  intros no_proxy tr1 _. case_match; [done|]. eapply wp_bind_intro.
  { instantiate (1 := λ up tr', ∀ px, up = Some px → px_protocol px = Config.Http → http_upstream c tr').
    case_match; [apply lookup_keys_source|done]. }
  intros [px|] tr2 Hpx; cbn; [exact Hpx|]. unfold configured_upstream.
  repeat case_match; try (by apply lookup_keys_source); try done.
  intros px [= <-] Hp. left. simplify_eq. cbn in Hp. congruence.
Qed.

Abbreviation reads_none config p tr := (guarded (λ R (e : eff Shared R), no_line e) (http_upstream config) p tr).

Lemma connect_to_target_guarded fuel config host port is_socks5 tr :
  reads_none config (connect_to_target fuel config host port is_socks5 true) tr.
Proof.
  unfold connect_to_target. case_match; [done|].
  apply guarded_bind; [by apply guarded_free, resolve_target_lineless|].
  apply wp_always. intros ips tr1.
  apply guarded_bind_q; [done|]. apply wp_always. intros r tr2 [] ->.
  apply guarded_bind; [by apply guarded_free, resolve_upstream_lineless|].
  eapply wp_mono; [|apply resolve_upstream_source]. intros [px|] tr3 Hpx.
  - unfold connect_via. apply guarded_bind_q; [by apply guarded_free, connect_stream_lineless|].
    eapply wp_mono; [|apply wp_prefix]. intros r' tr4 Hp s ->. destruct (px_protocol px) eqn:He.
    + by apply guarded_free, upstream_handshake_lineless.
    + apply guarded_open; [apply http_upstream_mono|]. destruct Hp as [t ->].
      by apply http_upstream_mono, (Hpx px).
  - apply guarded_free. unfold connect_direct, connect_stream_ip. case_match; [by case_match|].
    apply connect_stream_lineless.
Qed.

Lemma socks5_guarded_lines fuel st s : reads_none (ss_config st) (serve fuel LSocks5 st s) [].
Proof.
  cbn [serve]. unfold handle_socks5_connection.
  apply guarded_bind_q; [by apply guarded_free, handshake_lineless|]. apply wp_always. intros r tr [] ->; [|done].
  cbn [negb]. apply guarded_bind_q; [by apply guarded_free, request_lineless|].
  apply wp_always. intros r' tr1 rq ->. destruct (rq_command rq).
  2-3: apply guarded_free; emits_tac ltac:(apply send_response_lineless).
  unfold handle_socks5_connect. apply guarded_bind; [apply connect_to_target_guarded|].
  apply wp_always. intros [t|e] tr2; apply guarded_free; unfold relay_data, count_if, count;
    emits_tac ltac:(apply send_response_lineless); exact I.
Qed.

(** The scripted environment's variables do not change. *)
Lemma script_keeps_env {Sh} R (e : eff Sh R) w : w_env (script R e w).2 = w_env w.
Proof.
  destruct e; cbn; unfold on_stream; repeat case_match; try done; simplify_eq; try done; by cbn.
Qed.

(** An event is a lookup of a variable only with the value of [w]. *)
Definition env_ok {Sh} (w : world Sh) (x : event Sh) : Prop :=
  match x with
  | Ev e r => match e in eff _ R return R → Prop with
              | EnvVar name => λ v, v = w_env w name
              | _ => λ _, True
              end r
  end.

Lemma env_answers {Sh A} (p : prog Sh A) w : Forall (env_ok w) (trace_of (run script p w)).
Proof.
  unfold trace_of. revert w. induction p as [a|R e k IH]; intros w; cbn; [constructor|].
  pose proof (script_keeps_env R e w) as Hk.
  assert (env_ok w (Ev e (script R e w).1)) as He by by destruct e.
  destruct (script R e w) as [x w1]. specialize (IH x w1). cbn in Hk, He.
  destruct (run script (k x) w1) as [[a w2] t]. cbn in *. constructor; [exact He|].
  unfold env_ok in *. by rewrite Hk in IH.
Qed.

Lemma no_http_no_lines fuel st c (w : world Shared) :
  up_protocol (upstream (ss_config st)) ≠ Some Config.Http →
  (∀ name v px, w_env w name = Some v → proxy_of_value v = Some px → px_protocol px ≠ Config.Http) →
  Forall (ev_sat (λ R e, no_line e)) (trace_of (run script (serve fuel LSocks5 st c) w)).
Proof.
  intros Hc He. apply Forall_forall. intros x Hx.
  assert (ev_sat (λ R (e : eff Shared R), no_line e) x ∨ ¬ ev_sat (λ R (e : eff Shared R), no_line e) x)
    as [Hn|Hn] by (destruct x as [R e r]; destruct e; cbn; tauto); [done|].
  apply list_elem_of_split in Hx as (l & r & Ht). exfalso.
  pose proof (env_answers (serve fuel LSocks5 st c) w) as Hw. rewrite Ht in Hw.
  destruct (guarded_run _ _ script _ w [] l x r (socks5_guarded_lines fuel st c) Ht Hn)
    as [?|(n & v & px & Hin & Hv & Hp)]; [done|]. cbn in Hin.
  apply Forall_app in Hw as [Hw _]. rewrite Forall_forall in Hw.
  by apply (He n v px); [symmetry; apply (Hw _ Hin)| |].
Qed.

End socks5.

(** C19. The SOCKS5 side does not depend on segmentation. Take two environments that differ
    only in how the bytes the client and every other peer send are cut into TCP segments,
    and a server with no HTTP upstream, neither configured nor in the environment. Then a
    SOCKS5 connection served in the one and in the other does the same: the same events
    in the same order with the same answers (the logins, the names resolved, the
    addresses dialled, every byte written and every byte read), the same result, and
    afterwards environments that again differ in the segments only. *)
Theorem socks5_segmentation `{PasswordVerify} `{HashOrder} `{UnicodeCase} `{Base64}
    (fuel : nat) (st : ServerState) (c : sid) (w w' : world Shared) :
  w ≡ w' → up_protocol (upstream (ss_config st)) ≠ Some Config.Http →
  (∀ name v px, w_env w name = Some v → proxy_of_value v = Some px → px_protocol px ≠ Config.Http) →
  let x := run script (serve fuel LSocks5 st c) w in
  let x' := run script (serve fuel LSocks5 st c) w' in
  result_of x = result_of x' ∧ trace_of x = trace_of x' ∧ state_of x ≡ state_of x'.
Proof. intros Hw Hc He. by apply run_same, no_http_no_lines. Qed.

(** A client that sends everything at once, and one that sends every byte alone; the
    target's answer too comes in one piece or in two. *)
Lemma socks5_segmentation_witness :
  let _ := tag_verify in let _ := map_order in let _ := ascii_only_case in let _ := plain_base64 in
  let go segs client := run script (serve 0 LSocks5 login_state 7) (client_world login_state segs client) in
  let one := go ["hello" : bytes] [socks_client "secret"] in
  let many := go ["he" : bytes; "llo" : bytes] ((λ c, [c]) <$> socks_client "secret") in
  trace_of one = trace_of many ∧ state_of one ≡ state_of many ∧ connects (trace_of many) ≠ [].
Proof.
  intros H1 H2 H3 H4 go one many.
  destruct (socks5_segmentation 0 login_state 7
    (client_world login_state ["hello" : bytes] [socks_client "secret"])
    (client_world login_state ["he" : bytes; "llo" : bytes] ((λ c, [c]) <$> socks_client "secret")))
    as (_ & Ht & Hs).
  - split; [reflexivity|]. split.
    + intros s. unfold client_world. cbn [w_streams set_streams]. destruct (decide (s = 7%nat)) as [->|].
      * rewrite !lookup_singleton_eq. constructor. vm_compute. repeat split.
      * rewrite !lookup_singleton_ne by done. constructor.
    + intros a. constructor. reflexivity.
  - discriminate.
  - discriminate.
  - split; [exact Ht|]. split; [exact Hs|]. vm_compute. discriminate.
Defined.
